(* ===== verification/_CoqProject ===== *)
-Q . S2P
Prelude.v
FcLib.v
Tables.v
Config.v
Asset.v
AssetText.v
Reward.v
Names.v
Authority.v
Operations.v
Transaction.v
Block.v
ForkDb.v
ForkSpec.v
BlockLog.v
Utilities.v
Objects.v
Ledger.v
Invariants.v
Supply.v
Evaluators.v
Conservation.v
Demo.v
Bandwidth.v
BandwidthSpec.v
Preservation.v
LedgerSpec.v
Plugins.v
Payout.v
PayoutSpec.v
Schedule.v
ScheduleSpec.v
Blocks.v
BlocksSpec.v
ChainSpec.v
BlockLedger.v
KeyLookup.v
KeyLookupSpec.v
History.v
HistorySpec.v
Follow.v
FollowSpec.v
FeedSpec.v
FollowDemo.v
FollowApi.v
Node.v
NodeSpec.v
NodeDemo.v
Startup.v
Replay.v
StartupSpec.v
StartupDemo.v
Producer.v
ProducerSpec.v
ProducerDemo.v
Sync.v
SyncSpec.v
Chainbase.v
ChainbaseSpec.v
ChainbaseRefine.v
ChainbaseDb.v
