(* ===== verification/Prelude.v ===== *)
(** * A verification library for the Whaleshares (WLS) blockchain node

    The node under [src/libraries] is a C++ program: a chain of blocks, elected
    witnesses that produce them, and a ledger of accounts whose shares ("vests") carry
    votes and earn rewards.  This library models the consensus core of it in Rocq and
    proves what makes the core correct.

    ** The program and its model

    A signed block enters through [database::push_block].  The fork database finds the
    longest chain of recent blocks; the blocks of it are applied to the chain state
    inside undo sessions of chainbase, so that a fork can be popped again; a block runs
    its transactions, whose operations the evaluators carry out on the rows of the
    chain state, and then the steps of every block (schedule, inflation, payouts,
    withdrawals, hardforks); a block that enough witnesses have confirmed is
    irreversible: its undo state is committed and it is written to the block log.
    Transactions that are not in a block yet are kept applied in a pending session on
    top of the head state.

    The files, from the bottom up (sources relative to [src/libraries]):

    - [Prelude]: exceptions, results, the state monads [M] (a throw discards the state,
      because an undo session around it does) and [X] (a throw leaves the state it
      reached), their weakest preconditions and frames, fuelled loops, machine
      integers; [Tables]: an index of rows as a map with the next id, and sums over it.
    - [FcLib]: the interfaces of the fc library, which is not in the repository;
      [Config]: [protocol/config.hpp].
    - [Asset], [AssetText], [Names], [Authority], [Operations], [Transaction], [Block]: the
      directory [protocol]: asset.cpp, fixed_string.hpp, version.cpp, authority.cpp,
      sign_state.cpp, wls_operations.cpp, transaction.cpp, block.cpp.
    - [Reward]: [chain/util/reward.cpp] with its 128- and 256-bit integers.
    - [ForkDb], [ForkSpec]: [chain/fork_database.cpp]; [BlockLog]: [chain/block_log.cpp]
      byte by byte.
    - [Objects]: the rows, [chain/*_object.hpp]; [Ledger]: the parts of
      [chain/database.cpp] that move balances, shares and votes; [Invariants],
      [Supply]: the equations of the ledger and the effect of each ledger operation on
      them; [Evaluators]: [chain/wls_evaluator.cpp]; [Conservation], [Preservation],
      [LedgerSpec]: the evaluators and the periodic operations keep the equations;
      [Demo]: a small balanced chain for the witnesses.
    - [Payout], [PayoutSpec]: comment payouts and inflation, [chain/database.cpp];
      [Schedule], [ScheduleSpec]: slots and [chain/witness_schedule.cpp].
    - [Blocks], [BlocksSpec], [ChainSpec], [BlockLedger]: [_apply_block],
      [_apply_transaction], hardforks and genesis, [chain/database.cpp].
    - [Node], [NodeSpec], [NodeDemo]: [push_block], [push_transaction],
      [generate_block], [pop_block] of [chain/database.cpp] and [chain/db_with.hpp],
      on the chain state, the fork database and the block log together.
    - [Startup], [Replay], [StartupSpec], [StartupDemo]: opening, closing, wiping and
      reindexing a node, [chain/database.cpp], and the decision between them when the
      application starts, [app/application.cpp].
    - [Bandwidth], [BandwidthSpec]: the hooks and objects of [plugins/witness] that ration
      bandwidth; [Producer], [ProducerSpec], [ProducerDemo]: its block production loop
      around a [node]; [Sync], [SyncSpec]: the delegate of the network in
      [app/application.cpp]; [Utilities]: [utilities/key_conversion.cpp] and
      [string_escape.cpp].
    - [Plugins]: how the chain runs an operation between the hooks of a plugin and hands
      it custom operations, with the class [Plugin]; on it [KeyLookup], [KeyLookupSpec]:
      [plugins/account_by_key]; [History], [HistorySpec]: [plugins/account_history] and
      [app/impacted.cpp]; [Follow], [FollowSpec], [FeedSpec], [FollowDemo], [FollowApi]:
      [plugins/follow].
    - [Chainbase], [ChainbaseSpec], [ChainbaseRefine]: [generic_index] of
      [chainbase/chainbase.hpp], refined to a stack of whole snapshots, which is the
      state that [Node] keeps; [ChainbaseDb]: the database that runs sessions over all its
      indices, [chainbase.cpp].

    A definition has the name of the function it models where Rocq allows it, and a
    comment with the file and the line.  Evaluators end in [_apply], the rows are
    records with the C++ field names.

    An account name ([account_name_type], sixteen bytes) is the [string] of its bytes
    without the NULs at the end; [String.eqb] and [String.ltb] on such strings are the
    comparisons of the code ([name_data_inj], [fixed_ltb_lexicographic]).  Where the code
    takes the size of a name or turns it into a string, which ends at the first NUL, the
    model has [name_size] and [name_string] ([name_string_fixed]); where a string becomes a
    name, like the witness of a block header, it has [to_name] ([to_name_fixed]).

    ** What the theorems show

    - Ledger: no operation, but for a proxy that begins with a NUL, and no payout creates or destroys tokens or
      votes (C1, C20, [init_genesis_ledger]), nor does a whole block
      whose null account and withdrawals are in order ([apply_block_ledger]), and
      [validate_invariants] checks exactly the sums (C18).
    - Blocks: no transaction is executed twice (C2); irreversibility needs the
      supermajority and never goes back (C4); hardforks apply in order and completely
      ([process_hardforks_complete]); the payout and withdrawal loops end (C23, C27).
    - Node: a block is applied or leaves no trace, whatever is pending (C3); a switch
      goes to the longest chain (C5) along the branches to the common ancestor (C10);
      the pending transactions stay the result of applying them to the head state (C13,
      C21); generated blocks (C14); popping (C30); the block log receives the
      irreversible blocks in order (C22), is read back by number (C29) and has its
      index repaired (C16); the fork database is a forest with unique ids (C25).
    - Start-up: replaying the block log without the checks restores the chain
      (C7), and a node that stops comes back (C8); the last
      resort of the application, an empty chain, is never reached ([resync_fallback_fails]).
    - Signatures: authority checks are sound (C12, C28); Merkle roots bind the
      transactions (C32); account names (C40);
      amounts as text (C31); TaPoS ([tapos_reference_found]).
    - Witnesses: elections (C26), slots ([slot_at_time_inverse]),
      counters ([update_global_counts]); the witness plugin makes a block exactly when one is
      due (C15), one in a slot (C6), and its loop goes on
      (C24).
    - What the node lets in and out: bandwidth is rationed by stake
      (C19, [reserve_ratio_moves]); a synopsis of the chain leads a peer to
      the last common block (C9).
    - Plugins: the index of keys answers with the accounts that have a key
      (C37); the account history is an append-only log per account with
      its oldest entries pruned (C36); the counters of followers are exact
      (C35), only an account changes what it follows (C38), and
      feeds are bounded (C39).
    - Chainbase: the undo machinery implements snapshots and rollback is exact, also
      after modifiers and constructors that throw (C11; [undo_restores]), as long as no
      modifier changes a unique key.
    - Errors the code runs into: a fork switch leaves the head of the fork database
      behind (C33); a block log of one block is not repaired ([open_single_block]); a unique key that
      changes hands inside a session breaks its undo (C34); a proxy that begins with
      a NUL loses the votes of its account (C17).

    ** Bounds and fuel

    Integers are [Z] with the wrap-around of their C++ type written out ([wrap],
    [swrap], [fc::safe] as an overflow check).  Loops that are not structural carry
    fuel, and a theorem or the bound below shows that it is enough: the withdrawals
    2^64 rounds by repeated doubling ([loop_log 64]; C27); [clear_expired] one more
    than the rows; the Merkle loop the number of transactions; hardforks their number
    plus one ([process_hardforks_complete]); walks through the fork database the number of its items, since
    links go to older items; [pop_to] one more than the items; the rebuild of the log
    index and its replay the length of the file, since a block takes at least eight bytes; synopses and
    their answers one more than the numbers up to the head (C9).

    ** Not modelled

    Hashing, signatures, key recovery and serialization are parameters ([FcLib],
    [Crypto], [BlockLib], [BlockPack], [Signing], [KeyLib], [MemoKeys], [FcText]) with the facts the code relies on; the
    text diff of comment edits and, for the ledger, the outcome of the interpreters of custom
    operations are parameters of [EvalEnv]; the reader and printer of the follow
    plugin's operations is [FollowJson].  Notifications only feed the plugins, so that
    [Evaluators] leaves them out and [Plugins] adds them (the hooks of the witness plugin are
    [Bandwidth]); flush intervals, locks and the shared-memory file have no effect on the
    values.  The read-only mode of a node, the network ([net]), the
    remaining plugins, the API ([app]), the wallet and the programs are outside the core.  In [Node] a
    throwing chain step leaves the chain state it started from to the undo session
    around it; the one case in which that session is already committed, a block that
    confirms itself as irreversible and then throws, is excluded from the theorems by
    [stays_reversible].  Catch clauses of the code catch [fc::exception]; the model
    catches every error value, undefined behaviour included. *)

From stdpp Require Export base gmap sets list strings sorting.
From Stdlib Require Export ZArith Lia.

#[global] Open Scope Z_scope.

(** ** Exceptions and results

    Every [FC_ASSERT], [WLS_ASSERT] and [BOOST_THROW_EXCEPTION] of the code ends
    the running operation with an exception.  The classes that some [catch]
    or some caller can tell apart are kept apart. *)

Inductive exn :=
| assert_exception            (* FC_ASSERT *)
| overflow_exception          (* fc::safe<int64_t> out of range *)
| divide_by_zero_exception    (* integer division by zero *)
| out_of_range                (* std::out_of_range: chainbase get() of a missing key *)
| logic_error                 (* std::logic_error: uniqueness constraint, bad revision *)
| runtime_error               (* std::runtime_error *)
| undefined_behaviour         (* dereference of an end iterator *)
| unlinkable_block_exception
| undo_database_exception
| transaction_tapos_exception
| transaction_expiration_exception
| tx_missing_posting_auth
| tx_missing_active_auth
| tx_missing_owner_auth
| tx_missing_other_auth
| tx_irrelevant_sig
| tx_duplicate_sig
| pop_empty_chain
| unknown_hardfork_exception
| plugin_exception
| block_log_exception
| net_unlinkable_block_exception     (* graphene::net::unlinkable_block_exception *)
| peer_is_on_an_unreachable_fork
| block_older_than_undo_history
| out_of_fuel.                (* the fuel of a loop ran out: excluded by theorems *)

Inductive result (A : Type) :=
| Ok (a : A)
| Err (e : exn).
Arguments Ok {A} a.
Arguments Err {A} e.

#[global] Instance exn_eq_dec : EqDecision exn.
Proof. solve_decision. Defined.
#[global] Instance result_eq_dec `{EqDecision A} : EqDecision (result A).
Proof. solve_decision. Defined.

#[global] Instance result_ret : MRet result := λ A a, Ok a.
#[global] Instance result_bind : MBind result :=
  λ A B f m, match m with Ok a => f a | Err e => Err e end.
#[global] Instance result_fmap : FMap result :=
  λ A B f m, match m with Ok a => Ok (f a) | Err e => Err e end.

Definition is_ok {A} (r : result A) : bool :=
  match r with Ok _ => true | Err _ => false end.

(** [FC_ASSERT( b )] and its variants with another exception class. *)
Definition throw_unless (e : exn) (b : bool) : result unit :=
  if b then Ok tt else Err e.
Abbreviation FC_ASSERT b := (throw_unless assert_exception b).

(** [of_option e o] is [get]: the value, or the exception of the missing key. *)
Definition of_option {A} (e : exn) (o : option A) : result A :=
  match o with Some a => Ok a | None => Err e end.

Lemma bind_Ok {A B} (m : result A) (f : A → result B) b :
  m ≫= f = Ok b ↔ ∃ a, m = Ok a ∧ f a = Ok b.
Proof. destruct m; simpl; naive_solver. Qed.

Lemma throw_unless_Ok e b u : throw_unless e b = Ok u ↔ b = true.
Proof. destruct b, u; simpl; naive_solver. Qed.

Lemma of_option_Ok {A} e (o : option A) a : of_option e o = Ok a ↔ o = Some a.
Proof. destruct o; simpl; naive_solver. Qed.

(** ** Operations on a shared state

    [M S A] is an operation on a state [S] that returns an [A] or throws.  A
    throw discards the partial changes: in the node every operation on the
    chain state runs inside an undo session whose destructor rolls it back
    (file Chainbase proves that it does). *)

Definition M (S A : Type) : Type := S → result (A * S).

#[global] Instance M_ret S : MRet (M S) := λ A a s, Ok (a, s).
#[global] Instance M_bind S : MBind (M S) :=
  λ A B f m s, match m s with Ok (a, s') => f a s' | Err e => Err e end.

Definition gets {S A} (f : S → A) : M S A := λ s, Ok (f s, s).
Definition modify {S} (f : S → S) : M S unit := λ s, Ok (tt, f s).
Definition lift {S A} (r : result A) : M S A :=
  λ s, match r with Ok a => Ok (a, s) | Err e => Err e end.
Definition throw {S A} (e : exn) : M S A := λ _, Err e.
Definition assert {S} (b : bool) : M S unit := lift (FC_ASSERT b).
Definition when {S} (b : bool) (m : M S unit) : M S unit := if b then m else mret tt.

Fixpoint for_each {S A} (l : list A) (f : A → M S unit) : M S unit :=
  match l with
  | [] => mret tt
  | x :: l => f x;; for_each l f
  end.

(** A loop that updates a local variable. *)
Fixpoint fold_m {S A B} (l : list A) (f : B → A → M S B) (acc : B) : M S B :=
  match l with
  | [] => mret acc
  | x :: l => acc ← f acc x; fold_m l f acc
  end.

(** A [while] loop: the body says whether to go round again. *)
Fixpoint while_fuel {S} (fuel : nat) (body : M S bool) : M S unit :=
  match fuel with
  | O => throw out_of_fuel
  | Datatypes.S n => again ← body; if (again : bool) then while_fuel n body else mret tt
  end.

(** A loop with a loop variable: [inl] goes round again, [inr] leaves.  It runs at
    most [2 ^ n] rounds, so that a fuel of 64 is a counter of 64 bits. *)
Fixpoint iter_log {S L R} (n : nat) (body : L → M S (L + R)) (l : L) : M S (L + R) :=
  match n with
  | O => body l
  | Datatypes.S n =>
    r ← iter_log n body l;
    match r with inl l' => iter_log n body l' | inr x => mret (inr x) end
  end.
Definition loop_log {S L R} (n : nat) (body : L → M S (L + R)) (l : L) : M S R :=
  r ← iter_log n body l;
  match r with inl _ => throw out_of_fuel | inr x => mret x end.

(** [wp m Q s]: if [m] returns from [s], the result and state satisfy [Q].
    [twp m Q s]: [m] does return, and they do. *)
Definition wp {S A} (m : M S A) (Q : A → S → Prop) (s : S) : Prop :=
  match m s with Ok (a, s') => Q a s' | Err _ => True end.
Definition twp {S A} (m : M S A) (Q : A → S → Prop) (s : S) : Prop :=
  match m s with Ok (a, s') => Q a s' | Err _ => False end.

Section wp.
Context {S A B : Type}.
Implicit Types (s : S).

Lemma wp_ok (m : M S A) Q s a s' : wp m Q s → m s = Ok (a, s') → Q a s'.
Proof. unfold wp. intros H E. by rewrite E in H. Qed.
Lemma wp_intro (m : M S A) (Q : A → S → Prop) s :
  (∀ a s', m s = Ok (a, s') → Q a s') → wp m Q s.
Proof. unfold wp. intros H. destruct (m s) as [[a s']|e]; eauto. Qed.
Lemma wp_mono (m : M S A) (Q R : A → S → Prop) s :
  wp m Q s → (∀ a s', Q a s' → R a s') → wp m R s.
Proof. unfold wp. destruct (m s) as [[]|]; eauto. Qed.
Lemma wp_any (m : M S A) s : wp m (λ _ _, True) s.
Proof. by apply wp_intro. Qed.
Lemma wp_ret (a : A) (Q : A → S → Prop) s : Q a s → wp (mret a) Q s.
Proof. done. Qed.
Lemma wp_bind (m : M S A) (f : A → M S B) Q s :
  wp m (λ a, wp (f a) Q) s → wp (m ≫= f) Q s.
Proof. unfold wp, mbind, M_bind. destruct (m s) as [[]|]; eauto. Qed.
Lemma wp_gets (f : S → A) (Q : A → S → Prop) s : Q (f s) s → wp (gets f) Q s.
Proof. done. Qed.
Lemma wp_modify (f : S → S) (Q : unit → S → Prop) s : Q tt (f s) → wp (modify f) Q s.
Proof. done. Qed.
Lemma wp_lift (r : result A) (Q : A → S → Prop) s :
  (∀ a, r = Ok a → Q a s) → wp (lift r) Q s.
Proof. unfold wp, lift. destruct r; eauto. Qed.
Lemma wp_throw e (Q : A → S → Prop) s : wp (throw e) Q s.
Proof. done. Qed.
Lemma wp_assert (b : bool) (Q : unit → S → Prop) s :
  (b = true → Q tt s) → wp (assert b) Q s.
Proof. destruct b; [intros H; by apply H|done]. Qed.
Lemma wp_when (b : bool) (m : M S unit) (Q : unit → S → Prop) s :
  (b = true → wp m Q s) → (b = false → Q tt s) → wp (when b m) Q s.
Proof. destruct b; intros H1 H2; [by apply H1|by apply H2]. Qed.
Lemma wp_if (b : bool) (m n : M S A) (Q : A → S → Prop) s :
  (b = true → wp m Q s) → (b = false → wp n Q s) → wp (if b then m else n) Q s.
Proof. destruct b; auto. Qed.

End wp.

(** The loop rules: an invariant that every round keeps. *)
Section wp_loops.
Context {S B : Type}.
Implicit Types (s : S).

Lemma wp_for_each (l : list B) (f : B → M S unit) (I : S → Prop) s :
  (∀ x s, x ∈ l → I s → wp (f x) (λ _, I) s) → I s → wp (for_each l f) (λ _, I) s.
Proof.
  intros Hf. revert s. induction l as [|x l IH]; intros s HI; [done|].
  simpl. apply wp_bind. eapply wp_mono; [apply Hf; [by left|done]|].
  intros ? s' HI'. apply IH; [|done]. intros y s'' Hy. apply Hf. by right.
Qed.
(** ... and a fact about every element that later rounds cannot undo. *)
Lemma wp_for_each_all (l : list B) (f : B → M S unit) (I : S → Prop) (P : B → Prop) s :
  (∀ x s, x ∈ l → I s → wp (f x) (λ _ s', I s' ∧ P x) s) → I s →
  wp (for_each l f) (λ _ s', I s' ∧ ∀ x, x ∈ l → P x) s.
Proof.
  intros Hf. revert s. induction l as [|x l IH]; intros s HI.
  { split; [done|]. by intros x ?%elem_of_nil. }
  simpl. apply wp_bind. eapply wp_mono; [apply Hf; [by left|done]|].
  intros ? s' [HI' Hx]. eapply wp_mono; [apply IH; [|done]|].
  { intros y s'' Hy. apply Hf. by right. }
  intros ? s'' [HI'' Hl]. split; [done|]. intros y [->|Hy]%elem_of_cons; auto.
Qed.
Lemma wp_fold_m {T} (l : list B) (f : T → B → M S T) (I : T → S → Prop) acc s :
  (∀ acc x s, x ∈ l → I acc s → wp (f acc x) I s) → I acc s → wp (fold_m l f acc) I s.
Proof.
  intros Hf. revert acc s. induction l as [|x l IH]; intros acc s HI; [done|].
  simpl. apply wp_bind. eapply wp_mono; [apply Hf; [by left|done]|].
  intros acc' s' HI'. apply IH; [|done]. intros ? y s'' Hy. apply Hf. by right.
Qed.
Lemma wp_while_fuel n (body : M S bool) (I : S → Prop) s :
  (∀ s, I s → wp body (λ _, I) s) → I s → wp (while_fuel n body) (λ _, I) s.
Proof.
  intros Hb. revert s. induction n as [|n IH]; intros s HI; [done|].
  simpl. apply wp_bind. eapply wp_mono; [by apply Hb|].
  intros [] s' HI'; [by apply IH|done].
Qed.
Lemma wp_loop_log {L R} n (body : L → M S (L + R)) (I : L → S → Prop) (Q : R → S → Prop) l s :
  (∀ l s, I l s → wp (body l) (λ r s', match r with inl l' => I l' s' | inr x => Q x s' end) s) →
  I l s → wp (loop_log n body l) Q s.
Proof.
  intros Hb HI.
  assert (∀ l s, I l s → wp (iter_log n body l)
    (λ r s', match r with inl l' => I l' s' | inr x => Q x s' end) s) as Hn.
  { clear l s HI. induction n as [|n IH]; intros l s HI; simpl; [by apply Hb|].
    apply wp_bind. eapply wp_mono; [by apply IH|]. intros [l'|x] s' H; [by apply IH|done]. }
  unfold loop_log. apply wp_bind. eapply wp_mono; [by apply Hn|]. by intros [l'|x] s' H.
Qed.

(** Termination: when every round decreases a measure that is below [2 ^ n], the
    fuel never runs out ([iter_log] never returns [inl]). *)
Lemma iter_log_fuel {L R} n (body : L → M S (L + R)) (I : L → S → Prop) (μ : L → S → Z) l s :
  (∀ l s, I l s → ∀ l' s', body l s = Ok (inl l', s') → I l' s' ∧ 0 ≤ μ l' s' < μ l s) →
  I l s → μ l s < 2 ^ Z.of_nat n → ∀ l' s', iter_log n body l s ≠ Ok (inl l', s').
Proof.
  intros Hb HI Hμ.
  assert (∀ l s, I l s → ∀ l' s', iter_log n body l s = Ok (inl l', s') →
      I l' s' ∧ 0 ≤ μ l' s' ≤ μ l s - 2 ^ Z.of_nat n) as Hn.
  { clear l s HI Hμ. induction n as [|n IH]; intros l s HI l' s' E.
    - destruct (Hb l s HI l' s' E) as [? ?]. split; [done|]. change (2 ^ Z.of_nat 0) with 1. lia.
    - simpl in E. unfold mbind, M_bind in E.
      destruct (iter_log n body l s) as [[[l1|x] s1]|e] eqn:E1; [|done|done].
      destruct (IH l s HI l1 s1 E1) as [HI1 ?]. destruct (IH l1 s1 HI1 l' s' E) as [? ?].
      split; [done|]. rewrite Nat2Z.inj_succ, Z.pow_succ_r by lia. lia. }
  intros l' s' E. destruct (Hn l s HI l' s' E) as [_ ?]. lia.
Qed.
End wp_loops.

(** One step of symbolic execution of a goal [wp m Q s]. *)
Ltac wp_step :=
  lazymatch goal with
  | |- wp (mbind _ _) _ _ => apply wp_bind
  | |- wp (mret _) _ _ => apply wp_ret
  | |- wp (gets _) _ _ => apply wp_gets
  | |- wp (modify _) _ _ => apply wp_modify
  | |- wp (throw _) _ _ => apply wp_throw
  | |- wp (assert _) _ _ => apply wp_assert; intros ?
  | |- wp (when _ _) _ _ => apply wp_when; intros ?
  | |- wp (if _ then _ else _) _ _ => apply wp_if; intros ?
  | |- wp (lift _) _ _ => apply wp_lift; intros ? ?
  end.
Ltac wp_steps := repeat (wp_step; simpl).

(** [wpe m Q E s]: as [wp], and an exception of [m] satisfies [E]. *)
Definition wpe {S A} (m : M S A) (Q : A → S → Prop) (E : exn → Prop) (s : S) : Prop :=
  match m s with Ok (a, s') => Q a s' | Err e => E e end.

Section wpe.
Context {S A B : Type}.
Implicit Types (s : S) (E : exn → Prop).

Lemma wpe_wp (m : M S A) Q E s : wpe m Q E s → wp m Q s.
Proof. unfold wpe, wp. by destruct (m s) as [[]|]. Qed.
Lemma wpe_mono (m : M S A) (Q R : A → S → Prop) E s :
  wpe m Q E s → (∀ a s', Q a s' → R a s') → wpe m R E s.
Proof. unfold wpe. destruct (m s) as [[]|]; eauto. Qed.
Lemma wpe_bind (m : M S A) (f : A → M S B) Q E s :
  wpe m (λ a, wpe (f a) Q E) E s → wpe (m ≫= f) Q E s.
Proof. unfold wpe, mbind, M_bind. destruct (m s) as [[]|]; eauto. Qed.
Lemma wpe_ret (a : A) (Q : A → S → Prop) E s : Q a s → wpe (mret a) Q E s.
Proof. done. Qed.
Lemma wpe_gets (f : S → A) (Q : A → S → Prop) E s : Q (f s) s → wpe (gets f) Q E s.
Proof. done. Qed.
Lemma wpe_modify (f : S → S) (Q : unit → S → Prop) E s : Q tt (f s) → wpe (modify f) Q E s.
Proof. done. Qed.
Lemma wpe_lift (r : result A) (Q : A → S → Prop) E s :
  (∀ a, r = Ok a → Q a s) → (∀ e, r = Err e → E e) → wpe (lift r) Q E s.
Proof. unfold wpe, lift. destruct r; eauto. Qed.
Lemma wpe_assert (b : bool) (Q : unit → S → Prop) E s :
  (b = true → Q tt s) → (b = false → E assert_exception) → wpe (assert b) Q E s.
Proof. destruct b; intros H H'; [by apply H|by apply H']. Qed.
Lemma wpe_when (b : bool) (m : M S unit) (Q : unit → S → Prop) E s :
  (b = true → wpe m Q E s) → (b = false → Q tt s) → wpe (when b m) Q E s.
Proof. destruct b; intros H1 H2; [by apply H1|by apply H2]. Qed.
End wpe.

Ltac wpe_step :=
  lazymatch goal with
  | |- wpe (mbind _ _) _ _ _ => apply wpe_bind
  | |- wpe (mret _) _ _ _ => apply wpe_ret
  | |- wpe (gets _) _ _ _ => apply wpe_gets
  | |- wpe (modify _) _ _ _ => apply wpe_modify
  end.

(** ** Frames

    [stable R m]: whatever [m] does, the states before and after it are related
    by the preorder [R]: "this part of the state does not change", "nothing is
    created".  The rules follow the structure of the code, so that the tactic
    [stable] proves most frames. *)

Section stable.
Context {S : Type} (R : relation S) `{!PreOrder R}.
Implicit Types (s : S).

Definition stable {A} (m : M S A) : Prop := ∀ s, wp m (λ _ s', R s s') s.

Lemma stable_ret {A} (a : A) : stable (mret a).
Proof. intros s. apply wp_ret. reflexivity. Qed.
Lemma stable_bind {A B} (m : M S A) (f : A → M S B) :
  stable m → (∀ a, stable (f a)) → stable (m ≫= f).
Proof.
  intros Hm Hf s. apply wp_bind. eapply wp_mono; [apply Hm|]. intros a s1 H1.
  eapply wp_mono; [apply Hf|]. intros ? s2 H2. by transitivity s1.
Qed.
Lemma stable_gets {A} (f : S → A) : stable (gets f).
Proof. intros s. apply wp_gets. reflexivity. Qed.
Lemma stable_lift {A} (r : result A) : stable (lift r).
Proof. intros s. apply wp_lift. reflexivity. Qed.
Lemma stable_assert b : stable (assert b).
Proof. intros s. apply wp_assert. reflexivity. Qed.
Lemma stable_throw {A} e : stable (throw (A := A) e).
Proof. intros s. done. Qed.
Lemma stable_modify f : (∀ s, R s (f s)) → stable (modify f).
Proof. intros Hf s. apply wp_modify, Hf. Qed.
Lemma stable_for_each {A} (l : list A) f : (∀ x, stable (f x)) → stable (for_each l f).
Proof.
  intros Hf s. apply (wp_for_each _ _ (R s)); [|reflexivity].
  intros x s1 _ H1. eapply wp_mono; [apply Hf|]. intros ? s2 H2. by transitivity s1.
Qed.
Lemma stable_fold_m {A B} (l : list A) (f : B → A → M S B) acc :
  (∀ acc x, stable (f acc x)) → stable (fold_m l f acc).
Proof.
  intros Hf s. apply (wp_fold_m _ _ (λ _, R s)); [|reflexivity].
  intros a x s1 _ H1. eapply wp_mono; [apply Hf|]. intros ? s2 H2. by transitivity s1.
Qed.
Lemma stable_while_fuel n (body : M S bool) : stable body → stable (while_fuel n body).
Proof.
  intros Hb s. apply (wp_while_fuel _ _ (R s)); [|reflexivity].
  intros s1 H1. eapply wp_mono; [apply Hb|]. intros ? s2 H2. by transitivity s1.
Qed.
Lemma stable_loop_log {L T} n (body : L → M S (L + T)) l :
  (∀ l, stable (body l)) → stable (loop_log n body l).
Proof.
  intros Hf s. apply (wp_loop_log _ _ (λ _, R s)); [|reflexivity].
  intros a s1 H1. eapply wp_mono; [apply Hf|]. intros [?|?] s2 H2; by transitivity s1.
Qed.
End stable.

Create HintDb stable discriminated.
#[export] Hint Resolve stable_ret stable_gets stable_lift stable_assert stable_throw : stable.

(** ** Operations whose partial effects persist

    [X S A] returns the state also when it throws: the state that C++ leaves
    behind.  It models the containers of chainbase and the node state outside
    the undo sessions. *)

Definition X (S A : Type) : Type := S → result A * S.

#[global] Instance X_ret S : MRet (X S) := λ A a s, (Ok a, s).
#[global] Instance X_bind S : MBind (X S) :=
  λ A B f m s, match m s with (Ok a, s') => f a s' | (Err e, s') => (Err e, s') end.

Definition xgets {S A} (f : S → A) : X S A := λ s, (Ok (f s), s).
Definition xmodify {S} (f : S → S) : X S unit := λ s, (Ok tt, f s).
Definition xlift {S A} (r : result A) : X S A := λ s, (r, s).
Definition xthrow {S A} (e : exn) : X S A := λ s, (Err e, s).
Definition xassert {S} (b : bool) : X S unit := xlift (FC_ASSERT b).
Definition xwhen {S} (b : bool) (m : X S unit) : X S unit := if b then m else mret tt.

Fixpoint xfor_each {S A} (l : list A) (f : A → X S unit) : X S unit :=
  match l with
  | [] => mret tt
  | x :: l => f x;; xfor_each l f
  end.

Lemma xbind_Ok {S A B} (m : X S A) (f : A → X S B) s a s' :
  m s = (Ok a, s') → (m ≫= f) s = f a s'.
Proof. unfold mbind, X_bind. by intros ->. Qed.

Lemma xbind_Err {S A B} (m : X S A) (f : A → X S B) s e s' :
  m s = (Err e, s') → (m ≫= f) s = (Err e, s').
Proof. unfold mbind, X_bind. by intros ->. Qed.

(** Inversion of a run that returned. *)
Lemma xbind_inv {S A B} (m : X S A) (f : A → X S B) s b s' :
  (m ≫= f) s = (Ok b, s') → ∃ a s1, m s = (Ok a, s1) ∧ f a s1 = (Ok b, s').
Proof. unfold mbind, X_bind. destruct (m s) as [[a|e] s1]; [eauto|done]. Qed.
Lemma xlift_inv {S A} (r : result A) (s : S) a s' : xlift r s = (Ok a, s') → r = Ok a ∧ s' = s.
Proof. unfold xlift. intros [= -> ->]. done. Qed.
Lemma xwhen_inv {S} b (m : X S unit) s s' : xwhen b m s = (Ok tt, s') → (b = true → m s = (Ok tt, s')) ∧ (b = false → s' = s).
Proof. destruct b; simpl; [done|]. intros [= ->]. done. Qed.

(** Whatever [m] does, and also when it throws, [R] relates the states before and
    after it. *)
Section xstable.
Context {S : Type} (R : relation S) `{!PreOrder R}.
Implicit Types (s : S).

Definition xstable {A} (m : X S A) : Prop := ∀ s, R s (m s).2.

Lemma xstable_ret {A} (a : A) : xstable (mret a).
Proof. intros s. reflexivity. Qed.
Lemma xstable_gets {A} (f : S → A) : xstable (xgets f).
Proof. intros s. reflexivity. Qed.
Lemma xstable_lift {A} (r : result A) : xstable (xlift r).
Proof. intros s. reflexivity. Qed.
Lemma xstable_throw {A} e : xstable (xthrow (A := A) e).
Proof. intros s. reflexivity. Qed.
Lemma xstable_modify f : (∀ s, R s (f s)) → xstable (xmodify f).
Proof. intros Hf s. apply Hf. Qed.
Lemma xstable_bind {A B} (m : X S A) (f : A → X S B) :
  xstable m → (∀ a, xstable (f a)) → xstable (m ≫= f).
Proof.
  intros Hm Hf s. unfold mbind, X_bind. specialize (Hm s). destruct (m s) as [[a|e] s1]; [|done].
  transitivity s1; [done|apply Hf].
Qed.
Lemma xstable_when b m : xstable m → xstable (xwhen b m).
Proof. intros Hm s. destruct b; [apply Hm|reflexivity]. Qed.
Lemma xstable_for_each {A} (l : list A) f : (∀ x, xstable (f x)) → xstable (xfor_each l f).
Proof.
  intros Hf. induction l as [|x l IH]; [apply xstable_ret|]. apply xstable_bind; [apply Hf|by intros _].
Qed.
End xstable.

(** Takes apart a hypothesis that a run returned. *)
Ltac xinv H :=
  lazymatch type of H with
  | (_ ≫= _) _ = (Ok _, _) =>
    let a := fresh "a" in let s := fresh "s" in let H1 := fresh "H" in
    apply xbind_inv in H as (a & s & H1 & H); xinv H1; cbv beta in H
  | xgets _ _ = _ => injection H as <- <-
  | xmodify _ _ = _ => injection H as <- <-
  | xlift _ _ = _ => apply xlift_inv in H as [H ->]
  | xassert _ _ = _ => apply xlift_inv in H as [H ->]; apply throw_unless_Ok in H
  | mret _ _ = _ => injection H as <- <-
  | _ => idtac
  end.

(** ** Record update

    [r <| f := v |>] is [r] with the field [f] replaced.  A record type gets it
    from one [Eta] instance that rebuilds the record from its fields. *)

Class Eta (R : Type) := eta : R → R.
Class Field {R T} (proj : R → T) := update : (T → T) → R → R.
#[global] Hint Mode Field - - + : typeclass_instances.
Arguments update {_ _} proj {_} f r / : assert.

Ltac derive_field :=
  lazymatch goal with
  | |- @Field ?R ?T ?proj =>
    let inst := constr:(_ : Eta R) in
    let inst := eval hnf in inst in
    lazymatch eval pattern proj in inst with
    | ?g _ => let u := eval cbv beta in (λ f : T → T, g (λ r, f (proj r))) in exact u
    end
  end.
#[global] Hint Extern 1 (Field _) => derive_field : typeclass_instances.

Declare Scope wls_scope.
Delimit Scope wls_scope with wls.
Notation "r <| f := v |>" := (update f (λ _, v) r)
  (at level 8, left associativity, f at level 9, format "r  <| f  :=  v |>") : wls_scope.
Notation "r <| f ::= g |>" := (update f g r)
  (at level 8, left associativity, f at level 9, format "r  <| f  ::=  g |>") : wls_scope.
#[global] Open Scope wls_scope.
