(* ===== verification/FcLib.v ===== *)
(** * FcLib: the libraries the node is built on

    [libraries/fc] is a git submodule and Boost is an installed package: their
    code is not part of the repository.  What the node uses of them is an
    interface: [FcLib] lists the operations and the documented behaviour that
    the code relies on.  Every definition of the development that calls one of
    them takes the interface as an argument, so the theorems hold for every
    implementation with these laws, and [fc_ref] is one.

    Machine integers are [Z] with the wrap-around written out: [wrap w z] is
    the conversion of [z] to an unsigned integer of [w] bits, [swrap w z] to a
    signed one. *)

From S2P Require Import Prelude.

Definition wrap (w z : Z) : Z := z mod 2 ^ w.
Definition swrap (w z : Z) : Z := (z + 2 ^ (w - 1)) mod 2 ^ w - 2 ^ (w - 1).

Definition i64_max : Z := 2 ^ 63 - 1.
Definition i64_in (z : Z) : bool := (- 2 ^ 63 <=? z) && (z <=? i64_max).
Definition u64_in (z : Z) : bool := (0 <=? z) && (z <? 2 ^ 64).
Definition u128_max : Z := 2 ^ 128 - 1.

(** The result of an operation on [fc::safe<int64_t>]. *)
Definition check_i64 (z : Z) : result Z :=
  if i64_in z then Ok z else Err overflow_exception.

Class FcLib := {
  (** fc::safe<int64_t>: arithmetic that throws instead of overflowing *)
  safe_add : Z → Z → result Z;
  safe_sub : Z → Z → result Z;
  safe_mul : Z → Z → result Z;
  safe_div : Z → Z → result Z;
  safe_mod : Z → Z → result Z;
  safe_neg : Z → result Z;
  safe_add_spec a b : safe_add a b = check_i64 (a + b);
  safe_sub_spec a b : safe_sub a b = check_i64 (a - b);
  safe_mul_spec a b : safe_mul a b = check_i64 (a * b);
  safe_div_spec a b : b ≠ 0 → safe_div a b = check_i64 (Z.quot a b);
  safe_mod_spec a b : b ≠ 0 → safe_mod a b = Ok (Z.rem a b);
  safe_neg_spec a : safe_neg a = check_i64 (- a);

  (** fc::uint128: unsigned arithmetic modulo 2^128 *)
  u128_of_i64 : Z → Z;
  u128_add : Z → Z → Z;
  u128_sub : Z → Z → Z;
  u128_mul : Z → Z → Z;
  u128_div : Z → Z → Z;
  u128_shl : Z → Z → Z;
  u128_shr : Z → Z → Z;
  popcount : Z → Z;
  u128_to_u64 : Z → result Z;
  u128_to_u64_spec z : 0 ≤ z < 2 ^ 64 → u128_to_u64 z = Ok z;
  u128_of_i64_spec z : u128_of_i64 z = wrap 128 z;
  u128_add_spec a b : u128_add a b = wrap 128 (a + b);
  u128_sub_spec a b : u128_sub a b = wrap 128 (a - b);
  u128_mul_spec a b : u128_mul a b = wrap 128 (a * b);
  u128_div_spec a b : b ≠ 0 → u128_div a b = a / b;
  u128_shl_spec a n : 0 ≤ n → u128_shl a n = wrap 128 (a * 2 ^ n);
  u128_shr_spec a n : 0 ≤ n → u128_shr a n = a / 2 ^ n;
  popcount_spec a : 0 ≤ a < 2 ^ 128 →
    popcount a = Z.of_nat (length (filter (λ i, Z.testbit a i = true) (seqZ 0 128)));

  (** boost::multiprecision: uint256_t (unchecked, modulo 2^256) and find_msb *)
  u256_add : Z → Z → Z;
  u256_mul : Z → Z → Z;
  u256_div : Z → Z → Z;
  u256_shl : Z → Z → Z;
  find_msb_u64 : Z → Z;
  u256_add_spec a b : u256_add a b = wrap 256 (a + b);
  u256_mul_spec a b : u256_mul a b = wrap 256 (a * b);
  u256_div_spec a b : b ≠ 0 → u256_div a b = a / b;
  u256_shl_spec a n : 0 ≤ n → u256_shl a n = wrap 256 (a * 2 ^ n);
  find_msb_u64_spec a : 0 < a < 2 ^ 64 → find_msb_u64 a = Z.log2 a;

  (** fc::time_point_sec: 32-bit seconds since the epoch *)
  tps_add : Z → Z → Z;
  tps_add_spec t d : tps_add t d = wrap 32 (t + d);
  (** ... from fc::time_point: signed microseconds *)
  tps_of_time_point : Z → Z;
  tps_of_time_point_spec t : tps_of_time_point t = wrap 32 (Z.quot t 1000000);

  (** string predicates of fc, nothing known about them *)
  is_utf8 : string → bool;
  json_is_valid : string → bool
}.

Definition tps_max : Z := 2 ^ 32 - 1.
Definition tps_min : Z := 0.

Definition to_u64_ref (z : Z) : result Z := if z <? 2 ^ 64 then Ok z else Err assert_exception.
Lemma to_u64_ref_spec z : 0 ≤ z < 2 ^ 64 → to_u64_ref z = Ok z.
Proof. intros [_ H]. unfold to_u64_ref. by apply Z.ltb_lt in H as ->. Qed.

(** A reference implementation: the laws can be met, and models run on it. *)
#[global, program] Instance fc_ref : FcLib := {|
  safe_add a b := check_i64 (a + b);
  safe_sub a b := check_i64 (a - b);
  safe_mul a b := check_i64 (a * b);
  safe_div a b := check_i64 (Z.quot a b);
  safe_mod a b := Ok (Z.rem a b);
  safe_neg a := check_i64 (- a);
  u128_of_i64 z := wrap 128 z;
  u128_to_u64 := to_u64_ref;
  u128_add a b := wrap 128 (a + b);
  u128_sub a b := wrap 128 (a - b);
  u128_mul a b := wrap 128 (a * b);
  u128_div a b := a / b;
  u128_shl a n := wrap 128 (a * 2 ^ n);
  u128_shr a n := a / 2 ^ n;
  popcount a := Z.of_nat (length (filter (λ i, Z.testbit a i = true) (seqZ 0 128)));
  u256_add a b := wrap 256 (a + b);
  u256_mul a b := wrap 256 (a * b);
  u256_div a b := a / b;
  u256_shl a n := wrap 256 (a * 2 ^ n);
  find_msb_u64 a := Z.log2 a;
  tps_add t d := wrap 32 (t + d);
  tps_of_time_point t := wrap 32 (Z.quot t 1000000);
  is_utf8 _ := true;
  json_is_valid _ := true
|}.
Solve Obligations with (done || apply to_u64_ref_spec).

(** [fc_ref] is used by the witnesses only: it is not found by resolution. *)
#[global] Remove Hints fc_ref : typeclass_instances.

(** ** Facts shared by the components *)

Lemma wrap_small w z : 0 ≤ z < 2 ^ w → wrap w z = z.
Proof. apply Z.mod_small. Qed.
Lemma wrap_range w z : 0 ≤ w → 0 ≤ wrap w z < 2 ^ w.
Proof. intros. apply Z.mod_pos_bound. by apply Z.pow_pos_nonneg. Qed.
Lemma swrap_small w z :
  0 < w → - 2 ^ (w - 1) ≤ z < 2 ^ (w - 1) → swrap w z = z.
Proof.
  intros Hw Hz. unfold swrap.
  assert (2 ^ w = 2 * 2 ^ (w - 1)).
  { rewrite <-Z.pow_succ_r by lia. f_equal. lia. }
  rewrite Z.mod_small; lia.
Qed.

Lemma i64_in_spec z : i64_in z = true ↔ - 2 ^ 63 ≤ z < 2 ^ 63.
Proof. unfold i64_in, i64_max. rewrite andb_true_iff, !Z.leb_le. lia. Qed.
Lemma check_i64_Ok z r : check_i64 z = Ok r ↔ r = z ∧ - 2 ^ 63 ≤ z < 2 ^ 63.
Proof.
  unfold check_i64. rewrite <-i64_in_spec. destruct (i64_in z); naive_solver.
Qed.
Lemma check_i64_small z : - 2 ^ 63 ≤ z < 2 ^ 63 → check_i64 z = Ok z.
Proof. intros H. by apply check_i64_Ok. Qed.

Section fc_facts.
Context `{FC : FcLib}.

Lemma safe_add_Ok a b r : safe_add a b = Ok r → r = a + b ∧ - 2 ^ 63 ≤ r < 2 ^ 63.
Proof. rewrite safe_add_spec, check_i64_Ok. naive_solver. Qed.
Lemma safe_sub_Ok a b r : safe_sub a b = Ok r → r = a - b ∧ - 2 ^ 63 ≤ r < 2 ^ 63.
Proof. rewrite safe_sub_spec, check_i64_Ok. naive_solver. Qed.
Lemma safe_mul_Ok a b r : safe_mul a b = Ok r → r = a * b ∧ - 2 ^ 63 ≤ r < 2 ^ 63.
Proof. rewrite safe_mul_spec, check_i64_Ok. naive_solver. Qed.
Lemma safe_neg_Ok a r : safe_neg a = Ok r → r = - a ∧ - 2 ^ 63 ≤ r < 2 ^ 63.
Proof. rewrite safe_neg_spec, check_i64_Ok. naive_solver. Qed.
Lemma safe_div_Ok a b r :
  b ≠ 0 → safe_div a b = Ok r → r = Z.quot a b ∧ - 2 ^ 63 ≤ r < 2 ^ 63.
Proof. intros Hb. rewrite safe_div_spec, check_i64_Ok by done. naive_solver. Qed.

Lemma u128_mul_small a b : 0 ≤ a * b < 2 ^ 128 → u128_mul a b = a * b.
Proof. intros. by rewrite u128_mul_spec, wrap_small. Qed.
Lemma u128_add_small a b : 0 ≤ a + b < 2 ^ 128 → u128_add a b = a + b.
Proof. intros. by rewrite u128_add_spec, wrap_small. Qed.
Lemma u128_sub_small a b : 0 ≤ a - b < 2 ^ 128 → u128_sub a b = a - b.
Proof. intros. by rewrite u128_sub_spec, wrap_small. Qed.
Lemma u128_of_i64_small z : 0 ≤ z < 2 ^ 128 → u128_of_i64 z = z.
Proof. intros. by rewrite u128_of_i64_spec, wrap_small. Qed.
End fc_facts.

(** [simplify_safe] turns every successful safe operation in the context into
    the equation on integers it stands for. *)
Ltac simplify_safe :=
  repeat match goal with
  | H : safe_add _ _ = Ok _ |- _ => apply safe_add_Ok in H as [? ?]
  | H : safe_sub _ _ = Ok _ |- _ => apply safe_sub_Ok in H as [? ?]
  | H : safe_mul _ _ = Ok _ |- _ => apply safe_mul_Ok in H as [? ?]
  | H : safe_neg _ = Ok _ |- _ => apply safe_neg_Ok in H as [? ?]
  | H : safe_div _ _ = Ok _ |- _ => apply safe_div_Ok in H as [? ?]; [|lia]
  end; simplify_eq.

Create HintDb wls.
#[export] Hint Resolve wrap_range : wls.
#[export] Hint Rewrite @u128_of_i64_spec @u128_add_spec @u128_sub_spec @u128_mul_spec : u128.
