(* ===== verification/Tables.v ===== *)
(** * Tables: the rows of one index, and sums over them

    A [boost::multi_index_container] whose first index is the unique object id
    is a finite map from ids to rows ([gmap Z V]) with the next free id that
    chainbase keeps beside it.  Secondary indices are views: a unique key is
    looked up with [find_row], an ordered index is the sorted list of the rows.
    [msum f] adds [f] over all rows: the supply invariants are such sums. *)

From S2P Require Import Prelude.

Record table (V : Type) := Table {
  rows : gmap Z V;
  next_id : Z
}.
Arguments Table {V} rows next_id.
Arguments rows {V} t.
Arguments next_id {V} t.

#[global] Instance table_eta {V} : Eta (table V) := λ t, Table (rows t) (next_id t).
#[global] Instance table_eq_dec `{EqDecision V} : EqDecision (table V).
Proof. solve_decision. Defined.

Definition empty_table {V} : table V := Table ∅ 0.

(** A unique secondary key: the row that satisfies [P]. *)
Definition find_row {V} (P : V → bool) (t : table V) : option (Z * V) :=
  List.find (λ iv, P iv.2) (map_to_list (rows t)).

(** An ordered index over the rows: [le] orders its key. *)
Definition row_le {V} (le : V → V → bool) : relation (Z * V) :=
  λ a b, le a.2 b.2 = true.
#[global] Instance row_le_dec {V} (le : V → V → bool) : RelDecision (row_le le).
Proof. intros a b. unfold row_le. apply _. Defined.
Definition sorted_rows {V} (le : V → V → bool) (t : table V) : list (Z * V) :=
  merge_sort (row_le le) (map_to_list (rows t)).

(** [upper_bound] and [begin] of an ordered index with unique keys: the row with
    the least key above [bound]. *)
Definition key_ltb (a b : Z * Z) : bool := (a.1 <? b.1) || ((a.1 =? b.1) && (a.2 <? b.2)).
Definition above (bound : option (Z * Z)) (k : Z * Z) : bool :=
  match bound with None => true | Some b => key_ltb b k end.
Definition seek {V} (key : Z → V → Z * Z) (bound : option (Z * Z)) (t : table V) : option (Z * V) :=
  foldr (λ iv best,
    if above bound (key iv.1 iv.2) then
      match best with
      | Some jw => if key_ltb (key iv.1 iv.2) (key jw.1 jw.2) then Some iv else best
      | None => Some iv
      end
    else best) None (map_to_list (rows t)).

(** Iteration in ascending id order. *)
Definition id_le {V} : relation (Z * V) := λ a b, a.1 ≤ b.1.
#[global] Instance id_le_dec {V} : RelDecision (@id_le V).
Proof. intros a b. unfold id_le. apply _. Defined.
Definition ascending {V} (m : gmap Z V) : list (Z * V) := merge_sort id_le (map_to_list m).

Definition msum {V} (f : V → Z) (m : gmap Z V) : Z :=
  map_fold (λ _ v acc, f v + acc) 0 m.

Section msum.
Context {V : Type}.
Implicit Types (f g : V → Z) (m : gmap Z V).

Lemma msum_empty f : msum f ∅ = 0.
Proof. apply map_fold_empty. Qed.

Lemma msum_insert_new f m i x : m !! i = None → msum f (<[i:=x]> m) = f x + msum f m.
Proof. intros H. unfold msum. rewrite map_fold_insert_L; [done| |done]. intros; lia. Qed.

Lemma msum_delete f m i x : m !! i = Some x → msum f (delete i m) = msum f m - f x.
Proof.
  intros H. rewrite <-(insert_delete_id m i x H) at 2.
  rewrite msum_insert_new by apply lookup_delete_eq. lia.
Qed.

Lemma msum_insert f m i x y :
  m !! i = Some x → msum f (<[i:=y]> m) = msum f m - f x + f y.
Proof.
  intros H. rewrite <-insert_delete_eq, msum_insert_new by apply lookup_delete_eq.
  rewrite (msum_delete _ _ _ x) by done. lia.
Qed.

Lemma msum_ext f g m :
  (∀ i x, m !! i = Some x → f x = g x) → msum f m = msum g m.
Proof.
  induction m as [|i x m Hi IH] using map_ind; intros H; [by rewrite !msum_empty|].
  rewrite !msum_insert_new by done.
  rewrite (H i x) by apply lookup_insert_eq. f_equal. apply IH.
  intros j y Hj. apply (H j). rewrite lookup_insert_ne; [done|]. congruence.
Qed.

Lemma msum_nonneg f m : (∀ i x, m !! i = Some x → 0 ≤ f x) → 0 ≤ msum f m.
Proof.
  induction m as [|i x m Hi IH] using map_ind; intros H; [by rewrite msum_empty|].
  rewrite msum_insert_new by done.
  assert (0 ≤ f x) by (apply (H i), lookup_insert_eq).
  assert (0 ≤ msum f m); [|lia]. apply IH.
  intros j y Hj. apply (H j). rewrite lookup_insert_ne; [done|]. congruence.
Qed.

Lemma msum_plus f g m : msum (λ x, f x + g x) m = msum f m + msum g m.
Proof.
  induction m as [|i x m Hi IH] using map_ind; [by rewrite !msum_empty|].
  rewrite !msum_insert_new by done. lia.
Qed.

End msum.

Lemma find_row_Some {V} (P : V → bool) t i x :
  find_row P t = Some (i, x) → rows t !! i = Some x ∧ P x = true.
Proof.
  unfold find_row. intros H. apply List.find_some in H as [Hin HP].
  split; [|done]. by apply elem_of_map_to_list, list_elem_of_In.
Qed.

Lemma find_row_None {V} (P : V → bool) t i x :
  find_row P t = None → rows t !! i = Some x → P x = false.
Proof.
  unfold find_row. intros H Hx.
  apply (List.find_none _ _ H (i, x)), list_elem_of_In, elem_of_map_to_list, Hx.
Qed.

(** When at most one row satisfies [P], [find_row] finds it. *)
Lemma find_row_unique {V} (P : V → bool) t i x :
  rows t !! i = Some x → P x = true →
  (∀ j y, rows t !! j = Some y → P y = true → j = i) →
  find_row P t = Some (i, x).
Proof.
  intros Hx HP Huniq. destruct (find_row P t) as [[j y]|] eqn:E.
  - apply find_row_Some in E as [Hy HPy]. rewrite (Huniq j y) in * by done. congruence.
  - rewrite (find_row_None _ _ _ _ E Hx) in HP. done.
Qed.

Lemma sorted_rows_perm {V} (le : V → V → bool) (t : table V) :
  sorted_rows le t ≡ₚ map_to_list (rows t).
Proof. apply merge_sort_Permutation. Qed.

Lemma elem_of_sorted_rows {V} (le : V → V → bool) (t : table V) i x :
  (i, x) ∈ sorted_rows le t ↔ rows t !! i = Some x.
Proof. rewrite sorted_rows_perm. apply elem_of_map_to_list. Qed.

Lemma ascending_perm {V} (m : gmap Z V) : ascending m ≡ₚ map_to_list m.
Proof. apply merge_sort_Permutation. Qed.

Lemma elem_of_ascending {V} (m : gmap Z V) i x : (i, x) ∈ ascending m ↔ m !! i = Some x.
Proof. rewrite ascending_perm. apply elem_of_map_to_list. Qed.

Lemma ascending_singleton {V} i (v : V) : ascending {[i := v]} = [(i, v)].
Proof. apply Permutation_singleton_r. by rewrite ascending_perm, map_to_list_singleton. Qed.

Lemma NoDup_ascending {V} (m : gmap Z V) : NoDup (ascending m).*1.
Proof. rewrite ascending_perm. apply NoDup_fst_map_to_list. Qed.

Lemma ascending_lookup {V} (m : gmap Z V) : list_to_map (ascending m) = m.
Proof.
  rewrite <-(list_to_map_to_list m) at 2. apply list_to_map_proper; [apply NoDup_ascending|].
  apply ascending_perm.
Qed.

Lemma key_ltb_spec a b : key_ltb a b = true ↔ a.1 < b.1 ∨ (a.1 = b.1 ∧ a.2 < b.2).
Proof. unfold key_ltb. rewrite orb_true_iff, andb_true_iff, !Z.ltb_lt, Z.eqb_eq. done. Qed.
Lemma key_ltb_false a b : key_ltb a b = false ↔ b.1 < a.1 ∨ (a.1 = b.1 ∧ b.2 ≤ a.2).
Proof. rewrite <-not_true_iff_false, key_ltb_spec. lia. Qed.

Lemma seek_Some {V} (key : Z → V → Z * Z) bound (t : table V) i x :
  seek key bound t = Some (i, x) →
  rows t !! i = Some x ∧ above bound (key i x) = true ∧
  ∀ j y, rows t !! j = Some y → above bound (key j y) = true → key_ltb (key j y) (key i x) = false.
Proof.
  unfold seek. setoid_rewrite <-elem_of_map_to_list.
  revert i x. induction (map_to_list (rows t)) as [|[j y] l IH]; intros i x H; simpl in H; [done|].
  destruct (foldr _ _ l) as [[i' x']|] eqn:E.
  - destruct (IH i' x' eq_refl) as (Hin & Hab & Hmin).
    destruct (above bound (key j y)) eqn:Eab in H.
    + simpl in H. destruct (key_ltb (key j y) (key i' x')) eqn:Elt in H; simplify_eq/=.
      * split_and!; [by left|done|]. intros j' y' [?|Hj]%elem_of_cons Ha; simplify_eq.
        { apply key_ltb_false. lia. }
        specialize (Hmin _ _ Hj Ha). apply key_ltb_spec in Elt.
        apply key_ltb_false in Hmin. apply key_ltb_false. lia.
      * split_and!; [by right|done|]. intros j' y' [?|Hj]%elem_of_cons Ha; simplify_eq; [done|].
        by apply Hmin.
    + simplify_eq/=. split_and!; [by right|done|].
      intros j' y' [?|Hj]%elem_of_cons Ha; simplify_eq; [congruence|]. by apply Hmin.
  - destruct (above bound (key j y)) eqn:Eab in H; simplify_eq/=.
    split_and!; [by left|done|]. intros j' y' [?|Hj]%elem_of_cons Ha; simplify_eq.
    + apply key_ltb_false. lia.
    + exfalso. clear IH. revert E Hj. induction l as [|[a b] l IHl]; intros E Hj; simpl in E.
      * by apply elem_of_nil in Hj.
      * destruct (above bound (key a b)) eqn:Ea.
        -- destruct (foldr _ _ l) as [[]|]; [|done]. by destruct (key_ltb _ _).
        -- apply elem_of_cons in Hj as [?|Hj]; [congruence|eauto].
Qed.

Lemma seek_begin_None {V} (key : Z → V → Z * Z) (t : table V) :
  seek key None t = None → rows t = ∅.
Proof.
  unfold seek. intros H. apply map_to_list_empty_iff.
  destruct (map_to_list (rows t)) as [|[i x] l]; [done|]. simpl in H.
  destruct (foldr _ _ l) as [[]|]; [|done]. by destruct (key_ltb _ _).
Qed.
