(* ===== verification/Config.v ===== *)
(** * Config: the constants of [include/wls/protocol/config.hpp]

    The live network's values ([IS_TEST_NET] not defined); times are in
    seconds. *)

From S2P Require Import Prelude.
From Stdlib Require Import String.
#[local] Open Scope Z_scope.

Definition WLS_GENESIS_TIME : Z := 1534070000.
Definition WLS_CASHOUT_WINDOW_SECONDS : Z := 60 * 60 * 24 * 7.
Definition WLS_UPVOTE_LOCKOUT : Z := 12 * 60 * 60.
Definition WLS_MIN_ACCOUNT_CREATION_FEE : Z := 10.
Definition WLS_OWNER_UPDATE_LIMIT : Z := 60 * 60.

Definition WLS_BLOCK_INTERVAL : Z := 3.
Definition WLS_BLOCKS_PER_YEAR : Z := 365 * 24 * 60 * 60 / WLS_BLOCK_INTERVAL.
Definition WLS_BLOCKS_PER_DAY : Z := 24 * 60 * 60 / WLS_BLOCK_INTERVAL.
Definition WLS_START_MINER_VOTING_BLOCK : Z := 1 * 30.

Definition WLS_INIT_MINER_NAME : string := "initminer".
Definition WLS_MAX_WITNESSES : Z := 21.
Definition WLS_MAX_VOTED_WITNESSES : Z := 20.
Definition WLS_MAX_RUNNER_WITNESSES : Z := 1.
Definition WLS_HARDFORK_REQUIRED_WITNESSES : Z := 17.
Definition WLS_MAX_TIME_UNTIL_EXPIRATION : Z := 60 * 60.
Definition WLS_MAX_MEMO_SIZE : Z := 2048.
Definition WLS_MAX_PROXY_RECURSION_DEPTH : Z := 4.
Definition WLS_VESTING_WITHDRAW_INTERVALS : Z := 13.
Definition WLS_VESTING_WITHDRAW_INTERVAL_SECONDS : Z := 60 * 60 * 24 * 7.
Definition WLS_MAX_WITHDRAW_ROUTES : Z := 10.
Definition WLS_VOTE_REGENERATION_SECONDS : Z := 5 * 60 * 60 * 24.
Definition WLS_MAX_VOTE_CHANGES : Z := 5.
Definition WLS_REVERSE_AUCTION_WINDOW_SECONDS : Z := 60 * 30.
Definition WLS_MIN_VOTE_INTERVAL_SEC : Z := 3.
Definition WLS_VOTE_DUST_THRESHOLD : Z := 50.

Definition WLS_100_PERCENT : Z := 10000.
Definition WLS_1_PERCENT : Z := WLS_100_PERCENT / 100.
Definition WLS_MIN_ROOT_COMMENT_INTERVAL : Z := 60 * 5.
Definition WLS_MIN_REPLY_INTERVAL : Z := 20.
Definition WLS_POST_AVERAGE_WINDOW : Z := 60 * 60 * 24.
Definition WLS_POST_MAX_BANDWIDTH : Z := 4 * WLS_100_PERCENT.
Definition WLS_POST_WEIGHT_CONSTANT : Z := WLS_POST_MAX_BANDWIDTH * WLS_POST_MAX_BANDWIDTH.
Definition WLS_MAX_ACCOUNT_WITNESS_VOTES : Z := 30.

Definition WLS_INFLATION_RATE_START_PERCENT : Z := 10000.
Definition WLS_INFLATION_RATE_STOP_PERCENT : Z := 488.
Definition WLS_CONTENT_REWARD_PERCENT : Z := 85 * WLS_1_PERCENT.
Definition WLS_CONTENT_CURATE_REWARD_PERCENT : Z := 25 * WLS_1_PERCENT.
Definition WLS_DEV_FUND_PERCENT : Z := 5 * WLS_1_PERCENT.

Definition WLS_BANDWIDTH_AVERAGE_WINDOW_SECONDS : Z := 60 * 60 * 24 * 7.
Definition WLS_BANDWIDTH_PRECISION : Z := 1000000.
Definition WLS_MAX_RESERVE_RATIO : Z := 20000.
Definition WLS_MAX_COMMENT_DEPTH : Z := 65535.
Definition WLS_SOFT_MAX_COMMENT_DEPTH : Z := 255.
Definition WLS_POST_REWARD_FUND_NAME : string := "post".
Definition WLS_RECENT_RSHARES_DECAY_RATE : Z := 15 * 24 * 60 * 60.
Definition WLS_CONTENT_CONSTANT : Z := 2000000000000.
Definition WLS_MIN_PAYOUT_STEEM : Z := 20.
Definition WLS_MIN_ACCOUNT_NAME_LENGTH : Z := 3.
Definition WLS_MAX_ACCOUNT_NAME_LENGTH : Z := 16.
Definition WLS_MIN_PERMLINK_LENGTH : Z := 0.
Definition WLS_MAX_PERMLINK_LENGTH : Z := 256.
Definition WLS_MAX_WITNESS_URL_LENGTH : Z := 2048.
Definition WLS_INIT_SUPPLY : Z := 21000000000.
Definition WLS_MAX_SHARE_SUPPLY : Z := 1000000000000000.
Definition WLS_MAX_SIG_CHECK_DEPTH : Z := 2.
Definition WLS_MAX_TRANSACTION_SIZE : Z := 1024 * 64.
Definition WLS_MIN_BLOCK_SIZE_LIMIT : Z := WLS_MAX_TRANSACTION_SIZE.
Definition WLS_MAX_BLOCK_SIZE : Z := WLS_MAX_TRANSACTION_SIZE * WLS_BLOCK_INTERVAL * 2000.
Definition WLS_SOFT_MAX_BLOCK_SIZE : Z := 2 * 1024 * 1024.
Definition WLS_MIN_BLOCK_SIZE : Z := 115.
Definition WLS_MIN_UNDO_HISTORY : Z := 10.
Definition WLS_MAX_UNDO_HISTORY : Z := 10000.
Definition WLS_IRREVERSIBLE_THRESHOLD : Z := 75 * WLS_1_PERCENT.
Definition VIRTUAL_SCHEDULE_LAP_LENGTH : Z := 2 ^ 64 - 1.
Definition VIRTUAL_SCHEDULE_LAP_LENGTH2 : Z := 2 ^ 128 - 1.

Definition WLS_MINER_ACCOUNT : string := "miners".
Definition WLS_NULL_ACCOUNT : string := "null".
Definition WLS_TEMP_ACCOUNT : string := "temp".
Definition WLS_PROXY_TO_SELF_ACCOUNT : string := "".
Definition WLS_ROOT_POST_PARENT : string := "".
Definition WLS_DEV_FUND_ACC_NAME : string := "devfund".
Definition WLS_WHALESHARE_ACC_NAME : string := "wls".

(** CMakeLists.txt:107, the default of the build option *)
Definition CLEAR_VOTES : bool := true.
