(* ===== verification/Asset.v ===== *)
(** * Asset: amounts, symbols and prices

    [libraries/protocol/asset.cpp] and [include/wls/protocol/asset.hpp].  A
    symbol is a 64-bit integer: byte 0 holds the number of decimals, bytes 1 to
    6 the name, byte 7 is zero.  Amounts are [fc::safe<int64_t>]. *)

From S2P Require Import Prelude FcLib Config.
From Stdlib Require Import Ascii String.
#[local] Open Scope Z_scope.

(** asset.hpp:8 *)
Record asset := Asset { amount : Z; symbol : Z }.
(** asset.hpp:84 *)
Record price := Price { base : asset; quote : asset }.

#[global] Instance asset_eta : Eta asset := λ r, Asset (amount r) (symbol r).
#[global] Instance price_eta : Eta price := λ r, Price (base r) (quote r).
#[global] Instance asset_eq_dec : EqDecision asset.
Proof. solve_decision. Defined.
#[global] Instance price_eq_dec : EqDecision price.
Proof. solve_decision. Defined.

(** config.hpp:27, the live network: 6 decimals "VESTS", 3 decimals "WLS" *)
Definition VESTS_SYMBOL : Z :=
  Z.lor 6 (Z.lor (Z.shiftl 86 8) (Z.lor (Z.shiftl 69 16) (Z.lor (Z.shiftl 83 24)
    (Z.lor (Z.shiftl 84 32) (Z.shiftl 83 40))))).
Definition WLS_SYMBOL : Z :=
  Z.lor 3 (Z.lor (Z.shiftl 87 8) (Z.lor (Z.shiftl 76 16) (Z.shiftl 83 24))).


Section asset.
Context `{FC : FcLib}.

(** Byte [k] of the symbol in memory (little endian). *)
Definition symbol_byte (sym k : Z) : Z := Z.land (Z.shiftr sym (8 * k)) 255.

(** asset.cpp:20 *)
Definition decimals (a : asset) : result Z :=
  let d := symbol_byte (symbol a) 0 in
  FC_ASSERT (d <? 15);; mret d.

(** asset.cpp:28 *)
Definition set_decimals (d : Z) (a : asset) : result asset :=
  FC_ASSERT (d <? 15);;
  mret (a <| symbol := Z.lor (Z.shiftl (Z.shiftr (symbol a) 8) 8) d |>).

(** The C string that starts at byte [k]: up to the first NUL, [n] bytes at most. *)
Fixpoint c_string (sym k : Z) (n : nat) : string :=
  match n with
  | O => EmptyString
  | S n =>
    let b := symbol_byte sym k in
    if b =? 0 then EmptyString
    else String (ascii_of_N (Z.to_N b)) (c_string sym (k + 1) n)
  end.

(** asset.cpp:35 *)
Definition symbol_name (a : asset) : result string :=
  FC_ASSERT (symbol_byte (symbol a) 7 =? 0);; mret (c_string (symbol a) 1 7).

(** asset.cpp:42 *)
Definition precision_table : list Z :=
  [1; 10; 100; 1000; 10000; 100000; 1000000; 10000000; 100000000; 1000000000;
   10000000000; 100000000000; 1000000000000; 10000000000000; 100000000000000].
Definition precision (a : asset) : result Z :=
  d ← decimals a; of_option undefined_behaviour (precision_table !! Z.to_nat d).

(** asset.hpp:33-70 *)
Definition asset_plus_eq (a o : asset) : result asset :=
  FC_ASSERT (symbol a =? symbol o);;
  v ← safe_add (amount a) (amount o); mret (a <| amount := v |>).
Definition asset_minus_eq (a o : asset) : result asset :=
  FC_ASSERT (symbol a =? symbol o);;
  v ← safe_sub (amount a) (amount o); mret (a <| amount := v |>).
Definition asset_neg (a : asset) : result asset :=
  v ← safe_neg (amount a); mret (Asset v (symbol a)).
Definition asset_eqb (a b : asset) : bool :=
  (symbol a =? symbol b) && (amount a =? amount b).
Definition asset_ltb (a b : asset) : result bool :=
  FC_ASSERT (symbol a =? symbol b);;
  mret ((amount a <? amount b) || ((amount a =? amount b) && (symbol a <? symbol b))).
Definition asset_leb (a b : asset) : result bool :=
  if asset_eqb a b then mret true else asset_ltb a b.
Definition asset_gtb (a b : asset) : result bool := negb <$> asset_leb a b.
Definition asset_geb (a b : asset) : result bool := negb <$> asset_ltb a b.
Definition asset_sub (a b : asset) : result asset :=
  FC_ASSERT (symbol a =? symbol b);;
  v ← safe_sub (amount a) (amount b); mret (Asset v (symbol a)).
Definition asset_add (a b : asset) : result asset :=
  FC_ASSERT (symbol a =? symbol b);;
  v ← safe_add (amount a) (amount b); mret (Asset v (symbol a)).

(** asset.cpp:116-153.  [uint128_t( b.quote ) * a.base]: the operands are
    converted from int64 to uint128. *)
Definition cross_left (a b : price) : Z :=
  u128_mul (u128_of_i64 (amount (quote b))) (u128_of_i64 (amount (base a))).
Definition cross_right (a b : price) : Z :=
  u128_mul (u128_of_i64 (amount (quote a))) (u128_of_i64 (amount (base b))).

Definition price_eqb (a b : price) : bool :=
  if negb ((symbol (base a) =? symbol (base b)) && (symbol (quote a) =? symbol (quote b)))
  then false
  else cross_left a b =? cross_right a b.

Definition price_ltb (a b : price) : bool :=
  if symbol (base a) <? symbol (base b) then true
  else if symbol (base b) <? symbol (base a) then false
  else if symbol (quote a) <? symbol (quote b) then true
  else if symbol (quote b) <? symbol (quote a) then false
  else cross_left a b <? cross_right a b.

Definition price_leb (a b : price) : bool := price_eqb a b || price_ltb a b.
Definition price_neb (a b : price) : bool := negb (price_eqb a b).
Definition price_gtb (a b : price) : bool := negb (price_leb a b).
Definition price_geb (a b : price) : bool := negb (price_ltb a b).

(** The quotient of asset.cpp:164 and 167, and its conversion to share_type. *)
Definition mul_div (a num den : Z) : result Z :=
  FC_ASSERT (0 <? den);;
  let r := u128_div (u128_mul (u128_of_i64 a) (u128_of_i64 num)) (u128_of_i64 den) in
  FC_ASSERT (r <? 2 ^ 64);;
  swrap 64 <$> u128_to_u64 r.

(** asset.cpp:160 *)
Definition asset_mul_price (a : asset) (b : price) : result asset :=
  na ← symbol_name a;
  nb ← symbol_name (base b);
  if String.eqb na nb then
    v ← mul_div (amount a) (amount (quote b)) (amount (base b));
    mret (Asset v (symbol (quote b)))
  else
    nq ← symbol_name (quote b);
    if String.eqb na nq then
      v ← mul_div (amount a) (amount (base b)) (amount (quote b));
      mret (Asset v (symbol (base b)))
    else Err assert_exception.

(** asset.cpp:179 *)
Definition asset_div (b q : asset) : result price :=
  nb ← symbol_name b; nq ← symbol_name q;
  FC_ASSERT (negb (String.eqb nb nq));; mret (Price b q).

(** asset.cpp:185-189, asset.hpp:93 *)
Definition price_max (b q : Z) : result price := asset_div (Asset WLS_MAX_SHARE_SUPPLY b) (Asset 1 q).
Definition price_min (b q : Z) : result price := asset_div (Asset 1 b) (Asset WLS_MAX_SHARE_SUPPLY q).
Definition null_price : price := Price (Asset 0 WLS_SYMBOL) (Asset 0 WLS_SYMBOL).
Definition price_is_null (p : price) : bool := price_eqb p null_price.
Definition price_validate (p : price) : result unit :=
  FC_ASSERT (0 <? amount (base p));;
  FC_ASSERT (0 <? amount (quote p));;
  nb ← symbol_name (base p); nq ← symbol_name (quote p);
  FC_ASSERT (negb (String.eqb nb nq)).
Definition price_invert (p : price) : price := Price (quote p) (base p).

(** ** Facts *)

Definition positive_price (p : price) : Prop :=
  0 < amount (base p) < 2 ^ 63 ∧ 0 < amount (quote p) < 2 ^ 63.

Lemma u128_mul_i64 a b :
  0 ≤ a < 2 ^ 63 → 0 ≤ b < 2 ^ 63 → u128_mul (u128_of_i64 a) (u128_of_i64 b) = a * b.
Proof.
  intros Ha Hb. rewrite !u128_of_i64_small by lia. apply u128_mul_small.
  assert (a * b ≤ 2 ^ 63 * 2 ^ 63) by (apply Z.mul_le_mono_nonneg; lia). nia.
Qed.

Lemma cross_left_eq a b :
  positive_price a → positive_price b →
  cross_left a b = amount (quote b) * amount (base a).
Proof. intros [? ?] [? ?]. apply u128_mul_i64; lia. Qed.

Lemma cross_right_eq a b :
  positive_price a → positive_price b →
  cross_right a b = amount (quote a) * amount (base b).
Proof. intros [? ?] [? ?]. apply u128_mul_i64; lia. Qed.

Lemma mul_div_Ok a num den v :
  0 ≤ a < 2 ^ 63 → 0 ≤ num < 2 ^ 63 → den < 2 ^ 63 → mul_div a num den = Ok v →
  0 < den ∧ v = swrap 64 (a * num / den) ∧ 0 ≤ a * num / den < 2 ^ 64.
Proof.
  unfold mul_div. intros Ha Hn Hd H.
  apply bind_Ok in H as ([] & Hden%throw_unless_Ok%Z.ltb_lt & H).
  rewrite u128_mul_i64, u128_of_i64_small, u128_div_spec in H by lia.
  assert (0 ≤ a * num / den) by (apply Z.div_pos; nia).
  apply bind_Ok in H as ([] & Hr%throw_unless_Ok%Z.ltb_lt & H).
  rewrite u128_to_u64_spec in H by lia. simpl in H. by simplify_eq.
Qed.

Lemma mul_div_small a num den :
  0 ≤ a < 2 ^ 63 → 0 ≤ num < 2 ^ 63 → 0 < den < 2 ^ 63 → a * num / den < 2 ^ 63 →
  mul_div a num den = Ok (a * num / den).
Proof.
  intros Ha Hn Hd Hr. unfold mul_div.
  assert (0 ≤ a * num / den) by (apply Z.div_pos; nia).
  rewrite u128_mul_i64, u128_of_i64_small, u128_div_spec by lia.
  rewrite (proj2 (Z.ltb_lt 0 den)), (proj2 (Z.ltb_lt _ (2 ^ 64))) by lia. simpl.
  rewrite u128_to_u64_spec by lia. simpl. rewrite swrap_small; [done|lia|simpl; lia].
Qed.

Lemma div_mul_div_le a n d : 0 ≤ a → 0 < n → 0 < d → a * n / d * d / n ≤ a.
Proof.
  intros Ha Hn Hd. apply Z.div_le_upper_bound; [done|].
  pose proof (Z.mul_div_le (a * n) d Hd). nia.
Qed.

(** The successful asset operations, as equations. *)
Ltac asset_op H :=
  repeat (apply bind_Ok in H; destruct H as (? & ? & H)); unfold mret, result_ret in H;
  repeat match goal with H : throw_unless _ _ = Ok _ |- _ =>
    apply throw_unless_Ok, Z.eqb_eq in H end;
  simplify_safe; simpl; auto.

Lemma asset_plus_eq_Ok a o r :
  asset_plus_eq a o = Ok r → symbol a = symbol o ∧ symbol r = symbol a ∧
    amount r = amount a + amount o.
Proof. unfold asset_plus_eq. intros H. asset_op H. Qed.
Lemma asset_minus_eq_Ok a o r :
  asset_minus_eq a o = Ok r → symbol a = symbol o ∧ symbol r = symbol a ∧
    amount r = amount a - amount o.
Proof. unfold asset_minus_eq. intros H. asset_op H. Qed.
Lemma asset_add_Ok a o r :
  asset_add a o = Ok r → symbol a = symbol o ∧ symbol r = symbol a ∧
    amount r = amount a + amount o.
Proof. unfold asset_add. intros H. asset_op H. Qed.
Lemma asset_sub_Ok a o r :
  asset_sub a o = Ok r → symbol a = symbol o ∧ symbol r = symbol a ∧
    amount r = amount a - amount o.
Proof. unfold asset_sub. intros H. asset_op H. Qed.
Lemma asset_neg_Ok a r :
  asset_neg a = Ok r → symbol r = symbol a ∧ amount r = - amount a.
Proof. unfold asset_neg. intros H. asset_op H. Qed.
End asset.
