(* ===== verification/AssetText.v ===== *)
(** * AssetText: amounts as text

    [asset::to_string] and [asset::from_string] of [libraries/protocol/asset.cpp]: a
    decimal number, a space and the name of the symbol; the digits after the point are
    the decimals.  Numbers are read and written by fc: class [FcText]. *)

From stdpp Require Import pretty.
From S2P Require Import Prelude FcLib Config Asset.
From Stdlib Require Import Ascii.
Import Stdlib.Strings.String (String, EmptyString).

Notation chars := (list ascii).
Fixpoint chars_of (s : string) : chars :=
  match s with EmptyString => [] | String c s => c :: chars_of s end.
Fixpoint string_of (l : chars) : string :=
  match l with [] => EmptyString | c :: l => String c (string_of l) end.

Definition digit (c : ascii) : Prop := (48 ≤ N_of_ascii c ≤ 57)%N.
#[global] Instance digit_dec c : Decision (digit c) := _.
Definition space : ascii := " "%char.
Definition dot : ascii := "."%char.
(** The value of digits. *)
Definition digits_value (l : chars) : Z := foldl (λ v c, 10 * v + (Z.of_N (N_of_ascii c) - 48)) 0 l.
(** [l] is the decimal numeral of [z]. *)
Definition numeral (z : Z) (l : chars) : Prop :=
  Forall digit l ∧ digits_value l = z ∧ (z = 0 → l = ["0"%char]) ∧ (z ≠ 0 → head l ≠ Some "0"%char).

(** fc: [to_string( int64_t )] writes the decimal numeral, [to_int64] reads digits as a
    number, [trim] removes the white space at both ends. *)
Class FcText := {
  fc_to_string : Z → chars;
  fc_to_int64 : chars → result Z;
  fc_trim : chars → chars;
  fc_to_string_spec z : 0 ≤ z < 2 ^ 63 → numeral z (fc_to_string z);
  fc_to_int64_spec l : Forall digit l → l ≠ [] → digits_value l < 2 ^ 63 → fc_to_int64 l = Ok (digits_value l);
  fc_trim_spec a b l : (32 < N_of_ascii a)%N → (32 < N_of_ascii b)%N → head l = Some a → last l = Some b → fc_trim l = l
}.

Section text.
Context `{FC : FcLib} `{FT : FcText}.

(** asset.cpp:53 *)
Definition to_string (a : asset) : result chars :=
  prec ← precision a;
  let result := fc_to_string (Z.quot (amount a) prec) in
  let result :=
    if 1 <? prec then
      let fract := Z.rem (amount a) prec in
      result ++ [dot] ++ drop 1 (fc_to_string (prec + fract))
    else result in
  name ← symbol_name a;
  mret (result ++ [space] ++ chars_of name).

(** [s.find( c )] *)
Definition find_char (c : ascii) (s : chars) : option nat := fst <$> list_find (λ x, x = c) s.
(** The bytes of a text in memory, the first the lowest. *)
Definition text_bytes (l : chars) : Z := foldr (λ c v, Z.of_N (N_of_ascii c) + 256 * v) 0 l.

(** asset.cpp:83-101: the number before the space.  The multiplication and the additions
    work on the plain 64-bit value. *)
Definition read_amount (s : chars) (space_pos : nat) : result asset :=
  match find_char dot s with
  | Some dot_pos =>
    FC_ASSERT (bool_decide (dot_pos < space_pos)%nat);;
    let intpart := take dot_pos s in
    let fractpart := "1"%char :: take (space_pos - dot_pos - 1) (drop (dot_pos + 1) s) in
    r ← set_decimals (wrap 8 (Z.of_nat (length fractpart) - 1)) (Asset 0 0);
    prec ← precision r;
    i ← fc_to_int64 intpart;
    f ← fc_to_int64 fractpart;
    mret (r <| amount := swrap 64 (swrap 64 (swrap 64 (i * prec) + f) - prec) |>)
  | None =>
    i ← fc_to_int64 (take space_pos s);
    set_decimals 0 (Asset i 0)
  end.
(** asset.cpp:69 *)
Definition from_string (from : chars) : result asset :=
  let s := fc_trim from in
  match find_char space s with
  | None => Err assert_exception
  | Some space_pos =>
    r ← read_amount s space_pos;
    let sym := drop (space_pos + 1) s in
    FC_ASSERT (bool_decide (length sym ≤ 6)%nat);;
    mret (r <| symbol ::= λ v, Z.lor v (Z.shiftl (text_bytes sym) 8) |>)
  end.
End text.

(** ** Numerals *)

Lemma digits_value_app acc l :
  foldl (λ v c, 10 * v + (Z.of_N (N_of_ascii c) - 48)) acc l = acc * 10 ^ Z.of_nat (length l) + digits_value l.
Proof.
  unfold digits_value. revert acc. induction l as [|c l IH]; intros acc; [simpl; lia|].
  cbn [foldl length]. rewrite IH, (IH (10 * 0 + _)), Nat2Z.inj_succ, Z.pow_succ_r by lia. ring.
Qed.
Lemma digits_value_cons c l :
  digits_value (c :: l) = (Z.of_N (N_of_ascii c) - 48) * 10 ^ Z.of_nat (length l) + digits_value l.
Proof. unfold digits_value at 1. cbn [foldl]. rewrite digits_value_app. ring. Qed.
Lemma digits_value_range l : Forall digit l → 0 ≤ digits_value l < 10 ^ Z.of_nat (length l).
Proof.
  induction 1 as [|c l Hc Hl IH]; [done|]. rewrite digits_value_cons. cbn [length].
  rewrite Nat2Z.inj_succ, Z.pow_succ_r by lia. unfold digit in Hc. nia.
Qed.
Lemma numeral_nonempty z l : numeral z l → l ≠ [].
Proof. intros (_ & Hv & H0 & _) ->. change (0 = z) in Hv. by discriminate H0. Qed.

(** A number of [k] digits behind a leading one. *)
Lemma numeral_one k f l :
  0 ≤ f < 10 ^ Z.of_nat k → numeral (10 ^ Z.of_nat k + f) l → ∃ t, l = "1"%char :: t ∧ length t = k ∧ Forall digit t.
Proof.
  intros Hf (Hd & Hv & H0 & Hh). destruct l as [|c t]; [change (0 = 10 ^ Z.of_nat k + f) in Hv; lia|].
  apply Forall_cons in Hd as [Hc Ht]. rewrite digits_value_cons in Hv. pose proof (digits_value_range t Ht) as Hr.
  assert (N_of_ascii c ≠ 48%N) as Hn.
  { intros E. apply Hh; [lia|]. cbn. f_equal. by rewrite <- (ascii_N_embedding c), E. }
  unfold digit in Hc. set (m := length t) in *.
  assert (m = k) as Ek.
  { destruct (Nat.lt_trichotomy m k) as [H|[H|H]]; [|done|]; exfalso.
    - assert (10 ^ Z.of_nat (S m) ≤ 10 ^ Z.of_nat k) as Hp by (apply Z.pow_le_mono_r; lia).
      rewrite Nat2Z.inj_succ, Z.pow_succ_r in Hp by lia. nia.
    - assert (10 ^ Z.of_nat (S k) ≤ 10 ^ Z.of_nat m) as Hp by (apply Z.pow_le_mono_r; lia).
      rewrite Nat2Z.inj_succ, Z.pow_succ_r in Hp by lia. nia. }
  exists t. split; [|done]. f_equal. rewrite Ek in *.
  assert (N_of_ascii c = 49%N) as E by nia. by rewrite <- (ascii_N_embedding c), E.
Qed.

(** ** Symbols *)

Lemma lor_shift d v : 0 ≤ d < 256 → Z.lor d (Z.shiftl v 8) = d + 256 * v.
Proof.
  intros Hd. assert (Z.land d (Z.shiftl v 8) = 0) as H.
  { apply Z.bits_inj'. intros i Hi. rewrite Z.land_spec, Z.bits_0.
    destruct (Z.lt_ge_cases i 8) as [H|H].
    - by rewrite Z.shiftl_spec_low, andb_false_r.
    - rewrite <- (Z.mod_small d (2 ^ 8)) by done. by rewrite Z.mod_pow2_bits_high. }
  rewrite <- Z.lxor_lor, <- Z.add_nocarry_lxor, Z.shiftl_mul_pow2 by done. lia.
Qed.
Lemma text_bytes_range l : 0 ≤ text_bytes l < 256 ^ Z.of_nat (length l).
Proof.
  induction l as [|c l IH]; [done|]. cbn [text_bytes foldr length]. fold (text_bytes l).
  rewrite Nat2Z.inj_succ, Z.pow_succ_r by lia. pose proof (N_ascii_bounded c). lia.
Qed.
Lemma symbol_byte_eq sym k : 0 ≤ k → symbol_byte sym k = sym / 2 ^ (8 * k) mod 256.
Proof. intros Hk. unfold symbol_byte. rewrite Z.shiftr_div_pow2 by lia. by rewrite (Z.land_ones _ 8). Qed.
Lemma c_string_name sym name k n :
  0 ≤ k → sym / 2 ^ (8 * k) = text_bytes name → Forall (λ c, c ≠ zero) name → (length name < n)%nat →
  c_string sym k n = string_of name.
Proof.
  intros Hk E H. revert k n Hk E. induction H as [|c name Hc _ IH]; intros k n Hk E Hn; (destruct n as [|n]; [simpl in Hn; lia|]);
    cbn [c_string]; rewrite (symbol_byte_eq sym k Hk), E; [done|].
  cbn [text_bytes foldr]. fold (text_bytes name).
  assert ((Z.of_N (N_of_ascii c) + 256 * text_bytes name) mod 256 = Z.of_N (N_of_ascii c)) as ->.
  { rewrite Z.mul_comm, Z.mod_add, Z.mod_small by (pose proof (N_ascii_bounded c); lia). done. }
  destruct (Z.eqb_spec (Z.of_N (N_of_ascii c)) 0) as [H0|H0].
  { destruct Hc. rewrite <- (ascii_N_embedding c). by replace (N_of_ascii c) with 0%N by lia. }
  rewrite N2Z.id, ascii_N_embedding. cbn [string_of]. f_equal. apply IH; [lia| |simpl in Hn; lia].
  replace (8 * (k + 1)) with (8 * k + 8) by lia. rewrite Z.pow_add_r, <- Z.div_div, E by lia.
  cbn [text_bytes foldr]. fold (text_bytes name). rewrite Z.mul_comm, Z.div_add, Z.div_small; [lia| |lia].
  pose proof (N_ascii_bounded c). lia.
Qed.
Lemma chars_of_string_of l : chars_of (string_of l) = l.
Proof. induction l as [|c l IH]; [done|]. cbn. by rewrite IH. Qed.

(** ** Reading back *)

(** The amounts that the text can show: not negative, a symbol of at most six characters
    that the text does not hide. *)
Record printable (a : asset) (d : Z) (name : chars) : Prop := {
  pr_amount : 0 ≤ amount a < 2 ^ 63;
  pr_decimals : 0 ≤ d < 15;
  pr_symbol : symbol a = Z.lor d (Z.shiftl (text_bytes name) 8);
  pr_length : (length name ≤ 6)%nat;
  pr_bytes : Forall (λ c, c ≠ zero) name;
  pr_end : ∃ e, last name = Some e ∧ (32 < N_of_ascii e)%N;
  pr_dot : d = 0 → dot ∉ name
}.

Section roundtrip.
Context `{FC : FcLib} `{FT : FcText}.

Lemma precision_pow d : 0 ≤ d < 15 → precision_table !! Z.to_nat d = Some (10 ^ d).
Proof.
  intros Hd. rewrite <- (Z2Nat.id d) at 2 by lia. assert (Z.to_nat d < 15)%nat as H by lia. generalize dependent (Z.to_nat d).
  intros n Hn. do 15 (destruct n as [|n]; [reflexivity|]). lia.
Qed.
Lemma printable_precision a d name : printable a d name → precision a = Ok (10 ^ d).
Proof.
  intros [_ Hd Hs _ _ _ _]. unfold precision, decimals. rewrite symbol_byte_eq, Hs, lor_shift by lia.
  change (2 ^ (8 * 0)) with 1. rewrite Z.div_1_r, Z.mul_comm, Z.mod_add, Z.mod_small by lia.
  rewrite (proj2 (Z.ltb_lt d 15)) by lia. cbn. by rewrite precision_pow.
Qed.
Lemma printable_name a d name : printable a d name → symbol_name a = Ok (string_of name).
Proof.
  intros [_ Hd Hs Hl Hb _ _]. unfold symbol_name. rewrite symbol_byte_eq, Hs, lor_shift by lia.
  pose proof (text_bytes_range name) as Hr.
  assert (256 ^ Z.of_nat (length name) ≤ 256 ^ 6) as Hp by (apply Z.pow_le_mono_r; lia).
  rewrite Z.div_small by (change (2 ^ (8 * 7)) with (256 * 256 ^ 6); lia).
  rewrite (proj2 (Z.eqb_eq _ _) (Z.mod_0_l 256 ltac:(lia))). cbn [throw_unless mbind result_bind]. rewrite (c_string_name _ name 1); [done|lia| |done|lia].
  change (2 ^ (8 * 1)) with 256. rewrite Z.mul_comm, Z.div_add, Z.div_small by lia. lia.
Qed.

Lemma swrap_sub_l x p : swrap 64 (swrap 64 x - p) = swrap 64 (x - p).
Proof.
  unfold swrap. f_equal. replace ((x + 2 ^ (64 - 1)) mod 2 ^ 64 - 2 ^ (64 - 1) - p + 2 ^ (64 - 1)) with ((x + 2 ^ (64 - 1)) mod 2 ^ 64 - p) by lia.
  rewrite Zminus_mod_idemp_l. f_equal. lia.
Qed.
Lemma find_char_app c l r : c ∉ l → find_char c (l ++ c :: r) = Some (length l).
Proof.
  intros Hc. unfold find_char. apply fmap_Some. exists (length l, c). split; [|done]. apply list_find_Some.
  split; [by rewrite lookup_app_r, Nat.sub_diag|]. split; [done|]. intros j y Hj Hlt ->. destruct Hc.
  rewrite lookup_app_l in Hj by done. by apply list_elem_of_lookup_2 in Hj.
Qed.
Lemma find_char_None c l : c ∉ l → find_char c l = None.
Proof. intros Hc. unfold find_char. apply fmap_None, list_find_None, Forall_forall. by intros x Hx ->. Qed.
Lemma digits_no c l : Forall digit l → ¬ digit c → c ∉ l.
Proof. intros Hl Hc Hin. rewrite Forall_forall in Hl. by apply Hc, Hl. Qed.
Lemma to_int64_numeral z l : numeral z l → 0 ≤ z < 2 ^ 63 → fc_to_int64 l = Ok z.
Proof.
  intros Hn Hz. pose proof (numeral_nonempty _ _ Hn). destruct Hn as (Hd & <- & _). apply fc_to_int64_spec; [done|done|lia].
Qed.

(** The text of a printable amount. *)
Lemma to_string_text a d name :
  printable a d name →
  let q := fc_to_string (amount a / 10 ^ d) in
  ∃ number, to_string a = Ok (number ++ space :: name) ∧ numeral (amount a / 10 ^ d) q ∧
    if d =? 0 then number = q
    else ∃ t, number = q ++ dot :: t ∧ length t = Z.to_nat d ∧ Forall digit t ∧
      numeral (10 ^ d + amount a mod 10 ^ d) ("1"%char :: t).
Proof.
  intros Hp q. pose proof (pr_amount _ _ _ Hp). pose proof (pr_decimals _ _ _ Hp).
  assert (0 < 10 ^ d) as H10 by (apply Z.pow_pos_nonneg; lia).
  assert (10 ^ d ≤ 10 ^ 14) as Hd by (apply Z.pow_le_mono_r; lia).
  assert (numeral (amount a / 10 ^ d) q) as Hq.
  { apply fc_to_string_spec. split; [apply Z.div_pos; lia|]. apply Z.div_lt_upper_bound; nia. }
  unfold to_string. rewrite (printable_precision a d name Hp), (printable_name a d name Hp). cbn [mbind result_bind mret result_ret].
  rewrite chars_of_string_of, Z.quot_div_nonneg, Z.rem_mod_nonneg by lia. fold q.
  destruct (Z.eqb_spec d 0) as [->|Hne].
  - eexists. split; [reflexivity|]. done.
  - assert (1 < 10 ^ d) as H1 by (apply Z.pow_gt_1; lia). rewrite (proj2 (Z.ltb_lt _ _) H1).
    pose proof (Z.mod_pos_bound (amount a) (10 ^ d) H10) as Hm.
    assert (numeral (10 ^ d + amount a mod 10 ^ d) (fc_to_string (10 ^ d + amount a mod 10 ^ d))) as Hf
      by (apply fc_to_string_spec; lia).
    pose proof Hf as Hf'. rewrite <- (Z2Nat.id d) in Hf by lia. rewrite <- (Z2Nat.id d) in Hm by lia.
    destruct (numeral_one _ _ _ Hm Hf) as (t & Et & Hlen & Ht). rewrite (Z2Nat.id d) in Et by lia. rewrite Et in *.
    exists (q ++ dot :: t). split; [by rewrite <- !app_assoc|]. split; [done|]. by exists t.
Qed.

(** The number is read back. *)
Lemma read_amount_text a d name number :
  printable a d name → to_string a = Ok (number ++ space :: name) →
  read_amount (number ++ space :: name) (length number) = Ok (Asset (amount a) d) ∧ space ∉ number ∧
  ∃ c, head number = Some c ∧ digit c.
Proof.
  intros Hp E. destruct (to_string_text a d name Hp) as (number' & E' & Hq & Hn). rewrite E in E'.
  injection E' as E'. apply app_inv_tail in E'. subst number'. set (q := fc_to_string (amount a / 10 ^ d)) in *.
  pose proof (pr_amount _ _ _ Hp) as Ha. pose proof (pr_decimals _ _ _ Hp) as Hd.
  assert (0 < 10 ^ d) as H10 by (apply Z.pow_pos_nonneg; lia).
  assert (10 ^ d ≤ 10 ^ 14) as Hd14 by (apply Z.pow_le_mono_r; lia).
  assert (0 ≤ amount a / 10 ^ d < 2 ^ 63) as Hqr.
  { split; [apply Z.div_pos; lia|]. apply Z.div_lt_upper_bound; nia. }
  assert (∃ c q', q = c :: q' ∧ digit c) as (c & q' & Eq & Hc).
  { pose proof (numeral_nonempty _ _ Hq). destruct Hq as (Hf & _). destruct q as [|c q']; [done|].
    apply Forall_cons in Hf as [? _]. by exists c, q'. }
  assert (space ∉ q ∧ dot ∉ q) as [Hsq Hdq] by (destruct Hq as (Hf & _); split; (apply digits_no; [done|by intros [??]])).
  destruct (Z.eqb_spec d 0) as [->|Hne].
  - subst number. split; [|split; [done|exists c; by rewrite Eq]]. unfold read_amount.
    rewrite find_char_None; [|intros [?|[?|?]%elem_of_cons]%elem_of_app; [done|done|by apply (pr_dot _ _ _ Hp)]].
    rewrite take_app_length. change (10 ^ 0) with 1 in *. rewrite Z.div_1_r in *.
    by rewrite (to_int64_numeral _ _ Hq Ha).
  - destruct Hn as (t & -> & Hlen & Ht & Hf). split; [|split].
    2:{ intros [?|[?|?]%elem_of_cons]%elem_of_app; [done|done|]. by eapply (digits_no space t); [|intros [??]|]. }
    2:{ exists c. by rewrite Eq. }
    unfold read_amount. rewrite <- app_assoc. cbn [app]. rewrite find_char_app by done.
    rewrite bool_decide_eq_true_2 by (rewrite length_app; cbn; lia). cbn [throw_unless mbind result_bind].
    rewrite take_app_length, length_app. cbn [length].
    replace (length q + S (length t) - length q - 1)%nat with (length t) by lia.
    assert (drop (length q + 1) (q ++ dot :: t ++ space :: name) = t ++ space :: name) as ->.
    { rewrite drop_app_ge by lia. by replace (length q + 1 - length q)%nat with 1%nat by lia. }
    rewrite take_app_length. replace (wrap 8 (Z.of_nat (S (length t)) - 1)) with d
      by (rewrite Hlen; unfold wrap; rewrite Z.mod_small; lia).
    unfold set_decimals. rewrite (proj2 (Z.ltb_lt d 15)) by lia.
    assert (Z.lor (Z.shiftl (Z.shiftr 0 8) 8) d = d) as Hs by (by rewrite Z.shiftr_0_l, Z.shiftl_0_l).
    cbn [throw_unless mbind result_bind mret result_ret symbol amount update]. rewrite Hs.
    assert (precision (Asset 0 d) = Ok (10 ^ d)) as Hprec.
    { unfold precision, decimals. rewrite symbol_byte_eq by lia. cbn [symbol]. change (2 ^ (8 * 0)) with 1.
      rewrite Z.div_1_r, Z.mod_small by lia. rewrite (proj2 (Z.ltb_lt d 15)) by lia. cbn. by rewrite precision_pow. }
    change ((Asset 0 0) <| symbol := d |>) with (Asset 0 d). rewrite Hprec. cbn [mbind result_bind].
    rewrite (to_int64_numeral _ _ Hq Hqr). cbn [mbind result_bind].
    pose proof (Z.mod_pos_bound (amount a) (10 ^ d) H10) as Hm. pose proof (Z.div_mod (amount a) (10 ^ d) ltac:(lia)) as Hdm.
    rewrite (to_int64_numeral _ _ Hf) by lia. cbn [mbind result_bind mret result_ret update]. do 2 f_equal.
    rewrite (swrap_small 64 (amount a / 10 ^ d * 10 ^ d)) by nia.
    rewrite swrap_sub_l, swrap_small by lia. lia.
Qed.

(** C31: amounts survive being written as text: [from_string] reads what [to_string] writes
    as the same amount of the same symbol, for all amounts that are not negative and all
    symbols of up to six characters, none of them NUL, that do not end in white space;
    a symbol without decimals must not contain a point either. *)
Theorem from_string_to_string a d name :
  printable a d name → ∃ s, to_string a = Ok s ∧ from_string s = Ok a.
Proof.
  intros Hp. destruct (to_string_text a d name Hp) as (number & E & _). exists (number ++ space :: name). split; [done|].
  destruct (read_amount_text a d name number Hp E) as (Er & Hs & c & Hc & Hdc).
  destruct (pr_end _ _ _ Hp) as (e & He & He32). unfold from_string.
  rewrite (fc_trim_spec c e).
  2:{ unfold digit in Hdc. lia. } 2:done.
  2:{ destruct number; [done|]. by injection Hc as ->. }
  2:{ change (space :: name) with ([space] ++ name). rewrite app_assoc, last_app, He. done. }
  rewrite (find_char_app _ _ _ Hs), Er. cbn [mbind result_bind].
  rewrite drop_app_ge by lia. replace (length number + 1 - length number)%nat with 1%nat by lia. cbn [drop].
  rewrite bool_decide_eq_true_2 by apply (pr_length _ _ _ Hp). cbn [throw_unless mbind result_bind mret result_ret].
  f_equal. destruct a as [v sym]. pose proof (pr_symbol _ _ _ Hp) as Hsym. cbn in *. by subst.
Qed.
End roundtrip.

(** ** A reference implementation *)

Definition digit_char (z : Z) : ascii := ascii_of_N (Z.to_N (48 + z)).
Fixpoint digits_of (n : nat) (z : Z) : chars :=
  match n with
  | O => []
  | S n => (if z <? 10 then [] else digits_of n (z / 10)) ++ [digit_char (z mod 10)]
  end.
Lemma digit_char_code z : 0 ≤ z < 10 → Z.of_N (N_of_ascii (digit_char z)) = 48 + z.
Proof. intros Hz. unfold digit_char. rewrite N_ascii_embedding by lia. lia. Qed.
Lemma digits_value_snoc l c : digits_value (l ++ [c]) = 10 * digits_value l + (Z.of_N (N_of_ascii c) - 48).
Proof. unfold digits_value. by rewrite foldl_app. Qed.
Lemma digits_of_numeral n z : 0 ≤ z < 10 ^ Z.of_nat n → (0 < n)%nat → numeral z (digits_of n z).
Proof.
  revert z. induction n as [|n IH]; intros z Hz Hn; [lia|]. cbn [digits_of].
  pose proof (Z.mod_pos_bound z 10 ltac:(lia)) as Hm. pose proof (digit_char_code _ Hm) as Hc.
  assert (digit (digit_char (z mod 10))) as Hd by (unfold digit; lia).
  destruct (Z.ltb_spec z 10) as [H10|H10].
  - rewrite Z.mod_small in * by lia. cbn [app]. split; [by apply Forall_singleton|]. split; [unfold digits_value; cbn [foldl]; lia|].
    split; [by intros ->|]. intros Hne [= E]. rewrite E in Hc. change (48 = 48 + z) in Hc. lia.
  - rewrite Nat2Z.inj_succ, Z.pow_succ_r in Hz by lia.
    assert (0 ≤ z / 10 < 10 ^ Z.of_nat n) as Hq by (split; [apply Z.div_pos; lia|apply Z.div_lt_upper_bound; lia]).
    assert (1 ≤ z / 10) as H1 by (apply Z.div_le_lower_bound; lia).
    destruct n as [|n]; [change (10 ^ Z.of_nat 0) with 1 in Hq; lia|].
    destruct (IH (z / 10) Hq ltac:(lia)) as (Hf & Hv & _ & Hh). split; [apply Forall_app; split; [done|by apply Forall_singleton]|].
    split; [rewrite digits_value_snoc, Hv, Hc; pose proof (Z.div_mod z 10); lia|]. split; [lia|]. intros _.
    specialize (Hh ltac:(lia)). destruct (digits_of (S n) (z / 10)) as [|c l]; [|exact Hh].
    change (0 = z / 10) in Hv. lia.
Qed.

Definition white (c : ascii) : bool := (N_of_ascii c <=? 32)%N.
Fixpoint drop_white (l : chars) : chars :=
  match l with [] => [] | c :: l' => if white c then drop_white l' else l end.
Lemma drop_white_head c l : head l = Some c → (32 < N_of_ascii c)%N → drop_white l = l.
Proof. destruct l as [|x l]; [done|]. intros [= ->] H. cbn. unfold white. by rewrite (proj2 (N.leb_gt _ _) H). Qed.
Definition read_digits (l : chars) : result Z :=
  if bool_decide (Forall digit l ∧ l ≠ [] ∧ digits_value l < 2 ^ 63) then Ok (digits_value l) else Err runtime_error.
#[global, program] Instance text_ref : FcText := {|
  fc_to_string := digits_of 20;
  fc_to_int64 := read_digits;
  fc_trim l := reverse (drop_white (reverse (drop_white l)))
|}.
Next Obligation. intros z Hz. apply digits_of_numeral; [change (10 ^ Z.of_nat 20) with 100000000000000000000; lia|lia]. Qed.
Next Obligation. intros l H1 H2 H3. unfold read_digits. by rewrite bool_decide_eq_true_2. Qed.
Next Obligation.
  intros a b l Ha Hb Hh Hl. cbn. rewrite (drop_white_head a l Hh Ha).
  rewrite (drop_white_head b), reverse_involutive; [done| |done]. by rewrite head_reverse.
Qed.

#[local] Existing Instance fc_ref.
Definition wls_name : chars := chars_of "WLS".
Definition seven : asset := Asset 7005 WLS_SYMBOL.
Lemma from_string_to_string_witness :
  ∃ s, to_string seven = Ok s ∧ from_string s = Ok seven ∧ s = chars_of "7.005 WLS".
Proof.
  destruct (from_string_to_string seven 3 wls_name) as (s & E & Er).
  - split; [split; [discriminate|reflexivity]|split; [discriminate|reflexivity]|reflexivity|cbn; lia|
      repeat constructor; discriminate|exists "S"%char; split; reflexivity|discriminate].
  - exists s. split; [exact E|]. split; [exact Er|]. vm_compute in E. injection E as <-. reflexivity.
Defined.

(** A negative amount is written wrongly: -0.005 WLS reads 0.95 WLS. *)
Lemma negative_amount_text : to_string (Asset (-5) WLS_SYMBOL) = Ok (chars_of "0.95 WLS").
Proof. vm_compute. reflexivity. Qed.
(** The whole part is multiplied without a check for overflow. *)
Lemma huge_amount_text : from_string (chars_of "9223372036854775807.0 WLS") = Ok (Asset (-10) (Z.lor 1 (Z.shiftl (text_bytes wls_name) 8))).
Proof. vm_compute. reflexivity. Qed.
