(* ===== verification/Reward.v ===== *)
(** * Reward: reward curves, payouts and the inflation schedule

    [libraries/chain/util/reward.cpp], [util/uint256.hpp], the context record
    of [util/reward.hpp], and [get_current_inflation_rate] of
    [libraries/chain/database.cpp]. *)

From S2P Require Import Prelude FcLib Config Asset.

(** wls_objects.hpp:42 *)
Inductive curve_id := quadratic | quadratic_curation | linear | square_root.
#[global] Instance curve_id_eq_dec : EqDecision curve_id.
Proof. solve_decision. Defined.

(** reward.hpp:22 *)
Record comment_reward_context := RewardContext {
  rshares : Z;
  reward_weight : Z;
  max_payout : asset;
  total_reward_shares2 : Z;
  total_reward_fund_steem : asset;
  reward_curve : curve_id;
  content_constant : Z
}.

Section reward.
Context `{FC : FcLib}.

(** The two 64-bit halves of a [uint128]. *)
Definition lo (u : Z) : Z := u mod 2 ^ 64.
Definition hi (u : Z) : Z := u / 2 ^ 64.

(** uint256.hpp:9 *)
Definition to256 (t : Z) : Z := u256_add (u256_shl (hi t) 64) (lo t).

(** reward.cpp:8 *)
Definition find_msb (u : Z) : Z :=
  let x := if lo u =? 0 then 1 else lo u in
  let places := if hi u =? 0 then 0 else 64 in
  let x := if hi u =? 0 then x else hi u in
  wrap 8 (find_msb_u64 x + places).

(** reward.cpp:18 *)
Definition approx_sqrt (x : Z) : Z :=
  if (lo x =? 0) && (hi x =? 0) then 0
  else
    let msb_x := find_msb x in
    let msb_z := Z.shiftr msb_x 1 in
    let msb_x_bit := u128_shl 1 msb_x in
    let msb_z_bit := wrap 64 (Z.shiftl 1 msb_z) in
    let mantissa_mask := u128_sub msb_x_bit 1 in
    let mantissa_x := Z.land x mantissa_mask in
    let mantissa_z_hi := if negb (Z.land msb_x 1 =? 0) then msb_z_bit else 0 in
    let mantissa_z_lo := lo (u128_shr mantissa_x (msb_x - msb_z)) in
    let mantissa_z := Z.shiftr (Z.lor mantissa_z_hi mantissa_z_lo) 1 in
    Z.lor msb_z_bit mantissa_z.

(** reward.cpp:70.  [uint128_t( rshares.lo, 0 )] has [rshares.lo] as high half. *)
Definition evaluate_reward_curve (rshares : Z) (curve : curve_id) (content_constant : Z) : Z :=
  match curve with
  | quadratic =>
    let rshares_plus_s := u128_add rshares content_constant in
    u128_sub (u128_mul rshares_plus_s rshares_plus_s)
             (u128_mul content_constant content_constant)
  | quadratic_curation =>
    let two_alpha := u128_mul content_constant 2 in
    u128_div (lo rshares * 2 ^ 64) (u128_add two_alpha rshares)
  | linear => rshares
  | square_root => approx_sqrt rshares
  end.

(** reward.cpp:39 *)
Definition get_rshare_reward (ctx : comment_reward_context) : result Z :=
  FC_ASSERT (0 <? rshares ctx);;
  FC_ASSERT (0 <? total_reward_shares2 ctx);;
  let rf := wrap 256 (amount (total_reward_fund_steem ctx)) in
  let total_claims := to256 (total_reward_shares2 ctx) in
  let claim := to256 (evaluate_reward_curve (u128_of_i64 (rshares ctx))
                        (reward_curve ctx) (content_constant ctx)) in
  let claim := u256_div (u256_mul claim (reward_weight ctx)) WLS_100_PERCENT in
  let payout_u256 := u256_div (u256_mul rf claim) total_claims in
  FC_ASSERT (payout_u256 <=? i64_max);;
  let payout := wrap 64 payout_u256 in
  let payout := if payout <? WLS_MIN_PAYOUT_STEEM then 0 else payout in
  mret (Z.min payout (wrap 64 (amount (max_payout ctx)))).

End reward.

(** database.cpp:1605 *)
Definition get_current_inflation_rate (current_head_block_num : Z) : Z :=
  let at_year := Z.min (Z.quot current_head_block_num WLS_BLOCKS_PER_YEAR) 8 in
  let start_inflation_rate := Z.quot WLS_INFLATION_RATE_START_PERCENT (Z.shiftl 1 at_year) in
  let inflation_rate_floor := WLS_INFLATION_RATE_STOP_PERCENT in
  let end_inflation_rate := Z.quot start_inflation_rate 2 in
  let dif_inflation_rate := start_inflation_rate - end_inflation_rate in
  let inflation_rate_adjustment :=
    Z.quot (Z.rem current_head_block_num WLS_BLOCKS_PER_YEAR * dif_inflation_rate)
           WLS_BLOCKS_PER_YEAR in
  Z.max (start_inflation_rate - inflation_rate_adjustment) inflation_rate_floor.

(** ** Facts *)

Section reward_facts.
Context `{FC : FcLib}.

Lemma lo_hi x : 0 ≤ x → x = hi x * 2 ^ 64 + lo x.
Proof. intros. unfold lo, hi. pose proof (Z_div_mod_eq_full x (2 ^ 64)). lia. Qed.

Lemma hi_range x : 0 ≤ x < 2 ^ 128 → 0 ≤ hi x < 2 ^ 64.
Proof.
  intros. unfold hi. split; [apply Z.div_pos; lia|apply Z.div_lt_upper_bound; lia].
Qed.
Lemma lo_range x : 0 ≤ lo x < 2 ^ 64.
Proof. apply Z.mod_pos_bound. lia. Qed.

Lemma to256_id x : 0 ≤ x < 2 ^ 128 → to256 x = x.
Proof.
  intros Hx. unfold to256. pose proof (hi_range x Hx). pose proof (lo_range x).
  pose proof (lo_hi x (proj1 Hx)).
  assert (2 ^ 128 < 2 ^ 256) by (by apply Z.pow_lt_mono_r).
  rewrite u256_shl_spec, u256_add_spec by lia.
  rewrite (wrap_small 256 (hi x * 2 ^ 64)) by lia. rewrite wrap_small; lia.
Qed.

Lemma find_msb_log2 x : 0 < x < 2 ^ 128 → find_msb x = Z.log2 x.
Proof.
  intros Hx. unfold find_msb. pose proof (hi_range x ltac:(lia)). pose proof (lo_range x).
  pose proof (lo_hi x ltac:(lia)).
  assert (Z.log2 x < 128) by (apply Z.log2_lt_pow2; lia). pose proof (Z.log2_nonneg x).
  destruct (Z.eqb_spec (hi x) 0) as [Hh|Hh].
  - rewrite Hh in *. destruct (Z.eqb_spec (lo x) 0); [lia|].
    rewrite find_msb_u64_spec by lia. replace (lo x) with x by lia.
    rewrite Z.add_0_r. apply wrap_small. lia.
  - rewrite find_msb_u64_spec by lia.
    assert (Z.log2 x = Z.log2 (hi x) + 64) as E; [|rewrite <-E; apply wrap_small; lia].
    apply Z.log2_unique; [pose proof (Z.log2_nonneg (hi x)); lia|].
    pose proof (Z.log2_spec (hi x) ltac:(lia)). pose proof (Z.log2_nonneg (hi x)).
    rewrite <-Z.add_succ_l, !Z.pow_add_r by lia. nia.
Qed.

(** A disjoint [lor] is a sum. *)
Lemma testbit_above b k n : 0 ≤ b < 2 ^ k → 0 ≤ k ≤ n → Z.testbit b n = false.
Proof.
  intros Hb Hn. destruct (decide (b = 0)) as [->|]; [apply Z.bits_0|].
  apply Z.bits_above_log2; [lia|].
  assert (Z.log2 b < k) by (apply Z.log2_lt_pow2; lia). lia.
Qed.
Lemma land_disjoint a k b : 0 ≤ k → 0 ≤ b < 2 ^ k → Z.land (Z.shiftl a k) b = 0.
Proof.
  intros Hk Hb. apply Z.bits_inj'. intros n Hn. rewrite Z.land_spec, Z.bits_0.
  destruct (decide (n < k)); [by rewrite Z.shiftl_spec_low|].
  rewrite (testbit_above b k n) by lia. apply andb_false_r.
Qed.
Lemma lor_add a k b : 0 ≤ k → 0 ≤ b < 2 ^ k → Z.lor (a * 2 ^ k) b = a * 2 ^ k + b.
Proof.
  intros Hk Hb. rewrite <-Z.shiftl_mul_pow2 by done.
  rewrite Z.add_nocarry_lxor, Z.lxor_lor by (by apply land_disjoint). done.
Qed.

(** The number [approx_sqrt] computes: [x] between two powers of four is mapped
    linearly. *)
Lemma approx_sqrt_eq x :
  0 < x < 2 ^ 128 →
  let m := Z.log2 x in let k := m / 2 in
  approx_sqrt x =
    2 ^ k + ((m mod 2) * 2 ^ k + (x - 2 ^ m) / 2 ^ (m - k)) / 2.
Proof.
  intros Hx m k. unfold approx_sqrt.
  pose proof (lo_hi x ltac:(lia)). pose proof (Z.log2_spec x ltac:(lia)) as Hl.
  pose proof (Z.log2_nonneg x). assert (Z.log2 x < 128) by (apply Z.log2_lt_pow2; lia).
  fold m in Hl. assert (0 ≤ k ≤ m ∧ k < 64 ∧ m - k ≤ k + m mod 2 ∧ m = 2 * k + m mod 2) as Hk.
  { pose proof (Z_div_mod_eq_full m 2). pose proof (Z.mod_pos_bound m 2). lia. }
  replace ((lo x =? 0) && (hi x =? 0)) with false.
  2:{ destruct (Z.eqb_spec (lo x) 0), (Z.eqb_spec (hi x) 0); simpl; try done. lia. }
  rewrite find_msb_log2 by done. fold m. simpl.
  assert (Hkk : Z.shiftr m 1 = k) by (by rewrite Z.shiftr_div_pow2 by lia).
  rewrite !Hkk.
  assert (0 < 2 ^ k ≤ 2 ^ 63).
  { split; [lia|]. apply Z.pow_le_mono_r; lia. }
  assert (0 < 2 ^ m ≤ 2 ^ 127).
  { split; [lia|]. apply Z.pow_le_mono_r; lia. }
  rewrite u128_shl_spec, u128_sub_spec, u128_shr_spec, !Z.shiftl_1_l by lia.
  rewrite Z.mul_1_l, (wrap_small 128 (2 ^ m)), (wrap_small 64 (2 ^ k)) by lia.
  rewrite wrap_small by lia.
  assert (Hmant : Z.land x (2 ^ m - 1) = x - 2 ^ m).
  { rewrite Z.sub_1_r, <-Z.ones_equiv, Z.land_ones by lia.
    symmetry. apply Z.mod_unique_pos with 1; [|lia].
    rewrite Z.pow_succ_r in Hl by lia. lia. }
  rewrite Hmant. set (q := (x - 2 ^ m) / 2 ^ (m - k)).
  assert (0 ≤ q < 2 ^ k) as Hq.
  { unfold q. split; [apply Z.div_pos; lia|]. apply Z.div_lt_upper_bound; [lia|].
    rewrite <-Z.pow_add_r by lia. replace (m - k + k) with m by lia.
    rewrite Z.pow_succ_r in Hl by lia. lia. }
  assert (lo q = q) as -> by (apply Z.mod_small; lia).
  assert (Hodd : (if negb (Z.land m 1 =? 0) then 2 ^ k else 0) = (m mod 2) * 2 ^ k).
  { change 1 with (Z.ones 1). rewrite Z.land_ones by lia. change (2 ^ 1) with 2.
    pose proof (Z.mod_pos_bound m 2 ltac:(lia)).
    assert (m mod 2 = 0 ∨ m mod 2 = 1) as [-> | ->] by lia; simpl; lia. }
  rewrite Hodd, lor_add, Z.shiftr_div_pow2 by lia. change (2 ^ 1) with 2.
  rewrite <-(Z.mul_1_l (2 ^ k)) at 1. rewrite lor_add; [lia..|].
  pose proof (Z.mod_pos_bound m 2 ltac:(lia)).
  split; [apply Z.div_pos; nia|apply Z.div_lt_upper_bound; nia].
Qed.

(** The interpolation of [approx_sqrt_eq] by cases on the parity of [log2 x]. *)
Lemma approx_sqrt_cases x :
  0 < x < 2 ^ 128 → ∃ k q, 0 ≤ k ∧ 0 ≤ q < 2 ^ k ∧
    ((Z.log2 x = 2 * k ∧ q = (x - 2 ^ (2 * k)) / 2 ^ k ∧ approx_sqrt x = 2 ^ k + q / 2 ∧
      2 ^ (2 * k) ≤ x < 2 * 2 ^ (2 * k)) ∨
     (Z.log2 x = 2 * k + 1 ∧ q = (x - 2 * 2 ^ (2 * k)) / 2 ^ (k + 1) ∧
      approx_sqrt x = 2 ^ k + (2 ^ k + q) / 2 ∧
      2 * 2 ^ (2 * k) ≤ x < 4 * 2 ^ (2 * k))).
Proof.
  intros Hx. pose proof (approx_sqrt_eq x Hx) as E. simpl in E.
  pose proof (Z.log2_spec x ltac:(lia)) as Hl. pose proof (Z.log2_nonneg x).
  set (m := Z.log2 x) in *. exists (m / 2).
  pose proof (Z_div_mod_eq_full m 2) as Hm. pose proof (Z.mod_pos_bound m 2 ltac:(lia)).
  set (k := m / 2) in *. assert (0 ≤ k) by lia.
  assert (2 ^ (2 * k) = 2 ^ k * 2 ^ k) as Hsq by (rewrite <-Z.pow_add_r by lia; f_equal; lia).
  assert (0 < 2 ^ k) by lia.
  assert (m mod 2 = 0 ∨ m mod 2 = 1) as [Hp|Hp] by lia; rewrite Hp in *.
  - replace m with (2 * k) in * by lia. rewrite Z.pow_succ_r in Hl by lia.
    replace (2 * k - k) with k in E by lia.
    exists ((x - 2 ^ (2 * k)) / 2 ^ k). split_and!; [done|apply Z.div_pos; lia| |].
    { apply Z.div_lt_upper_bound; lia. }
    left. split_and!; try done; lia.
  - replace m with (2 * k + 1) in * by lia. rewrite Z.pow_succ_r in Hl by lia.
    assert (2 ^ (2 * k + 1) = 2 * 2 ^ (2 * k)) as Ho by (rewrite Z.pow_add_r by lia; lia).
    replace (2 * k + 1 - k) with (k + 1) in E by lia.
    assert (2 ^ (k + 1) = 2 ^ k * 2) as Hk1 by (rewrite Z.pow_add_r by lia; lia).
    rewrite Hk1, Ho in E. rewrite Ho in Hl.
    exists ((x - 2 * 2 ^ (2 * k)) / (2 ^ k * 2)).
    split_and!; [done|apply Z.div_pos; lia| |].
    { apply Z.div_lt_upper_bound; lia. }
    right. rewrite Hk1. rewrite Z.mul_1_l in E.
    split_and!; try done; lia.
Qed.

Lemma approx_sqrt_accuracy x :
  0 ≤ x < 2 ^ 128 →
  x < (approx_sqrt x + 1) * (approx_sqrt x + 1) ∧ 8 * (approx_sqrt x * approx_sqrt x) ≤ 9 * x.
Proof.
  intros Hx. destruct (decide (x = 0)) as [->|]; [done|].
  destruct (approx_sqrt_cases x ltac:(lia)) as (k & q & Hk & Hq & [(_ & Eq & -> & Hb)|(_ & Eq & -> & Hb)]);
  assert (2 ^ (2 * k) = 2 ^ k * 2 ^ k) as Hsq by (rewrite <-Z.pow_add_r by lia; f_equal; lia);
  rewrite Hsq in *; rewrite ?Z.pow_add_r, ?Z.pow_1_r in Eq by lia;
  set (p := 2 ^ k) in *; assert (0 < p) by lia; clearbody p.
  - pose proof (Z_div_mod_eq_full (x - p * p) p) as D. rewrite <-Eq in D.
    pose proof (Z.mod_pos_bound (x - p * p) p ltac:(lia)).
    pose proof (Z_div_mod_eq_full q 2). pose proof (Z.mod_pos_bound q 2 ltac:(lia)).
    set (h := q / 2) in *. clearbody h. nia.
  - pose proof (Z_div_mod_eq_full (x - 2 * (p * p)) (p * 2)) as D. rewrite <-Eq in D.
    pose proof (Z.mod_pos_bound (x - 2 * (p * p)) (p * 2) ltac:(lia)).
    pose proof (Z_div_mod_eq_full (p + q) 2). pose proof (Z.mod_pos_bound (p + q) 2 ltac:(lia)).
    set (h := (p + q) / 2) in *. clearbody h.
    assert (0 ≤ (p - q - 1) * (p - q - 1)) by apply Z.square_nonneg. split; nia.
Qed.

Lemma approx_sqrt_mono x y :
  0 ≤ x ≤ y → y < 2 ^ 128 → approx_sqrt x ≤ approx_sqrt y.
Proof.
  intros Hxy Hy.
  destruct (decide (x = 0)) as [->|].
  { destruct (decide (y = 0)) as [->|]; [done|].
    destruct (approx_sqrt_cases y ltac:(lia)) as (k & q & Hk & Hq & [(_ & Eq & -> & Hb)|(_ & Eq & -> & Hb)]);
    change (approx_sqrt 0) with 0; pose proof (Z.div_pos q 2); pose proof (Z.div_pos (2 ^ k + q) 2); lia. }
  pose proof (Z.log2_le_mono x y ltac:(lia)) as Hl.
  destruct (approx_sqrt_cases x ltac:(lia)) as (k & q & Hk & Hq & Hcx).
  destruct (approx_sqrt_cases y ltac:(lia)) as (k' & q' & Hk' & Hq' & Hcy).
  assert (k = k' ∨ k + 1 ≤ k') as [<-|Hkk].
  { destruct Hcx as [Hcx|Hcx], Hcy as [Hcy|Hcy]; destruct Hcx as (?&_), Hcy as (?&_); lia. }
  - destruct Hcx as [(? & Eq & -> & ?)|(? & Eq & -> & ?)],
      Hcy as [(? & Eq' & -> & ?)|(? & Eq' & -> & ?)].
    + assert (q ≤ q') by (subst q q'; apply Z.div_le_mono; lia).
      pose proof (Z.div_le_mono q q' 2). lia.
    + pose proof (Z.div_le_mono q (2 ^ k + q') 2). lia.
    + lia.
    + assert (q ≤ q') by (subst q q'; apply Z.div_le_mono; lia).
      pose proof (Z.div_le_mono (2 ^ k + q) (2 ^ k + q') 2). lia.
  - assert (2 * 2 ^ k ≤ 2 ^ k').
    { rewrite <-Z.pow_succ_r by lia. apply Z.pow_le_mono_r; lia. }
    assert (approx_sqrt x < 2 * 2 ^ k).
    { destruct Hcx as [(? & Eq & -> & ?)|(? & Eq & -> & ?)].
      - assert (q / 2 < 2 ^ k); [apply Z.div_lt_upper_bound; lia|lia].
      - assert ((2 ^ k + q) / 2 < 2 ^ k); [apply Z.div_lt_upper_bound; lia|lia]. }
    assert (2 ^ k' ≤ approx_sqrt y); [|lia].
    destruct Hcy as [(? & Eq & -> & ?)|(? & Eq & -> & ?)].
    + pose proof (Z.div_pos q' 2). lia.
    + pose proof (Z.div_pos (2 ^ k' + q') 2). lia.
Qed.

End reward_facts.

Section payout.
Context `{FC : FcLib}.

(** A context with the ranges its fields have in the code. *)
Record ctx_wf (ctx : comment_reward_context) : Prop := {
  wf_rshares : rshares ctx < 2 ^ 63;
  wf_weight : 0 ≤ reward_weight ctx ≤ WLS_100_PERCENT;
  wf_max : 0 ≤ amount (max_payout ctx) < 2 ^ 63;
  wf_total : total_reward_shares2 ctx < 2 ^ 128;
  wf_fund : 0 ≤ amount (total_reward_fund_steem ctx) < 2 ^ 63
}.

Definition ctx_claim (ctx : comment_reward_context) : Z :=
  evaluate_reward_curve (rshares ctx) (reward_curve ctx) (content_constant ctx).
Definition ctx_share (ctx : comment_reward_context) : Z :=
  amount (total_reward_fund_steem ctx) * (ctx_claim ctx * reward_weight ctx / WLS_100_PERCENT)
    / total_reward_shares2 ctx.

Lemma get_rshare_reward_eq ctx r :
  ctx_wf ctx → 0 ≤ ctx_claim ctx < 2 ^ 128 → get_rshare_reward ctx = Ok r →
  0 < total_reward_shares2 ctx ∧ 0 < rshares ctx ∧ 0 ≤ ctx_share ctx < 2 ^ 63 ∧
  r = Z.min (if ctx_share ctx <? WLS_MIN_PAYOUT_STEEM then 0 else ctx_share ctx)
        (amount (max_payout ctx)).
Proof.
  intros [Hr Hw Hm Ht Hf] Hc H. unfold get_rshare_reward in H.
  apply bind_Ok in H as ([] & Hr0%throw_unless_Ok%Z.ltb_lt & H).
  apply bind_Ok in H as ([] & Ht0%throw_unless_Ok%Z.ltb_lt & H).
  rewrite u128_of_i64_small, (to256_id (total_reward_shares2 ctx)) in H by lia.
  fold (ctx_claim ctx) in H. rewrite (to256_id (ctx_claim ctx)) in H by done.
  unfold WLS_100_PERCENT in Hw. set (c := ctx_claim ctx) in *. set (w := reward_weight ctx) in *.
  set (f := amount (total_reward_fund_steem ctx)) in *.
  assert (0 ≤ c * w < 2 ^ 142) as Hcw by nia.
  assert (2 ^ 142 < 2 ^ 256 ∧ 2 ^ 63 < 2 ^ 256 ∧ 2 ^ 63 * 2 ^ 142 < 2 ^ 256) as (? & ? & ?)
    by (split_and!; done).
  assert (0 ≤ c * w / WLS_100_PERCENT < 2 ^ 142) as Hq.
  { unfold WLS_100_PERCENT. split; [apply Z.div_pos; lia|apply Z.div_lt_upper_bound; lia]. }
  assert (0 ≤ f * (c * w / WLS_100_PERCENT) < 2 ^ 256) as Hp by nia.
  rewrite !u256_mul_spec, (wrap_small 256 (c * w)), (wrap_small 256 f) in H by lia.
  rewrite (u256_div_spec (c * w)) in H by done.
  rewrite (wrap_small 256 (f * _)), u256_div_spec in H by lia.
  change (f * (c * w / WLS_100_PERCENT) / total_reward_shares2 ctx) with (ctx_share ctx) in H.
  assert (0 ≤ ctx_share ctx) by (unfold ctx_share; fold c w f; apply Z.div_pos; lia).
  apply bind_Ok in H as ([] & Hi%throw_unless_Ok%Z.leb_le & H). unfold i64_max in Hi.
  rewrite !wrap_small in H by lia. unfold mret, result_ret in H. simplify_eq.
  split_and!; auto. lia.
Qed.

(** A payout never exceeds the post's maximum and never the fair share. *)
Lemma rshare_reward_le_share ctx r :
  ctx_wf ctx → 0 ≤ ctx_claim ctx < 2 ^ 128 → get_rshare_reward ctx = Ok r →
  0 ≤ r ≤ amount (max_payout ctx) ∧ r ≤ ctx_share ctx ∧ (r = 0 ∨ WLS_MIN_PAYOUT_STEEM ≤ r ∨ r = amount (max_payout ctx)).
Proof.
  intros Hwf Hc H. destruct Hwf eqn:?.
  apply get_rshare_reward_eq in H as (? & ? & ? & ->); [|done..].
  unfold WLS_MIN_PAYOUT_STEEM. destruct (Z.ltb_spec (ctx_share ctx) 20); lia.
Qed.

Lemma sum_div_le (l : list Z) f t :
  0 < t → 0 ≤ f → (∀ c, c ∈ l → 0 ≤ c) → foldr Z.add 0 l ≤ t →
  foldr (λ c acc, f * c / t + acc) 0 l ≤ f.
Proof.
  intros Ht Hf Hl Hs.
  assert (∀ l, (∀ c, c ∈ l → 0 ≤ c) →
    t * foldr (λ c acc, f * c / t + acc) 0 l ≤ f * foldr Z.add 0 l) as Hgen.
  { clear l Hl Hs. induction l as [|c l IH]; intros Hl; simpl; [lia|].
    assert (t * (f * c / t) ≤ f * c) by (apply Z.mul_div_le; lia).
    assert (∀ c, c ∈ l → 0 ≤ c) by (intros; apply Hl; by right). specialize (IH ltac:(done)). lia. }
  specialize (Hgen l Hl). nia.
Qed.

(** All the payouts taken from one fund with the linear curve: what
    [process_comment_cashout] pays when the rshares of the comments add up to at
    most the fund's recent claims. *)
Fixpoint payouts (ctxs : list comment_reward_context) : result Z :=
  match ctxs with
  | [] => mret 0
  | ctx :: ctxs => r ← get_rshare_reward ctx; acc ← payouts ctxs; mret (r + acc)
  end.

Lemma payouts_le_fund ctxs fund claims total :
  Forall (λ ctx, ctx_wf ctx ∧ reward_curve ctx = linear ∧
    amount (total_reward_fund_steem ctx) = fund ∧ total_reward_shares2 ctx = claims) ctxs →
  0 ≤ fund → 0 < claims → foldr Z.add 0 (rshares <$> ctxs) ≤ claims → payouts ctxs = Ok total →
  0 ≤ total ≤ fund.
Proof.
  intros Hall Hf Hc Hs Ht.
  assert (0 ≤ total ∧ total ≤ foldr (λ c acc, fund * c / claims + acc) 0 (rshares <$> ctxs) ∧
    ∀ c, c ∈ rshares <$> ctxs → 0 ≤ c) as (? & Hle & Hpos).
  { clear Hs. revert total Ht. induction Hall as [|ctx ctxs (Hwf & Hlin & Hfu & Hcl) Hall IH];
      intros total Ht; simpl in *.
    { unfold mret, result_ret in Ht. simplify_eq. split_and!; [done..|]. intros c Hc'. by inversion Hc'. }
    apply bind_Ok in Ht as (r & Hr & Ht). apply bind_Ok in Ht as (acc & Hacc & Ht).
    unfold mret, result_ret in Ht. simplify_eq. destruct (IH acc Hacc) as (? & ? & Hpos).
    assert (ctx_claim ctx = rshares ctx) as Hclaim by (unfold ctx_claim; by rewrite Hlin).
    assert (0 < rshares ctx) as Hrs.
    { unfold get_rshare_reward in Hr. apply bind_Ok in Hr as ([] & Hr0%throw_unless_Ok & _).
      by apply Z.ltb_lt in Hr0. }
    destruct Hwf as [Hr' Hw' Hm' Ht' Hf'] eqn:E. clear E.
    destruct (rshare_reward_le_share ctx r Hwf ltac:(lia) Hr) as (? & Hsh & _).
    split_and!; [lia| |].
    - unfold ctx_share in Hsh. rewrite Hclaim in Hsh.
      assert (rshares ctx * reward_weight ctx / WLS_100_PERCENT ≤ rshares ctx).
      { unfold WLS_100_PERCENT in *. apply Z.div_le_upper_bound; nia. }
      assert (amount (total_reward_fund_steem ctx) * (rshares ctx * reward_weight ctx / WLS_100_PERCENT) /
        total_reward_shares2 ctx ≤
        amount (total_reward_fund_steem ctx) * rshares ctx / total_reward_shares2 ctx).
      { apply Z.div_le_mono; [lia|]. apply Z.mul_le_mono_nonneg_l; lia. }
      apply Z.add_le_mono; [by etransitivity|done].
    - intros c [->|Hin]%elem_of_cons; [lia|auto]. }
  split; [done|]. etransitivity; [apply Hle|]. by apply sum_div_le.
Qed.
End payout.

(** ** Inflation *)

Lemma year_nonneg n : 0 ≤ n → 0 ≤ Z.min (n / WLS_BLOCKS_PER_YEAR) 8.
Proof. intros. pose proof (Z.div_pos n WLS_BLOCKS_PER_YEAR ltac:(done) ltac:(done)). lia. Qed.

Lemma inflation_year n :
  0 ≤ n →
  let y := Z.min (n / WLS_BLOCKS_PER_YEAR) 8 in
  let r := n mod WLS_BLOCKS_PER_YEAR in
  let s := 10000 / 2 ^ y in
  get_current_inflation_rate n = Z.max (s - r * (s - s / 2) / WLS_BLOCKS_PER_YEAR) 488.
Proof.
  intros Hn y r s. unfold get_current_inflation_rate.
  unfold WLS_BLOCKS_PER_YEAR in *. change (365 * 24 * 60 * 60 / WLS_BLOCK_INTERVAL) with 10512000 in *.
  rewrite (Z.quot_div_nonneg n), (Z.rem_mod_nonneg n) by lia. fold y r.
  assert (0 ≤ y ≤ 8) by (unfold y; pose proof (Z.div_pos n 10512000); lia).
  rewrite Z.shiftl_1_l. unfold WLS_INFLATION_RATE_START_PERCENT, WLS_INFLATION_RATE_STOP_PERCENT.
  rewrite (Z.quot_div_nonneg 10000) by lia. fold s.
  assert (0 ≤ s) by (apply Z.div_pos; lia).
  rewrite (Z.quot_div_nonneg s) by lia.
  assert (s / 2 ≤ s) by (apply Z.div_le_upper_bound; lia).
  assert (0 ≤ r) by (apply Z.mod_pos_bound; lia).
  rewrite Z.quot_div_nonneg by nia. done.
Qed.

(** The rate during year [y]: between the year's end rate and its start rate. *)
Lemma inflation_in_year n :
  0 ≤ n →
  let y := Z.min (n / WLS_BLOCKS_PER_YEAR) 8 in
  let s := 10000 / 2 ^ y in
  Z.max (s / 2) 488 ≤ get_current_inflation_rate n ≤ Z.max s 488.
Proof.
  intros Hn y s. rewrite inflation_year by done. fold y s. pose proof (year_nonneg n Hn).
  set (r := n mod WLS_BLOCKS_PER_YEAR).
  assert (0 ≤ r < WLS_BLOCKS_PER_YEAR) as Hr by (apply Z.mod_pos_bound; done).
  assert (0 ≤ s) by (apply Z.div_pos; lia).
  assert (s / 2 ≤ s) by (apply Z.div_le_upper_bound; lia).
  assert (0 ≤ r * (s - s / 2) / WLS_BLOCKS_PER_YEAR ≤ s - s / 2); [|lia].
  split; [apply Z.div_pos; [nia|lia]|]. apply Z.div_le_upper_bound; [lia|nia].
Qed.

Lemma inflation_bounds n : 0 ≤ n → 488 ≤ get_current_inflation_rate n ≤ 10000.
Proof.
  intros Hn. pose proof (inflation_in_year n Hn) as H. simpl in H.
  set (y := Z.min _ 8) in H.
  assert (0 ≤ y) by by apply year_nonneg.
  assert (10000 / 2 ^ y ≤ 10000) by (apply Z.div_le_upper_bound; lia). lia.
Qed.

Lemma inflation_antitone n m :
  0 ≤ n ≤ m → get_current_inflation_rate m ≤ get_current_inflation_rate n.
Proof.
  intros Hnm. assert (0 < WLS_BLOCKS_PER_YEAR) by done.
  pose proof (Z.div_le_mono n m WLS_BLOCKS_PER_YEAR ltac:(done) ltac:(lia)) as Hy.
  pose proof (year_nonneg n ltac:(lia)).
  destruct (decide (Z.min (n / WLS_BLOCKS_PER_YEAR) 8 = Z.min (m / WLS_BLOCKS_PER_YEAR) 8)) as [E|E].
  - rewrite !inflation_year by lia. rewrite <-E. set (y := Z.min _ 8) in *.
    assert (0 ≤ 10000 / 2 ^ y) by (apply Z.div_pos; lia).
    set (s := 10000 / 2 ^ y) in *.
    assert (s / 2 ≤ s) by (apply Z.div_le_upper_bound; lia).
    destruct (decide (8 ≤ n / WLS_BLOCKS_PER_YEAR)) as [H8|H8].
    + assert (s = 39) by (unfold s, y; by rewrite Z.min_r).
      assert (∀ r, 0 ≤ r → Z.max (s - r * (s - s / 2) / WLS_BLOCKS_PER_YEAR) 488 = 488) as Hk.
      { intros r Hr. assert (0 ≤ r * (s - s / 2) / WLS_BLOCKS_PER_YEAR); [apply Z.div_pos; nia|lia]. }
      rewrite !Hk; [done|apply Z.mod_pos_bound; done..].
    + assert (n / WLS_BLOCKS_PER_YEAR = m / WLS_BLOCKS_PER_YEAR) as Eq by lia.
      pose proof (Z_div_mod_eq_full n WLS_BLOCKS_PER_YEAR).
      pose proof (Z_div_mod_eq_full m WLS_BLOCKS_PER_YEAR).
      assert (n mod WLS_BLOCKS_PER_YEAR ≤ m mod WLS_BLOCKS_PER_YEAR) by nia.
      assert (n mod WLS_BLOCKS_PER_YEAR * (s - s / 2) / WLS_BLOCKS_PER_YEAR ≤
        m mod WLS_BLOCKS_PER_YEAR * (s - s / 2) / WLS_BLOCKS_PER_YEAR).
      { apply Z.div_le_mono; [done|]. nia. }
      lia.
  - pose proof (inflation_in_year n ltac:(lia)) as Hn. pose proof (inflation_in_year m ltac:(lia)) as Hm.
    simpl in Hn, Hm. set (y := Z.min (n / _) 8) in *. set (y' := Z.min (m / _) 8) in *.
    assert (0 ≤ y ∧ y + 1 ≤ y') as [? Hyy] by lia.
    assert (10000 / 2 ^ y' ≤ 10000 / 2 ^ y / 2); [|lia].
    rewrite Z.div_div by lia. apply Z.div_le_compat_l; [lia|]. split; [lia|].
    rewrite Z.mul_comm, <-Z.pow_succ_r by lia. apply Z.pow_le_mono_r; lia.
Qed.
