(* ===== verification/Names.v ===== *)
(** * Names: account names, fixed strings and versions

    [is_valid_account_name] of [libraries/protocol/authority.cpp], the class
    [fixed_string] of [include/wls/protocol/fixed_string.hpp] (an account name is
    a [fixed_string_16]: sixteen bytes kept as one big-endian number, compared
    as that number), and [version.cpp]/[version.hpp].

    The other files write an account name as the [string] of its bytes without the NULs
    at the end.  Such strings are equal, and ordered, like the names
    ([fixed_string_inj], [fixed_ltb_lexicographic]), but a name is only as long, and
    converts only to as much, as comes before its first NUL: [name_size] and
    [name_string] ([name_string_fixed]). *)

From S2P Require Import Prelude FcLib Config.
From Stdlib Require Import Ascii.
#[local] Open Scope Z_scope.

(** ** Valid names *)

Definition code (c : ascii) : Z := Z.of_N (N_of_ascii c).
Definition is_letter (c : ascii) : bool := (97 <=? code c) && (code c <=? 122).
Definition is_digit (c : ascii) : bool := (48 <=? code c) && (code c <=? 57).
Definition is_let_dig (c : ascii) : bool := is_letter c || is_digit c.
Definition is_let_dig_hyp (c : ascii) : bool := is_let_dig c || Ascii.eqb c "-".
Definition is_dot (c : ascii) : bool := Ascii.eqb c ".".

(** [find_first_of( '.', begin )], or the length when there is none. *)
Fixpoint find_dot (name : list ascii) (pos : nat) : nat :=
  match name with
  | [] => pos
  | c :: name => if is_dot c then pos else find_dot name (S pos)
  end.

(** authority.cpp:60, the loop over the labels: [None] when the fuel runs out. *)
Fixpoint name_loop (fuel : nat) (name : list ascii) (begin : nat) : option bool :=
  match fuel with
  | O => None
  | S fuel =>
    let len := length name in
    let stop := find_dot (drop begin name) begin in
    if decide (stop - begin < 3)%nat then Some false
    else if negb (is_letter (default zero (name !! begin))) then Some false
    else if negb (is_let_dig (default zero (name !! (stop - 1)%nat))) then Some false
    else if negb (forallb is_let_dig_hyp (take (stop - 1 - (begin + 1)) (drop (begin + 1) name)))
    then Some false
    else if decide (stop = len) then Some true
    else name_loop fuel name (stop + 1)
  end.

(** authority.cpp:46 *)
Definition is_valid_account_name (name : string) : bool :=
  let l := String.list_ascii_of_string name in
  let len := Z.of_nat (length l) in
  if len <? WLS_MIN_ACCOUNT_NAME_LENGTH then false
  else if WLS_MAX_ACCOUNT_NAME_LENGTH <? len then false
  else default false (name_loop (S (length l)) l 0).

(** The grammar of authority.hpp:68-95: dot-separated labels. *)
Definition valid_label (l : list ascii) : Prop :=
  ∃ first mid last, l = first :: mid ++ [last] ∧ (1 ≤ length mid)%nat ∧
    is_letter first = true ∧ is_let_dig last = true ∧
    Forall (λ c, is_let_dig_hyp c = true) mid.

Inductive dotted : list ascii → Prop :=
| dotted_label l : valid_label l → dotted l
| dotted_cons l rest : valid_label l → dotted rest → dotted (l ++ "."%char :: rest).

Definition account_name_grammar (name : string) : Prop :=
  let l := String.list_ascii_of_string name in
  dotted l ∧ (3 ≤ length l ≤ 16)%nat.

Lemma find_dot_spec name pos :
  ∃ l, find_dot name pos = (pos + length l)%nat ∧ Forall (λ c, is_dot c = false) l ∧
    (name = l ∨ ∃ rest, name = l ++ "."%char :: rest).
Proof.
  revert pos. induction name as [|c name IH]; intros pos; simpl.
  { exists []. split_and!; [simpl; lia|constructor|by left]. }
  destruct (is_dot c) eqn:Ec.
  { exists []. split_and!; [simpl; lia|constructor|right; exists name].
    apply Ascii.eqb_eq in Ec. by rewrite Ec. }
  destruct (IH (S pos)) as (l & -> & Hl & Hn). exists (c :: l).
  split_and!; [simpl; lia|by constructor|].
  destruct Hn as [->|[rest ->]]; [by left|right; by exists rest].
Qed.

Lemma no_dot c : is_let_dig_hyp c = true → is_dot c = false.
Proof.
  unfold is_dot. destruct (Ascii.eqb_spec c "."); [by subst|done].
Qed.
Lemma let_dig_hyp c : is_let_dig c = true → is_let_dig_hyp c = true.
Proof. unfold is_let_dig_hyp. by intros ->. Qed.
Lemma letter_let_dig c : is_letter c = true → is_let_dig c = true.
Proof. unfold is_let_dig. by intros ->. Qed.

Lemma valid_label_no_dot l : valid_label l → Forall (λ c, is_dot c = false) l.
Proof.
  intros (f & m & e & -> & _ & Hf & He & Hm). constructor.
  { by apply no_dot, let_dig_hyp, letter_let_dig. }
  apply Forall_app; split; [|by repeat constructor; apply no_dot, let_dig_hyp].
  eapply Forall_impl; [done|]. intros. by apply no_dot.
Qed.

(** What one round of the loop checks of the label [l]. *)
Definition label_ok (l : list ascii) : bool :=
  bool_decide (3 ≤ length l)%nat && is_letter (default zero (l !! 0%nat)) &&
  is_let_dig (default zero (l !! (length l - 1)%nat)) &&
  forallb is_let_dig_hyp (take (length l - 2) (drop 1 l)).

Lemma label_ok_spec l : label_ok l = true ↔ valid_label l.
Proof.
  unfold label_ok. rewrite !andb_true_iff, bool_decide_eq_true. split.
  - intros [[[Hlen Hf] Hl] Hm].
    destruct l as [|f l]; simpl in *; [lia|].
    destruct l as [|e m _] using rev_ind; simpl in *; [lia|].
    rewrite length_app in *. simpl in *.
    replace (length m + 1 - 0)%nat with (S (length m)) in Hl by lia. simpl in Hl.
    rewrite lookup_app_r, Nat.sub_diag in Hl by lia. simpl in Hl.
    replace (length m + 1 - 1)%nat with (length m) in Hm by lia.
    rewrite drop_0, take_app_length in Hm.
    exists f, m, e. split_and!; try done; [lia|].
    apply Forall_forall. intros c Hc. rewrite forallb_forall in Hm.
    by apply Hm, list_elem_of_In.
  - intros (f & m & e & -> & Hlen & Hf & Hl & Hm).
    simpl. rewrite length_app. simpl.
    replace (length m + 1 - 0)%nat with (S (length m)) by lia. simpl.
    rewrite lookup_app_r, Nat.sub_diag by lia. simpl.
    replace (length m + 1 - 1)%nat with (length m) by lia.
    rewrite drop_0, take_app_length. split_and!; try done; [lia|].
    apply forallb_forall. intros c Hc%list_elem_of_In. rewrite Forall_forall in Hm. auto.
Qed.

Lemma name_loop_step fuel pre l rest :
  Forall (λ c, is_dot c = false) l → (rest = [] ∨ ∃ r, rest = "."%char :: r) →
  name_loop (S fuel) (pre ++ l ++ rest) (length pre) =
    if label_ok l then
      match rest with [] => Some true
      | _ :: r => name_loop fuel (pre ++ l ++ rest) (length pre + length l + 1) end
    else Some false.
Proof.
  intros Hl Hrest. simpl. rewrite drop_app_length.
  assert (find_dot (l ++ rest) (length pre) = (length pre + length l)%nat) as ->.
  { generalize (length pre). induction Hl as [|c l Hc Hl IH]; intros n; simpl.
    - destruct Hrest as [->|[r ->]]; simpl; lia.
    - rewrite Hc, IH. lia. }
  unfold label_ok.
  destruct (decide (length pre + length l - length pre < 3)%nat) as [H3|H3].
  { rewrite bool_decide_eq_false_2 by lia. done. }
  rewrite bool_decide_eq_true_2 by lia. simpl.
  rewrite lookup_app_r, Nat.sub_diag, lookup_app_l by lia.
  destruct (is_letter _); simpl; [|done].
  rewrite lookup_app_r, lookup_app_l by lia.
  replace (length pre + length l - 1 - length pre)%nat with (length l - 1)%nat by lia.
  destruct (is_let_dig _); simpl; [|done].
  assert (take (length pre + length l - 1 - (length pre + 1))
    (drop (length pre + 1) (pre ++ l ++ rest)) = take (length l - 2) (drop 1 l)) as ->.
  { rewrite drop_app_ge by lia. replace (length pre + 1 - length pre)%nat with 1%nat by lia.
    rewrite drop_app_le by lia. rewrite take_app_le by (rewrite length_drop; lia).
    f_equal. lia. }
  destruct (forallb _ _); simpl; [|done].
  rewrite !length_app. destruct Hrest as [->|[r ->]]; simpl.
  - rewrite decide_True by lia. done.
  - rewrite decide_False by lia. done.
Qed.

Lemma dotted_inv l r :
  Forall (λ c, is_dot c = false) l → dotted (l ++ "."%char :: r) → valid_label l ∧ dotted r.
Proof.
  intros Hl Hd. inversion Hd as [l' Hv E|l' rest Hv Hr E].
  - subst. apply valid_label_no_dot in Hv. apply Forall_app in Hv as [_ Hv].
    by inversion Hv.
  - pose proof (valid_label_no_dot _ Hv) as Hv'.
    assert (l' = l ∧ rest = r) as [-> ->]; [|done].
    clear Hd Hv Hr. revert l Hl E. induction l' as [|c l' IH]; intros [|d l] Hl E; simpl in E; inversion E; subst.
    + done.
    + by inversion Hl.
    + by inversion Hv'.
    + inversion Hv'; inversion Hl; subst.
      match goal with E : l' ++ _ = l ++ _ |- _ => edestruct (IH ltac:(done) l ltac:(done) E) end.
      by subst.
Qed.

(** The loop terminates and decides the grammar. *)
Lemma name_loop_spec fuel pre s :
  (length s < fuel)%nat →
  ∃ b, name_loop fuel (pre ++ s) (length pre) = Some b ∧ (b = true ↔ dotted s).
Proof.
  revert pre s. induction fuel as [|fuel IH]; intros pre s Hf; [lia|].
  destruct (find_dot_spec s 0) as (l & _ & Hl & Hs).
  destruct Hs as [->|[r ->]].
  - pose proof (name_loop_step fuel pre l [] Hl ltac:(by left)) as E.
    rewrite app_nil_r in E. rewrite E.
    exists (label_ok l). split; [by destruct (label_ok l)|].
    rewrite label_ok_spec. split; [by constructor|].
    intros Hd. inversion Hd as [|l' rest]; subst; [done|].
    apply Forall_app in Hl as [_ Hl]. by inversion Hl.
  - rewrite (name_loop_step fuel pre l) by eauto. destruct (label_ok l) eqn:El.
    + destruct (IH (pre ++ l ++ ["."%char]) r) as (b & Hb & Hiff).
      { rewrite length_app in Hf. simpl in Hf. lia. }
      exists b. rewrite <-!app_assoc in Hb. simpl in Hb.
      rewrite !length_app in Hb. simpl in Hb. rewrite Nat.add_assoc in Hb.
      split; [done|]. rewrite Hiff. split.
      * intros. constructor; [by apply label_ok_spec|done].
      * intros Hd. by apply dotted_inv in Hd as [_ Hd].
    + exists false. split; [done|]. split; [done|].
      intros Hd. apply dotted_inv in Hd as [Hv _]; [|done].
      apply label_ok_spec in Hv. congruence.
Qed.

(** C40: a name is accepted exactly when it has 3 to 16 characters and is a
    dot-separated sequence of labels of at least three characters that begin
    with a letter, end with a letter or digit, and contain only letters, digits
    and hyphens. *)
Theorem is_valid_account_name_grammar name :
  is_valid_account_name name = true ↔ account_name_grammar name.
Proof.
  unfold is_valid_account_name, account_name_grammar.
  set (l := String.list_ascii_of_string name).
  destruct (name_loop_spec (S (length l)) [] l ltac:(lia)) as (b & Hb & Hiff).
  simpl app in Hb. simpl length in Hb. rewrite Hb. simpl default.
  unfold WLS_MIN_ACCOUNT_NAME_LENGTH, WLS_MAX_ACCOUNT_NAME_LENGTH.
  destruct (Z.ltb_spec (Z.of_nat (length l)) 3); [split; [done|lia]|].
  destruct (Z.ltb_spec 16 (Z.of_nat (length l))); [split; [done|lia]|].
  rewrite Hiff. intuition lia.
Qed.

(** ** Fixed strings *)

(** The bytes of a string, [memcpy]'d into a zeroed buffer of [n] bytes: what is
    longer is cut off. *)
Definition buffer (n : nat) (s : list Z) : list Z := take n (s ++ replicate n 0).

(** fixed_string.hpp:71: the buffer read as one big-endian number. *)
Definition be_to_native (d : list Z) : Z := foldl (λ acc b, acc * 256 + b) 0 d.
Definition fixed_string (n : nat) (s : list Z) : Z := be_to_native (buffer n s).

(** [native_to_big]: the [n] bytes of the number. *)
Fixpoint native_to_be (n : nat) (data : Z) : list Z :=
  match n with
  | O => []
  | S n => native_to_be n (data / 256) ++ [data mod 256]
  end.

Fixpoint strnlen (d : list Z) : nat :=
  match d with
  | [] => O
  | b :: d => if b =? 0 then O else S (strnlen d)
  end.

(** fixed_string.hpp:97 *)
Definition fixed_size (n : nat) (data : Z) : nat :=
  let d := native_to_be n data in
  if negb (default 0 (d !! (n - 1)%nat) =? 0) then n else strnlen d.

(** fixed_string.hpp:82 *)
Definition fixed_to_string (n : nat) (data : Z) : list Z :=
  let d := native_to_be n data in
  let s := if negb (default 0 (d !! (n - 1)%nat) =? 0) then n else strnlen d in
  take s d.

(** fixed_string.hpp:127 *)
Definition fixed_ltb (a b : Z) : bool := a <? b.

Definition is_byte (b : Z) : Prop := 0 ≤ b < 256.
(** A C string: bytes without a NUL. *)
Definition is_cstr (s : list Z) : Prop := Forall (λ b, 0 < b < 256) s.

(** The lexicographic order of [std::string]. *)
Fixpoint lex_ltb (a b : list Z) : bool :=
  match a, b with
  | _, [] => false
  | [], _ :: _ => true
  | x :: a, y :: b => (x <? y) || ((x =? y) && lex_ltb a b)
  end.

Lemma length_buffer n s : length (buffer n s) = n.
Proof. unfold buffer. rewrite length_take, length_app, length_replicate. lia. Qed.

Lemma be_to_native_snoc d b : be_to_native (d ++ [b]) = be_to_native d * 256 + b.
Proof. unfold be_to_native. by rewrite foldl_app. Qed.

Lemma be_to_native_range d :
  Forall is_byte d → 0 ≤ be_to_native d < 256 ^ Z.of_nat (length d).
Proof.
  induction d as [|b d IH] using rev_ind; intros Hd; [done|].
  apply Forall_app in Hd as [Hd Hb]. inversion Hb as [|? ? Hb' _]. subst.
  rewrite be_to_native_snoc, length_app, Nat2Z.inj_add, Z.pow_add_r by lia. simpl.
  specialize (IH Hd). unfold is_byte in Hb'. lia.
Qed.

Lemma native_to_be_to_native d :
  Forall is_byte d → native_to_be (length d) (be_to_native d) = d.
Proof.
  induction d as [|b d IH] using rev_ind; intros Hd; [done|].
  apply Forall_app in Hd as [Hd Hb]. inversion Hb as [|? ? Hb' _]. subst.
  rewrite be_to_native_snoc, length_app, Nat.add_comm. simpl. unfold is_byte in Hb'.
  rewrite Z.div_add_l, Z.div_small, Z.add_0_r, IH by (done || lia).
  f_equal. f_equal. rewrite Z.add_comm, Z.mod_add, Z.mod_small by lia. done.
Qed.

(** Numbers compare like their big-endian bytes. *)
Lemma be_to_native_cons b d :
  be_to_native (b :: d) = b * 256 ^ Z.of_nat (length d) + be_to_native d.
Proof.
  induction d as [|c d IH] using rev_ind; [unfold be_to_native; simpl; lia|].
  rewrite app_comm_cons, !be_to_native_snoc, IH, length_app, Nat2Z.inj_add, Z.pow_add_r by lia.
  simpl. lia.
Qed.

Lemma be_ltb_lex d e :
  Forall is_byte d → Forall is_byte e → length d = length e →
  (be_to_native d <? be_to_native e) = lex_ltb d e.
Proof.
  intros Hd. revert e. induction Hd as [|x d Hx Hd IH]; intros [|y e] He Hlen; try done.
  inversion He as [|? ? Hy He']; subst. simpl in Hlen. simplify_eq.
  rewrite !be_to_native_cons. rewrite Hlen. simpl. rewrite <-IH by done.
  pose proof (be_to_native_range d Hd). pose proof (be_to_native_range e He').
  rewrite Hlen in *. set (p := 256 ^ Z.of_nat (length e)) in *.
  destruct (Z.ltb_spec x y) as [Hlt|Hge]; simpl.
  { apply Z.ltb_lt. nia. }
  destruct (Z.eqb_spec x y) as [->|Hne]; simpl.
  { destruct (Z.ltb_spec (be_to_native d) (be_to_native e)); [apply Z.ltb_lt|apply Z.ltb_ge]; lia. }
  apply Z.ltb_ge. nia.
Qed.

Lemma is_cstr_bytes s : is_cstr s → Forall is_byte s.
Proof. intros H. eapply Forall_impl; [done|]. unfold is_byte. simpl. lia. Qed.
Lemma buffer_bytes n s : Forall is_byte s → Forall is_byte (buffer n s).
Proof.
  intros Hs. apply Forall_take, Forall_app. split; [done|].
  apply Forall_replicate. unfold is_byte. lia.
Qed.
Lemma buffer_short n s : (length s ≤ n)%nat → buffer n s = s ++ replicate (n - length s) 0.
Proof.
  intros. unfold buffer. rewrite take_app_ge by done.
  by rewrite take_replicate, Nat.min_l by lia.
Qed.

Lemma strnlen_padded s k : is_cstr s → strnlen (s ++ replicate k 0) = length s.
Proof.
  induction 1 as [|b s Hb Hs IH]; simpl; [by destruct k|].
  destruct (Z.eqb_spec b 0); [lia|]. by rewrite IH.
Qed.

(** Bytes that do not end with a NUL, as names are written. *)
Definition trimmed (s : list Z) : Prop := Forall is_byte s ∧ last s ≠ Some 0.
Lemma is_cstr_trimmed s : is_cstr s → trimmed s.
Proof.
  intros Hs. split; [by apply is_cstr_bytes|]. intros Hl. apply last_Some in Hl as [l ->].
  apply Forall_app in Hs as [_ Hs]. inversion Hs. lia.
Qed.
Lemma trimmed_cons x s : trimmed (x :: s) → s ≠ [] → is_byte x ∧ trimmed s.
Proof. intros [Hb Hl] Hs. inversion Hb; subst. destruct s; [done|]. split; [done|]. by split. Qed.
Lemma trimmed_one x : trimmed [x] → 0 < x.
Proof. intros [Hb Hl]. inversion Hb as [|? ? Hx]; subst. unfold is_byte in Hx. cbn in Hl. assert (x ≠ 0) by congruence. lia. Qed.

Lemma lex_zeros_l k b : trimmed b → b ≠ [] → (length b ≤ k)%nat → ∀ l, lex_ltb (replicate k 0) (b ++ replicate l 0) = true.
Proof.
  revert k. induction b as [|y b IH]; intros k Hb Hne Hlen l; [done|]. destruct k as [|k]; [cbn in Hlen; lia|]. cbn.
  destruct (decide (b = [])) as [->|Hb0].
  - apply trimmed_one in Hb. by destruct (Z.ltb_spec 0 y); [|lia].
  - apply trimmed_cons in Hb as [Hy Hb]; [|done]. unfold is_byte in Hy.
    destruct (Z.ltb_spec 0 y); [done|]. assert (y = 0) as -> by lia. apply IH; [done|done|cbn in Hlen; lia].
Qed.
Lemma lex_zeros_r l a : trimmed a → a ≠ [] → (length a ≤ l)%nat → ∀ k, lex_ltb (a ++ replicate k 0) (replicate l 0) = false.
Proof.
  revert l. induction a as [|x a IH]; intros l Ha Hne Hlen k; [done|]. destruct l as [|l]; [done|]. cbn.
  destruct (decide (a = [])) as [->|Ha0].
  - apply trimmed_one in Ha. destruct (Z.ltb_spec x 0); [lia|]. by destruct (Z.eqb_spec x 0); [lia|].
  - apply trimmed_cons in Ha as [Hx Ha]; [|done]. unfold is_byte in Hx.
    destruct (Z.ltb_spec x 0); [lia|]. destruct (x =? 0); [|done]. apply IH; [done|done|cbn in Hlen; lia].
Qed.
Lemma lex_same_zeros k : lex_ltb (replicate k 0) (replicate k 0) = false.
Proof. by induction k. Qed.
Lemma lex_padded a b k l :
  trimmed a → trimmed b → (length a + k = length b + l)%nat →
  lex_ltb (a ++ replicate k 0) (b ++ replicate l 0) = lex_ltb a b.
Proof.
  revert b. induction a as [|x a IH]; intros b Ha Hb Hlen.
  - destruct b as [|y b]; cbn [app]; [cbn in Hlen; subst l; apply lex_same_zeros|].
    change (lex_ltb (replicate k 0) ((y :: b) ++ replicate l 0) = true). apply lex_zeros_l; [done|done|cbn in *; lia].
  - destruct b as [|y b].
    { change (lex_ltb ((x :: a) ++ replicate k 0) (replicate l 0) = false). apply lex_zeros_r; [done|done|cbn in *; lia]. }
    cbn.
    f_equal. destruct (Z.eqb_spec x y) as [<-|]; [|done]. cbn. cbn in Hlen.
    destruct (decide (a = [])) as [->|Ha0], (decide (b = [])) as [->|Hb0].
    + cbn in Hlen |- *. assert (k = l) as -> by lia. apply lex_same_zeros.
    + cbn [app]. apply trimmed_cons in Hb as [_ Hb]; [|done]. rewrite lex_zeros_l by (cbn in *; done || lia). by destruct b.
    + cbn [app]. apply trimmed_cons in Ha as [_ Ha]; [|done]. rewrite lex_zeros_r by (cbn in *; done || lia). by destruct a.
    + apply trimmed_cons in Ha as [_ Ha], Hb as [_ Hb]; [|done..]. apply IH; [done|done|lia].
Qed.

(** A C string that fits survives the conversion to a fixed string and back,
    and [size] is its length. *)
Theorem fixed_roundtrip n s :
  is_cstr s → (length s ≤ n)%nat →
  fixed_to_string n (fixed_string n s) = s ∧ fixed_size n (fixed_string n s) = length s.
Proof.
  intros Hs Hn. unfold fixed_to_string, fixed_size, fixed_string.
  pose proof (native_to_be_to_native (buffer n s) (buffer_bytes n s (is_cstr_bytes s Hs))) as E.
  rewrite length_buffer in E. rewrite E, buffer_short by done.
  assert ((if negb (default 0 ((s ++ replicate (n - length s) 0) !! (n - 1)%nat) =? 0)
    then n else strnlen (s ++ replicate (n - length s) 0)) = length s) as ->.
  { rewrite strnlen_padded by done.
    destruct (decide (length s = n)) as [<-|]; [by destruct (negb _)|].
    rewrite lookup_app_r by lia. rewrite lookup_replicate_2 by lia. done. }
  by rewrite take_app_length.
Qed.

Lemma fixed_roundtrip_witness :
  is_cstr [97; 98; 99] ∧ (length [97; 98; 99] ≤ 16)%nat ∧
  fixed_to_string 16 (fixed_string 16 [97; 98; 99]) = [97; 98; 99].
Proof.
  assert (is_cstr [97; 98; 99]) as H by (repeat constructor; lia).
  assert (length [97; 98; 99] ≤ 16)%nat as Hl by (simpl; lia).
  split; [exact H|]. split; [exact Hl|].
  exact (proj1 (fixed_roundtrip 16 [97; 98; 99] H Hl)).
Defined.

(** Comparing the numbers compares the strings lexicographically. *)
Theorem fixed_ltb_lexicographic n a b :
  trimmed a → trimmed b → (length a ≤ n)%nat → (length b ≤ n)%nat →
  fixed_ltb (fixed_string n a) (fixed_string n b) = lex_ltb a b.
Proof.
  intros Ha Hb Hla Hlb. unfold fixed_ltb, fixed_string.
  rewrite be_ltb_lex by (apply buffer_bytes, Ha || apply buffer_bytes, Hb || rewrite !length_buffer; done).
  rewrite !buffer_short by done. apply lex_padded; [done..|lia].
Qed.

Lemma fixed_ltb_lexicographic_witness :
  fixed_ltb (fixed_string 16 [97; 98]) (fixed_string 16 [97; 98; 0; 99]) = lex_ltb [97; 98] [97; 98; 0; 99].
Proof.
  apply (fixed_ltb_lexicographic 16 [97; 98] [97; 98; 0; 99]);
    [by split; [repeat constructor; unfold is_byte; lia|]..|simpl; lia|simpl; lia].
Defined.

Lemma replicate_snoc k (x : Z) : replicate (S k) x = replicate k x ++ [x].
Proof. induction k as [|k IH]; [done|]. cbn. by rewrite <- IH. Qed.
Lemma padded_inj a b k l : last a ≠ Some 0 → last b ≠ Some 0 → a ++ replicate k 0 = b ++ replicate l 0 → a = b.
Proof.
  intros Ha Hb. revert l. induction k as [|k IH]; intros [|l] E; rewrite ?app_nil_r in E; [done|..].
  - subst a. rewrite replicate_snoc, app_assoc, last_snoc in Ha. done.
  - subst b. rewrite replicate_snoc, app_assoc, last_snoc in Hb. done.
  - rewrite !replicate_snoc, !app_assoc in E. apply app_inj_tail in E as [E _]. by apply (IH l).
Qed.
(** Names are equal when their bytes are. *)
Lemma fixed_string_inj n a b :
  trimmed a → trimmed b → (length a ≤ n)%nat → (length b ≤ n)%nat → fixed_string n a = fixed_string n b → a = b.
Proof.
  intros Ha Hb Hla Hlb E. apply (f_equal (native_to_be n)) in E. unfold fixed_string in E.
  assert (∀ s, trimmed s → native_to_be n (be_to_native (buffer n s)) = buffer n s) as H.
  { intros s Hs. pose proof (native_to_be_to_native (buffer n s) (buffer_bytes n s (proj1 Hs))) as H. by rewrite length_buffer in H. }
  rewrite !H, !buffer_short in E by done. by eapply padded_inj; [apply Ha|apply Hb|].
Qed.
(** The string that a name converts to. *)
Lemma fixed_to_string_trimmed n s :
  trimmed s → (length s ≤ n)%nat →
  fixed_to_string n (fixed_string n s) = if decide (length s = n) then s else take (strnlen s) s.
Proof.
  intros [Hs Hl] Hn. unfold fixed_to_string, fixed_string.
  pose proof (native_to_be_to_native (buffer n s) (buffer_bytes n s Hs)) as E. rewrite length_buffer in E.
  rewrite E, buffer_short by done. case_decide as Hd.
  - rewrite Hd, Nat.sub_diag. cbn [replicate]. rewrite app_nil_r. subst n.
    destruct (decide (s = [])) as [->|Hne]; [done|]. rewrite Nat.sub_1_r, <- last_lookup.
    destruct (last s) as [c|] eqn:Ec; [|by apply last_None in Ec]. cbn [default id]. unfold id. destruct (Z.eqb_spec c 0) as [->|_]; [done|]. apply firstn_all.
  - rewrite lookup_app_r, lookup_replicate_2 by lia. cbn. clear Hd Hl E Hs.
    assert (strnlen (s ++ replicate (n - length s) 0) = strnlen s ∧ (strnlen s ≤ length s)%nat) as [-> Hle].
    { generalize (n - length s)%nat as k. intros k. induction s as [|b s IH]; [split; [by destruct k|done]|]. cbn.
      destruct (b =? 0); [cbn; lia|]. destruct IH as [-> ?]; [cbn in Hn; lia|]. cbn; lia. }
    by rewrite take_app_le.
Qed.

(** ** Account names

    [account_name_type] is [fixed_string_16]: its bytes are the codes of a string.  C
    strings end at the first NUL. *)
Fixpoint c_str (s : string) : string :=
  match s with
  | String.EmptyString => String.EmptyString
  | String.String c s =>
    if Ascii.eqb c Ascii.zero then String.EmptyString else String.String c (c_str s)
  end.
(** fixed_string.hpp:82: [operator std::string] of a name *)
Definition name_string (n : string) : string := if (16 <=? String.length n)%nat then n else c_str n.
(** fixed_string.hpp:97: [size()] of a name *)
Definition name_size (n : string) : Z := Z.of_nat (String.length (name_string n)).

(** fixed_string.hpp:71: the name that a [std::string] converts to: sixteen bytes at most,
    NULs at the end do not count *)
Fixpoint strip_nuls (s : string) : string :=
  match s with
  | String.EmptyString => String.EmptyString
  | String.String c s =>
    let r := strip_nuls s in
    if Ascii.eqb c Ascii.zero && String.eqb r "" then String.EmptyString else String.String c r
  end.
Definition to_name (s : string) : string := strip_nuls (String.substring 0 16 s).

Definition name_bytes (n : string) : list Z := code <$> String.list_ascii_of_string n.
Definition name_data (n : string) : Z := fixed_string 16 (name_bytes n).
(** At most sixteen bytes, the last one not NUL. *)
Definition canonical (n : string) : Prop := trimmed (name_bytes n) ∧ (String.length n ≤ 16)%nat.

Lemma length_name_bytes n : length (name_bytes n) = String.length n.
Proof. unfold name_bytes. rewrite length_fmap. induction n as [|c n IH]; [done|]. cbn. by rewrite IH. Qed.
Lemma name_bytes_c_str n : name_bytes (c_str n) = take (strnlen (name_bytes n)) (name_bytes n).
Proof.
  induction n as [|c n IH]; [done|]. cbn. unfold code at 2 4.
  destruct (Ascii.eqb_spec c Ascii.zero) as [->|Hc]; [done|].
  destruct (Z.eqb_spec (Z.of_N (N_of_ascii c)) 0) as [E|_].
  - destruct Hc. apply (f_equal Z.to_N) in E. rewrite N2Z.id in E. rewrite <- (ascii_N_embedding c), E. done.
  - cbn. f_equal. exact IH.
Qed.
Lemma name_bytes_inj a b : name_bytes a = name_bytes b → a = b.
Proof.
  revert b. induction a as [|c a IH]; intros [|d b] E; try done. cbn in E. injection E as Ec E.
  f_equal; [|by apply IH]. unfold code in Ec. apply N2Z.inj in Ec. by rewrite <- (ascii_N_embedding c), Ec, ascii_N_embedding.
Qed.
(** [name_string] and [name_size] are what [fixed_string] computes, and equal names are
    equal strings. *)
Lemma name_string_fixed n : canonical n → fixed_to_string 16 (name_data n) = name_bytes (name_string n).
Proof.
  intros [Ht Hl]. unfold name_data. rewrite fixed_to_string_trimmed by (done || by rewrite length_name_bytes).
  rewrite length_name_bytes. unfold name_string.
  destruct (Nat.leb_spec 16 (String.length n)); case_decide; [done|lia|lia|]. by rewrite name_bytes_c_str.
Qed.
Lemma name_data_inj a b : canonical a → canonical b → name_data a = name_data b → a = b.
Proof.
  intros [Ha Hla] [Hb Hlb] E. apply name_bytes_inj. apply (fixed_string_inj 16); [done|done|by rewrite length_name_bytes..|exact E].
Qed.

Lemma name_bytes_substring k s : name_bytes (String.substring 0 k s) = take k (name_bytes s).
Proof. revert s. induction k as [|k IH]; intros [|c s]; try done. cbn. f_equal. apply IH. Qed.
Lemma strip_nuls_spec s : ∃ k, name_bytes s = name_bytes (strip_nuls s) ++ replicate k 0.
Proof.
  induction s as [|c s [k IH]]; [by exists O|]. cbn [strip_nuls].
  destruct (Ascii.eqb_spec c Ascii.zero) as [->|_]; [destruct (String.eqb_spec (strip_nuls s) "") as [E|_]|]; cbn [andb].
  - exists (S k). cbn. f_equal. change (fmap code (String.list_ascii_of_string s)) with (name_bytes s). by rewrite IH, E.
  - exists k. cbn. f_equal. exact IH.
  - exists k. cbn. f_equal. exact IH.
Qed.
Lemma strip_nuls_last s : last (name_bytes (strip_nuls s)) ≠ Some 0.
Proof.
  induction s as [|c s IH]; [done|]. cbn [strip_nuls].
  destruct (String.eqb_spec (strip_nuls s) "") as [E|E].
  - rewrite E. destruct (Ascii.eqb_spec c Ascii.zero) as [->|Hc]; [done|]. cbn. intros [= H]. apply Hc.
    unfold code in H. apply (f_equal Z.to_N) in H. rewrite N2Z.id in H. by rewrite <- (ascii_N_embedding c), H.
  - rewrite andb_false_r. destruct (strip_nuls s) as [|d r]; [done|]. exact IH.
Qed.
Lemma name_bytes_byte s : Forall is_byte (name_bytes s).
Proof.
  unfold name_bytes. apply Forall_fmap, Forall_forall. intros c _. unfold is_byte, code. cbn.
  pose proof (N_ascii_bounded c). lia.
Qed.
(** [to_name] is the conversion of [fixed_string], and gives a name. *)
Lemma to_name_fixed s : canonical (to_name s) ∧ name_data (to_name s) = fixed_string 16 (name_bytes s).
Proof.
  unfold to_name. set (t := String.substring 0 16 s). destruct (strip_nuls_spec t) as [k Hk].
  assert (length (name_bytes t) ≤ 16)%nat as Hl by (unfold t; rewrite name_bytes_substring, length_take; lia).
  rewrite Hk, length_app, length_replicate in Hl. split; [split; [split; [apply name_bytes_byte|apply strip_nuls_last]|]|].
  { rewrite <- length_name_bytes. lia. }
  unfold name_data, fixed_string. f_equal. rewrite buffer_short by lia. unfold buffer.
  assert (take 16 (name_bytes s) = name_bytes (strip_nuls t) ++ replicate k 0) as E
    by (rewrite <- Hk; unfold t; by rewrite name_bytes_substring).
  destruct (decide (16 ≤ length (name_bytes s))%nat) as [Hle|Hlt].
  - rewrite take_app_le by lia. rewrite E. f_equal. f_equal.
    apply (f_equal length) in E. rewrite length_app, length_replicate, length_take in E. lia.
  - rewrite take_ge in E by lia. rewrite E, <- app_assoc, <- replicate_add, take_app_ge by lia.
    rewrite take_replicate. do 2 f_equal. lia.
Qed.
Lemma c_str_idem s : c_str (c_str s) = c_str s.
Proof. induction s as [|c s IH]; [done|]. cbn. destruct (Ascii.eqb c Ascii.zero) eqn:E; [done|]. cbn. by rewrite E, IH. Qed.
Lemma name_string_idem n : name_string (name_string n) = name_string n.
Proof.
  unfold name_string. destruct (Nat.leb_spec 16 (String.length n)) as [H|H].
  - by rewrite (proj2 (Nat.leb_le _ _) H).
  - rewrite c_str_idem. by destruct (16 <=? _)%nat.
Qed.

(** A name that is not empty, but whose size is 0: it begins with a NUL. *)
Definition hidden (n : string) : bool := (name_size n =? 0) && negb (String.eqb n "").
Lemma name_size_0 n : hidden n = false → name_size n = 0 → n = ""%string.
Proof. unfold hidden. intros Hn E. rewrite (proj2 (Z.eqb_eq _ _) E) in Hn. by apply negb_false_iff, String.eqb_eq in Hn. Qed.

(** ** Versions *)

(** version.cpp:26 *)
Definition version (m h r : Z) : Z :=
  let v := wrap 32 (Z.shiftl (Z.lor 0 m) 8) in
  let v := wrap 32 (Z.shiftl (Z.lor v h) 16) in
  Z.lor v r.
(** version.cpp:33, the three numbers that are printed *)
Definition version_parts (v : Z) : Z * Z * Z :=
  (Z.land (Z.shiftr v 24) 255, Z.land (Z.shiftr v 16) 255, Z.land v 65535).
(** version.hpp:35, version.cpp:81 *)
Definition hardfork_version (v : Z) : Z := Z.land v 4294901760.
(** version.cpp:64, after the parts are read *)
Definition version_of_parts (major hardfork revision : Z) : result Z :=
  FC_ASSERT (major <=? 255);; FC_ASSERT (hardfork <=? 255);; FC_ASSERT (revision <=? 65535);;
  mret (Z.lor (Z.lor (Z.lor 0 (Z.shiftl major 24)) (Z.shiftl hardfork 16)) revision).
