(* ===== verification/Authority.v ===== *)
(** * Authority: weighted multi-signature authorities

    [libraries/protocol/authority.cpp] and [sign_state.cpp].  A [flat_map] is its
    list of entries in key order; a public key is an opaque number.

    [check_authority] explores the accounts an authority names, to a bounded
    depth, and remembers the approved ones.  [satisfied] is what it is meant to
    decide, with no depth bound; [check_authority_sound] proves that whatever
    it accepts is satisfied by the signatures. *)

From S2P Require Import Prelude FcLib Config Names.

(** authority.hpp:49 *)
Record authority := Authority {
  weight_threshold : Z;
  account_auths : list (string * Z);
  key_auths : list (Z * Z)
}.
#[global] Instance authority_eta : Eta authority :=
  λ r, Authority (weight_threshold r) (account_auths r) (key_auths r).
#[global] Instance authority_eq_dec : EqDecision authority.
Proof. solve_decision. Defined.

(** [flat_map::operator[]= ] on a list in key order. *)
Fixpoint flat_insert {K} (ltb : K → K → bool) (k : K) (w : Z) (l : list (K * Z)) : list (K * Z) :=
  match l with
  | [] => [(k, w)]
  | (k', w') :: l' =>
    if ltb k k' then (k, w) :: l
    else if ltb k' k then (k', w') :: flat_insert ltb k w l'
    else (k', w) :: l'
  end.

(** authority.cpp:6 and 11 *)
Definition add_key_authority (k w : Z) (a : authority) : authority :=
  a <| key_auths ::= flat_insert Z.ltb k w |>.
Definition add_account_authority (k : string) (w : Z) (a : authority) : authority :=
  a <| account_auths ::= flat_insert String.ltb k w |>.

(** authority.cpp:16-35 *)
Definition get_keys (a : authority) : list Z := (key_auths a).*1.
Definition is_impossible (a : authority) : bool :=
  let w := foldl (λ acc (e : string * Z), wrap 64 (acc + e.2)) 0 (account_auths a) in
  let w := foldl (λ acc (e : Z * Z), wrap 64 (acc + e.2)) w (key_auths a) in
  w <? weight_threshold a.
Definition num_auths (a : authority) : Z :=
  wrap 32 (Z.of_nat (length (account_auths a)) + Z.of_nat (length (key_auths a))).
Definition clear_auths (a : authority) : authority :=
  a <| account_auths := [] |> <| key_auths := [] |>.
(** authority.cpp:37: the names convert to strings *)
Definition authority_validate (a : authority) : result unit :=
  FC_ASSERT (forallb (λ e : string * Z, is_valid_account_name (name_string e.1)) (account_auths a)).

(** ** sign_state *)

(** sign_state.hpp:10; [get_active] and [available_keys] are references to
    arguments of the constructor. *)
Record sign_state := SignState {
  provided_signatures : gmap Z bool;
  approved_by : gset string
}.
#[global] Instance sign_state_eta : Eta sign_state :=
  λ r, SignState (provided_signatures r) (approved_by r).

(** sign_state.cpp:74 *)
Definition new_sign_state (sigs : list Z) : sign_state :=
  SignState (list_to_map ((λ k, (k, false)) <$> sigs)) {[ WLS_TEMP_ACCOUNT ]}.

Section check.
Context (get_active : string → result authority) (available_keys : list Z).

(** sign_state.cpp:6 *)
Definition signed_by (k : Z) : M sign_state bool :=
  s ← gets id;
  match provided_signatures s !! k with
  | None =>
    if decide (k ∈ available_keys) then
      modify (λ s, s <| provided_signatures ::= <[k := true]> |>);; mret true
    else mret false
  | Some _ => modify (λ s, s <| provided_signatures ::= <[k := true]> |>);; mret true
  end.

(** sign_state.cpp:28: [inl] when the loop returns true, [inr] the weight. *)
Fixpoint check_keys (threshold : Z) (l : list (Z * Z)) (total : Z) : M sign_state (unit + Z) :=
  match l with
  | [] => mret (inr total)
  | (k, w) :: l =>
    signed ← signed_by k;
    if (signed : bool) then
      let total := wrap 32 (total + w) in
      if threshold <=? total then mret (inl tt) else check_keys threshold l total
    else check_keys threshold l total
  end.

(** sign_state.cpp:38: [approved_by] and [get_active] take the names as strings; [check] is the recursive call, absent at the maximal depth. *)
Fixpoint check_accounts (check : option (authority → M sign_state bool))
    (threshold : Z) (l : list (string * Z)) (total : Z) : M sign_state (unit + Z) :=
  match l with
  | [] => mret (inr total)
  | (n, w) :: l =>
    let a := name_string n in
    s ← gets id;
    if decide (a ∈ approved_by s) then
      let total := wrap 32 (total + w) in
      if threshold <=? total then mret (inl tt) else check_accounts check threshold l total
    else
      match check with
      | None => check_accounts check threshold l total
      | Some rec =>
        auth ← lift (get_active a);
        ok ← rec auth;
        if (ok : bool) then
          modify (λ s, s <| approved_by ::= union {[a]} |>);;
          let total := wrap 32 (total + w) in
          if threshold <=? total then mret (inl tt) else check_accounts check threshold l total
        else check_accounts check threshold l total
      end
  end.

(** sign_state.cpp:25.  [rem] is [max_recursion - depth]. *)
Fixpoint check_authority (rem : nat) (auth : authority) : M sign_state bool :=
  r ← check_keys (weight_threshold auth) (key_auths auth) 0;
  match r with
  | inl _ => mret true
  | inr total =>
    r ← check_accounts (match rem with O => None | S rem => Some (check_authority rem) end)
          (weight_threshold auth) (account_auths auth) total;
    match r with
    | inl _ => mret true
    | inr total => mret (weight_threshold auth <=? total)
    end
  end.

(** sign_state.cpp:19 *)
Definition check_account (max_recursion : nat) (id : string) : M sign_state bool :=
  s ← gets Datatypes.id;
  if decide (id ∈ approved_by s) then mret true
  else auth ← lift (get_active id); check_authority max_recursion auth.

(** sign_state.cpp:62 *)
Definition remove_unused_signatures : M sign_state bool :=
  s ← gets id;
  let remove_sigs := (map_to_list (provided_signatures s)).*1 in
  let remove_sigs := filter (λ k, provided_signatures s !! k = Some false) remove_sigs in
  modify (λ s, s <| provided_signatures ::= λ m, foldr delete m remove_sigs |>);;
  mret (negb (Nat.eqb (length remove_sigs) 0)).

(** ** What it means *)

Definition sum_weights {K} (l : list (K * Z)) : Z := foldr (λ e acc, e.2 + acc) 0 l.

(** The authority is reached by distinct entries whose keys have signed and
    whose accounts, by the strings of their names, are approved from the start, or satisfy their own authority. *)
Inductive satisfied (signed : Z → Prop) (initially : string → Prop) : authority → Prop :=
| satisfied_intro auth ks accs :
    sublist ks (key_auths auth) → (∀ e, e ∈ ks → signed e.1) →
    sublist accs (account_auths auth) →
    (∀ e, e ∈ accs → initially (name_string e.1) ∨
      ∃ auth', get_active (name_string e.1) = Ok auth' ∧ satisfied signed initially auth') →
    weight_threshold auth ≤ sum_weights ks + sum_weights accs →
    satisfied signed initially auth.

Lemma satisfied_mono (P Q : Z → Prop) (initially : string → Prop) :
  (∀ k, P k → Q k) → ∀ auth, satisfied P initially auth → satisfied Q initially auth.
Proof.
  intros HPQ. fix IH 2. intros auth [auth' ks accs Hks Hs Haccs Ha Hw].
  eapply (satisfied_intro _ _ _ ks accs); [done|auto|done| |done].
  intros e He. destruct (Ha e He) as [?|(auth'' & Hg & Hsat)]; [by left|].
  right. exists auth''. split; [done|]. by apply IH.
Qed.

Definition approved (signed : Z → Prop) (initially : string → Prop) (a : string) : Prop :=
  initially a ∨ ∃ auth, get_active a = Ok auth ∧ satisfied signed initially auth.

Definition weights_nonneg (a : authority) : Prop :=
  Forall (λ e : Z * Z, 0 ≤ e.2) (key_auths a) ∧ Forall (λ e : string * Z, 0 ≤ e.2) (account_auths a).

Section sound.
Context (sigs : Z → Prop) (initially : string → Prop).
Context (Hgetter : ∀ a auth, get_active a = Ok auth → weights_nonneg auth).
Notation signed := (λ k, sigs k ∨ k ∈ available_keys).

(** The invariant of the state: only signatures that were provided or are
    available are in it, and every approved account is. *)
Definition state_ok (s : sign_state) : Prop :=
  (∀ k b, provided_signatures s !! k = Some b → sigs k ∨ k ∈ available_keys) ∧
  (∀ a, a ∈ approved_by s → approved (λ k, sigs k ∨ k ∈ available_keys) initially a).

Lemma signed_by_sound k s :
  state_ok s → wp (signed_by k) (λ b s', state_ok s' ∧ (b = true → signed k)) s.
Proof.
  intros [Hp Ha]. unfold signed_by. wp_steps.
  destruct (provided_signatures s !! k) as [b|] eqn:E.
  - wp_steps. split; [|intros _; by eapply Hp]. split; [|done]. simpl.
    intros k' b'. destruct (decide (k' = k)) as [->|Hne].
    + intros _. by eapply Hp.
    + rewrite lookup_insert_ne by done. apply Hp.
  - destruct (decide (k ∈ available_keys)); wp_steps; [|by split].
    split; [|auto]. split; [|done]. simpl.
    intros k' b'. destruct (decide (k' = k)) as [->|Hne]; [auto|].
    rewrite lookup_insert_ne by done. apply Hp.
Qed.

Lemma wrap_le w z : 0 ≤ w → 0 ≤ z → 0 ≤ wrap w z ≤ z.
Proof.
  intros. pose proof (wrap_range w z ltac:(done)). split; [lia|].
  apply Z.mod_le; [done|]. by apply Z.pow_pos_nonneg.
Qed.

(** The weight counted so far is at most the weight of the entries found good. *)
Lemma check_keys_sound threshold l total s :
  state_ok s → Forall (λ e : Z * Z, 0 ≤ e.2) l → 0 ≤ total →
  wp (check_keys threshold l total) (λ r s', state_ok s' ∧
    ∃ ks, sublist ks l ∧ (∀ e, e ∈ ks → signed e.1) ∧
      match r with
      | inl _ => threshold ≤ total + sum_weights ks
      | inr t => 0 ≤ t ≤ total + sum_weights ks
      end) s.
Proof.
  intros Hs Hl. revert total s Hs. induction Hl as [|[k w] l Hw Hl IH]; intros total s Hs Ht; simpl.
  { wp_steps. split; [done|]. exists []. split_and!; [done|by intros ? ?%elem_of_nil|lia|simpl; lia]. }
  simpl in Hw. wp_step. eapply wp_mono; [by apply signed_by_sound|].
  intros [] s' [Hs' Hk].
  - pose proof (wrap_le 32 (total + w) ltac:(lia) ltac:(lia)).
    wp_step; wp_steps.
    + split; [done|]. exists [(k, w)]. split_and!; [apply sublist_skip, sublist_nil_l| |].
      * intros e ->%list_elem_of_singleton. auto.
      * simpl. lia.
    + eapply wp_mono; [apply IH; [done|lia]|].
      intros r s'' (Hs'' & ks & Hsub & Hks & Hr). split; [done|]. exists ((k, w) :: ks).
      split_and!; [by apply sublist_skip| |].
      * intros e [->|He]%elem_of_cons; [auto|by apply Hks].
      * simpl. destruct r; lia.
  - eapply wp_mono; [by apply IH|]. intros r s'' (Hs'' & ks & Hsub & Hks & Hr).
    split; [done|]. exists ks. split_and!; [by apply sublist_cons|done|done].
Qed.

Lemma check_accounts_sound check threshold l total s :
  state_ok s → Forall (λ e : string * Z, 0 ≤ e.2) l → 0 ≤ total →
  (∀ rec auth s, check = Some rec → state_ok s → weights_nonneg auth →
    wp (rec auth) (λ b s', state_ok s' ∧ (b = true → satisfied signed initially auth)) s) →
  wp (check_accounts check threshold l total) (λ r s', state_ok s' ∧
    ∃ accs, sublist accs l ∧ (∀ e, e ∈ accs → approved signed initially (name_string e.1)) ∧
      match r with
      | inl _ => threshold ≤ total + sum_weights accs
      | inr t => 0 ≤ t ≤ total + sum_weights accs
      end) s.
Proof.
  intros Hs Hl Ht Hrec. revert total s Hs Ht.
  induction Hl as [|[a w] l Hw Hl IH]; intros total s Hs Ht; simpl.
  { wp_steps. split; [done|]. exists []. split_and!; [done|by intros ? ?%elem_of_nil|lia|simpl; lia]. }
  simpl in Hw.
  assert (∀ s, state_ok s → wp (check_accounts check threshold l total) (λ r s', state_ok s' ∧
    ∃ accs, sublist accs ((a, w) :: l) ∧ (∀ e, e ∈ accs → approved signed initially (name_string e.1)) ∧
      match r with
      | inl _ => threshold ≤ total + sum_weights accs
      | inr t => 0 ≤ t ≤ total + sum_weights accs
      end) s) as Hskip.
  { intros s1 Hs1. eapply wp_mono; [by apply IH|].
    intros r s2 (Hs2 & accs & Hsub & Haccs & Hr). split; [done|]. exists accs.
    split_and!; [by apply sublist_cons|done|done]. }
  assert (∀ s, state_ok s → approved signed initially (name_string a) →
    wp (if threshold <=? wrap 32 (total + w) then mret (inl tt)
        else check_accounts check threshold l (wrap 32 (total + w))) (λ r s', state_ok s' ∧
    ∃ accs, sublist accs ((a, w) :: l) ∧ (∀ e, e ∈ accs → approved signed initially (name_string e.1)) ∧
      match r with
      | inl _ => threshold ≤ total + sum_weights accs
      | inr t => 0 ≤ t ≤ total + sum_weights accs
      end) s) as Htake.
  { intros s1 Hs1 Happ. pose proof (wrap_le 32 (total + w) ltac:(lia) ltac:(lia)).
    wp_step; wp_steps.
    - split; [done|]. exists [(a, w)]. split_and!; [apply sublist_skip, sublist_nil_l| |simpl; lia].
      intros e ->%list_elem_of_singleton. done.
    - eapply wp_mono; [apply IH; [done|lia]|].
      intros r s2 (Hs2 & accs & Hsub & Haccs & Hr). split; [done|]. exists ((a, w) :: accs).
      split_and!; [by apply sublist_skip| |simpl; destruct r; lia].
      intros e [->|He]%elem_of_cons; [done|by apply Haccs]. }
  wp_step. wp_step. simpl. destruct (decide (name_string a ∈ approved_by s)) as [Ha|Ha].
  { apply Htake; [done|]. by apply Hs. }
  destruct check as [rec|]; [|by apply Hskip].
  wp_step. wp_step. wp_step. eapply wp_mono; [apply Hrec; eauto|].
  intros [] s' [Hs' Hsat]; [|by apply Hskip].
  assert (approved signed initially (name_string a)) as Happ by (right; eauto).
  wp_step. wp_step. apply Htake; [|done].
  destruct Hs' as [Hp' Ha']. split; [done|]. simpl. intros b Hb.
  apply elem_of_union in Hb as [->%elem_of_singleton|Hb]; auto.
Qed.

Lemma check_authority_good rem auth s :
  state_ok s → weights_nonneg auth →
  wp (check_authority rem auth) (λ b s', state_ok s' ∧ (b = true → satisfied signed initially auth)) s.
Proof.
  revert auth s. induction rem as [|rem IH]; intros auth s Hs [Hk Ha]; simpl;
  (wp_step; eapply wp_mono; [apply check_keys_sound; [done|done|lia]|];
   intros r s' (Hs' & ks & Hsub & Hks & Hr); destruct r as [|t]; simpl;
   [wp_steps; split; [done|]; intros _; eapply (satisfied_intro _ _ _ ks []);
      [done|done|apply sublist_nil_l|by intros ? ?%elem_of_nil|simpl; lia]|];
   wp_step; eapply wp_mono;
   [apply check_accounts_sound; [done|done|lia|]|
    intros r2 s2 (Hs2 & accs & Hsub2 & Haccs & Hr2);
    destruct r2 as [|t2]; wp_steps; (split; [done|]); intros ?;
    (eapply (satisfied_intro _ _ _ ks accs); [done|done|done|apply Haccs|]);
    try match goal with H : (_ <=? _) = true |- _ => apply Z.leb_le in H end; lia]).
  - done.
  - intros rec auth' s1 [= <-] Hs1 Hw1. by apply IH.
Qed.
End sound.
End check.
