(* ===== verification/Operations.v ===== *)
(** * Operations: what a transaction can ask for

    The operation structs of [include/wls/protocol/wls_operations.hpp] with the
    authorities they require, the [validate] methods of
    [libraries/protocol/wls_operations.cpp], the variant [operation] of
    [operations.hpp] with its visitors, and the chain properties a witness
    votes for.  A [flat_set] is its list of elements in order. *)

From S2P Require Import Prelude FcLib Config Asset Names Authority.
From Stdlib Require String Ascii.

Definition str_size (s : string) : Z := Z.of_nat (String.length s).

Section validate_helpers.
Context `{FC : FcLib}.
(** wls_operations.hpp:11-20, wls_operations.cpp:8: the name converts to a string *)
Definition validate_account_name (name : string) : result unit :=
  FC_ASSERT (is_valid_account_name (name_string name)).
Definition validate_permlink (permlink : string) : result unit :=
  FC_ASSERT (str_size permlink <? WLS_MAX_PERMLINK_LENGTH);; FC_ASSERT (is_utf8 permlink).
Definition is_asset_type (a : asset) (sym : Z) : bool := symbol a =? sym.
Definition validate_json_metadata (json_metadata : string) : result unit :=
  if 0 <? str_size json_metadata then
    FC_ASSERT (is_utf8 json_metadata);; FC_ASSERT (json_is_valid json_metadata)
  else mret tt.
(** [a >= asset( 0, WLS_SYMBOL )] under FC_ASSERT: it throws also when the
    symbols differ *)
Definition assert_not_negative (a : asset) : result unit :=
  b ← asset_geb a (Asset 0 WLS_SYMBOL); FC_ASSERT b.
End validate_helpers.

(** wls_operations.hpp:22 *)
Record account_create_operation := AccountCreate {
  ac_fee : asset; ac_creator : string; ac_new_account_name : string;
  ac_owner : authority; ac_active : authority; ac_posting : authority;
  ac_memo_key : Z; ac_json_metadata : string }.
(** wls_operations.hpp:37 *)
Record account_update_operation := AccountUpdate {
  au_account : string; au_owner : option authority; au_active : option authority;
  au_posting : option authority; au_memo_key : Z; au_json_metadata : string }.
(** wls_operations.hpp:55 *)
Record account_forsale_operation := AccountForsale {
  af_account : string; af_for_sale : bool; af_to : string; af_price : asset }.
(** wls_operations.hpp:66 *)
Record account_buying_operation := AccountBuying {
  ab_account : string; ab_account_buy : string; ab_price : asset }.
(** wls_operations.hpp:76 *)
Record comment_operation := CommentOp {
  co_parent_author : string; co_parent_permlink : string; co_author : string;
  co_permlink : string; co_title : string; co_body : string; co_json_metadata : string }.
(** wls_operations.hpp:92 *)
Record beneficiary_route_type := Beneficiary { b_account : string; b_weight : Z }.
(** wls_operations.hpp:123; the only extension is [comment_payout_beneficiaries] *)
Record comment_options_operation := CommentOptions {
  cp_author : string; cp_permlink : string; cp_max_accepted_payout : asset;
  cp_allow_votes : bool; cp_allow_curation_rewards : bool;
  cp_extensions : list (list beneficiary_route_type) }.
(** wls_operations.hpp:137 *)
Record delete_comment_operation := DeleteComment { dc_author : string; dc_permlink : string }.
(** wls_operations.hpp:147 *)
Record vote_operation := VoteOp {
  vo_voter : string; vo_author : string; vo_permlink : string; vo_weight : Z }.
(** wls_operations.hpp:164 *)
Record transfer_operation := TransferOp {
  tr_from : string; tr_to : string; tr_amount : asset; tr_memo : string }.
(** wls_operations.hpp:188 *)
Record transfer_to_vesting_operation := TransferToVesting {
  tv_from : string; tv_to : string; tv_amount : asset }.
(** wls_operations.hpp:210 *)
Record withdraw_vesting_operation := WithdrawVesting {
  wv_account : string; wv_vesting_shares : asset }.
(** wls_operations.hpp:227 *)
Record set_withdraw_vesting_route_operation := SetRoute {
  sr_from_account : string; sr_to_account : string; sr_percent : Z; sr_auto_vest : bool }.
(** wls_operations.hpp:244 *)
Record chain_properties := ChainProperties {
  account_creation_fee : asset; maximum_block_size : Z }.
#[global] Instance chain_properties_eta : Eta chain_properties := λ r,
  ChainProperties (account_creation_fee r) (maximum_block_size r).
(** wls_operations.hpp:282 *)
Record witness_update_operation := WitnessUpdate {
  wu_owner : string; wu_url : string; wu_block_signing_key : Z;
  wu_props : chain_properties; wu_fee : asset }.
(** wls_operations.hpp:300 *)
Record account_witness_vote_operation := WitnessVote {
  aw_account : string; aw_witness : string; aw_approve : bool }.
(** wls_operations.hpp:311 *)
Record account_witness_proxy_operation := WitnessProxy {
  ap_account : string; ap_proxy : string }.
(** wls_operations.hpp:327 *)
Record custom_operation := CustomOp {
  cu_required_auths : list string; cu_id : Z; cu_data : list Z }.
(** wls_operations.hpp:341 *)
Record custom_json_operation := CustomJson {
  cj_required_auths : list string; cj_required_posting_auths : list string;
  cj_id : string; cj_json : string }.
(** wls_operations.hpp:354 *)
Record custom_binary_operation := CustomBinary {
  cb_required_owner_auths : list string; cb_required_active_auths : list string;
  cb_required_posting_auths : list string; cb_required_auths : list authority;
  cb_id : string; cb_data : list Z }.
(** wls_operations.hpp:371 *)
Record claim_reward_balance_operation := ClaimReward {
  cr_account : string; cr_reward_steem : asset; cr_reward_vests : asset }.

Definition default_chain_properties : chain_properties :=
  ChainProperties (Asset WLS_MIN_ACCOUNT_CREATION_FEE WLS_SYMBOL) (WLS_MIN_BLOCK_SIZE_LIMIT * 2).

(** wls_virtual_operations.hpp:10 *)
Inductive virtual_operation :=
| author_reward_operation (author permlink : string) (steem_payout vesting_payout : asset)
| curation_reward_operation (curator : string) (reward : asset) (comment_author comment_permlink : string)
| comment_reward_operation (author permlink : string) (payout : asset)
| fill_vesting_withdraw_operation (from_account to_account : string) (withdrawn deposited : asset)
| shutdown_witness_operation (owner : string)
| hardfork_operation (hardfork_id : Z)
| comment_payout_update_operation (author permlink : string)
| comment_benefactor_reward_operation (benefactor author permlink : string) (reward : asset)
| producer_reward_operation (producer : string) (vesting_shares : asset)
| devfund_operation (account : string) (reward : asset).

Inductive operation :=
| vote_op (o : vote_operation)
| comment_op (o : comment_operation)
| transfer_op (o : transfer_operation)
| transfer_to_vesting_op (o : transfer_to_vesting_operation)
| withdraw_vesting_op (o : withdraw_vesting_operation)
| account_create_op (o : account_create_operation)
| account_update_op (o : account_update_operation)
| account_forsale_op (o : account_forsale_operation)
| account_buying_op (o : account_buying_operation)
| witness_update_op (o : witness_update_operation)
| account_witness_vote_op (o : account_witness_vote_operation)
| account_witness_proxy_op (o : account_witness_proxy_operation)
| custom_op (o : custom_operation)
| delete_comment_op (o : delete_comment_operation)
| custom_json_op (o : custom_json_operation)
| comment_options_op (o : comment_options_operation)
| set_withdraw_vesting_route_op (o : set_withdraw_vesting_route_operation)
| custom_binary_op (o : custom_binary_operation)
| claim_reward_balance_op (o : claim_reward_balance_operation)
| virtual_op (o : virtual_operation).

Section validate.
Context `{FC : FcLib}.

(** wls_operations.cpp:13 *)
Definition account_create_validate (o : account_create_operation) : result unit :=
  validate_account_name (ac_new_account_name o);;
  FC_ASSERT (is_asset_type (ac_fee o) WLS_SYMBOL);;
  authority_validate (ac_owner o);;
  authority_validate (ac_active o);;
  validate_json_metadata (ac_json_metadata o);;
  assert_not_negative (ac_fee o).

(** wls_operations.cpp:28 *)
Definition account_update_validate (o : account_update_operation) : result unit :=
  validate_account_name (au_account o);;
  validate_json_metadata (au_json_metadata o).

(** wls_operations.cpp:45 *)
Definition account_forsale_validate (o : account_forsale_operation) : result unit :=
  validate_account_name (af_account o);; validate_account_name (af_to o);;
  FC_ASSERT (is_asset_type (af_price o) WLS_SYMBOL);;
  assert_not_negative (af_price o).

(** wls_operations.cpp:54 *)
Definition account_buying_validate (o : account_buying_operation) : result unit :=
  validate_account_name (ab_account o);; validate_account_name (ab_account_buy o);;
  FC_ASSERT (is_asset_type (ab_price o) WLS_SYMBOL);;
  assert_not_negative (ab_price o).

(** wls_operations.cpp:62 *)
Definition comment_validate (o : comment_operation) : result unit :=
  FC_ASSERT (str_size (co_title o) <? 256);;
  FC_ASSERT (is_utf8 (co_title o));;
  FC_ASSERT (0 <? str_size (co_body o));;
  FC_ASSERT (is_utf8 (co_body o));;
  (if negb (name_size (co_parent_author o) =? 0) then validate_account_name (co_parent_author o)
   else mret tt);;
  validate_account_name (co_author o);;
  validate_permlink (co_parent_permlink o);;
  validate_permlink (co_permlink o);;
  if 0 <? str_size (co_json_metadata o) then FC_ASSERT (json_is_valid (co_json_metadata o))
  else mret tt.

(** wls_operations.cpp:106, the loop from the second beneficiary on *)
Fixpoint beneficiaries_loop (prev : beneficiary_route_type) (sum : Z)
    (l : list beneficiary_route_type) : result unit :=
  match l with
  | [] => mret tt
  | b :: l =>
    validate_account_name (b_account b);;
    FC_ASSERT (b_weight b <=? WLS_100_PERCENT);;
    let sum := wrap 32 (sum + b_weight b) in
    FC_ASSERT (sum <=? WLS_100_PERCENT);;
    FC_ASSERT (String.ltb (b_account prev) (b_account b));;
    beneficiaries_loop b sum l
  end.

(** wls_operations.cpp:94 *)
Definition beneficiaries_validate (l : list beneficiary_route_type) : result unit :=
  match l with
  | [] => Err assert_exception
  | b :: l' =>
    FC_ASSERT (Z.of_nat (length l) <? 128);;
    validate_account_name (b_account b);;
    FC_ASSERT (b_weight b <=? WLS_100_PERCENT);;
    let sum := wrap 32 (0 + b_weight b) in
    FC_ASSERT (sum <=? WLS_100_PERCENT);;
    beneficiaries_loop b sum l'
  end.

Fixpoint each {A} (f : A → result unit) (l : list A) : result unit :=
  match l with [] => mret tt | x :: l => f x;; each f l end.
Lemma each_elem {A} (f : A → result unit) l u x : each f l = Ok u → x ∈ l → f x = Ok tt.
Proof.
  induction l as [|y l IH]; simpl; [by intros _ ?%elem_of_nil|].
  intros ([] & Hy & Hl)%bind_Ok [->|Hx]%elem_of_cons; eauto.
Qed.

(** wls_operations.cpp:116 *)
Definition comment_options_validate (o : comment_options_operation) : result unit :=
  validate_account_name (cp_author o);;
  FC_ASSERT (symbol (cp_max_accepted_payout o) =? WLS_SYMBOL);;
  FC_ASSERT (0 <=? amount (cp_max_accepted_payout o));;
  validate_permlink (cp_permlink o);;
  each beneficiaries_validate (cp_extensions o).

(** wls_operations.cpp:126 *)
Definition delete_comment_validate (o : delete_comment_operation) : result unit :=
  validate_permlink (dc_permlink o);; validate_account_name (dc_author o).

(** wls_operations.cpp:132 *)
Definition vote_validate (o : vote_operation) : result unit :=
  validate_account_name (vo_voter o);; validate_account_name (vo_author o);;
  FC_ASSERT (Z.abs (vo_weight o) <=? WLS_100_PERCENT);;
  validate_permlink (vo_permlink o).

(** wls_operations.cpp:140 *)
Definition transfer_validate (o : transfer_operation) : result unit :=
  validate_account_name (tr_from o);; validate_account_name (tr_to o);;
  FC_ASSERT (negb (symbol (tr_amount o) =? VESTS_SYMBOL));;
  FC_ASSERT (0 <? amount (tr_amount o));;
  FC_ASSERT (str_size (tr_memo o) <? WLS_MAX_MEMO_SIZE);;
  FC_ASSERT (is_utf8 (tr_memo o)).

(** wls_operations.cpp:150 *)
Definition transfer_to_vesting_validate (o : transfer_to_vesting_operation) : result unit :=
  validate_account_name (tv_from o);;
  FC_ASSERT (is_asset_type (tv_amount o) WLS_SYMBOL);;
  (if negb (String.eqb (tv_to o) "") then validate_account_name (tv_to o) else mret tt);;
  b ← asset_gtb (tv_amount o) (Asset 0 WLS_SYMBOL);
  FC_ASSERT b.

(** wls_operations.cpp:158 *)
Definition withdraw_vesting_validate (o : withdraw_vesting_operation) : result unit :=
  validate_account_name (wv_account o);;
  FC_ASSERT (is_asset_type (wv_vesting_shares o) VESTS_SYMBOL).

(** wls_operations.cpp:164 *)
Definition set_withdraw_vesting_route_validate (o : set_withdraw_vesting_route_operation) : result unit :=
  validate_account_name (sr_from_account o);; validate_account_name (sr_to_account o);;
  FC_ASSERT ((0 <=? sr_percent o) && (sr_percent o <=? WLS_100_PERCENT)).

(** wls_operations.hpp:260 *)
Definition chain_properties_validate (p : chain_properties) : result unit :=
  FC_ASSERT (WLS_MIN_ACCOUNT_CREATION_FEE <=? amount (account_creation_fee p));;
  FC_ASSERT (WLS_MIN_BLOCK_SIZE_LIMIT <=? maximum_block_size p).

(** wls_operations.cpp:171 *)
Definition witness_update_validate (o : witness_update_operation) : result unit :=
  validate_account_name (wu_owner o);;
  FC_ASSERT (0 <? str_size (wu_url o));;
  FC_ASSERT (is_utf8 (wu_url o));;
  assert_not_negative (wu_fee o);;
  chain_properties_validate (wu_props o).

(** wls_operations.cpp:180 *)
Definition account_witness_vote_validate (o : account_witness_vote_operation) : result unit :=
  validate_account_name (aw_account o);; validate_account_name (aw_witness o).

(** wls_operations.cpp:186 *)
Definition account_witness_proxy_validate (o : account_witness_proxy_operation) : result unit :=
  validate_account_name (ap_account o);;
  (if negb (name_size (ap_proxy o) =? 0) then validate_account_name (ap_proxy o) else mret tt);;
  FC_ASSERT (negb (String.eqb (ap_proxy o) (ap_account o))).

(** wls_operations.cpp:194-210 *)
Definition custom_validate (o : custom_operation) : result unit :=
  FC_ASSERT (0 <? Z.of_nat (length (cu_required_auths o))).
Definition custom_json_validate (o : custom_json_operation) : result unit :=
  FC_ASSERT (0 <? Z.of_nat (length (cj_required_auths o)) +
                  Z.of_nat (length (cj_required_posting_auths o)));;
  FC_ASSERT (str_size (cj_id o) <=? 32);;
  FC_ASSERT (is_utf8 (cj_json o));;
  FC_ASSERT (json_is_valid (cj_json o)).
Definition custom_binary_validate (o : custom_binary_operation) : result unit :=
  FC_ASSERT (0 <? Z.of_nat (length (cb_required_owner_auths o)) +
                  Z.of_nat (length (cb_required_active_auths o)) +
                  Z.of_nat (length (cb_required_posting_auths o)));;
  FC_ASSERT (str_size (cb_id o) <=? 32);;
  each authority_validate (cb_required_auths o).

(** wls_operations.cpp:212 *)
Definition claim_reward_balance_validate (o : claim_reward_balance_operation) : result unit :=
  validate_account_name (cr_account o);;
  FC_ASSERT (is_asset_type (cr_reward_steem o) WLS_SYMBOL);;
  FC_ASSERT (is_asset_type (cr_reward_vests o) VESTS_SYMBOL);;
  FC_ASSERT (0 <=? amount (cr_reward_steem o));;
  FC_ASSERT (0 <=? amount (cr_reward_vests o));;
  FC_ASSERT ((0 <? amount (cr_reward_steem o)) || (0 <? amount (cr_reward_vests o))).

(** operation_util_impl.hpp:43, base.hpp:22: a virtual operation is never valid *)
Definition operation_validate (op : operation) : result unit :=
  match op with
  | vote_op o => vote_validate o
  | comment_op o => comment_validate o
  | transfer_op o => transfer_validate o
  | transfer_to_vesting_op o => transfer_to_vesting_validate o
  | withdraw_vesting_op o => withdraw_vesting_validate o
  | account_create_op o => account_create_validate o
  | account_update_op o => account_update_validate o
  | account_forsale_op o => account_forsale_validate o
  | account_buying_op o => account_buying_validate o
  | witness_update_op o => witness_update_validate o
  | account_witness_vote_op o => account_witness_vote_validate o
  | account_witness_proxy_op o => account_witness_proxy_validate o
  | custom_op o => custom_validate o
  | delete_comment_op o => delete_comment_validate o
  | custom_json_op o => custom_json_validate o
  | comment_options_op o => comment_options_validate o
  | set_withdraw_vesting_route_op o => set_withdraw_vesting_route_validate o
  | custom_binary_op o => custom_binary_validate o
  | claim_reward_balance_op o => claim_reward_balance_validate o
  | virtual_op _ => Err assert_exception
  end.

End validate.

(** operations.cpp:7-31 *)
Definition is_market_operation (op : operation) : bool :=
  match op with transfer_op _ | transfer_to_vesting_op _ => true | _ => false end.
Definition is_virtual_operation (op : operation) : bool :=
  match op with virtual_op _ => true | _ => false end.

(** ** Required authorities *)

Record required := Required {
  req_active : gset string; req_owner : gset string; req_posting : gset string;
  req_other : list authority }.
#[global] Instance required_eta : Eta required :=
  λ r, Required (req_active r) (req_owner r) (req_posting r) (req_other r).

Definition no_requirement : required := Required ∅ ∅ ∅ [].
Definition add_active (a : string) (r : required) : required := r <| req_active ::= union {[a]} |>.
Definition add_owner (a : string) (r : required) : required := r <| req_owner ::= union {[a]} |>.
Definition add_posting (a : string) (r : required) : required := r <| req_posting ::= union {[a]} |>.
Definition add_other (a : authority) (r : required) : required := r <| req_other ::= λ l, l ++ [a] |>.

(** wls_operations.hpp:34-378, the [get_required_*] methods, in the order of
    operation_util_impl.hpp:66 *)
Definition operation_get_required_authorities (op : operation) (r : required) : required :=
  match op with
  | vote_op o => add_posting (vo_voter o) r
  | comment_op o => add_posting (co_author o) r
  | transfer_op o =>
    if symbol (tr_amount o) =? VESTS_SYMBOL then add_owner (tr_from o) r
    else add_active (tr_from o) r
  | transfer_to_vesting_op o => add_active (tv_from o) r
  | withdraw_vesting_op o => add_active (wv_account o) r
  | account_create_op o => add_active (ac_creator o) r
  | account_update_op o =>
    match au_owner o with
    | Some _ => add_owner (au_account o) r
    | None => add_active (au_account o) r
    end
  | account_forsale_op o => add_owner (af_account o) r
  | account_buying_op o => add_active (ab_account o) r
  | witness_update_op o => add_active (wu_owner o) r
  | account_witness_vote_op o => add_active (aw_account o) r
  | account_witness_proxy_op o => add_active (ap_account o) r
  | custom_op o => foldl (λ r a, add_active a r) r (cu_required_auths o)
  | delete_comment_op o => add_posting (dc_author o) r
  | custom_json_op o =>
    foldl (λ r a, add_posting a r)
      (foldl (λ r a, add_active a r) r (cj_required_auths o)) (cj_required_posting_auths o)
  | comment_options_op o => add_posting (cp_author o) r
  | set_withdraw_vesting_route_op o => add_active (sr_from_account o) r
  | custom_binary_op o =>
    foldl (λ r a, add_other a r)
      (foldl (λ r a, add_posting a r)
        (foldl (λ r a, add_owner a r)
          (foldl (λ r a, add_active a r) r (cb_required_active_auths o))
          (cb_required_owner_auths o))
        (cb_required_posting_auths o))
      (cb_required_auths o)
  | claim_reward_balance_op o => add_posting (cr_account o) r
  | virtual_op _ => r
  end.

(** ** Facts *)

Section facts.
Context `{FC : FcLib}.

Definition sum_beneficiaries (l : list beneficiary_route_type) : Z :=
  foldr (λ b acc, b_weight b + acc) 0 l.

Lemma beneficiaries_loop_Ok prev sum l u :
  0 ≤ sum ≤ WLS_100_PERCENT → Forall (λ b, 0 ≤ b_weight b) l →
  beneficiaries_loop prev sum l = Ok u →
  sum + sum_beneficiaries l ≤ WLS_100_PERCENT ∧
  Forall (λ b, is_valid_account_name (name_string (b_account b)) = true ∧ b_weight b ≤ WLS_100_PERCENT) l ∧
  Sorted (λ a b, String.ltb (b_account a) (b_account b) = true) (prev :: l).
Proof.
  revert prev sum. induction l as [|b l IH]; intros prev sum Hs Hl H; simpl in *.
  { split_and!; [lia|constructor|repeat constructor]. }
  inversion Hl as [|? ? Hb Hl']; subst.
  apply bind_Ok in H as ([] & Hn%throw_unless_Ok & H).
  apply bind_Ok in H as ([] & Hw%throw_unless_Ok%Z.leb_le & H).
  apply bind_Ok in H as ([] & Hsum%throw_unless_Ok%Z.leb_le & H).
  apply bind_Ok in H as ([] & Hlt%throw_unless_Ok & H).
  unfold WLS_100_PERCENT in *. rewrite wrap_small in * by lia.
  destruct (IH b (sum + b_weight b) ltac:(lia) Hl' H) as (? & ? & ?).
  split_and!; [lia|by constructor|]. constructor; [done|by constructor].
Qed.

Lemma beneficiaries_validate_Ok l u :
  Forall (λ b, 0 ≤ b_weight b) l → beneficiaries_validate l = Ok u →
  (1 ≤ length l ≤ 127)%nat ∧ sum_beneficiaries l ≤ WLS_100_PERCENT ∧
  Forall (λ b, is_valid_account_name (name_string (b_account b)) = true ∧ b_weight b ≤ WLS_100_PERCENT) l ∧
  Sorted (λ a b, String.ltb (b_account a) (b_account b) = true) l.
Proof.
  unfold beneficiaries_validate. intros Hl H. destruct l as [|b l]; [done|].
  inversion Hl as [|? ? Hb Hl']; subst.
  apply bind_Ok in H as ([] & Hlen%throw_unless_Ok%Z.ltb_lt & H).
  apply bind_Ok in H as ([] & Hn%throw_unless_Ok & H).
  apply bind_Ok in H as ([] & Hw%throw_unless_Ok%Z.leb_le & H).
  apply bind_Ok in H as ([] & Hsum%throw_unless_Ok%Z.leb_le & H).
  unfold WLS_100_PERCENT in *. rewrite wrap_small in * by lia.
  apply beneficiaries_loop_Ok in H as (? & ? & ?); [|unfold WLS_100_PERCENT; lia|done].
  unfold WLS_100_PERCENT in *. simpl in *. split_and!; [lia..|by constructor|done].
Qed.
End facts.
