(* ===== verification/Transaction.v ===== *)
(** * Transaction: signatures and required authorities of a transaction

    [libraries/protocol/transaction.cpp]: the free function [verify_authority]
    and the methods of [transaction] and [signed_transaction].  [sign_state] and the
    getters of authorities take the names of accounts as strings ([name_string]).  Serialisation
    and cryptography are packages: [Crypto] is their interface. *)

From S2P Require Import Prelude FcLib Tables Config Asset Names Authority Operations.

(** transaction.hpp:10; [extensions] holds only [void_t] *)
Record transaction := Transaction {
  ref_block_num : Z;
  ref_block_prefix : Z;
  expiration : Z;
  operations : list operation;
  trx_extensions : list unit
}.
#[global] Instance transaction_eta : Eta transaction := λ r,
  Transaction (ref_block_num r) (ref_block_prefix r) (expiration r) (operations r) (trx_extensions r).

(** transaction.hpp:87 *)
Record signed_transaction := SignedTransaction { trx : transaction; signatures : list Z }.

(** A digest is a number of 256 bits, a key and a signature are numbers. *)
Class Crypto := {
  (** sha256 of the packed transaction; with the chain id in front; with the signatures *)
  trx_digest : transaction → Z;
  sig_digest : Z → transaction → Z;
  merkle_digest : signed_transaction → Z;
  (** [fc::ecc::public_key( sig, digest )]: the key that signed, if there is one *)
  recover_key : Z → Z → result Z;
  (** [digest_type::hash] of a pair of digests, [checksum_type::hash] of one *)
  hash_pair : Z → Z → Z;
  hash_one : Z → Z
}.

Section transaction.
Context `{FC : FcLib} `{CR : Crypto}.

(** transaction.cpp:35 *)
Definition transaction_validate (t : transaction) : result unit :=
  FC_ASSERT (0 <? Z.of_nat (length (operations t)));;
  each operation_validate (operations t).

(** transaction.cpp:42: the first 20 bytes of the digest *)
Definition transaction_id (t : transaction) : Z := wrap 160 (trx_digest t).

(** transaction.cpp:76 *)
Definition get_required_authorities (ops : list operation) : required :=
  foldl (λ r op, operation_get_required_authorities op r) no_requirement ops.

(** Iteration over a [flat_set] of names. *)
Definition name_le (a b : string) : Prop := String.leb a b = true.
#[local] Instance name_le_dec : RelDecision name_le.
Proof. intros a b. unfold name_le. apply _. Defined.
Definition in_order (X : gset string) : list string := merge_sort name_le (elements X).

(** [s.check_authority( id ) || ... ]: the first that succeeds *)
Fixpoint any_of (l : list (M sign_state bool)) : M sign_state bool :=
  match l with
  | [] => mret false
  | m :: l => b ← m; if (b : bool) then mret true else any_of l
  end.
Definition require (e : exn) (l : list (M sign_state bool)) : M sign_state unit :=
  b ← any_of l; lift (throw_unless e b).

(** A [sign_state] that lives in the body of a function. *)
Definition locally {A} (s : sign_state) (m : M sign_state A) : result (A * sign_state) := m s.

Section verify.
Context (get_active get_owner get_posting : string → result authority) (max_recursion : nat).

Definition check_with (getter : string → result authority) (avail : list Z) (auth : result authority)
    : M sign_state bool :=
  a ← lift auth; check_authority getter avail max_recursion a.

(** transaction.cpp:110-137, a transaction that needs posting authorities *)
Definition verify_posting (r : required) (sigs : list Z) (posting_approvals : list string) : result unit :=
  FC_ASSERT (bool_decide (req_active r = ∅));;
  FC_ASSERT (bool_decide (req_owner r = ∅));;
  FC_ASSERT (Nat.eqb (length (req_other r)) 0);;
  let s := (new_sign_state sigs) <| approved_by ::= union (list_to_set (name_string <$> posting_approvals)) |> in
  x ← locally s (for_each (in_order (req_posting r)) (λ name, let id := name_string name in
         require tx_missing_posting_auth
           [ check_account get_posting [] max_recursion id;
             check_with get_posting [] (get_active id);
             check_with get_posting [] (get_owner id) ]);;
       unused ← remove_unused_signatures;
       lift (throw_unless tx_irrelevant_sig (negb unused)));
  mret tt.

(** transaction.cpp:139-171 *)
Definition verify_active (r : required) (sigs : list Z) (active_approvals owner_approvals : list string)
    : result unit :=
  let s := (new_sign_state sigs)
    <| approved_by ::= union (list_to_set (name_string <$> active_approvals ++ owner_approvals)) |> in
  x ← locally s (for_each (req_other r) (λ auth,
         require tx_missing_other_auth [ check_authority get_active [] max_recursion auth ]);;
       for_each (in_order (req_active r)) (λ name, let id := name_string name in
         require tx_missing_active_auth
           [ check_account get_active [] max_recursion id;
             check_with get_active [] (get_owner id) ]);;
       for_each (in_order (req_owner r)) (λ id,
         require tx_missing_owner_auth
           [ mret (bool_decide (id ∈ owner_approvals));
             check_with get_active [] (get_owner (name_string id)) ]);;
       unused ← remove_unused_signatures;
       lift (throw_unless tx_irrelevant_sig (negb unused)));
  mret tt.

(** transaction.cpp:85 *)
Definition verify_authority (ops : list operation) (sigs : list Z)
    (active_approvals owner_approvals posting_approvals : list string) : result unit :=
  let r := get_required_authorities ops in
  if bool_decide (req_posting r = ∅) then verify_active r sigs active_approvals owner_approvals
  else verify_posting r sigs posting_approvals.

(** ** Which keys have to sign *)

(** transaction.cpp:175; a [flat_set] is sorted *)
Definition get_signature_keys (chain_id : Z) (t : signed_transaction) : result (gset Z) :=
  let d := sig_digest chain_id (trx t) in
  let fix go (l : list Z) (acc : gset Z) : result (gset Z) :=
    match l with
    | [] => mret acc
    | sig :: l =>
      k ← recover_key sig d;
      throw_unless tx_duplicate_sig (negb (bool_decide (k ∈ acc)));;
      go l ({[k]} ∪ acc)
    end in
  go (signatures t) ∅.

(** transaction.cpp:191 *)
Definition get_required_signatures (chain_id : Z) (available_keys : list Z) (t : signed_transaction)
    : result (gset Z) :=
  let r := get_required_authorities (operations (trx t)) in
  keys ← get_signature_keys chain_id t;
  let s := new_sign_state (elements keys) in
  let collect (s : sign_state) : gset Z :=
    filter (λ k, k ∈ available_keys) (dom (provided_signatures s)) in
  if negb (bool_decide (req_posting r = ∅)) then
    FC_ASSERT (bool_decide (req_owner r = ∅));;
    FC_ASSERT (bool_decide (req_active r = ∅));;
    x ← locally s (for_each (in_order (req_posting r)) (λ id,
           check_account get_posting available_keys max_recursion (name_string id);; mret tt);;
         remove_unused_signatures);
    mret (collect x.2)
  else
    x ← locally s (for_each (req_other r) (λ auth,
           check_authority get_active available_keys max_recursion auth;; mret tt);;
         for_each (in_order (req_owner r)) (λ id,
           check_with get_active available_keys (get_owner (name_string id));; mret tt);;
         for_each (in_order (req_active r)) (λ id,
           check_account get_active available_keys max_recursion (name_string id);; mret tt);;
         remove_unused_signatures);
    mret (collect x.2).

(** transaction.cpp:267-271: the exceptions that keep the key *)
Definition missing_auth (e : exn) : bool :=
  bool_decide (e ∈ [tx_missing_owner_auth; tx_missing_active_auth; tx_missing_posting_auth;
                    tx_missing_other_auth]).
(** transaction.cpp:260: keys are dropped while the others are enough *)
Fixpoint minimize (ops : list operation) (l : list Z) (keys : gset Z) : result (gset Z) :=
  match l with
  | [] => mret keys
  | k :: l =>
    let fewer := keys ∖ {[k]} in
    match verify_authority ops (elements fewer) [] [] [] with
    | Ok _ => minimize ops l fewer
    | Err e => if missing_auth e then minimize ops l ({[k]} ∪ fewer) else Err e
    end
  end.
(** transaction.cpp:248 *)
Definition minimize_required_signatures (chain_id : Z) (available_keys : list Z) (t : signed_transaction)
    : result (gset Z) :=
  s ← get_required_signatures chain_id available_keys t;
  minimize (operations (trx t)) (merge_sort Z.le (elements s)) s.

(** transaction.cpp:277 *)
Definition signed_verify_authority (chain_id : Z) (t : signed_transaction) : result unit :=
  keys ← get_signature_keys chain_id t;
  verify_authority (operations (trx t)) (elements keys) [] [] [].

(** ** Soundness

    [granted]: the getter's authority of the account, or the account itself. *)
Section sound.
Context (Hactive : ∀ a auth, get_active a = Ok auth → weights_nonneg auth)
  (Howner : ∀ a auth, get_owner a = Ok auth → weights_nonneg auth)
  (Hposting : ∀ a auth, get_posting a = Ok auth → weights_nonneg auth).

Definition initially (approvals : list string) (a : string) : Prop :=
  a = WLS_TEMP_ACCOUNT ∨ a ∈ name_string <$> approvals.
Definition granted (getter : string → result authority) (sigs : list Z) (approvals : list string)
    (auth : result authority) : Prop :=
  ∃ a, auth = Ok a ∧ satisfied getter (λ k, k ∈ sigs) (initially approvals) a.
Abbreviation ok getter sigs approvals := (state_ok getter [] (λ k, k ∈ sigs) (initially approvals)).

Lemma signed_nil (sigs : list Z) (k : Z) : (k ∈ sigs ∨ k ∈ @nil Z) → k ∈ sigs.
Proof. by intros [?|?%elem_of_nil]. Qed.

Lemma new_sign_state_ok getter sigs approvals :
  ok getter sigs approvals ((new_sign_state sigs) <| approved_by ::= union (list_to_set (name_string <$> approvals)) |>).
Proof.
  split; simpl.
  - intros k b E. left. apply elem_of_list_to_map_2, list_elem_of_fmap in E as (k' & [= ->] & ?). done.
  - intros a. rewrite elem_of_union, elem_of_list_to_set, elem_of_singleton.
    intros [?| ->]; left; [by right|by left].
Qed.

Lemma elem_of_in_order X (a : string) : a ∈ in_order X ↔ a ∈ X.
Proof. unfold in_order. by rewrite merge_sort_Permutation, elem_of_elements. Qed.

Lemma any_of_sound l (I : sign_state → Prop) (P : Prop) s :
  Forall (λ m, ∀ s, I s → wp m (λ b s', I s' ∧ (b = true → P)) s) l → I s →
  wp (any_of l) (λ b s', I s' ∧ (b = true → P)) s.
Proof.
  intros Hl. revert s. induction Hl as [|m l Hm Hl IH]; intros s Hs; simpl; [by wp_steps|].
  wp_step. eapply wp_mono; [by apply Hm|]. intros [] s' [Hs' HP]; [by wp_steps|by apply IH].
Qed.
Lemma require_sound e l (I : sign_state → Prop) (P : Prop) s :
  Forall (λ m, ∀ s, I s → wp m (λ b s', I s' ∧ (b = true → P)) s) l → I s →
  wp (require e l) (λ _ s', I s' ∧ P) s.
Proof.
  intros Hl Hs. unfold require. wp_step. eapply wp_mono; [by eapply any_of_sound|].
  intros b s' [Hs' HP]. wp_step. split; [done|]. by eapply HP, throw_unless_Ok.
Qed.

Section getter.
Context (getter : string → result authority) (sigs : list Z) (approvals : list string).
Context (Hgetter : ∀ a auth, getter a = Ok auth → weights_nonneg auth).

Lemma check_authority_granted a s :
  weights_nonneg a → ok getter sigs approvals s →
  wp (check_authority getter [] max_recursion a) (λ b s', ok getter sigs approvals s' ∧
    (b = true → satisfied getter (λ k, k ∈ sigs) (initially approvals) a)) s.
Proof.
  intros Ha Hs. eapply wp_mono; [by apply check_authority_good|].
  intros b s' [Hs' Hb]. split; [done|]. intros ->. eapply satisfied_mono, Hb; [apply signed_nil|done].
Qed.
Lemma check_with_granted auth s :
  (∀ a, auth = Ok a → weights_nonneg a) → ok getter sigs approvals s →
  wp (check_with getter [] auth) (λ b s', ok getter sigs approvals s' ∧
    (b = true → granted getter sigs approvals auth)) s.
Proof.
  intros Ha Hs. unfold check_with. do 2 wp_step.
  eapply wp_mono; [by apply check_authority_granted; auto|].
  intros b s' [Hs' Hb]. split; [done|]. intros ->. by eexists; eauto.
Qed.
Lemma check_account_granted id s :
  ok getter sigs approvals s →
  wp (check_account getter [] max_recursion id) (λ b s', ok getter sigs approvals s' ∧
    (b = true → initially approvals id ∨ granted getter sigs approvals (getter id))) s.
Proof.
  intros Hs. unfold check_account. do 2 wp_step. destruct (decide _) as [Ha|Ha]; wp_steps.
  - split; [done|]. intros _. destruct Hs as [_ Hs]. destruct (Hs id Ha) as [?|(a & Hg & Hsat)]; [by left|].
    right. exists a. split; [done|]. eapply satisfied_mono, Hsat. apply signed_nil.
  - eapply wp_mono; [apply check_authority_granted; eauto|].
    intros b s' [Hs' Hb]. split; [done|]. intros ->. right. by eexists; eauto.
Qed.
End getter.

Lemma verify_posting_sound r sigs approvals u :
  verify_posting r sigs approvals = Ok u →
  (req_active r = ∅ ∧ req_owner r = ∅ ∧ req_other r = []) ∧
  ∀ id, id ∈ req_posting r → initially approvals (name_string id) ∨
    ∃ getter, getter ∈ [get_posting; get_active; get_owner] ∧
      granted get_posting sigs approvals (getter (name_string id)).
Proof.
  unfold verify_posting. intros (? & H1%throw_unless_Ok & (? & H2%throw_unless_Ok &
    (? & H3%throw_unless_Ok & (([] & s') & E & _)%bind_Ok)%bind_Ok)%bind_Ok)%bind_Ok.
  apply bool_decide_eq_true in H1, H2. apply Nat.eqb_eq, length_zero_iff_nil in H3. split; [done|].
  refine (wp_ok _ (λ _ _, _) _ _ _ _ E). wp_step. eapply wp_mono.
  { apply (wp_for_each_all _ _ (ok get_posting sigs approvals) (λ id, initially approvals (name_string id) ∨
      ∃ getter, getter ∈ [get_posting; get_active; get_owner] ∧
        granted get_posting sigs approvals (getter (name_string id)))); [|by apply new_sign_state_ok].
    intros id s _ Hs. apply require_sound; [|done]. repeat constructor; intros s1 Hs1.
    - eapply wp_mono; [by apply check_account_granted|]. intros b s2 [? Hb]. split; [done|].
      intros [?|?]%Hb; [by left|]. right. exists get_posting. split; [set_solver|done].
    - eapply wp_mono; [apply check_with_granted; eauto|]. intros b s2 [? Hb]. split; [done|].
      intros ?%Hb. right. exists get_active. split; [set_solver|done].
    - eapply wp_mono; [apply check_with_granted; eauto|]. intros b s2 [? Hb]. split; [done|].
      intros ?%Hb. right. exists get_owner. split; [set_solver|done]. }
  intros ? s [_ Hall]. apply wp_intro. intros ? ? _ id Hid. by apply Hall, elem_of_in_order.
Qed.
Lemma verify_active_sound r sigs active_approvals owner_approvals u :
  (∀ auth, auth ∈ req_other r → weights_nonneg auth) →
  let approvals := active_approvals ++ owner_approvals in
  verify_active r sigs active_approvals owner_approvals = Ok u →
  (∀ auth, auth ∈ req_other r →
    satisfied get_active (λ k, k ∈ sigs) (initially approvals) auth) ∧
  (∀ id, id ∈ req_active r → initially approvals (name_string id) ∨
    ∃ getter, getter ∈ [get_active; get_owner] ∧ granted get_active sigs approvals (getter (name_string id))) ∧
  (∀ id, id ∈ req_owner r → id ∈ owner_approvals ∨
    granted get_active sigs approvals (get_owner (name_string id))).
Proof.
  intros Hother approvals. unfold verify_active. intros (([] & s') & E & _)%bind_Ok.
  set (I := ok get_active sigs approvals). refine (wp_ok _ (λ _ _, _) _ _ _ _ E). clear E.
  wp_step. eapply wp_mono.
  { apply (wp_for_each_all _ _ I (λ auth, satisfied get_active (λ k, k ∈ sigs) (initially approvals) auth)).
    2: by apply new_sign_state_ok.
    intros auth s Hin Hs. apply require_sound; [|done]. repeat constructor; intros s1 Hs1.
    apply check_authority_granted; auto. }
  intros ? s1 [Hs1 H1]. wp_step. eapply wp_mono.
  { apply (wp_for_each_all _ _ I (λ id, initially approvals (name_string id) ∨
      ∃ getter, getter ∈ [get_active; get_owner] ∧ granted get_active sigs approvals (getter (name_string id))));
      [|done].
    intros id s _ Hs. apply require_sound; [|done]. repeat constructor; intros s2 Hs2.
    - eapply wp_mono; [by apply check_account_granted|]. intros b s3 [? Hb]. split; [done|].
      intros [?|?]%Hb; [by left|]. right. exists get_active. split; [set_solver|done].
    - eapply wp_mono; [apply check_with_granted; eauto|]. intros b s3 [? Hb]. split; [done|].
      intros ?%Hb. right. exists get_owner. split; [set_solver|done]. }
  intros ? s2 [Hs2 H2]. wp_step. eapply wp_mono.
  { apply (wp_for_each_all _ _ I (λ id, id ∈ owner_approvals ∨
      granted get_active sigs approvals (get_owner (name_string id)))); [|done].
    intros id s _ Hs. apply require_sound; [|done]. (constructor; [|constructor; [|constructor]]); intros s3 Hs3.
    - wp_step. split; [done|]. intros ?%bool_decide_eq_true. by left.
    - eapply wp_mono; [apply check_with_granted; eauto|]. intros b s4 [? Hb]. split; [done|].
      intros ?%Hb. by right. }
  intros ? s3 [_ H3]. apply wp_intro. intros ? ? _. split_and!; [done| |].
  - intros id Hid. by apply H2, elem_of_in_order.
  - intros id Hid. by apply H3, elem_of_in_order.
Qed.

(** C12: a transaction passes [verify_authority] only if everything its
    operations require is granted.  Posting authority is never mixed with
    another; each account that has to sign, found by the string of its name, is approved beforehand, or its own
    authority (for posting: posting, active or owner; for active: active or
    owner) is satisfied by the signatures and the accounts it delegates to; and
    every authority an operation carries is satisfied.  [satisfied] has no
    depth bound and no 32-bit weight: the bounded search of [sign_state] never
    accepts more. *)
Theorem verify_authority_sound ops sigs active_approvals owner_approvals posting_approvals
    (r := get_required_authorities ops) (approvals := active_approvals ++ owner_approvals) :
  (∀ auth, auth ∈ req_other r → weights_nonneg auth) →
  verify_authority ops sigs active_approvals owner_approvals posting_approvals = Ok tt →
  (req_posting r ≠ ∅ ∧ req_active r = ∅ ∧ req_owner r = ∅ ∧ req_other r = [] ∧
    ∀ id, id ∈ req_posting r → initially posting_approvals (name_string id) ∨
      ∃ getter, getter ∈ [get_posting; get_active; get_owner] ∧
        granted get_posting sigs posting_approvals (getter (name_string id))) ∨
  (req_posting r = ∅ ∧
    (∀ auth, auth ∈ req_other r →
      satisfied get_active (λ k, k ∈ sigs) (initially approvals) auth) ∧
    (∀ id, id ∈ req_active r → initially approvals (name_string id) ∨
      ∃ getter, getter ∈ [get_active; get_owner] ∧ granted get_active sigs approvals (getter (name_string id))) ∧
    (∀ id, id ∈ req_owner r → id ∈ owner_approvals ∨
      granted get_active sigs approvals (get_owner (name_string id)))).
Proof.
  intros Hother. unfold verify_authority. case_bool_decide as Hp; intros E.
  - right. split; [done|]. by apply verify_active_sound in E.
  - left. by apply verify_posting_sound in E as [(? & ? & ?) ?].
Qed.
End sound.

(** ** Signature keys *)

Lemma get_signature_keys_spec chain_id t keys :
  get_signature_keys chain_id t = Ok keys →
  ∃ l, Forall2 (λ sig k, recover_key sig (sig_digest chain_id (trx t)) = Ok k) (signatures t) l ∧
    NoDup l ∧ keys = list_to_set l.
Proof.
  unfold get_signature_keys. set (d := sig_digest _ _). set (go := fix go l acc := match l with [] => _ | _ => _ end).
  assert (∀ l acc, go l acc = Ok keys → ∃ ks, Forall2 (λ sig k, recover_key sig d = Ok k) l ks ∧
      NoDup ks ∧ list_to_set ks ## acc ∧ keys = list_to_set ks ∪ acc) as Hgo.
  { induction l as [|sig l IH]; intros acc; simpl.
    - intros [= <-]. exists []. split_and!; [done|constructor|set_solver|set_solver].
    - intros (k & Hk & (? & Hn%throw_unless_Ok & Hl)%bind_Ok)%bind_Ok.
      apply negb_true_iff, bool_decide_eq_false in Hn.
      apply IH in Hl as (ks & HF & Hnd & Hdis & ->). exists (k :: ks).
      split_and!; [by constructor|constructor; [set_solver|done]|set_solver|set_solver]. }
  intros (ks & ? & ? & _ & ->)%Hgo. exists ks. split_and!; [done..|set_solver].
Qed.

(** C28: a signed transaction that verifies carries signatures over the digest of
    this chain by pairwise distinct keys (a repeated signer is refused), and
    [verify_authority] accepts exactly those keys: no operation is authorised by
    a key that did not sign. *)
Theorem signed_verify_authority_keys chain_id t :
  signed_verify_authority chain_id t = Ok tt →
  ∃ l, Forall2 (λ sig k, recover_key sig (sig_digest chain_id (trx t)) = Ok k) (signatures t) l ∧
    NoDup l ∧
    ∃ sigs, (∀ k, k ∈ sigs ↔ k ∈ l) ∧ verify_authority (operations (trx t)) sigs [] [] [] = Ok tt.
Proof.
  unfold signed_verify_authority. intros (keys & (l & ? & ? & ->)%get_signature_keys_spec & ?)%bind_Ok.
  exists l. split_and!; [done..|]. eexists. split; [|done]. intros k. by rewrite elem_of_elements, elem_of_list_to_set.
Qed.
End verify.
End transaction.

(** ** A transfer signed by the active key of its sender *)

Definition demo_authorities (key : Z) (a : string) : result authority :=
  if bool_decide (a = "alice"%string) then Ok (Authority 1 [] [(key, 1)])
  else if bool_decide (a = "bob"%string) then Ok (Authority 2 [("alice"%string, 1)] [(key + 10, 1)])
  else Err out_of_range.
Definition demo_transfer : operation := transfer_op (TransferOp "bob" "alice" (Asset 1 WLS_SYMBOL) "").

Lemma demo_authorities_nonneg key a auth : demo_authorities key a = Ok auth → weights_nonneg auth.
Proof.
  unfold demo_authorities. case_bool_decide; [|case_bool_decide]; intros [= <-];
  split; simpl; repeat constructor; done.
Qed.

Lemma verify_authority_sound_witness :
  let act := demo_authorities 12 in let own := demo_authorities 11 in let post := demo_authorities 13 in
  verify_authority act own post 2 [demo_transfer] [12; 22] [] [] [] = Ok tt ∧
  verify_authority act own post 2 [demo_transfer] [22] [] [] [] = Err tx_missing_active_auth ∧
  ∃ getter, getter ∈ [act; own] ∧ granted act [12; 22] [] (getter "bob"%string).
Proof.
  intros act own post.
  assert (verify_authority act own post 2 [demo_transfer] [12; 22] [] [] [] = Ok tt) as H
    by (vm_compute; done).
  split_and!; [done|vm_compute; done|].
  destruct (verify_authority_sound act own post 2 (demo_authorities_nonneg 12)
    (demo_authorities_nonneg 11) (demo_authorities_nonneg 13) [demo_transfer] [12; 22] [] [] [])
    as [(Hp & _)|(_ & _ & Ha & _)]; [|exact H| |].
  - intros auth Hin. destruct (not_elem_of_nil auth Hin).
  - exfalso. apply Hp. apply (bool_decide_unpack _). vm_compute. exact I.
  - assert ("bob"%string ∈ req_active (get_required_authorities [demo_transfer])) as Hb
      by (apply (bool_decide_unpack _); vm_compute; exact I).
    destruct (Ha _ Hb) as [[Ht|Hn]|Hg]; [discriminate Ht|destruct (not_elem_of_nil _ Hn)|exact Hg].
Defined.

(** Signatures that are the key of the signer plus the digest. *)
Definition demo_crypto : Crypto := {|
  trx_digest t := ref_block_num t;
  sig_digest chain_id t := chain_id + 1000 * ref_block_num t;
  merkle_digest t := - 1 - Z.abs (expiration (trx t));
  recover_key sig d := if d <? sig then Ok (sig - d) else Err assert_exception;
  hash_pair a b := Z.pos (encode (a, b));
  hash_one a := a + 1
|}.

Lemma signed_verify_authority_keys_witness :
  let act := demo_authorities 12 in let own := demo_authorities 11 in let post := demo_authorities 13 in
  let t := SignedTransaction (Transaction 5 0 0 [demo_transfer] []) [5019; 5029] in
  signed_verify_authority (CR := demo_crypto) act own post 2 7 t = Ok tt ∧
  signed_verify_authority (CR := demo_crypto) act own post 2 7
    (SignedTransaction (trx t) [5019; 5019]) = Err tx_duplicate_sig ∧
  ∃ l : list Z, NoDup l ∧ length l = length (signatures t).
Proof.
  intros act own post t.
  assert (signed_verify_authority (CR := demo_crypto) act own post 2 7 t = Ok tt) as H
    by (vm_compute; done).
  split_and!; [done|vm_compute; done|].
  destruct (signed_verify_authority_keys (CR := demo_crypto) act own post 2 7 t H)
    as (l & Hl & ? & _).
  exists l. split; [done|]. symmetry. by eapply Forall2_length.
Defined.
