(* ===== verification/Block.v ===== *)
(** * Block: headers, block ids and the Merkle root

    [libraries/protocol/block.cpp] and [block_header.hpp].  Hashing, packing and
    key recovery are packages: [BlockLib] is what the code relies on. *)

From S2P Require Import Prelude FcLib Tables Config Asset Names Authority Operations Transaction.

(** base.hpp:28, the extensions of a block header *)
Inductive block_header_extension :=
| ext_void
| ext_version (v : Z)
| ext_hardfork_vote (hf_version hf_time : Z).

(** block_header.hpp:6-25 and block.hpp:7 *)
Record signed_block := SignedBlock {
  previous : Z;
  timestamp : Z;
  witness : string;
  transaction_merkle_root : Z;
  header_extensions : list block_header_extension;
  witness_signature : Z;
  block_transactions : list signed_transaction
}.
#[global] Instance signed_block_eta : Eta signed_block := λ r,
  SignedBlock (previous r) (timestamp r) (witness r) (transaction_merkle_root r)
    (header_extensions r) (witness_signature r) (block_transactions r).

(** [fc::endian_reverse_u32] turns the bytes of a 32-bit word around;
    [header_hash] is the sha224 of the packed signed header, [signee] the key
    recovered from the witness signature and the digest of the header. *)
Class BlockLib := {
  endian_reverse_u32 : Z → Z;
  endian_reverse_u32_range x : 0 ≤ endian_reverse_u32 x < 2 ^ 32;
  endian_reverse_u32_involutive x :
    0 ≤ x < 2 ^ 32 → endian_reverse_u32 (endian_reverse_u32 x) = x;
  endian_reverse_u32_0 : endian_reverse_u32 0 = 0;
  header_hash : signed_block → Z;
  signee : signed_block → result Z;
  pack_size : signed_block → Z;
  trx_pack_size : signed_transaction → Z
}.

(** A [ripemd160] or [sha224] is an array [_hash] of 32-bit words, here one number
    with word 0 lowest. *)
Definition hash_word (i : Z) (h : Z) : Z := wrap 32 (Z.shiftr h (32 * i)).
Definition set_hash_word0 (w h : Z) : Z := Z.shiftl (Z.shiftr h 32) 32 + w.

Section block.
Context `{BL : BlockLib} `{CR : Crypto}.

(** block.cpp:12 *)
Definition num_from_id (id : Z) : Z := endian_reverse_u32 (hash_word 0 id).
(** block_header.hpp:10 *)
Definition block_num (b : signed_block) : Z := wrap 32 (num_from_id (previous b) + 1).
(** block.cpp:17 *)
Definition block_id_of (b : signed_block) : Z :=
  let tmp := set_hash_word0 (endian_reverse_u32 (block_num b)) (header_hash b) in
  wrap 160 tmp.
(** block.cpp:37 *)
Definition validate_signee (expected : Z) (b : signed_block) : result bool :=
  k ← signee b; mret (k =? expected).

(** transaction.cpp:70 *)
Definition set_reference_block (reference : Z) (t : transaction) : transaction :=
  Transaction (wrap 16 (endian_reverse_u32 (hash_word 0 reference))) (hash_word 1 reference)
    (expiration t) (operations t) (trx_extensions t).

(** ** The Merkle root *)

(** block.cpp:59, the inner loop from position [i]; returns the new [k] *)
Fixpoint merkle_pairs (rounds : nat) (i k i_max : nat) (ids : list Z) : list Z * nat :=
  match rounds with
  | O => (ids, k)
  | S rounds =>
    if (i <? i_max)%nat then
      let ids := <[k := hash_pair (default 0 (ids !! i)) (default 0 (ids !! S i))]> ids in
      merkle_pairs rounds (S (S i)) (S k) i_max ids
    else (ids, k)
  end.
(** block.cpp:56: one level of [n] hashes *)
Definition merkle_level (n : nat) (ids : list Z) : list Z * nat :=
  let i_max := (n - n mod 2)%nat in
  let r := merkle_pairs n 0 0 i_max ids in
  if (n mod 2 =? 1)%nat then (<[r.2 := default 0 (ids !! i_max)]> r.1, S r.2) else r.
(** block.cpp:53; with [fuel] the number of transactions it never runs out *)
Fixpoint merkle_loop (fuel : nat) (n : nat) (ids : list Z) : result (list Z) :=
  if (n <=? 1)%nat then mret ids
  else match fuel with
  | O => Err out_of_fuel
  | S fuel => let r := merkle_level n ids in merkle_loop fuel r.2 r.1
  end.
(** block.cpp:42 *)
Definition calculate_merkle_root (b : signed_block) : result Z :=
  match block_transactions b with
  | [] => mret 0
  | txs =>
    ids ← merkle_loop (length txs) (length txs) (merkle_digest <$> txs);
    mret (hash_one (default 0 (ids !! 0%nat)))
  end.

(** ** Block ids *)

Lemma hash_word0_set w h : 0 ≤ w < 2 ^ 32 → hash_word 0 (wrap 160 (set_hash_word0 w h)) = w.
Proof.
  intros Hw. unfold hash_word, set_hash_word0, wrap. rewrite Z.mul_0_r, Z.shiftr_0_r.
  rewrite Z.shiftl_mul_pow2 by lia. rewrite Z.mod_mod_divide by (by exists (2 ^ 128)).
  rewrite Z.add_comm, Z.mod_add by lia. by apply Z.mod_small.
Qed.

Lemma block_num_range b : 0 ≤ block_num b < 2 ^ 32.
Proof. apply wrap_range. lia. Qed.
Lemma num_of_block_id b : num_from_id (block_id_of b) = block_num b.
Proof.
  unfold num_from_id, block_id_of. rewrite hash_word0_set by apply endian_reverse_u32_range.
  apply endian_reverse_u32_involutive, block_num_range.
Qed.

(** The id of a block carries its number: [num_from_id] reads back what [id]
    stored, and a block that builds on [b] is numbered one higher. *)
Theorem block_num_from_id b b' :
  num_from_id (block_id_of b) = block_num b ∧
  (previous b' = block_id_of b → block_num b' = wrap 32 (block_num b + 1)).
Proof. split; [apply num_of_block_id|]. intros E. unfold block_num at 1. by rewrite E, num_of_block_id. Qed.

(** ** Merkle trees

    What the loop computes: the digest of a binary tree whose leaves are the
    transactions in order. *)
Inductive merkle_tree := Leaf (d : Z) | Node (l r : merkle_tree).
Fixpoint digest (t : merkle_tree) : Z :=
  match t with Leaf d => d | Node l r => hash_pair (digest l) (digest r) end.
Fixpoint leaves (t : merkle_tree) : list Z :=
  match t with Leaf d => [d] | Node l r => leaves l ++ leaves r end.
Definition all_leaves (f : list merkle_tree) : list Z := concat (leaves <$> f).

Lemma all_leaves_app f g : all_leaves (f ++ g) = all_leaves f ++ all_leaves g.
Proof. unfold all_leaves. by rewrite fmap_app, concat_app. Qed.
Lemma all_leaves_cons t f : all_leaves (t :: f) = leaves t ++ all_leaves f.
Proof. done. Qed.
Lemma all_leaves_nil : all_leaves [] = [].
Proof. done. Qed.
Lemma all_leaves_Leaf l : all_leaves (Leaf <$> l) = l.
Proof. induction l as [|x l IH]; [done|]. unfold all_leaves in *. simpl. f_equal. exact IH. Qed.

(** The first [length f] hashes are the digests of the trees [f]. *)
Definition covers (f : list merkle_tree) (ids : list Z) : Prop := digest <$> f = take (length f) ids.

Lemma merkle_pairs_spec rounds i k i_max ids fd fr :
  covers fd ids → length fd = k → digest <$> fr = take (i_max - i) (drop i ids) →
  (k ≤ i)%nat → (i_max ≤ length ids)%nat → (i ≤ i_max)%nat → ((i_max - i) mod 2 = 0)%nat →
  (i_max - i ≤ 2 * rounds)%nat →
  ∃ fd', covers fd' (merkle_pairs rounds i k i_max ids).1 ∧
    length fd' = (merkle_pairs rounds i k i_max ids).2 ∧
    (2 * length fd' = 2 * k + (i_max - i))%nat ∧
    length (merkle_pairs rounds i k i_max ids).1 = length ids ∧
    all_leaves fd' = all_leaves fd ++ all_leaves fr ∧
    ∀ j, (i_max ≤ j)%nat → (merkle_pairs rounds i k i_max ids).1 !! j = ids !! j.
Proof.
  revert i k ids fd fr. induction rounds as [|rounds IH]; intros i k ids fd fr Hfd Hk Hfr Hki Hmax Hi He Hr; simpl.
  - assert (i_max - i = 0)%nat as E0 by lia. rewrite E0 in *. simpl in Hfr. apply fmap_nil_inv in Hfr as ->.
    exists fd. split_and!; try done; [lia|]. by rewrite all_leaves_nil, app_nil_r.
  - destruct (Nat.ltb_spec i i_max) as [Hlt|Hge].
    + assert (2 ≤ i_max - i)%nat by (destruct (i_max - i)%nat as [|[|]] eqn:?; [lia|done|lia]).
      destruct (lookup_lt_is_Some_2 ids i ltac:(lia)) as [x Hx].
      destruct (lookup_lt_is_Some_2 ids (S i) ltac:(lia)) as [y Hy]. rewrite Hx, Hy. simpl.
      rewrite (drop_S _ _ _ Hx), (drop_S _ _ _ Hy) in Hfr.
      replace (i_max - i)%nat with (S (S (i_max - S (S i)))) in Hfr by lia. simpl in Hfr.
      destruct fr as [|t1 [|t2 fr]]; [done|done|]. injection Hfr as <- <- Hfr.
      destruct (IH (S (S i)) (S k) (<[k:=hash_pair (digest t1) (digest t2)]> ids)
        (fd ++ [Node t1 t2]) fr) as (fd' & H1 & H2 & H3 & H4 & H5 & H6).
      * unfold covers in *. rewrite fmap_app, length_app. simpl. rewrite Hk, Nat.add_1_r.
        rewrite (take_S_r _ _ (hash_pair (digest t1) (digest t2))) by (apply list_lookup_insert_eq; lia).
        rewrite take_insert_ge by lia. by rewrite Hfd, Hk.
      * rewrite length_app. simpl. lia.
      * rewrite drop_insert_lt by lia. done.
      * lia.
      * rewrite length_insert. lia.
      * lia.
      * replace (i_max - i)%nat with (i_max - S (S i) + 1 * 2)%nat in He by lia. by rewrite Nat.Div0.mod_add in He.
      * lia.
      * exists fd'. rewrite length_insert in H4. split_and!; [done|done| |done| |].
        -- lia.
        -- rewrite H5, all_leaves_app, !all_leaves_cons, all_leaves_nil, app_nil_r. simpl.
           by rewrite !app_assoc.
        -- intros j Hj. rewrite H6 by done. apply list_lookup_insert_ne. lia.
    + assert (i_max - i = 0)%nat as E0 by lia. rewrite E0 in *. simpl in Hfr. apply fmap_nil_inv in Hfr as ->.
      exists fd. split_and!; try done; [lia|]. by rewrite all_leaves_nil, app_nil_r.
Qed.

Lemma merkle_level_spec n ids f :
  covers f ids → length f = n → (2 ≤ n)%nat → (n ≤ length ids)%nat →
  ∃ f', covers f' (merkle_level n ids).1 ∧ length f' = (merkle_level n ids).2 ∧
    (1 ≤ length f' < n)%nat ∧ length (merkle_level n ids).1 = length ids ∧
    all_leaves f' = all_leaves f.
Proof.
  intros Hf Hl Hn Hlen. unfold merkle_level. pose proof (Nat.mod_upper_bound n 2 ltac:(lia)).
  pose proof (Nat.div_mod n 2 ltac:(lia)) as Hd. set (m := (n - n mod 2)%nat).
  assert (m mod 2 = 0)%nat as Hm by (unfold m; replace (n - n mod 2)%nat with (n / 2 * 2)%nat by lia; apply Nat.Div0.mod_mul).
  destruct (merkle_pairs_spec n 0 0 m ids [] (take m f)) as (fd & H1 & H2 & H3 & H4 & H5 & H6); try (unfold m; lia).
  { done. } { done. }
  { rewrite fmap_take, Hf, Hl, take_take, drop_0, Nat.sub_0_r. f_equal. unfold m. lia. }
  { by rewrite Nat.sub_0_r. }
  destruct (Nat.eqb_spec (n mod 2) 1) as [Ho|He]; simpl.
  - destruct (lookup_lt_is_Some_2 f m ltac:(unfold m; lia)) as [t Ht].
    assert (ids !! m = Some (digest t)) as Hid.
    { assert ((digest <$> f) !! m = Some (digest t)) as E by (by rewrite list_lookup_fmap, Ht).
      rewrite Hf in E. apply lookup_take_Some in E. tauto. }
    rewrite Hid. simpl. exists (fd ++ [t]).
    split_and!; rewrite ?length_app, ?length_insert; simpl; try (unfold m in *; lia).
    + unfold covers in *. rewrite fmap_app, length_app. simpl. rewrite Nat.add_1_r, H1.
      rewrite (take_S_r _ _ (digest t)) by (rewrite <-H2; apply list_lookup_insert_eq; unfold m in *; lia).
      by rewrite take_insert_ge by lia.
    + rewrite all_leaves_app, H5, all_leaves_nil. transitivity (all_leaves (take m f ++ drop m f));
        [|by rewrite take_drop].
      rewrite (drop_S _ _ _ Ht), all_leaves_app, (drop_ge f (S m)) by (unfold m in *; lia). done.
  - exists fd. split_and!; try done; [unfold m in *; lia..|].
    rewrite H5, all_leaves_nil. simpl. rewrite take_ge; [done|unfold m; lia].
Qed.

(** [n] rounds are enough: every level is shorter. *)
Lemma merkle_loop_spec fuel n ids f :
  covers f ids → length f = n → (1 ≤ n)%nat → (n ≤ length ids)%nat → (n ≤ S fuel)%nat →
  ∃ ids' t, merkle_loop fuel n ids = Ok ids' ∧ ids' !! 0%nat = Some (digest t) ∧
    leaves t = all_leaves f.
Proof.
  revert n ids f. induction fuel as [|fuel IH]; intros n ids f Hf Hl Hn Hlen Hfuel; simpl;
    destruct (Nat.leb_spec n 1); try lia.
  1, 2: destruct f as [|t [|]]; simpl in Hl; try lia; exists ids, t; split_and!; [done| |by rewrite all_leaves_cons, app_nil_r];
    unfold covers in Hf; simpl in Hf; destruct ids; [done|]; simpl in *; congruence.
  destruct (merkle_level_spec n ids f Hf Hl) as (f' & H1 & H2 & H3 & H4 & H5); [lia..|].
  destruct (IH (merkle_level n ids).2 (merkle_level n ids).1 f') as (ids' & t & E & H0 & Ht);
    [done|done|lia|rewrite <-H2, H4; lia|lia|].
  exists ids', t. by rewrite <-H5.
Qed.

Lemma merkle_root_tree b :
  block_transactions b ≠ [] →
  ∃ t, calculate_merkle_root b = Ok (hash_one (digest t)) ∧
    leaves t = merkle_digest <$> block_transactions b.
Proof.
  intros Hne. unfold calculate_merkle_root. destruct (block_transactions b) as [|tx txs]; [done|].
  set (l := merkle_digest <$> tx :: txs).
  destruct (merkle_loop_spec (length (tx :: txs)) (length (tx :: txs)) l (Leaf <$> l))
    as (ids' & t & -> & H0 & Ht).
  - unfold covers. rewrite length_fmap, firstn_all, <-list_fmap_compose. apply list_fmap_id.
  - unfold l. by rewrite !length_fmap.
  - simpl. lia.
  - unfold l. by rewrite length_fmap.
  - lia.
  - exists t. simpl. rewrite H0. split; [done|]. by rewrite Ht, all_leaves_Leaf.
Qed.

(** Without collisions a digest determines the tree. *)
Lemma digest_leaves :
  (∀ a b c d, hash_pair a b = hash_pair c d → a = c ∧ b = d) →
  ∀ t u : merkle_tree,
  (∀ x, x ∈ leaves t ++ leaves u → ∀ a b, x ≠ hash_pair a b) →
  digest t = digest u → leaves t = leaves u.
Proof.
  intros Hinj. induction t as [d|l IHl r IHr]; intros [d'|l' r'] Hx; simpl; intros E.
  - by rewrite E.
  - destruct (Hx d ltac:(set_solver) _ _ E).
  - destruct (Hx d' ltac:(set_solver) _ _ (eq_sym E)).
  - apply Hinj in E as [El Er]. f_equal; [apply IHl|apply IHr]; try done; set_solver.
Qed.

(** C32: the Merkle root always exists and commits a block to its transactions:
    when the hash has no collisions, two blocks with transactions and the same
    root have the same transaction digests in the same order, also when their
    numbers of transactions differ. *)
Theorem merkle_root_binds b1 b2
    (txs1 := block_transactions b1) (txs2 := block_transactions b2) :
  (∀ a b c d, hash_pair a b = hash_pair c d → a = c ∧ b = d) →
  (∀ a b, hash_one a = hash_one b → a = b) →
  (∀ t a b, t ∈ txs1 ++ txs2 → merkle_digest t ≠ hash_pair a b) →
  txs1 ≠ [] → txs2 ≠ [] →
  (∃ root, calculate_merkle_root b1 = Ok root) ∧
  (calculate_merkle_root b1 = calculate_merkle_root b2 → merkle_digest <$> txs1 = merkle_digest <$> txs2).
Proof.
  intros Hpair Hone Hleaf H1 H2.
  destruct (merkle_root_tree b1 H1) as (t1 & -> & L1). destruct (merkle_root_tree b2 H2) as (t2 & -> & L2).
  split; [eauto|]. intros [= E%Hone]. fold txs1 in L1. fold txs2 in L2. rewrite <-L1, <-L2.
  apply digest_leaves; [done| |done]. intros x Hx a b ->. rewrite L1, L2, <-fmap_app in Hx.
  apply list_elem_of_fmap in Hx as (t & E' & Ht). by apply (Hleaf t a b).
Qed.
End block.

(** ** A reference instance *)

(** The bytes of a word turned around, most significant first. *)
Definition swap_bytes (x : Z) : Z :=
  let byte i := Z.shiftr x (8 * i) mod 256 in
  byte 0 * 2 ^ 24 + byte 1 * 2 ^ 16 + byte 2 * 2 ^ 8 + byte 3.

Lemma swap_bytes_digits b0 b1 b2 b3 :
  0 ≤ b0 < 256 → 0 ≤ b1 < 256 → 0 ≤ b2 < 256 → 0 ≤ b3 < 256 →
  swap_bytes (b0 * 2 ^ 24 + b1 * 2 ^ 16 + b2 * 2 ^ 8 + b3) = b3 * 2 ^ 24 + b2 * 2 ^ 16 + b1 * 2 ^ 8 + b0.
Proof.
  intros. unfold swap_bytes. rewrite !Z.shiftr_div_pow2 by lia.
  change (2 ^ (8 * 0)) with 1. change (2 ^ (8 * 1)) with 256.
  change (2 ^ (8 * 2)) with 65536. change (2 ^ (8 * 3)) with 16777216.
  rewrite Z.div_1_r. f_equal; [f_equal; [f_equal|]|].
  all: try (match goal with |- ?a mod 256 * _ = _ * _ => f_equal end).
  all: Z.to_euclidean_division_equations; lia.
Qed.

Lemma swap_bytes_involutive x : 0 ≤ x < 2 ^ 32 → swap_bytes (swap_bytes x) = x.
Proof.
  intros Hx. unfold swap_bytes at 2. rewrite swap_bytes_digits by (apply Z.mod_pos_bound; lia).
  rewrite !Z.shiftr_div_pow2 by lia.
  change (2 ^ (8 * 0)) with 1. change (2 ^ (8 * 1)) with 256.
  change (2 ^ (8 * 2)) with 65536. change (2 ^ (8 * 3)) with 16777216.
  Z.to_euclidean_division_equations. lia.
Qed.

#[global, program] Instance block_ref : BlockLib := {|
  endian_reverse_u32 := swap_bytes;
  header_hash b := 2 ^ 32 * (timestamp b + 2 ^ 32 * transaction_merkle_root b);
  signee b := if 0 <? witness_signature b then Ok (witness_signature b) else Err assert_exception;
  pack_size b := 120 + 100 * Z.of_nat (length (block_transactions b));
  trx_pack_size _ := 100
|}.
Next Obligation.
  intros x. unfold swap_bytes.
  repeat match goal with |- context [?a mod 256] =>
    let y := fresh "y" in let H := fresh "H" in
    pose proof (Z.mod_pos_bound a 256 ltac:(lia)) as H; set (y := a mod 256) in *; clearbody y end. lia.
Qed.
Next Obligation. apply swap_bytes_involutive. Qed.
Next Obligation. reflexivity. Qed.

Definition demo_block (txs : list signed_transaction) (root : Z) : signed_block :=
  SignedBlock 0 1600000003 "initminer" root [] 1 txs.
(** A short chain. *)
Definition fork_block (prev t : Z) : signed_block := SignedBlock prev t "initminer" 0 [] 1 [].
Definition block_a1 : signed_block := fork_block 0 1.
Definition block_a2 : signed_block := fork_block (block_id_of block_a1) 2.
Definition block_a3 : signed_block := fork_block (block_id_of block_a2) 3.
Definition demo_trx (n e : Z) : signed_transaction :=
  SignedTransaction (Transaction n 0 e [demo_transfer] []) [].

Lemma block_num_from_id_witness :
  let b := demo_block [] 0 in let b' := b <| previous := block_id_of b |> in
  num_from_id (block_id_of b) = 1 ∧ block_num b' = 2.
Proof.
  intros b b'. destruct (block_num_from_id b b') as [H1 H2].
  split; [rewrite H1; vm_compute; reflexivity|]. rewrite (H2 eq_refl). vm_compute. reflexivity.
Defined.

Lemma merkle_root_binds_witness :
  let txs := [demo_trx 1 11; demo_trx 2 12; demo_trx 3 13] in
  ∃ root, calculate_merkle_root (CR := demo_crypto) (demo_block txs 0) = Ok root ∧
    ∀ tx, calculate_merkle_root (CR := demo_crypto) (demo_block [tx] 0) ≠ Ok root.
Proof.
  intros txs.
  assert (∀ tx, (∃ root, calculate_merkle_root (CR := demo_crypto) (demo_block txs 0) = Ok root) ∧
    (calculate_merkle_root (CR := demo_crypto) (demo_block txs 0) =
     calculate_merkle_root (CR := demo_crypto) (demo_block [tx] 0) →
     merkle_digest (Crypto := demo_crypto) <$> txs = merkle_digest (Crypto := demo_crypto) <$> [tx])) as H.
  { intros tx. apply (merkle_root_binds (CR := demo_crypto) (demo_block txs 0) (demo_block [tx] 0)).
    - intros a b c d E. apply Pos2Z.inj, encode_inj in E. by injection E.
    - intros a b E. simpl in E. lia.
    - intros t a b _. simpl. lia.
    - done.
    - done. }
  destruct (H (demo_trx 0 0)) as [[root Hroot] _]. exists root. split; [exact Hroot|].
  intros tx E. destruct (H tx) as [_ Hb]. rewrite E in Hb. by specialize (Hb Hroot).
Defined.
