(* ===== verification/ForkDb.v ===== *)
(** * ForkDb: the tree of recent blocks

    [libraries/chain/fork_database.cpp].  The items are shared objects that link
    to their parents by weak pointers: [items] is the heap, an item is alive while
    the index, the head or a running operation of the node owns it. *)

From S2P Require Import Prelude FcLib Tables Config Asset Names Authority Operations Transaction Block.

(** fork_database.hpp:18.  [prev] is a [weak_ptr]. *)
Record fork_item := ForkItem {
  item_prev : option nat;
  num : Z;
  invalid : bool;
  item_id : Z;
  data : signed_block
}.
#[global] Instance fork_item_eta : Eta fork_item := λ r,
  ForkItem (item_prev r) (num r) (invalid r) (item_id r) (data r).

(** fork_database.hpp:81.  [_index] holds pointers in the order of insertion;
    [held] are the pointers that locals of [database::_push_block] own.  The
    unlinked index is empty: [push_block] rethrows before it inserts. *)
Record fork_database := ForkDatabase {
  items : list fork_item;
  _index : list nat;
  _head : option nat;
  _max_size : Z;
  held : list nat
}.
#[global] Instance fork_database_eta : Eta fork_database := λ r,
  ForkDatabase (items r) (_index r) (_head r) (_max_size r) (held r).

Definition empty_fork_database : fork_database := ForkDatabase [] [] None 1024 [].

Section fork_db.
Context `{BL : BlockLib}.

(** fork_database.hpp:20 *)
Definition new_item (b : signed_block) : fork_item :=
  ForkItem None (block_num b) false (block_id_of b) b.
Definition previous_id (i : fork_item) : Z := previous (data i).

Definition item_at (f : fork_database) (p : nat) : option fork_item := items f !! p.
(** An object lives as long as a [shared_ptr] owns it. *)
Definition alive (f : fork_database) (p : nat) : bool :=
  bool_decide (p ∈ _index f) || bool_decide (_head f = Some p) || bool_decide (p ∈ held f).
(** [weak_ptr::lock] *)
Definition lock (f : fork_database) (w : option nat) : option nat :=
  p ← w; if alive f p then Some p else None.
(** Reading through a [shared_ptr]; a null pointer is undefined behaviour. *)
Definition deref_item (f : fork_database) (p : nat) : result fork_item :=
  of_option undefined_behaviour (item_at f p).
Definition lock_prev (f : fork_database) (p : nat) : result (option nat) :=
  i ← deref_item f p; mret (lock f (item_prev i)).

(** *** The index *)

Definition has_id (f : fork_database) (id : Z) (p : nat) : bool :=
  match item_at f p with Some i => item_id i =? id | None => false end.
(** [_index.get<block_id>().find( id )] *)
Definition find_id (f : fork_database) (id : Z) : option nat :=
  snd <$> list_find (λ p, has_id f id p = true) (_index f).
(** [_index.insert( item )]: nothing when the id is taken *)
Definition index_insert (p : nat) (f : fork_database) : fork_database :=
  match item_at f p with
  | Some i => match find_id f (item_id i) with
              | Some _ => f
              | None => f <| _index ::= λ l, l ++ [p] |>
              end
  | None => f
  end.
Definition item_num (f : fork_database) (p : nat) : Z :=
  match item_at f p with Some i => num i | None => 0 end.
(** The begin of the index by [block_num]: the lowest number, the first inserted of
    equal ones. *)
Definition first_by_num (f : fork_database) (l : list nat) : option nat :=
  foldl (λ best p, match best with
                   | None => Some p
                   | Some q => if item_num f p <? item_num f q then Some p else Some q
                   end) None l.

(** ** Operations *)

(** fork_database.cpp:10 *)
Definition fork_reset (f : fork_database) : fork_database := f <| _head := None |> <| _index := [] |>.

(** fork_database.cpp:16 *)
Definition fork_pop_block : M fork_database unit :=
  h ← gets _head;
  h ← lift (of_option assert_exception h);
  f ← gets id;
  prev ← lift (lock_prev f h);
  prev ← lift (of_option assert_exception prev);
  modify (λ f, f <| _head := Some prev |>).

(** [std::make_shared<fork_item>( b )] *)
Definition make_item (i : fork_item) : M fork_database nat := λ f,
  Ok (length (items f), f <| items ::= λ l, l ++ [i] |>).

(** fork_database.cpp:24 *)
Definition start_block (b : signed_block) : M fork_database unit :=
  p ← make_item (new_item b);
  modify (index_insert p);;
  modify (λ f, f <| _head := Some p |>).

(** fork_database.cpp:51.  [item->prev = *itr] is the only write to an item. *)
Definition fork__push_block (p : nat) : M fork_database unit :=
  f ← gets id;
  i ← lift (deref_item f p);
  (match _head f with
   | Some h =>
     h ← lift (deref_item f h);
     assert (Z.max 0 (num h - _max_size f) <? num i);;
     when (negb (previous_id i =? 0))
       (q ← lift (of_option unlinkable_block_exception (find_id f (previous_id i)));
        qi ← lift (deref_item f q);
        assert (negb (invalid qi));;
        modify (λ f, f <| items := <[p := i <| item_prev := Some q |>]> (items f) |>))
   | None => mret tt
   end);;
  modify (index_insert p);;
  (match _head f with
   | None => modify (λ f, f <| _head := Some p |>)
   | Some h => h ← lift (deref_item f h);
               when (num h <? num i) (modify (λ f, f <| _head := Some p |>))
   end).

(** fork_database.cpp:35: returns the new head *)
Definition fork_push_block (b : signed_block) : M fork_database nat :=
  p ← make_item (new_item b);
  fork__push_block p;;
  h ← gets _head;
  lift (of_option undefined_behaviour h).

(** fork_database.cpp:100, the loop over the index by number *)
Fixpoint trim_loop (rounds : nat) (f : fork_database) (bound : Z) (l : list nat) : list nat :=
  match rounds with
  | O => l
  | S rounds =>
    match first_by_num f l with
    | None => l
    | Some p => if item_num f p <? bound then trim_loop rounds f bound (filter (λ q, q ≠ p) l) else l
    end
  end.
(** fork_database.cpp:94 *)
Definition set_max_size (s : Z) : M fork_database unit :=
  modify (λ f, f <| _max_size := s |>);;
  h ← gets _head;
  match h with
  | None => mret tt
  | Some h => modify (λ f, f <| _index ::= λ l,
                trim_loop (length l) f (Z.max 0 (item_num f h - _max_size f)) l |>)
  end.

(** fork_database.cpp:125 *)
Definition fork_is_known_block (id : Z) (f : fork_database) : bool :=
  match find_id f id with Some _ => true | None => false end.
(** fork_database.cpp:136 *)
Definition fetch_block (id : Z) (f : fork_database) : option nat := find_id f id.
(** fork_database.cpp:149: equal numbers are in the order of insertion *)
Definition fork_fetch_block_by_number (n : Z) (f : fork_database) : list nat :=
  filter (λ p, item_num f p = n) (_index f).
(** fork_database.cpp:233 *)
Definition set_head (h : nat) (f : fork_database) : fork_database := f <| _head := Some h |>.
(** fork_database.cpp:238 *)
Definition remove (id : Z) (f : fork_database) : fork_database :=
  f <| _index ::= filter (λ p, has_id f id p = false) |>.

(** fork_database.cpp:218; the loop follows parents, which are older items *)
Fixpoint walk_loop (fuel : nat) (f : fork_database) (n : Z) (next : option nat) : result (option nat) :=
  match next with
  | None => mret None
  | Some p =>
    i ← deref_item f p;
    if n <? num i then
      match fuel with
      | O => Err out_of_fuel
      | S fuel => walk_loop fuel f n (lock f (item_prev i))
      end
    else mret next
  end.
(** fork_database.cpp:212.  Without a head the null pointer is dereferenced. *)
Definition walk_main_branch_to_num (n : Z) (f : fork_database) : result (option nat) :=
  h ← of_option undefined_behaviour (_head f);
  i ← deref_item f h;
  if num i <? n then mret None else walk_loop (length (items f)) f n (Some h).
(** fork_database.cpp:223 *)
Definition fetch_block_on_main_branch_by_number (n : Z) (f : fork_database) : result (option nat) :=
  match fork_fetch_block_by_number n f with
  | [p] => mret (Some p)
  | [] => mret None
  | _ => walk_main_branch_to_num n f
  end.

(** *** fetch_branch_from *)

(** fork_database.cpp:183 and :189: follow [p] down while its number is above [n] *)
Fixpoint descend (fuel : nat) (f : fork_database) (n : Z) (branch : list nat) (p : nat)
    : result (list nat * nat) :=
  i ← deref_item f p;
  if n <? block_num (data i) then
    match fuel with
    | O => Err out_of_fuel
    | S fuel =>
      q ← of_option assert_exception (lock f (item_prev i));
      descend fuel f n (branch ++ [p]) q
    end
  else mret (branch, p).
(** fork_database.cpp:195 *)
Fixpoint descend_both (fuel : nat) (f : fork_database) (b1 b2 : list nat) (p1 p2 : nat)
    : result (list nat * list nat) :=
  i1 ← deref_item f p1; i2 ← deref_item f p2;
  if negb (previous (data i1) =? previous (data i2)) then
    match fuel with
    | O => Err out_of_fuel
    | S fuel =>
      q1 ← of_option assert_exception (lock f (item_prev i1));
      q2 ← of_option assert_exception (lock f (item_prev i2));
      descend_both fuel f (b1 ++ [p1]) (b2 ++ [p2]) q1 q2
    end
  else mret (b1 ++ [p1], b2 ++ [p2]).
(** fork_database.cpp:168 *)
Definition fetch_branch_from (first second : Z) (f : fork_database) : result (list nat * list nat) :=
  let fuel := length (items f) in
  p1 ← of_option assert_exception (find_id f first);
  p2 ← of_option assert_exception (find_id f second);
  i2 ← deref_item f p2;
  r1 ← descend fuel f (block_num (data i2)) [] p1;
  i1 ← deref_item f r1.2;
  r2 ← descend fuel f (block_num (data i1)) [] p2;
  descend_both fuel f r1.1 r2.1 r1.2 r2.2.

End fork_db.
