(* ===== verification/ForkSpec.v ===== *)
(** * ForkSpec: the fork database is a forest, and its branches

    Every reachable fork database is well formed: an item links to an older item
    with the id it names as its previous block and a number one lower.  This makes
    the walks over weak pointers end and return what the comments promise. *)

From S2P Require Import Prelude FcLib Tables Config Asset Names Authority Operations Transaction Block ForkDb.

Section spec.
Context `{BL : BlockLib}.
Implicit Types (f : fork_database) (p q a : nat) (b : signed_block).

(** ** Well-formedness *)

Definition item_ok f (p : nat) (i : fork_item) : Prop :=
  (num i = block_num (data i) ∧ invalid i = false) ∧ item_id i = block_id_of (data i) ∧
  ∀ q, item_prev i = Some q → (q < p)%nat ∧
    ∃ j, items f !! q = Some j ∧ item_id j = previous (data i) ∧ num i = num j + 1.

(** The owners point to items, and the ids of the index are distinct. *)
Record fork_wf f : Prop := {
  wf_items p i : items f !! p = Some i → item_ok f p i;
  wf_owned p : p ∈ _index f ∨ _head f = Some p ∨ p ∈ held f → is_Some (items f !! p);
  wf_index : NoDup (_index f);
  wf_ids p q : p ∈ _index f → q ∈ _index f → item_id <$> (items f !! p) = item_id <$> (items f !! q) → p = q
}.

(** What the node does with a fork database, in any order. *)
Inductive fork_step : fork_database → fork_database → Prop :=
| fork_step_push b f h f' : fork_push_block b f = Ok (h, f') → fork_step f f'
| fork_step_pop f f' : fork_pop_block f = Ok (tt, f') → fork_step f f'
| fork_step_start b f f' : start_block b f = Ok (tt, f') → fork_step f f'
| fork_step_size s f f' : set_max_size s f = Ok (tt, f') → fork_step f f'
| fork_step_remove id f : fork_step f (remove id f)
| fork_step_head h f : alive f h = true → fork_step f (set_head h f)
| fork_step_hold l f : Forall (λ p, alive f p = true) l → fork_step f (f <| held := l |>)
| fork_step_reset f : fork_step f (fork_reset f).
Definition fork_reachable : fork_database → Prop := rtc fork_step empty_fork_database.

(** *** Finding by id *)

Lemma has_id_spec f id p : has_id f id p = true ↔ ∃ i, items f !! p = Some i ∧ item_id i = id.
Proof.
  unfold has_id, item_at. destruct (items f !! p) as [i|]; [|naive_solver].
  rewrite Z.eqb_eq. naive_solver.
Qed.
Lemma find_id_Some f id p :
  find_id f id = Some p → p ∈ _index f ∧ ∃ i, items f !! p = Some i ∧ item_id i = id.
Proof.
  unfold find_id. intros ([k q] & E & ->)%fmap_Some. apply list_find_Some in E as (E & H & _).
  split; [by eapply list_elem_of_lookup_2|]. by apply has_id_spec.
Qed.
Lemma find_id_None f id p i :
  find_id f id = None → p ∈ _index f → items f !! p = Some i → item_id i ≠ id.
Proof.
  unfold find_id. intros H%fmap_None Hp Hi E. apply list_find_None in H.
  rewrite Forall_forall in H. apply (H p Hp), has_id_spec. eauto.
Qed.
Lemma find_id_elem f p i :
  fork_wf f → p ∈ _index f → items f !! p = Some i → find_id f (item_id i) = Some p.
Proof.
  intros W Hp Hi. destruct (find_id f (item_id i)) as [q|] eqn:E.
  - apply find_id_Some in E as (Hq & j & Hj & Ej). f_equal. eapply (wf_ids _ W); [done..|].
    rewrite Hi, Hj. simpl. by rewrite Ej.
  - by destruct (find_id_None _ _ _ _ E Hp Hi).
Qed.

Lemma item_num_at f p i : items f !! p = Some i → item_num f p = num i.
Proof. unfold item_num, item_at. by intros ->. Qed.
Lemma alive_true f p : alive f p = true ↔ p ∈ _index f ∨ _head f = Some p ∨ p ∈ held f.
Proof. unfold alive. rewrite !orb_true_iff, !bool_decide_eq_true. tauto. Qed.
Lemma lock_Some f w p : lock f w = Some p ↔ w = Some p ∧ alive f p = true.
Proof.
  unfold lock. destruct w as [q|]; simpl; [|naive_solver].
  destruct (alive f q) eqn:E; naive_solver congruence.
Qed.

(** *** Every step keeps a fork database well formed *)

(** A change of the owners only. *)
Lemma wf_owners f f' :
  fork_wf f → items f' = items f → NoDup (_index f') → (∀ p, p ∈ _index f' → p ∈ _index f) →
  (∀ p, _head f' = Some p ∨ p ∈ held f' → is_Some (items f !! p)) → fork_wf f'.
Proof.
  intros W E N Hi Ho. split.
  - unfold item_ok. rewrite E. apply (wf_items _ W).
  - rewrite E. intros p [H|H]; [|auto]. apply (wf_owned _ W). auto.
  - done.
  - rewrite E. intros p q Hp Hq. apply (wf_ids _ W); auto.
Qed.

Lemma wf_index_insert f p i :
  fork_wf f → items f !! p = Some i → p ∉ _index f → fork_wf (index_insert p f).
Proof.
  intros W Hi Hp. unfold index_insert, item_at. rewrite Hi.
  destruct (find_id f (item_id i)) as [q|] eqn:E; [done|]. split; simpl.
  - apply (wf_items _ W).
  - intros q [H|H]; [|by apply (wf_owned _ W); auto].
    apply elem_of_app in H as [H| ->%list_elem_of_singleton]; [by apply (wf_owned _ W); auto|eauto].
  - apply NoDup_app. split_and!; [apply (wf_index _ W)| |apply NoDup_singleton].
    by intros q Hq ->%list_elem_of_singleton.
  - assert (∀ q, q ∈ _index f → item_id <$> (items f !! q) ≠ item_id <$> (items f !! p)) as Hq.
    { intros q Hq. destruct (wf_owned _ W q (or_introl Hq)) as [j Hj]. rewrite Hi, Hj. simpl.
      intros [=Eq]. by eapply find_id_None. }
    intros q r [H1| ->%list_elem_of_singleton]%elem_of_app [H2| ->%list_elem_of_singleton]%elem_of_app Eq.
    + by apply (wf_ids _ W).
    + by destruct (Hq q H1).
    + by destruct (Hq r H2).
    + done.
Qed.

(** A fresh item, linked or not. *)
Lemma wf_fresh f i :
  fork_wf f → item_ok f (length (items f)) i → fork_wf (f <| items ::= λ l, l ++ [i] |>).
Proof.
  intros W Hok. assert (∀ p j, items f !! p = Some j → (items f ++ [i]) !! p = Some j) as Hl.
  { intros p j H. by apply lookup_app_l_Some. }
  assert (∀ p j, item_ok f p j → item_ok (f <| items ::= λ l, l ++ [i] |>) p j) as Hm.
  { intros p j (? & ? & H). split; [done|split; [done|]]. intros q Hq.
    destruct (H q Hq) as (? & k & ? & ?). split; [done|]. exists k. simpl. split; [by apply Hl|done]. }
  assert (∀ p, p ∈ _index f → (items f ++ [i]) !! p = items f !! p) as Hsame.
  { intros p Hp. destruct (wf_owned _ W p (or_introl Hp)) as [j Hj]. rewrite Hj. by apply Hl. }
  split; simpl.
  - intros p j Hj. apply Hm. apply lookup_app_Some in Hj as [Hj|[Hge Hj]]; [by apply (wf_items _ W)|].
    apply list_lookup_singleton_Some in Hj as [? ->].
    replace p with (length (items f)) by lia. done.
  - intros p Hp. destruct (wf_owned _ W p Hp) as [j Hj]. eauto.
  - apply (wf_index _ W).
  - intros p q Hp Hq. rewrite !Hsame by done. by apply (wf_ids _ W).
Qed.

Lemma new_item_ok f p b : item_ok f p (new_item b).
Proof. by split_and!. Qed.

Lemma wf_bound f p : fork_wf f → p ∈ _index f → (p < length (items f))%nat.
Proof. intros W Hp. destruct (wf_owned _ W p (or_introl Hp)) as [j Hj]. by eapply lookup_lt_Some. Qed.

(** The state in which [fork_push_block] inserts the new item. *)
Definition linked_item (q : option nat) b : fork_item := ForkItem q (block_num b) false (block_id_of b) b.

Lemma update_insert_fresh f i j :
  (f <| items ::= λ l, l ++ [i] |>) <| items := <[length (items f) := j]> (items f ++ [i]) |> =
  f <| items ::= λ l, l ++ [j] |>.
Proof.
  destruct f. simpl. unfold update; simpl. f_equal.
  rewrite <- (Nat.add_0_r (length _)). by rewrite insert_app_r.
Qed.

Lemma find_id_fresh f i id : fork_wf f → find_id (f <| items ::= λ l, l ++ [i] |>) id = find_id f id.
Proof.
  intros W. set (g := f <| items ::= _ |>). unfold find_id. f_equal. change (_index g) with (_index f).
  assert (∀ p, p ∈ _index f → has_id g id p = has_id f id p) as H.
  { intros p Hp. unfold has_id, item_at. simpl. by rewrite lookup_app_l by by apply wf_bound. }
  clearbody g. induction (_index f) as [|p l IH]; [done|]. simpl.
  rewrite <- (H p) by by left. rewrite IH; [done|]. intros q Hq. apply H. by right.
Qed.

Lemma wf_child_num f q j b :
  fork_wf f → items f !! q = Some j → item_id j = previous b → 0 < block_num b → block_num b = num j + 1.
Proof.
  intros W Hj E H0. destruct (wf_items _ W _ _ Hj) as ([En _] & Ei & _). unfold block_num in H0 |- *.
  rewrite <- E, Ei, num_of_block_id, <- En in H0 |- *.
  assert (0 ≤ num j < 2 ^ 32) as [? ?] by (rewrite En; apply block_num_range).
  destruct (decide (num j + 1 = 2 ^ 32)) as [Eq|Ne]; [|by rewrite wrap_small by lia].
  by rewrite Eq in H0.
Qed.

(** The head after item [p] was inserted. *)
Definition better_head (p : nat) b f : fork_database :=
  match _head f with
  | None => f <| _head := Some p |>
  | Some h => if item_num f h <? block_num b then f <| _head := Some p |> else f
  end.
Definition link_ok f b (link : option nat) : Prop :=
  match _head f with
  | None => link = None
  | Some h =>
    Z.max 0 (item_num f h - _max_size f) < block_num b ∧
    if previous b =? 0 then link = None else find_id f (previous b) = link ∧ is_Some link
  end.

Lemma item_num_fresh f i p : is_Some (items f !! p) → item_num (f <| items ::= λ l, l ++ [i] |>) p = item_num f p.
Proof.
  intros Hp. unfold item_num, item_at. simpl. by rewrite lookup_app_l by by apply lookup_lt_is_Some.
Qed.
Lemma index_insert_frame p f :
  items (index_insert p f) = items f ∧ _head (index_insert p f) = _head f ∧
  held (index_insert p f) = held f ∧ _max_size (index_insert p f) = _max_size f.
Proof. unfold index_insert. destruct (item_at f p) as [i|]; [destruct (find_id f (item_id i))|]; done. Qed.

Lemma deref_Ok f p i : deref_item f p = Ok i ↔ items f !! p = Some i.
Proof. unfold deref_item. by rewrite of_option_Ok. Qed.

(** A block is turned away when it is too old or its parent is unknown. *)
Definition refused f b (e : exn) : Prop :=
  ∃ h, _head f = Some h ∧
    (e = assert_exception ∧ block_num b <= Z.max 0 (item_num f h - _max_size f) ∨
     e = unlinkable_block_exception ∧ previous b ≠ 0 ∧ find_id f (previous b) = None).

Lemma deref_in (g : fork_database) p i (Q : fork_item → fork_database → Prop) E s :
  items g !! p = Some i → Q i s → wpe (lift (deref_item g p)) Q E s.
Proof.
  intros Hi HQ. apply wpe_lift; unfold deref_item, item_at; rewrite Hi; [by intros ? [=<-]|done].
Qed.

Lemma fork_push_block_wpe f b :
  fork_wf f →
  wpe (fork_push_block b) (λ h f', ∃ link, link_ok f b link ∧ _head f' = Some h ∧
    f' = better_head (length (items f)) b
           (index_insert (length (items f)) (f <| items ::= λ l, l ++ [linked_item link b] |>)))
    (refused f b) f.
Proof.
  intros W. unfold fork_push_block, fork__push_block.
  set (p := length (items f)).
  assert (∀ i, (items f ++ [i]) !! p = Some i) as Hp by (intros i; by rewrite list_lookup_middle).
  assert (∀ h, is_Some (items f !! h) → ∃ j, items f !! h = Some j ∧ ∀ i, (items f ++ [i]) !! h = Some j) as Hh.
  { intros h [j Hj]. exists j. split; [done|]. intros i. by apply lookup_app_l_Some. }
  apply wpe_bind. unfold make_item at 1, wpe at 1. fold p.
  set (f1 := f <| items ::= _ |>). do 3 wpe_step. wpe_step. apply (deref_in _ _ (new_item b)); [apply Hp|]. wpe_step.
  apply (wpe_mono _ (λ _ g, ∃ link, link_ok f b link ∧ g = f <| items ::= λ l, l ++ [linked_item link b] |>)).
  - unfold link_ok. change (_head (id f1)) with (_head f). destruct (_head f) as [h|] eqn:Eh.
    + destruct (Hh h) as (j & Hj & Hj'); [apply (wf_owned _ W); auto|]. wpe_step.
      apply (deref_in _ _ j); [apply Hj'|]. wpe_step. rewrite (item_num_at _ _ _ Hj).
      change (num (new_item b)) with (block_num b).
      apply wpe_assert; [intros Hn|intros Hn%Z.ltb_ge; exists h; rewrite (item_num_at _ _ _ Hj); auto].
      apply wpe_when; change (previous_id (new_item b)) with (previous b).
      * intros E0%negb_true_iff. rewrite E0. wpe_step. change (find_id (id f1)) with (find_id f1).
        unfold f1. rewrite find_id_fresh by done. fold f1. apply Z.eqb_neq in E0. apply wpe_lift.
        2:{ intros e He. exists h. split; [done|right]. destruct (find_id f (previous b)); [done|]. by injection He as <-. }
        intros q Hq%of_option_Ok. wpe_step.
        destruct (find_id_Some f _ q Hq) as (Hqi & _). destruct (Hh q) as (qi & Hqj & Hqj'); [apply (wf_owned _ W); auto|].
        apply (deref_in _ _ qi); [apply Hqj'|]. wpe_step.
        apply wpe_assert; [intros _; wpe_step|by rewrite (proj2 (proj1 (wf_items _ W _ _ Hqj)))].
        exists (Some q). split; [split; [by apply Z.ltb_lt|by eauto]|]. apply update_insert_fresh.
      * intros E0%negb_false_iff. rewrite E0. exists None. split; [|done]. split; [by apply Z.ltb_lt|done].
    + wpe_step. by exists None.
  - intros [] ? (link & Hlink & ->). wpe_step. wpe_step.
    destruct (index_insert_frame p (f <| items ::= λ l, l ++ [linked_item link b] |>)) as (Eg & Eg' & _).
    set (g := index_insert p (f <| items ::= λ l, l ++ [linked_item link b] |>)) in *. simpl in Eg, Eg'.
    apply (wpe_mono _ (λ _ g', g' = better_head p b g ∧ is_Some (_head g'))).
    { unfold better_head. change (_head (id f1)) with (_head f). rewrite Eg'.
      destruct (_head f) as [h|] eqn:Eh; [|wpe_step; by eauto].
      destruct (Hh h) as (j & Hj & Hj'); [apply (wf_owned _ W); auto|]. wpe_step.
      apply (deref_in _ _ j); [apply Hj'|]. rewrite (item_num_at g h j) by by rewrite Eg.
      change (num (new_item b)) with (block_num b).
      apply wpe_when; intros ->; [wpe_step; by eauto|]. split; [done|]. rewrite Eg'. eauto. }
    intros _ ? [-> [h' Hh']]. do 2 wpe_step. rewrite Hh'. by exists link.
Qed.

(** The new item links correctly. *)
Lemma linked_item_ok f b link :
  fork_wf f → link_ok f b link → item_ok f (length (items f)) (linked_item link b).
Proof.
  intros W H. split; [done|]. split; [done|]. simpl. intros q ->. unfold link_ok in H.
  destruct (_head f) as [h|]; [|done]. destruct H as [H0 H]. destruct (previous b =? 0); [done|].
  destruct H as [(Hq & j & Hj & Ej)%find_id_Some _]. split; [by apply wf_bound|]. exists j.
  split; [done|]. split; [done|]. eapply wf_child_num; [done..|lia].
Qed.

Lemma fork_push_block_wf f b : fork_wf f → wp (fork_push_block b) (λ _ f', fork_wf f') f.
Proof.
  intros W. eapply wp_mono; [by eapply wpe_wp, fork_push_block_wpe|]. intros h f' (link & Hl & Hh & ->).
  set (p := length (items f)). set (f1 := f <| items ::= _ |>).
  assert (items f1 !! p = Some (linked_item link b)) as Hp by by apply list_lookup_middle.
  assert (fork_wf (index_insert p f1)) as W1.
  { eapply wf_index_insert; [|done|].
    - apply wf_fresh; [done|by apply linked_item_ok].
    - intros H. pose proof (wf_bound f p W H). lia. }
  destruct (index_insert_frame p f1) as (Ei & Eh & Ed & _).
  assert (fork_wf ((index_insert p f1) <| _head := Some p |>)) as W2.
  { eapply wf_owners; [exact W1|reflexivity|apply (wf_index _ W1)|simpl; auto|]. simpl.
    intros q [[=<-]|Hq]; [rewrite Ei; eauto|]. apply (wf_owned _ W1). auto. }
  fold p f1. unfold better_head. repeat case_match; done.
Qed.

(** *** Trimming *)

Lemma first_by_num_spec f l :
  match first_by_num f l with
  | None => l = []
  | Some p => p ∈ l ∧ ∀ q, q ∈ l → item_num f p <= item_num f q
  end.
Proof.
  induction l as [|x l IH] using rev_ind; [done|]. unfold first_by_num in *. rewrite foldl_app. simpl.
  destruct (foldl _ None l) as [p|].
  - destruct IH as [Hp Hmin]. destruct (Z.ltb_spec (item_num f x) (item_num f p)) as [Hlt|Hge].
    + split; [by apply elem_of_app; right; left|].
      intros q [Hq| ->%list_elem_of_singleton]%elem_of_app; [|done]. specialize (Hmin q Hq). lia.
    + split; [by apply elem_of_app; left|].
      by intros q [Hq| ->%list_elem_of_singleton]%elem_of_app; [apply Hmin|].
  - rewrite IH. split; [by left|]. by intros q ->%list_elem_of_singleton.
Qed.

Lemma keep_all (P : nat → Prop) `{∀ x, Decision (P x)} l : Forall P l → filter P l = l.
Proof. induction 1 as [|x l Hx Hl IH]; [done|]. by rewrite filter_cons_True, IH. Qed.

(** The loop keeps exactly the items that are not too old. *)
Lemma trim_loop_filter f bound n l :
  NoDup l → (length l <= n)%nat → trim_loop n f bound l = filter (λ p, bound <= item_num f p) l.
Proof.
  revert l. induction n as [|n IH]; intros l N Hn.
  { by destruct l; [|simpl in Hn; lia]. }
  simpl. pose proof (first_by_num_spec f l) as Hf. destruct (first_by_num f l) as [p|]; [|by subst].
  destruct Hf as [Hp Hmin]. destruct (Z.ltb_spec (item_num f p) bound) as [Hlt|Hge].
  - rewrite IH; [|by apply NoDup_filter|].
    + rewrite list_filter_filter. apply list_filter_iff. intros q. split; [tauto|].
      intros Hq. split; [done|]. intros ->. lia.
    + assert (length (filter (λ q, q ≠ p) l) < length l)%nat; [|lia].
      apply length_filter_lt with p; [done|]. by intros [].
  - symmetry. apply keep_all, Forall_forall. intros q Hq. specialize (Hmin q Hq). lia.
Qed.

Lemma set_max_size_eq s f :
  NoDup (_index f) →
  set_max_size s f = Ok (tt, f <| _max_size := s |> <| _index ::= λ l,
    match _head f with
    | None => l
    | Some h => filter (λ p, Z.max 0 (item_num f h - s) <= item_num f p) l
    end |>).
Proof.
  intros N. destruct f as [it ix [h|] m hd]; [|done].
  unfold set_max_size, modify, gets, mbind, M_bind. simpl. unfold update; simpl.
  by rewrite trim_loop_filter.
Qed.

Lemma fork_pop_block_wp f :
  wp fork_pop_block (λ _ f', ∃ h p i, _head f = Some h ∧ items f !! h = Some i ∧
    item_prev i = Some p ∧ alive f p = true ∧ f' = f <| _head := Some p |>) f.
Proof.
  unfold fork_pop_block. do 2 wp_step. wp_step. apply wp_lift. intros h Hh%of_option_Ok. do 2 wp_step.
  wp_step. apply wp_lift. intros w Hw. wp_step. apply wp_lift. intros p Hp%of_option_Ok. wp_step.
  unfold lock_prev, id in Hw. apply bind_Ok in Hw as (i & Hi%deref_Ok & [=Hw]). subst w.
  apply lock_Some in Hp as [??]. by exists h, p, i.
Qed.

Lemma fork_step_wf f f' : fork_step f f' → fork_wf f → fork_wf f'.
Proof.
  intros [b f1 h f2 E|f1 f2 E|b f1 f2 E|s f1 f2 E|id f1|h f1 Hh|l f1 Hl|f1] W.
  - exact (wp_ok _ _ _ _ _ (fork_push_block_wf f1 b W) E).
  - destruct (wp_ok _ _ _ _ _ (fork_pop_block_wp f1) E) as (h & p & i & Hh & Hi & Hp & Ha & ->).
    eapply wf_owners; [done|done|apply (wf_index _ W)|done|]. simpl.
    intros q [[=<-]|Hq]; apply (wf_owned _ W); [by apply alive_true|auto].
  - injection E as <-. set (p := length (items f1)). set (f2 := f1 <| items ::= λ l, l ++ [new_item b] |>).
    assert (fork_wf (index_insert p f2)) as W2.
    { eapply wf_index_insert; [by apply wf_fresh, new_item_ok|by apply list_lookup_middle|].
      intros Hp. pose proof (wf_bound _ _ W Hp). lia. }
    destruct (index_insert_frame p f2) as (Ei & _ & Ed & _).
    eapply wf_owners; [exact W2|done|apply (wf_index _ W2)|done|]. simpl. rewrite Ei.
    intros q [[=<-]|Hq]; [exists (new_item b); by apply list_lookup_middle|].
    rewrite <- Ei. apply (wf_owned _ W2). auto.
  - rewrite set_max_size_eq in E by apply (wf_index _ W). injection E as <-.
    eapply wf_owners; [done|done|..]; simpl.
    + destruct (_head f1); [apply NoDup_filter|]; apply (wf_index _ W).
    + intros p. destruct (_head f1); [|done]. by intros [_ ?]%list_elem_of_filter.
    + intros p ?. apply (wf_owned _ W). auto.
  - eapply wf_owners; [done|done|..]; simpl.
    + by apply NoDup_filter, (wf_index _ W).
    + intros p [_ ?]%list_elem_of_filter; done.
    + intros p ?. apply (wf_owned _ W). auto.
  - eapply wf_owners; [done|done|apply (wf_index _ W)|done|]. simpl.
    intros p [[=<-]|Hp]; apply (wf_owned _ W); [by apply alive_true|auto].
  - eapply wf_owners; [done|done|apply (wf_index _ W)|done|]. simpl. rewrite Forall_forall in Hl.
    intros p [Hp|Hp]; apply (wf_owned _ W); [auto|by apply alive_true, Hl].
  - eapply wf_owners; [done|done|apply NoDup_nil_2|by intros p ?%elem_of_nil|]. simpl.
    intros p [?|?]; [done|]. apply (wf_owned _ W). auto.
Qed.

Lemma reachable_wf f : fork_reachable f → fork_wf f.
Proof.
  unfold fork_reachable. intros H.
  assert (fork_wf empty_fork_database) as W.
  { split; [done| |apply NoDup_nil_2|by intros p q ?%elem_of_nil].
    intros p [H'|[?|H']]; [by apply elem_of_nil in H'|done|by apply elem_of_nil in H']. }
  induction H as [|f1 f2 f3 Hs _ IH]; [done|]. by apply IH, (fork_step_wf f1).
Qed.

(** ** Branches *)

(** [q] is the living parent of [p]. *)
Definition linked f p q : Prop := ∃ i, items f !! p = Some i ∧ lock f (item_prev i) = Some q.
(** The chain of living parents from [p] to [q], [q] excluded. *)
Inductive chain_to f : nat → list nat → nat → Prop :=
| chain_here p : chain_to f p [] p
| chain_next p q l r : linked f p q → chain_to f q l r → chain_to f p (p :: l) r.
Definition previous_of f p : Z :=
  match items f !! p with Some i => previous_id i | None => 0 end.

Section branches.
Context (f : fork_database) (W : fork_wf f).

Lemma linked_fun p q r : linked f p q → linked f p r → q = r.
Proof. intros (i & Hi & Hq) (j & Hj & Hr). congruence. Qed.
Lemma linked_older p q : linked f p q → (q < p)%nat ∧ is_Some (items f !! q).
Proof.
  intros (i & Hi & [Hq _]%lock_Some). destruct (wf_items _ W _ _ Hi) as (_ & _ & H).
  destruct (H q Hq) as (? & j & ? & _). eauto.
Qed.
Lemma linked_num p q : linked f p q → item_num f p = item_num f q + 1.
Proof.
  intros (i & Hi & [Hq _]%lock_Some). destruct (wf_items _ W _ _ Hi) as (_ & _ & H).
  destruct (H q Hq) as (? & j & Hj & _ & En). by rewrite (item_num_at _ _ _ Hi), (item_num_at _ _ _ Hj).
Qed.
Lemma rtc_num p a : rtc (linked f) p a → item_num f a <= item_num f p.
Proof. induction 1 as [p|p q a Hl _ IH]; [done|]. pose proof (linked_num _ _ Hl). lia. Qed.
Lemma rtc_down p q a : linked f p q → rtc (linked f) p a → item_num f a < item_num f p → rtc (linked f) q a.
Proof.
  intros Hl H Hlt. inversion H as [|? r ? Hl' ?]; subst; [lia|]. by rewrite (linked_fun p q r).
Qed.

Lemma chain_rtc p l q : chain_to f p l q → rtc (linked f) p q.
Proof. induction 1; [done|]. by eapply rtc_l. Qed.
Lemma chain_rest p l q a : chain_to f p l q → rtc (linked f) p a → item_num f a <= item_num f q → rtc (linked f) q a.
Proof.
  induction 1 as [|p r l q Hl Hc IH]; [done|]. intros Ha Hle. apply IH; [|done].
  apply (rtc_down p); [done..|]. pose proof (linked_num _ _ Hl). pose proof (rtc_num _ _ (chain_rtc _ _ _ Hc)). lia.
Qed.
Lemma chain_num p l q : chain_to f p l q → item_num f p = item_num f q + Z.of_nat (length l).
Proof. induction 1 as [|p q l r Hl _ IH]; simpl; [lia|]. pose proof (linked_num _ _ Hl). lia. Qed.
Lemma chain_app p l q l' r : chain_to f p l q → chain_to f q l' r → chain_to f p (l ++ l') r.
Proof. intros H H'. induction H as [|p q l r' Hl _ IH]; [done|]. econstructor; eauto. Qed.
(** The numbers of a chain count down. *)
Lemma chain_lookup p l q i x : chain_to f p l q → l !! i = Some x → item_num f x = item_num f p - Z.of_nat i.
Proof.
  intros H. revert i. induction H as [|p q l r Hl _ IH]; intros i Hx; [done|].
  destruct i as [|i]; [injection Hx as <-; lia|]. pose proof (linked_num _ _ Hl).
  rewrite (IH i Hx). lia.
Qed.

(** Equal parents mean equal numbers. *)
Lemma item_num_data p i : items f !! p = Some i → item_num f p = block_num (data i).
Proof. intros Hi. rewrite (item_num_at _ _ _ Hi). apply (wf_items _ W _ _ Hi). Qed.
Lemma previous_num p q :
  is_Some (items f !! p) → is_Some (items f !! q) → previous_of f p = previous_of f q →
  item_num f p = item_num f q.
Proof.
  intros [i Hi] [j Hj]. unfold previous_of. rewrite Hi, Hj. intros E. unfold previous_id in E.
  rewrite (item_num_data _ _ Hi), (item_num_data _ _ Hj). unfold block_num. by rewrite E.
Qed.
Lemma deref_valid p : is_Some (items f !! p) → ∃ i, deref_item f p = Ok i ∧ items f !! p = Some i.
Proof. intros [i Hi]. exists i. by rewrite deref_Ok. Qed.

Lemma rtc_valid p a : is_Some (items f !! p) → rtc (linked f) p a → is_Some (items f !! a).
Proof. intros Hp. induction 1 as [|p q a Hl _ IH]; [done|]. by apply IH, (linked_older _ _ Hl). Qed.
Lemma rtc_same p a : rtc (linked f) p a → item_num f a = item_num f p → a = p.
Proof.
  intros H. inversion H as [|? q ? Hl Hq]; subst; [done|]. pose proof (linked_num _ _ Hl).
  pose proof (rtc_num _ _ Hq). lia.
Qed.

(** *** The loops *)

(** [descend] stops at the first ancestor that is not above [n]; when there is
    none left alive, the assertion fails. *)
Lemma descend_spec fuel n (br : list nat) p :
  is_Some (items f !! p) → (p < fuel)%nat →
  match descend fuel f n br p with
  | Ok r => ∃ l, r.1 = br ++ l ∧ chain_to f p l r.2 ∧ item_num f r.2 <= n ∧
      is_Some (items f !! r.2) ∧ (l = [] ∨ item_num f r.2 = n)
  | Err e => e = assert_exception ∧ ∀ a, rtc (linked f) p a → n < item_num f a
  end.
Proof.
  revert br p. induction fuel as [|fuel IH]; intros br p Hp Hf; [lia|].
  destruct (deref_valid p Hp) as (i & Ei & Hi). simpl. rewrite Ei. simpl. rewrite <- (item_num_data p i Hi).
  destruct (Z.ltb_spec n (item_num f p)) as [Hlt|Hge].
  2:{ exists []. rewrite app_nil_r. simpl. split_and!; [done|constructor|done|done|by left]. }
  destruct (lock f (item_prev i)) as [q|] eqn:Hq; simpl.
  - assert (linked f p q) as Hl by by exists i. pose proof (linked_num _ _ Hl) as En.
    destruct (linked_older _ _ Hl) as [Hqp Hq']. specialize (IH (br ++ [p]) q Hq' ltac:(lia)).
    destruct (descend fuel f n (br ++ [p]) q) as [r|e].
    + destruct IH as (l & El & Hc & ? & ? & Ho). exists (p :: l). rewrite El, <- app_assoc.
      split_and!; [done|by econstructor|done|done|]. right. destruct Ho as [-> | ->]; [|done].
      inversion Hc; subst. lia.
    + destruct IH as [? IH]. split; [done|]. intros a Ha. inversion Ha as [|? r ? Hl' ?]; subst; [done|].
      apply IH. by rewrite (linked_fun p q r).
  - split; [done|]. intros a Ha. inversion Ha as [|? r ? Hl' ?]; subst; [done|].
    destruct Hl' as (j & Hj & Hr). congruence.
Qed.

Lemma descend_both_spec fuel (b1 b2 : list nat) p1 p2 :
  is_Some (items f !! p1) → is_Some (items f !! p2) → (p1 < fuel)%nat →
  item_num f p1 = item_num f p2 →
  match descend_both fuel f b1 b2 p1 p2 with
  | Ok r => ∃ l1 l2 a1 a2, r = (b1 ++ l1 ++ [a1], b2 ++ l2 ++ [a2]) ∧
      chain_to f p1 l1 a1 ∧ chain_to f p2 l2 a2 ∧ previous_of f a1 = previous_of f a2 ∧
      Forall2 (λ x y, previous_of f x ≠ previous_of f y) l1 l2
  | Err e => e = assert_exception ∧
      ∀ a1 a2, rtc (linked f) p1 a1 → rtc (linked f) p2 a2 → previous_of f a1 ≠ previous_of f a2
  end.
Proof.
  revert b1 b2 p1 p2. induction fuel as [|fuel IH]; intros b1 b2 p1 p2 H1 H2 Hf En; [lia|].
  destruct (deref_valid p1 H1) as (i1 & E1 & Hi1), (deref_valid p2 H2) as (i2 & E2 & Hi2).
  simpl. rewrite E1, E2. simpl.
  assert (previous_of f p1 = previous (data i1)) as P1 by (unfold previous_of; by rewrite Hi1).
  assert (previous_of f p2 = previous (data i2)) as P2 by (unfold previous_of; by rewrite Hi2).
  rewrite <- P1, <- P2. destruct (Z.eqb_spec (previous_of f p1) (previous_of f p2)) as [Ep|Np]; simpl.
  { exists [], [], p1, p2. split_and!; try done; constructor. }
  assert (∀ a1 a2, rtc (linked f) p1 a1 → rtc (linked f) p2 a2 → previous_of f a1 = previous_of f a2 →
      item_num f a1 < item_num f p1 ∧ item_num f a2 < item_num f p2) as Hdown.
  { intros a1 a2 Ha1 Ha2 Ep.
    assert (item_num f a1 = item_num f a2) as Ea
      by exact (previous_num _ _ (rtc_valid _ _ H1 Ha1) (rtc_valid _ _ H2 Ha2) Ep).
    pose proof (rtc_num _ _ Ha1). pose proof (rtc_num _ _ Ha2).
    destruct (decide (item_num f a1 = item_num f p1)); [|lia].
    rewrite (rtc_same p1 a1), (rtc_same p2 a2) in Ep by (done || lia). done. }
  destruct (lock f (item_prev i1)) as [q1|] eqn:Hq1; simpl.
  2:{ split; [done|]. intros a1 a2 Ha1 Ha2 Ep. destruct (Hdown a1 a2 Ha1 Ha2 Ep) as [Hlt _].
      inversion Ha1 as [|? r ? (j & Hj & Hr) ?]; subst; [lia|congruence]. }
  destruct (lock f (item_prev i2)) as [q2|] eqn:Hq2; simpl.
  2:{ split; [done|]. intros a1 a2 Ha1 Ha2 Ep. destruct (Hdown a1 a2 Ha1 Ha2 Ep) as [_ Hlt].
      inversion Ha2 as [|? r ? (j & Hj & Hr) ?]; subst; [lia|congruence]. }
  assert (linked f p1 q1) as Hl1 by by exists i1. assert (linked f p2 q2) as Hl2 by by exists i2.
  pose proof (linked_num _ _ Hl1). pose proof (linked_num _ _ Hl2).
  destruct (linked_older _ _ Hl1), (linked_older _ _ Hl2).
  specialize (IH (b1 ++ [p1]) (b2 ++ [p2]) q1 q2 ltac:(done) ltac:(done) ltac:(lia) ltac:(lia)).
  destruct (descend_both fuel f _ _ q1 q2) as [r|e].
  - destruct IH as (l1 & l2 & a1 & a2 & -> & ? & ? & ? & ?). exists (p1 :: l1), (p2 :: l2), a1, a2.
    rewrite <- !app_assoc. split_and!; [done|by econstructor..|done|by constructor].
  - destruct IH as [? IH]. split; [done|]. intros a1 a2 Ha1 Ha2 Ep.
    destruct (Hdown a1 a2 Ha1 Ha2 Ep) as [D1 D2]. apply (IH a1 a2); [by eapply rtc_down..|done].
Qed.

Lemma chain_above p l q x : chain_to f p l q → x ∈ l → item_num f q < item_num f x ≤ item_num f p.
Proof.
  intros H [i Hi]%list_elem_of_lookup. rewrite (chain_lookup _ _ _ _ _ H Hi), (chain_num _ _ _ H).
  apply lookup_lt_Some in Hi. lia.
Qed.
Lemma chain_elem p l q x : is_Some (items f !! p) → chain_to f p l q → x ∈ l ++ [q] → is_Some (items f !! x).
Proof.
  intros Hp H. induction H as [p|p r l q Hl _ IH]; simpl; [by intros ->%list_elem_of_singleton|].
  intros [->|Hx]%elem_of_cons; [done|]. apply IH; [apply (linked_older _ _ Hl)|done].
Qed.
(** Two chains that start at equal numbers pair their items off by number. *)
Lemma chains_pair p1 l1 q1 p2 l2 q2 (P : nat → nat → Prop) x y :
  chain_to f p1 l1 q1 → chain_to f p2 l2 q2 → item_num f p1 = item_num f p2 → Forall2 P l1 l2 →
  x ∈ l1 → y ∈ l2 → item_num f x = item_num f y → P x y.
Proof.
  intros H1 H2 En HP [i Hi]%list_elem_of_lookup [j Hj]%list_elem_of_lookup.
  rewrite (chain_lookup _ _ _ _ _ H1 Hi), (chain_lookup _ _ _ _ _ H2 Hj). intros E.
  replace j with i in Hj by lia. by eapply Forall2_lookup_lr.
Qed.

(** The two loops of [fetch_branch_from] together: [h1] and [h2] lead to items with
    equal numbers, one of them empty. *)
Lemma branches_meet p1 p2 h1 h2 m1 m2 l1 l2 a1 a2 :
  chain_to f p1 h1 m1 → chain_to f p2 h2 m2 → item_num f m1 = item_num f m2 → h1 = [] ∨ h2 = [] →
  chain_to f m1 l1 a1 → chain_to f m2 l2 a2 →
  Forall2 (λ x y, previous_of f x ≠ previous_of f y) l1 l2 → previous_of f a1 = previous_of f a2 →
  ∀ x y, x ∈ (h1 ++ l1) ++ [a1] → y ∈ (h2 ++ l2) ++ [a2] → is_Some (items f !! x) → is_Some (items f !! y) →
  previous_of f x = previous_of f y → x = a1 ∧ y = a2.
Proof.
  intros C1 C2 Em Hh D1 D2 HF Ea x y Hx Hy Vx Vy E. pose proof (previous_num x y Vx Vy E) as En.
  pose proof (chain_num _ _ _ D1). pose proof (chain_num _ _ _ D2). pose proof (Forall2_length _ _ _ HF).
  rewrite !elem_of_app, !list_elem_of_singleton in Hx, Hy.
  assert (∀ z, z ∈ h1 → item_num f m1 < item_num f z) as B1 by (intros z Hz; by eapply chain_above).
  assert (∀ z, z ∈ h2 → item_num f m1 < item_num f z) as B2
    by (intros z Hz; rewrite Em; by eapply chain_above).
  assert (∀ z, z ∈ l1 → item_num f a1 < item_num f z ≤ item_num f m1) as B3
    by (intros z Hz; by eapply chain_above).
  assert (∀ z, z ∈ l2 → item_num f a1 < item_num f z ≤ item_num f m1) as B4.
  { intros z Hz. pose proof (chain_above _ _ _ _ D2 Hz). lia. }
  destruct Hx as [[Hx|Hx]| ->], Hy as [[Hy|Hy]| ->]; try done;
    repeat match goal with
    | B : ∀ z, z ∈ ?h → _, H : _ ∈ ?h |- _ => pose proof (B _ H); clear B
    end; try lia.
  - destruct Hh as [-> | ->]; by apply elem_of_nil in Hx || by apply elem_of_nil in Hy.
  - by destruct (chains_pair _ _ _ _ _ _ _ _ _ D1 D2 Em HF Hx Hy En).
Qed.
End branches.

Lemma fetch_branch_from_spec f first second :
  fork_reachable f →
  match fetch_branch_from first second f with
  | Ok br => ∃ p1 p2 l1 l2 a1 a2, find_id f first = Some p1 ∧ find_id f second = Some p2 ∧
      br = (l1 ++ [a1], l2 ++ [a2]) ∧ chain_to f p1 l1 a1 ∧ chain_to f p2 l2 a2 ∧
      previous_of f a1 = previous_of f a2 ∧
      ∀ x y, x ∈ br.1 → y ∈ br.2 → previous_of f x = previous_of f y → x = a1 ∧ y = a2
  | Err e => e = assert_exception ∧
      ∀ p1 p2 a1 a2, find_id f first = Some p1 → find_id f second = Some p2 →
        rtc (linked f) p1 a1 → rtc (linked f) p2 a2 → previous_of f a1 ≠ previous_of f a2
  end.
Proof.
  intros W%reachable_wf. unfold fetch_branch_from.
  destruct (find_id f first) as [p1|] eqn:F1; simpl; [|done].
  destruct (find_id f second) as [p2|] eqn:F2; simpl; [|done].
  assert (∀ id p, find_id f id = Some p → is_Some (items f !! p) ∧ (p < length (items f))%nat) as V.
  { intros id p (Hp & i & Hi & _)%find_id_Some. split; [eauto|by eapply lookup_lt_Some]. }
  destruct (V _ _ F1) as [V1 B1], (V _ _ F2) as [V2 B2].
  destruct (deref_valid f p2 V2) as (i2 & E2 & Hi2). rewrite E2. simpl.
  rewrite <- (item_num_data f W p2 i2 Hi2).
  pose proof (descend_spec f W _ (item_num f p2) [] p1 V1 B1) as D1.
  destruct (descend _ f (item_num f p2) [] p1) as [[h1 m1]|e]; simpl in D1 |- *.
  2:{ destruct D1 as [-> D1]. split; [done|]. intros ? ? a1 a2 [=<-] [=<-] Ha1 Ha2 E.
      pose proof (D1 a1 Ha1). pose proof (rtc_num f W _ _ Ha2).
      pose proof (previous_num f W _ _ (rtc_valid f W _ _ V1 Ha1) (rtc_valid f W _ _ V2 Ha2) E). lia. }
  destruct D1 as (? & [= <-] & C1 & L1 & Vm1 & O1).
  destruct (deref_valid f m1 Vm1) as (i1 & E1 & Hi1). rewrite E1. simpl.
  rewrite <- (item_num_data f W m1 i1 Hi1).
  pose proof (descend_spec f W _ (item_num f m1) [] p2 V2 B2) as D2.
  destruct (descend _ f (item_num f m1) [] p2) as [[h2 m2]|e]; simpl in D2 |- *.
  2:{ destruct D2 as [-> D2]. split; [done|]. intros ? ? a1 a2 [=<-] [=<-] Ha1 Ha2 E.
      pose proof (D2 a2 Ha2). pose proof (D2 p2 (rtc_refl _ _)).
      destruct O1 as [-> | ?]; [|lia]. inversion C1; subst. pose proof (rtc_num f W _ _ Ha1).
      pose proof (previous_num f W _ _ (rtc_valid f W _ _ V1 Ha1) (rtc_valid f W _ _ V2 Ha2) E). lia. }
  destruct D2 as (? & [= <-] & C2 & L2 & Vm2 & O2).
  pose proof (chain_num f W _ _ _ C1). pose proof (chain_num f W _ _ _ C2).
  assert (item_num f m1 = item_num f m2 ∧ (h1 = [] ∨ h2 = [])) as [Em Hh].
  { destruct O2 as [-> |O2]; [inversion C2; subst; split; [lia|by right]|]. split; [done|].
    destruct O1 as [?|O1]; [by left|right]. destruct h2; [done|]. simpl in *. lia. }
  assert (m1 < length (items f))%nat as Bm by (destruct Vm1; by eapply lookup_lt_Some).
  pose proof (descend_both_spec f W (length (items f)) h1 h2 m1 m2 Vm1 Vm2 Bm Em) as D.
  destruct (descend_both _ f h1 h2 m1 m2) as [br|e].
  - destruct D as (l1 & l2 & a1 & a2 & -> & D1 & D2 & Ea & HF).
    pose proof (chain_app f _ _ _ _ _ C1 D1) as A1. pose proof (chain_app f _ _ _ _ _ C2 D2) as A2.
    exists p1, p2, (h1 ++ l1), (h2 ++ l2), a1, a2. rewrite !app_assoc. split_and!; try done.
    simpl. intros x y Hx Hy. 
    exact (branches_meet f W _ _ _ _ _ _ _ _ _ _ C1 C2 Em Hh D1 D2 HF Ea x y Hx Hy
             (chain_elem f W _ _ _ _ V1 A1 Hx) (chain_elem f W _ _ _ _ V2 A2 Hy)).
  - destruct D as [-> D]. split; [done|]. intros ? ? a1 a2 [=<-] [=<-] Ha1 Ha2 E.
    pose proof (previous_num f W _ _ (rtc_valid f W _ _ V1 Ha1) (rtc_valid f W _ _ V2 Ha2) E) as En.
    pose proof (rtc_num f W _ _ Ha1). pose proof (rtc_num f W _ _ Ha2).
    assert (rtc (linked f) m1 a1) as Hm1.
    { apply (chain_rest f W p1 h1); [done..|]. destruct O1 as [->|?]; [inversion C1; subst|]; lia. }
    pose proof (rtc_num f W _ _ Hm1).
    apply (D a1 a2); [done|apply (chain_rest f W p2 h2); [done..|lia]|done].
Qed.

(** C10: the walk to the fork point.  From two blocks of the index
    [fetch_branch_from] follows the parents until two of them name the same
    previous block; these are the only two blocks of the branches that do, so the
    branches end at the most recent common ancestor.  The walk always ends; it
    fails only with its assertions, when a block is not in the index or no two
    living ancestors share their previous block. *)
Theorem fetch_branch_from_ancestor f first second :
  fork_reachable f →
  match fetch_branch_from first second f with
  | Ok br => ∃ p1 p2 l1 l2 a1 a2, find_id f first = Some p1 ∧ find_id f second = Some p2 ∧
      br = (l1 ++ [a1], l2 ++ [a2]) ∧ chain_to f p1 l1 a1 ∧ chain_to f p2 l2 a2 ∧
      previous_of f a1 = previous_of f a2 ∧
      ∀ x y, x ∈ br.1 → y ∈ br.2 → previous_of f x = previous_of f y → x = a1 ∧ y = a2
  | Err e => e = assert_exception ∧
      ∀ p1 p2 a1 a2, find_id f first = Some p1 → find_id f second = Some p2 →
        rtc (linked f) p1 a1 → rtc (linked f) p2 a2 → previous_of f a1 ≠ previous_of f a2
  end.
Proof. apply fetch_branch_from_spec. Qed.

(** ** Pushing a block *)


(** ** What the operations promise *)

Definition id_at f p : option Z := item_id <$> (items f !! p).
Definition block_at f p : option signed_block := data <$> (items f !! p).

Lemma find_id_frame f g id : items f = items g → _index f = _index g → find_id f id = find_id g id.
Proof. destruct f, g. simpl. by intros -> ->. Qed.
Lemma better_head_frame p b f : items (better_head p b f) = items f ∧ _index (better_head p b f) = _index f.
Proof. unfold better_head. by repeat case_match. Qed.
Lemma index_insert_incl p f q : q ∈ _index f → q ∈ _index (index_insert p f).
Proof. unfold index_insert. intros Hq. repeat case_match; try done. simpl. apply elem_of_app. by left. Qed.
Lemma find_id_insert p f id q : find_id f id = Some q → find_id (index_insert p f) id = Some q.
Proof.
  intros H. unfold index_insert. destruct (item_at f p) as [i|]; [|done]. destruct (find_id f (item_id i)); [done|].
  unfold find_id in H |- *. apply fmap_Some in H as ([k r] & E & ->). apply fmap_Some. exists (k, r).
  split; [|done]. by apply list_find_app_l.
Qed.
Lemma find_id_inserted p f i : items f !! p = Some i → ∃ q, find_id (index_insert p f) (item_id i) = Some q.
Proof.
  intros Hi. unfold index_insert, item_at. rewrite Hi. destruct (find_id f (item_id i)) as [q|] eqn:E; [by eauto|].
  destruct (find_id (f <| _index ::= λ l, l ++ [p] |>) (item_id i)) as [q|] eqn:E'; [by eauto|].
  destruct (find_id_None _ _ p i E'); simpl; [|done|done]. apply elem_of_app. right. by left.
Qed.

(** C25: the fork database is a forest of blocks, and its ids are unique: in every
    reachable state the block that an item links to is the previous block it names, older
    in memory and numbered one lower, and the parent pointed to by a link and the block
    found by its id are the same object; no item is twice in the index, no two items of the
    index have the same id, and looking up the id of an item of the index finds that
    item. *)
Theorem fork_database_forest f :
  fork_reachable f →
  (∀ p q, linked f p q →
    (q < p)%nat ∧ item_num f p = item_num f q + 1 ∧ id_at f q = Some (previous_of f p) ∧
    (q ∈ _index f → find_id f (previous_of f p) = Some q)) ∧
  NoDup (_index f) ∧
  (∀ p q, p ∈ _index f → q ∈ _index f → id_at f p = id_at f q → p = q) ∧
  (∀ p, p ∈ _index f → ∃ id, id_at f p = Some id ∧ find_id f id = Some p).
Proof.
  intros W%reachable_wf. split_and!; [|apply (wf_index _ W)|apply (wf_ids _ W)|].
  - intros p q (i & Hi & [Hq _]%lock_Some).
    destruct (wf_items _ W _ _ Hi) as (_ & _ & H). destruct (H q Hq) as (Hlt & j & Hj & Ej & En).
    unfold id_at, previous_of. rewrite Hi, Hj, (item_num_at _ _ _ Hi), (item_num_at _ _ _ Hj). simpl.
    split_and!; [done|done|by f_equal|]. intros Hqi. unfold previous_id. rewrite <- Ej. by eapply find_id_elem.
  - intros p Hp. destruct (wf_owned _ W p) as [i Hi]; [by left|]. exists (item_id i).
    unfold id_at. rewrite Hi. split; [done|]. by apply find_id_elem.
Qed.

Lemma chain_first f p l q : chain_to f p l q → ∃ r, l ++ [q] = p :: r.
Proof. intros H. inversion H; subst; simpl; eauto. Qed.

(** Pushing a block returns the longest chain: every known block stays known;
    a block with a higher number than the head becomes the head, linked to the
    block it names as previous; otherwise the head stays.  It is refused only when
    it is too old for the cache or when its previous block is unknown. *)
Theorem fork_push_block_longest f b :
  fork_reachable f →
  wpe (fork_push_block b) (λ h f',
      _head f' = Some h ∧ (∀ id q, find_id f id = Some q → find_id f' id = Some q) ∧
      (∃ p, find_id f' (block_id_of b) = Some p) ∧
      ∀ h0, _head f = Some h0 →
        if item_num f h0 <? block_num b then
          block_at f' h = Some b ∧
          (previous b ≠ 0 → ∃ q, find_id f (previous b) = Some q ∧ linked f' h q)
        else h = h0)
    (refused f b) f.
Proof.
  intros W%reachable_wf. eapply wpe_mono; [by apply fork_push_block_wpe|].
  intros h f' (link & Hl & Hh & Ef). split; [done|].
  set (p := length (items f)) in *. set (f1 := f <| items ::= λ l, l ++ [linked_item link b] |>) in *.
  assert (items f1 !! p = Some (linked_item link b)) as Hp by by apply list_lookup_middle.
  destruct (index_insert_frame p f1) as (Ei & Eh & Ed & _). set (g := index_insert p f1) in *.
  destruct (better_head_frame p b g) as [Ei' Ex'].
  assert (∀ id, find_id f' id = find_id g id) as Hfind by (intros id; subst f'; by apply find_id_frame).
  split_and!.
  - intros id q Hq. rewrite Hfind. apply find_id_insert. unfold f1. by rewrite find_id_fresh.
  - setoid_rewrite Hfind. by apply (find_id_inserted _ _ _ Hp).
  - intros h0 E0. subst f'. unfold better_head in Hh |- *. rewrite Eh in Hh |- *. simpl in Hh |- *.
    rewrite E0 in Hh |- *.
    assert (item_num g h0 = item_num f h0) as En.
    { unfold item_num at 1, item_at. rewrite Ei. apply item_num_fresh. apply (wf_owned _ W). auto. }
    rewrite En in Hh |- *. destruct (Z.ltb_spec (item_num f h0) (block_num b)) as [Hlt|Hge]; [|rewrite Eh in Hh; simpl in Hh; congruence].
    injection Hh as <-. unfold block_at. simpl. rewrite Ei, Hp. split; [done|]. intros Hn.
    unfold link_ok in Hl. rewrite E0 in Hl. destruct Hl as [_ Hl]. rewrite (proj2 (Z.eqb_neq _ _) Hn) in Hl.
    destruct Hl as [Hq [q ->]]. exists q. split; [done|]. exists (linked_item (Some q) b).
    split; [simpl; exact Hp|]. apply lock_Some. split; [done|]. apply alive_true. left. simpl.
    apply index_insert_incl. by apply find_id_Some in Hq as [? _].
Qed.

Lemma walk_loop_spec fuel f n p :
  fork_wf f → is_Some (items f !! p) → (p < fuel)%nat → n <= item_num f p →
  ∃ r, walk_loop fuel f n (Some p) = Ok r ∧ (∀ q, r = Some q → item_num f q = n) ∧
    ∀ a, rtc (linked f) p a → item_num f a = n → r = Some a.
Proof.
  intros W. revert p. induction fuel as [|fuel IH]; intros p Hp Hf Hn; [lia|].
  destruct (deref_valid f p Hp) as (i & Ei & Hi). simpl. rewrite Ei. simpl.
  rewrite (item_num_at f p i Hi) in Hn. destruct (Z.ltb_spec n (num i)) as [Hlt|Hge].
  - destruct (lock f (item_prev i)) as [q|] eqn:Hq.
    + assert (linked f p q) as Hl by by exists i. destruct (linked_older f W _ _ Hl) as [? Vq].
      pose proof (linked_num f W _ _ Hl) as En. rewrite (item_num_at f p i Hi) in En.
      destruct (IH q Vq ltac:(lia) ltac:(lia)) as (r & -> & Hr & Ha). exists r. split_and!; [done..|].
      intros a Hpa Ea. apply Ha; [|done]. apply (rtc_down f p); [done..|].
      rewrite (item_num_at f p i Hi). lia.
    + exists None. split; [by destruct fuel|]. split; [done|]. intros a Ha Ea.
      inversion Ha as [|? r ? (j & Hj & Hr) ?]; subst; [|congruence].
      rewrite (item_num_at _ _ _ Hi) in Hlt. lia.
  - assert (item_num f p = n) as En by (rewrite (item_num_at f p i Hi); lia).
    exists (Some p). split; [done|]. split; [by intros q [=<-]|].
    intros a Ha Ea. f_equal. symmetry. apply (rtc_same f W); [done|]. by rewrite En, Ea.
Qed.

Lemma main_branch_spec f n h :
  fork_reachable f → _head f = Some h →
  ∃ r, fetch_block_on_main_branch_by_number n f = Ok r ∧ (∀ q, r = Some q → item_num f q = n) ∧
    ∀ p, rtc (linked f) h p → p ∈ _index f → item_num f p = n → r = Some p.
Proof.
  intros W%reachable_wf Hh. unfold fetch_block_on_main_branch_by_number.
  assert (∀ q, q ∈ fork_fetch_block_by_number n f ↔ item_num f q = n ∧ q ∈ _index f) as Hin.
  { intros q. apply (list_elem_of_filter (λ p, item_num f p = n)). }
  destruct (fork_fetch_block_by_number n f) as [|p [|p' l]].
  - exists None. split_and!; [done..|]. intros p _ Hp Ep. exfalso. by apply (not_elem_of_nil p), Hin.
  - exists (Some p). split; [done|]. split; [intros q [=<-]; apply Hin; by left|].
    intros q _ Hq Eq. f_equal. symmetry. by apply list_elem_of_singleton, Hin.
  - unfold walk_main_branch_to_num. rewrite Hh. simpl.
    assert (is_Some (items f !! h)) as Vh by (apply (wf_owned _ W); auto).
    destruct (deref_valid f h Vh) as (i & Ei & Hi). rewrite Ei. simpl.
    rewrite <- (item_num_at f h i Hi). destruct (Z.ltb_spec (item_num f h) n) as [Hlt|Hge].
    + exists None. split_and!; [done..|]. intros q Hq _ Eq. pose proof (rtc_num f W _ _ Hq). lia.
    + destruct (walk_loop_spec (length (items f)) f n h W Vh) as (r & -> & Hr & Ha); [|done|].
      { destruct Vh. by eapply lookup_lt_Some. }
      exists r. split_and!; eauto.
Qed.

(** Looking a block up by number follows the main branch: the lookup always
    returns, what it returns has the number, and an ancestor of the head with that
    number that is in the index is what it returns, whatever other forks hold. *)
Theorem main_branch_by_number f n h :
  fork_reachable f → _head f = Some h →
  ∃ r, fetch_block_on_main_branch_by_number n f = Ok r ∧ (∀ q, r = Some q → item_num f q = n) ∧
    ∀ p, rtc (linked f) h p → p ∈ _index f → item_num f p = n → r = Some p.
Proof. apply main_branch_spec. Qed.
End spec.

(** ** A concrete fork

    Block 1, then the branch 2-3, then the longer branch 2-3-4. *)
Definition block_b2 : signed_block := fork_block (block_id_of block_a1) 4.
Definition block_b3 : signed_block := fork_block (block_id_of block_b2) 5.
Definition block_b4 : signed_block := fork_block (block_id_of block_b3) 6.

Definition after_fork {A} (m : M fork_database A) (f : fork_database) : fork_database :=
  match m f with Ok (_, f') => f' | Err _ => f end.
Definition demo_fork : fork_database :=
  foldl (λ f b, after_fork (fork_push_block b) f) (after_fork (start_block block_a1) empty_fork_database)
    [block_a2; block_a3; block_b2; block_b3; block_b4].

Lemma after_fork_push b f : fork_reachable f → fork_reachable (after_fork (fork_push_block b) f).
Proof.
  intros H. unfold after_fork. destruct (fork_push_block b f) as [[h f']|e] eqn:E; [|done].
  eapply rtc_r; [done|]. by econstructor.
Qed.
Lemma demo_fork_reachable : fork_reachable demo_fork.
Proof.
  unfold demo_fork. simpl foldl. do 5 apply after_fork_push. apply rtc_once. by apply (fork_step_start block_a1).
Qed.

Example demo_branches :
  fetch_branch_from (block_id_of block_b4) (block_id_of block_a3) demo_fork = Ok ([5; 4; 3], [2; 1])%nat.
Proof. vm_compute. reflexivity. Qed.

Lemma fetch_branch_from_ancestor_witness :
  ∃ p1 p2 l1 l2 a1 a2, ([5; 4; 3], [2; 1])%nat = (l1 ++ [a1], l2 ++ [a2]) ∧
    chain_to demo_fork p1 l1 a1 ∧ chain_to demo_fork p2 l2 a2 ∧
    previous_of demo_fork a1 = previous_of demo_fork a2.
Proof.
  pose proof (fetch_branch_from_ancestor demo_fork (block_id_of block_b4) (block_id_of block_a3)
    demo_fork_reachable) as H.
  rewrite demo_branches in H. destruct H as (p1 & p2 & l1 & l2 & a1 & a2 & _ & _ & H1 & H2 & H3 & H4 & _).
  exists p1, p2, l1, l2, a1, a2. exact (conj H1 (conj H2 (conj H3 H4))).
Defined.

Lemma demo_linked : linked demo_fork 5 4.
Proof. eexists. split; vm_compute; reflexivity. Qed.
Lemma fork_database_forest_witness :
  item_num demo_fork 5 = item_num demo_fork 4 + 1 ∧ find_id demo_fork (block_id_of block_b3) = Some 4%nat ∧
  ∃ id, id_at demo_fork 2 = Some id ∧ find_id demo_fork id = Some 2%nat.
Proof.
  destruct (fork_database_forest demo_fork demo_fork_reachable) as (H & _ & _ & Hfind).
  destruct (H 5%nat 4%nat demo_linked) as (_ & Hn & _).
  split; [exact Hn|]. split; [vm_compute; reflexivity|]. apply Hfind.
  apply (bool_decide_unpack _). vm_compute. exact I.
Defined.

Lemma fork_push_block_longest_witness :
  wpe (fork_push_block (fork_block (block_id_of block_b4) 7)) (λ h f', h = 6%nat ∧ _head f' = Some h)
    (λ _, False) demo_fork.
Proof.
  pose proof (fork_push_block_longest demo_fork (fork_block (block_id_of block_b4) 7) demo_fork_reachable) as H.
  revert H. unfold wpe. 
  destruct (fork_push_block (fork_block (block_id_of block_b4) 7) demo_fork) as [[h f']|e] eqn:E.
  - intros (Hh & _). split; [|exact Hh]. vm_compute in E. by injection E.
  - vm_compute in E. discriminate E.
Defined.

Lemma main_branch_by_number_witness :
  fetch_block_on_main_branch_by_number 3 demo_fork = Ok (Some 4%nat).
Proof.
  destruct (main_branch_by_number demo_fork 3 5%nat demo_fork_reachable) as (r & Hr & _ & H);
    [vm_compute; reflexivity|].
  rewrite Hr, (H 4%nat); [reflexivity|apply rtc_once, demo_linked| |vm_compute; reflexivity].
  apply (bool_decide_unpack _). vm_compute. exact I.
Defined.
