(* ===== verification/BlockLog.v ===== *)
(** * BlockLog: the append-only log of irreversible blocks

    [libraries/chain/block_log.cpp]: the two files byte by byte.  Packing is fc's:
    class [BlockPack].  A stream in append mode writes at the end and reports the
    end as its position; a read past the end throws. *)

From S2P Require Import Prelude FcLib Tables Config Asset Names Authority Operations Transaction Block.

(** [fc::raw::pack] and [unpack] of a signed block: [unpack] takes the block off the
    front of the bytes.  fc bounds the sizes of what it unpacks, and a name is
    packed up to its first NUL (fixed_string.hpp:149): [packable] blocks are within those
    limits and have no NUL inside a name. *)
Class BlockPack := {
  packable : signed_block → Prop;
  pack : signed_block → list Z;
  unpack : list Z → option (signed_block * list Z);
  unpack_pack b rest : packable b → unpack (pack b ++ rest) = Some (b, rest)
}.

(** A 64-bit number as it lies in memory, lowest byte first. *)
Fixpoint le_bytes (n : nat) (x : Z) : list Z :=
  match n with O => [] | S n => x mod 256 :: le_bytes n (x / 256) end.
Fixpoint le_value (l : list Z) : Z :=
  match l with [] => 0 | b :: l => b + 256 * le_value l end.
Definition le64 (x : Z) : list Z := le_bytes 8 x.
Arguments le64 : simpl never.

(** block_log.cpp:10.  The files survive [close]; [head] is [my->head]. *)
Record block_log := BlockLog {
  block_stream : list Z;
  index_stream : list Z;
  head : option signed_block;
  head_id : Z
}.
#[global] Instance block_log_eta : Eta block_log := λ r,
  BlockLog (block_stream r) (index_stream r) (head r) (head_id r).

Definition npos : Z := 2 ^ 64 - 1.

(** ** Streams *)

Definition size_of (file : list Z) : Z := Z.of_nat (length file).
(** [seekg( pos )] and [read] of a position *)
Definition read_pos (file : list Z) (pos : Z) : result Z :=
  if (0 <=? pos) && (pos + 8 <=? size_of file)
  then Ok (le_value (take 8 (drop (Z.to_nat pos) file))) else Err runtime_error.
(** [seekg( -8, end )] and [read] *)
Definition read_last_pos (file : list Z) : result Z := read_pos file (size_of file - 8).

Section log.
Context `{BL : BlockLib} `{BP : BlockPack}.

(** [fc::raw::unpack] at a position: the block and the position behind it *)
Definition unpack_at (file : list Z) (pos : Z) : result (signed_block * Z) :=
  match unpack (drop (Z.to_nat pos) file) with
  | Some (b, rest) => Ok (b, size_of file - size_of rest)
  | None => Err runtime_error
  end.

(** ** Operations *)

(** block_log.cpp:185 *)
Definition append (b : signed_block) : X block_log Z :=
  l ← xgets id;
  let pos := size_of (block_stream l) in
  let index_pos := size_of (index_stream l) in
  xassert (index_pos =? wrap 64 (8 * wrap 32 (block_num b - 1)));;
  xmodify (λ l, l <| block_stream ::= λ s, s ++ pack b ++ le64 pos |>
    <| index_stream ::= λ s, s ++ le64 pos |> <| head := Some b |> <| head_id := block_id_of b |>);;
  mret pos.

(** block_log.cpp:213 *)
Definition read_block (pos : Z) (l : block_log) : result (signed_block * Z) :=
  r ← unpack_at (block_stream l) pos;
  mret (r.1, r.2 + 8).
(** block_log.cpp:244 *)
Definition get_block_pos (n : Z) (l : block_log) : result Z :=
  match head l with
  | Some _ => if (n <=? num_from_id (head_id l)) && (0 <? n)
              then read_pos (index_stream l) (8 * (n - 1)) else mret npos
  | None => mret npos
  end.
(** block_log.cpp:228 *)
Definition read_block_by_num (n : Z) (l : block_log) : result (option signed_block) :=
  pos ← get_block_pos n l;
  if pos =? npos then mret None
  else
    r ← read_block pos l;
    FC_ASSERT (block_num r.1 =? n);;
    mret (Some r.1).
(** block_log.cpp:260 *)
Definition read_head (l : block_log) : result signed_block :=
  pos ← read_last_pos (block_stream l);
  r ← read_block pos l;
  mret r.1.

(** block_log.cpp:299: [cursor] is the read position of the block stream, every
    round moves it at least the 8 bytes of a position *)
Fixpoint index_loop (fuel : nat) (pos end_pos cursor : Z) : X block_log unit :=
  if pos <? end_pos then
    match fuel with
    | O => xthrow out_of_fuel
    | S fuel =>
      l ← xgets id;
      r ← xlift (unpack_at (block_stream l) cursor);
      p ← xlift (read_pos (block_stream l) r.2);
      xmodify (λ l, l <| index_stream ::= λ s, s ++ le64 p |>);;
      index_loop fuel p end_pos (r.2 + 8)
    end
  else mret tt.
(** block_log.cpp:279 *)
Definition construct_index : X block_log unit :=
  xmodify (λ l, l <| index_stream := [] |>);;
  l ← xgets id;
  end_pos ← xlift (read_last_pos (block_stream l));
  index_loop (length (block_stream l)) 0 end_pos 0.

(** block_log.cpp:92 *)
Definition open : X block_log unit :=
  l ← xgets id;
  if negb (size_of (block_stream l) =? 0) then
    h ← xlift (read_head l);
    xmodify (λ l, l <| head := Some h |> <| head_id := block_id_of h |>);;
    if negb (size_of (index_stream l) =? 0) then
      block_pos ← xlift (read_last_pos (block_stream l));
      index_pos ← xlift (read_last_pos (index_stream l));
      if block_pos <? index_pos then construct_index
      else xwhen (index_pos <? block_pos) construct_index
    else construct_index
  else xwhen (negb (size_of (index_stream l) =? 0)) (xmodify (λ l, l <| index_stream := [] |>)).

(** block_log.cpp:175 *)
Definition close (l : block_log) : block_log := l <| head := None |> <| head_id := 0 |>.


(** ** What the files hold

    [log_bytes p bs] are the bytes of the blocks [bs] in a file that already holds
    [p] bytes; [positions p bs] are the places where they start. *)
Definition chunk (p : Z) (b : signed_block) : list Z := pack b ++ le64 p.
Fixpoint log_bytes (p : Z) (bs : list signed_block) : list Z :=
  match bs with [] => [] | b :: bs => chunk p b ++ log_bytes (p + size_of (chunk p b)) bs end.
Fixpoint positions (p : Z) (bs : list signed_block) : list Z :=
  match bs with [] => [] | b :: bs => p :: positions (p + size_of (chunk p b)) bs end.
Definition index_bytes (ps : list Z) : list Z := concat (le64 <$> ps).

(** The log holds the blocks [bs], numbered from one. *)
Record holds (l : block_log) (bs : list signed_block) : Prop := {
  holds_blocks : block_stream l = log_bytes 0 bs;
  holds_index : index_stream l = index_bytes (positions 0 bs);
  holds_head : head l = last bs;
  holds_head_id : head_id l = default 0 (block_id_of <$> last bs);
  holds_nums i b : bs !! i = Some b → block_num b = Z.of_nat i + 1;
  holds_size : size_of (log_bytes 0 bs) < 2 ^ 63;
  holds_packable : Forall packable bs
}.

Lemma le_bytes_length n x : length (le_bytes n x) = n.
Proof. revert x. induction n as [|n IH]; intros x; simpl; [done|]. by rewrite IH. Qed.
Lemma le_value_bytes n x : 0 <= x < 2 ^ (8 * Z.of_nat n) → le_value (le_bytes n x) = x.
Proof.
  revert x. induction n as [|n IH]; intros x Hx; simpl; [change (2 ^ (8 * Z.of_nat 0)) with 1 in Hx; lia|].
  rewrite IH; [pose proof (Z.div_mod x 256); lia|].
  rewrite Nat2Z.inj_succ, Z.mul_succ_r, Z.pow_add_r in Hx by lia. change (2 ^ 8) with 256 in Hx.
  split; [apply Z.div_pos; lia|]. apply Z.div_lt_upper_bound; lia.
Qed.
Lemma le64_size p : size_of (le64 p) = 8.
Proof. unfold size_of, le64. by rewrite le_bytes_length. Qed.
Lemma size_app s t : size_of (s ++ t) = size_of s + size_of t.
Proof. unfold size_of. rewrite length_app. lia. Qed.
Lemma size_nonneg s : 0 <= size_of s.
Proof. unfold size_of. lia. Qed.

(** Reading back a position. *)
Lemma read_pos_app s p t pos :
  pos = size_of s → 0 <= p < 2 ^ 64 → read_pos (s ++ le64 p ++ t) pos = Ok p.
Proof.
  intros -> Hp. unfold read_pos. rewrite !size_app, le64_size. pose proof (size_nonneg t). pose proof (size_nonneg s).
  rewrite (proj2 (Z.leb_le _ _)), (proj2 (Z.leb_le _ _)) by lia. cbn [andb].
  unfold size_of. rewrite Nat2Z.id, drop_app_length.
  rewrite take_app_le by (unfold le64; rewrite le_bytes_length; lia).
  rewrite take_ge by (unfold le64; rewrite le_bytes_length; lia). unfold le64. by rewrite le_value_bytes.
Qed.
Lemma read_last_pos_app s p : 0 <= p < 2 ^ 64 → read_last_pos (s ++ le64 p) = Ok p.
Proof.
  intros Hp. unfold read_last_pos. rewrite <- (app_nil_r (le64 p)). apply read_pos_app; [|done].
  rewrite app_nil_r, size_app, le64_size. lia.
Qed.
Lemma unpack_at_app s b t pos :
  packable b → pos = size_of s → unpack_at (s ++ pack b ++ t) pos = Ok (b, pos + size_of (pack b)).
Proof.
  intros Hb ->. unfold unpack_at, size_of at 1. rewrite Nat2Z.id, drop_app_length, unpack_pack, !size_app by done.
  f_equal. f_equal. lia.
Qed.

Lemma chunk_size p b : size_of (chunk p b) = size_of (pack b) + 8.
Proof. unfold chunk. by rewrite size_app, le64_size. Qed.
Lemma log_bytes_app p bs cs :
  log_bytes p (bs ++ cs) = log_bytes p bs ++ log_bytes (p + size_of (log_bytes p bs)) cs.
Proof.
  revert p. induction bs as [|b bs IH]; intros p; simpl; [by rewrite Z.add_0_r|].
  by rewrite IH, size_app, <- app_assoc, Z.add_assoc.
Qed.
Lemma positions_app p bs cs :
  positions p (bs ++ cs) = positions p bs ++ positions (p + size_of (log_bytes p bs)) cs.
Proof.
  revert p. induction bs as [|b bs IH]; intros p; simpl; [by rewrite Z.add_0_r|].
  by rewrite IH, size_app, Z.add_assoc.
Qed.
Lemma positions_length p bs : length (positions p bs) = length bs.
Proof. revert p. induction bs as [|b bs IH]; intros p; simpl; [done|]. by rewrite IH. Qed.
Lemma index_bytes_app ps qs : index_bytes (ps ++ qs) = index_bytes ps ++ index_bytes qs.
Proof. unfold index_bytes. by rewrite fmap_app, concat_app. Qed.
Lemma index_bytes_one p : index_bytes [p] = le64 p.
Proof. change (le64 p ++ [] = le64 p). apply app_nil_r. Qed.
Lemma index_bytes_size ps : size_of (index_bytes ps) = 8 * Z.of_nat (length ps).
Proof.
  induction ps as [|p ps IH]; [done|]. change (index_bytes (p :: ps)) with (le64 p ++ index_bytes ps).
  rewrite size_app, le64_size, IH. simpl length. lia.
Qed.


(** Where block [i] lies: behind the blocks before it. *)
Definition start_of (bs : list signed_block) (i : nat) : Z := size_of (log_bytes 0 (take i bs)).
Lemma holds_split bs i b :
  bs !! i = Some b →
  let q := start_of bs i in
  positions 0 bs !! i = Some q ∧
  log_bytes 0 bs = log_bytes 0 (take i bs) ++ pack b ++ le64 q ++ log_bytes (q + size_of (chunk q b)) (drop (S i) bs) ∧
  index_bytes (positions 0 bs) =
    index_bytes (positions 0 (take i bs)) ++ le64 q ++ index_bytes (positions (q + size_of (chunk q b)) (drop (S i) bs)).
Proof.
  intros Hi q. unfold start_of in q. assert (i < length bs)%nat by by eapply lookup_lt_Some.
  pose proof (take_drop_middle _ _ _ Hi) as E.
  assert (positions 0 bs = positions 0 (take i bs) ++ q :: positions (q + size_of (chunk q b)) (drop (S i) bs)) as EP.
  { rewrite <- E at 1. rewrite positions_app. simpl. by rewrite Z.add_0_l. }
  split_and!.
  - rewrite EP, lookup_app_r; rewrite positions_length, length_take; [|lia].
    by replace (i - i `min` length bs)%nat with 0%nat by lia.
  - rewrite <- E at 1. rewrite log_bytes_app. simpl. rewrite Z.add_0_l. unfold chunk. by rewrite <- !app_assoc.
  - by rewrite EP, index_bytes_app.
Qed.
Lemma start_of_S bs i b :
  bs !! i = Some b → start_of bs (S i) = start_of bs i + size_of (chunk (start_of bs i) b).
Proof.
  intros Hi. unfold start_of. rewrite (take_S_r _ _ _ Hi), log_bytes_app, size_app. simpl.
  by rewrite app_nil_r, Z.add_0_l.
Qed.
Lemma start_of_lt bs i j : (i < j <= length bs)%nat → start_of bs i < start_of bs j.
Proof.
  intros [H Hj]. induction H as [|j H IH]; rename i into k.
  - destruct (lookup_lt_is_Some_2 bs k) as [b Hb]; [lia|]. rewrite (start_of_S _ _ _ Hb), chunk_size.
    pose proof (size_nonneg (pack b)). lia.
  - destruct (lookup_lt_is_Some_2 bs j) as [b Hb]; [lia|]. rewrite (start_of_S _ _ _ Hb), chunk_size.
    pose proof (size_nonneg (pack b)). specialize (IH ltac:(lia)). lia.
Qed.
Lemma start_of_bound bs i :
  (i <= length bs)%nat → size_of (log_bytes 0 bs) < 2 ^ 63 → 0 <= start_of bs i < 2 ^ 63.
Proof.
  intros Hi Hs. split; [apply size_nonneg|]. replace (log_bytes 0 bs) with (log_bytes 0 (take (length bs) bs)) in Hs
    by by rewrite take_ge.
  change (start_of bs (length bs) < 2 ^ 63) in Hs.
  destruct (decide (i = length bs)) as [->|]; [done|]. pose proof (start_of_lt bs i (length bs)). lia.
Qed.

Lemma unpack_at_start bs i b :
  Forall packable bs → bs !! i = Some b → unpack_at (log_bytes 0 bs) (start_of bs i) = Ok (b, start_of bs i + size_of (pack b)).
Proof.
  intros Hp Hi. destruct (holds_split bs i b Hi) as (_ & -> & _). apply unpack_at_app; [|done].
  by eapply Forall_lookup_1.
Qed.
Lemma read_block_at l bs i b :
  Forall packable bs → block_stream l = log_bytes 0 bs → bs !! i = Some b → read_block (start_of bs i) l = Ok (b, start_of bs (S i)).
Proof.
  intros Hp Hl Hi. unfold read_block. rewrite Hl, (unpack_at_start _ _ _ Hp Hi). simpl.
  unfold mret, result_ret. f_equal. f_equal. rewrite (start_of_S _ _ _ Hi), chunk_size. lia.
Qed.
(** The position behind block [i] is where it starts. *)
Lemma read_pos_behind bs i b :
  bs !! i = Some b → size_of (log_bytes 0 bs) < 2 ^ 63 →
  read_pos (log_bytes 0 bs) (start_of bs i + size_of (pack b)) = Ok (start_of bs i).
Proof.
  intros Hi Hs. destruct (holds_split bs i b Hi) as (_ & -> & _).
  rewrite app_assoc. apply read_pos_app; [by rewrite size_app|].
  pose proof (start_of_bound bs i). apply lookup_lt_Some in Hi. lia.
Qed.

Lemma read_block_held l bs n :
  holds l bs → Z.of_nat (length bs) < 2 ^ 32 →
  read_block_by_num n l = Ok (if 0 <? n then bs !! Z.to_nat (n - 1) else None).
Proof.
  intros H Hlen. unfold read_block_by_num, get_block_pos. rewrite (holds_head _ _ H), (holds_head_id _ _ H).
  destruct (last bs) as [b0|] eqn:E0; simpl.
  2:{ apply last_None in E0 as ->. by destruct (0 <? n). }
  rewrite num_of_block_id. rewrite last_lookup in E0.
  rewrite (holds_nums _ _ H _ _ E0). pose proof (lookup_lt_Some _ _ _ E0).
  destruct (Z.ltb_spec 0 n) as [Hn|Hn]; [|by rewrite andb_false_r]. rewrite andb_true_r.
  destruct (Z.leb_spec n (Z.of_nat (pred (length bs)) + 1)) as [Hle|Hgt].
  - destruct (lookup_lt_is_Some_2 bs (Z.to_nat (n - 1))) as [b Hb]; [lia|].
    destruct (holds_split bs _ b Hb) as (_ & _ & Ei). set (q := start_of bs _) in Ei.
    assert (0 <= q < 2 ^ 63) by (apply start_of_bound; [lia|apply (holds_size _ _ H)]).
    rewrite (holds_index _ _ H), Ei, (read_pos_app _ q); [|rewrite index_bytes_size, positions_length, length_take; lia|lia].
    simpl. replace (q =? npos) with false by (symmetry; apply Z.eqb_neq; unfold npos; lia).
    unfold q. rewrite (read_block_at _ _ _ _ (holds_packable _ _ H) (holds_blocks _ _ H) Hb). simpl.
    rewrite (holds_nums _ _ H _ _ Hb). replace (Z.of_nat (Z.to_nat (n - 1)) + 1) with n by lia.
    rewrite Z.eqb_refl. simpl. by rewrite Hb.
  - simpl. f_equal. symmetry. apply lookup_ge_None_2. lia.
Qed.

(** C29: random access to the block log: of a log that holds [bs] the number [n]
    reads back block [n], and no block for 0 and for numbers beyond the head. *)
Theorem read_block_by_num_holds l bs n :
  holds l bs → Z.of_nat (length bs) < 2 ^ 32 →
  read_block_by_num n l = Ok (if 0 <? n then bs !! Z.to_nat (n - 1) else None).
Proof. apply read_block_held. Qed.


Lemma append_stream l bs b pos l' :
  block_stream l = log_bytes 0 bs → append b l = (Ok pos, l') → block_stream l' = log_bytes 0 (bs ++ [b]).
Proof.
  unfold append, xgets, xassert, xmodify, xlift, mbind, X_bind, id. intros Hl. destruct (_ =? _); cbn; [|done].
  intros [= <- <-]. cbn. rewrite Hl, log_bytes_app. cbn. by rewrite app_nil_r.
Qed.
Lemma append_spec l bs b :
  holds l bs → packable b → Z.of_nat (length bs) < 2 ^ 32 - 1 → size_of (log_bytes 0 (bs ++ [b])) < 2 ^ 63 →
  if block_num b =? Z.of_nat (length bs) + 1
  then ∃ l', append b l = (Ok (start_of bs (length bs)), l') ∧ holds l' (bs ++ [b])
  else append b l = (Err assert_exception, l).
Proof.
  intros H Hp Hn Hs. unfold append, xgets, xassert, xmodify, xlift, mbind, X_bind, mret, X_ret, id.
  rewrite (holds_index _ _ H), index_bytes_size, positions_length. pose proof (block_num_range b).
  destruct (Z.eqb_spec (block_num b) (Z.of_nat (length bs) + 1)) as [E|N].
  - rewrite E. replace (Z.of_nat (length bs) + 1 - 1) with (Z.of_nat (length bs)) by lia.
    rewrite (wrap_small 32), wrap_small, Z.eqb_refl by lia. simpl.
    rewrite (holds_blocks _ _ H). eexists. split.
    { f_equal. unfold start_of. by rewrite take_ge. }
    assert (log_bytes 0 (bs ++ [b]) = log_bytes 0 bs ++ pack b ++ le64 (size_of (log_bytes 0 bs))) as El.
    { rewrite log_bytes_app. simpl. rewrite app_nil_r. by unfold chunk. }
    split; simpl; [by rewrite El| |by rewrite last_snoc|by rewrite last_snoc| |done|].
    + rewrite positions_app, index_bytes_app, (holds_index _ _ H). simpl. rewrite Z.add_0_l.
      by rewrite index_bytes_one.
    + intros i c [Hc|[Hi Hc]]%lookup_app_Some; [by apply (holds_nums _ _ H)|].
      apply list_lookup_singleton_Some in Hc as [Hi' ->]. lia.
    + apply Forall_app. split; [apply (holds_packable _ _ H)|by constructor].
  - rewrite (proj2 (Z.eqb_neq _ _)); [done|]. intros E. unfold wrap in E.
    destruct (decide (block_num b = 0)) as [E0|]; [rewrite E0 in E; change (8 * ((0 - 1) mod 2 ^ 32) mod 2 ^ 64) with (8 * (2 ^ 32 - 1)) in E; lia|].
    rewrite (Z.mod_small (block_num b - 1)), Z.mod_small in E by lia. lia.
Qed.

(** Appending to the log: the next block in number is added to both files and
    becomes the head; any other block is refused and changes nothing. *)
Theorem append_holds l bs b :
  holds l bs → packable b → Z.of_nat (length bs) < 2 ^ 32 - 1 → size_of (log_bytes 0 (bs ++ [b])) < 2 ^ 63 →
  if block_num b =? Z.of_nat (length bs) + 1
  then ∃ l', append b l = (Ok (start_of bs (length bs)), l') ∧ holds l' (bs ++ [b])
  else append b l = (Err assert_exception, l).
Proof. apply append_spec. Qed.

Lemma read_head_last l bs b :
  Forall packable bs → block_stream l = log_bytes 0 bs → last bs = Some b → size_of (log_bytes 0 bs) < 2 ^ 63 →
  read_last_pos (block_stream l) = Ok (start_of bs (pred (length bs))) ∧ read_head l = Ok b.
Proof.
  intros Hp Hl Hb Hs. rewrite last_lookup in Hb. pose proof (lookup_lt_Some _ _ _ Hb) as Hlen.
  assert (read_last_pos (block_stream l) = Ok (start_of bs (pred (length bs)))) as E.
  { rewrite Hl. destruct (holds_split bs _ b Hb) as (_ & -> & _).
    rewrite (drop_ge bs) by lia. cbn [log_bytes]. rewrite app_nil_r, app_assoc. apply read_last_pos_app.
    pose proof (start_of_bound bs (pred (length bs))). lia. }
  split; [done|]. unfold read_head. rewrite E. simpl. by rewrite (read_block_at _ _ _ _ Hp Hl Hb).
Qed.

(** The loop that rebuilds the index, from block [i] on. *)
Lemma index_loop_rebuilds fuel l bs i pos :
  Forall packable bs → block_stream l = log_bytes 0 bs → size_of (log_bytes 0 bs) < 2 ^ 63 →
  (i < length bs)%nat → (length bs <= fuel + i)%nat → pos < start_of bs (pred (length bs)) →
  index_loop fuel pos (start_of bs (pred (length bs))) (start_of bs i) l =
  (Ok tt, l <| index_stream ::= λ s, s ++ index_bytes (drop i (positions 0 bs)) |>).
Proof.
  intros HP. revert l i pos. induction fuel as [|fuel IH]; intros l i pos Hl Hs Hi Hf Hp; [lia|].
  destruct (lookup_lt_is_Some_2 bs i Hi) as [b Hb].
  simpl. rewrite (proj2 (Z.ltb_lt _ _) Hp). unfold xgets, xmodify, xlift, mbind, X_bind, id. rewrite Hl.
  rewrite (unpack_at_start _ _ _ HP Hb). simpl. rewrite (read_pos_behind _ _ _ Hb Hs).
  destruct (holds_split bs i b Hb) as (Hq & _ & _).
  replace (start_of bs i + size_of (pack b) + 8) with (start_of bs (S i))
    by (rewrite (start_of_S _ _ _ Hb), chunk_size; lia).
  rewrite (drop_S _ _ _ Hq). destruct (decide (i = pred (length bs))) as [Ei|Ni].
  - rewrite <- Ei, (drop_ge (positions 0 bs)) by (rewrite positions_length; lia).
    destruct fuel; simpl; rewrite Z.ltb_irrefl; by rewrite index_bytes_one.
  - rewrite (IH _ (S i)); [|by destruct l|done|lia|lia|apply start_of_lt; lia].
    destruct l. unfold update. simpl. f_equal. f_equal. by rewrite <- app_assoc.
Qed.

Lemma log_bytes_length p bs : (length bs <= length (log_bytes p bs))%nat.
Proof.
  revert p. induction bs as [|b bs IH]; intros p; simpl; [lia|]. specialize (IH (p + size_of (chunk p b))).
  rewrite length_app. pose proof (chunk_size p b). pose proof (size_nonneg (pack b)). unfold size_of in *. lia.
Qed.
Lemma construct_index_rebuilds l bs :
  Forall packable bs → block_stream l = log_bytes 0 bs → size_of (log_bytes 0 bs) < 2 ^ 63 → (2 <= length bs)%nat →
  construct_index l = (Ok tt, l <| index_stream := index_bytes (positions 0 bs) |>).
Proof.
  intros HP Hl Hs Hn. destruct (last bs) as [b|] eqn:Eb; [|apply last_None in Eb as ->; simpl in Hn; lia].
  unfold construct_index, xgets, xmodify, xlift, mbind, X_bind, id. simpl.
  destruct (read_head_last l bs b HP Hl Eb Hs) as [-> _]. rewrite Hl.
  rewrite (index_loop_rebuilds _ _ bs 0); [|done|by destruct l|done|lia| |].
  - destruct l. simpl in Hl. by subst.
  - pose proof (log_bytes_length 0 bs). lia.
  - change 0 with (start_of bs 0) at 1. apply start_of_lt. lia.
Qed.

(** A stale index: what a crash may leave, as long as its last entry tells. *)
Definition stale_index (bs : list signed_block) (ps : list Z) : Prop :=
  Forall (λ p, 0 <= p < 2 ^ 64) ps ∧ (last ps = last (positions 0 bs) → ps = positions 0 bs).

Lemma open_repairs bs ps :
  length bs ≠ 1%nat → stale_index bs ps → Forall packable bs → size_of (log_bytes 0 bs) < 2 ^ 63 →
  (∀ i b, bs !! i = Some b → block_num b = Z.of_nat i + 1) →
  ∃ l', open (BlockLog (log_bytes 0 bs) (index_bytes ps) None 0) = (Ok tt, l') ∧ holds l' bs.
Proof.
  intros Hn1 [Hps Hlast] HP Hs Hnum.
  assert (∀ h l, h = last bs → l = BlockLog (log_bytes 0 bs) (index_bytes (positions 0 bs)) h (default 0 (block_id_of <$> h)) →
    holds l bs) as Hh by (intros h l -> ->; by split).
  unfold open, xgets, xmodify, xlift, xwhen, mbind, X_bind, id. cbn [block_stream index_stream].
  destruct (last bs) as [b|] eqn:Eb.
  - pose proof Eb as Eb'. rewrite last_lookup in Eb'. pose proof (lookup_lt_Some _ _ _ Eb') as Hlen.
    assert (size_of (log_bytes 0 bs) <> 0) as Hz.
    { pose proof (log_bytes_length 0 bs). unfold size_of. lia. }
    rewrite (proj2 (Z.eqb_neq _ _) Hz). cbn [negb].
    set (l0 := BlockLog (log_bytes 0 bs) (index_bytes ps) None 0).
    destruct (read_head_last l0 bs b HP eq_refl Eb Hs) as [Er ->]. unfold l0 in Er; cbn [block_stream] in Er.
    set (l1 := l0 <| head := Some b |> <| head_id := block_id_of b |>).
    pose proof (construct_index_rebuilds l1 bs HP eq_refl Hs ltac:(lia)) as Ec.
    assert (∃ l', construct_index l1 = (Ok tt, l') ∧ holds l' bs) as Hc by (rewrite Ec; eauto).
    rewrite index_bytes_size. destruct ps as [|p ps _] using rev_ind; [exact Hc|].
    rewrite Er, index_bytes_app, index_bytes_one.
    rewrite (proj2 (Z.eqb_neq (8 * Z.of_nat (length (ps ++ [p]))) 0)) by (rewrite length_app; simpl; lia). cbn [negb].
    apply Forall_app in Hps as [_ [Hp _]%Forall_cons]. rewrite read_last_pos_app by done.
    destruct (Z.ltb_spec (start_of bs (pred (length bs))) p) as [H1|H1]; [exact Hc|].
    destruct (Z.ltb_spec p (start_of bs (pred (length bs)))) as [H2|H2]; [exact Hc|].
    exists l1. split; [done|]. apply (Hh (Some b)); [done|].
    destruct (holds_split bs _ b Eb') as (Hq & _ & _).
    unfold l1, l0. rewrite Hlast; [done|]. rewrite last_snoc, last_lookup, positions_length, Hq. f_equal. lia.
  - apply last_None in Eb as ->. simpl. destruct ps as [|p ps].
    + eexists. split; [done|]. by apply (Hh None).
    + rewrite (proj2 (Z.eqb_neq _ _)) by (rewrite index_bytes_size; simpl; lia). simpl.
      eexists. split; [done|]. by apply (Hh None).
Qed.

(** C16: opening repairs the index: whatever positions the index file holds, unless it ends
    with the right position of the last block over wrong ones ([stale_index]), [open] leaves a log that holds the blocks of the block file, when
    there are none or at least two of them. *)
Theorem open_repairs_index bs ps :
  length bs ≠ 1%nat → stale_index bs ps → Forall packable bs → size_of (log_bytes 0 bs) < 2 ^ 63 →
  (∀ i b, bs !! i = Some b → block_num b = Z.of_nat i + 1) →
  ∃ l', open (BlockLog (log_bytes 0 bs) (index_bytes ps) None 0) = (Ok tt, l') ∧ holds l' bs.
Proof. apply open_repairs. Qed.

(** ... but not one: with a single block in the log and no index, [open] leaves
    the index empty, and the log can neither read its block nor append the next. *)
Theorem open_single_block b b' :
  packable b → block_num b = 1 → block_num b' = 2 → size_of (log_bytes 0 [b]) < 2 ^ 63 →
  ∃ l', open (BlockLog (log_bytes 0 [b]) [] None 0) = (Ok tt, l') ∧
    read_block_by_num 1 l' = Err runtime_error ∧ append b' l' = (Err assert_exception, l').
Proof.
  intros Hp E E' Hs. unfold open, xgets, xmodify, xlift, xwhen, mbind, X_bind, id. cbn [block_stream index_stream].
  set (l0 := BlockLog (log_bytes 0 [b]) [] None 0).
  destruct (read_head_last l0 [b] b ltac:(by constructor) eq_refl eq_refl Hs) as [Er ->]. unfold l0 in Er; cbn [block_stream] in Er.
  assert (size_of (log_bytes 0 [b]) <> 0) as Hz.
  { pose proof (log_bytes_length 0 [b]). unfold size_of. simpl length in *. lia. }
  rewrite (proj2 (Z.eqb_neq _ _) Hz). cbn [negb]. change (size_of [] =? 0) with true. cbn [negb].
  set (l1 := l0 <| head := Some b |> <| head_id := block_id_of b |>).
  assert (construct_index l1 = (Ok tt, l1)) as ->.
  { unfold construct_index, xgets, xmodify, xlift, mbind, X_bind, id.
    change (block_stream (l1 <| index_stream := [] |>)) with (log_bytes 0 [b]). rewrite Er.
    by destruct (length (log_bytes 0 [b])). }
  exists l1. split; [done|]. split.
  - unfold read_block_by_num, get_block_pos. simpl. by rewrite num_of_block_id, E.
  - unfold append, xgets, xassert, xlift, mbind, X_bind, id. simpl. by rewrite E'.
Qed.

End log.

(** ** A concrete log

    The packing of blocks without transactions, and the log of blocks 1, 2 and 3. *)
Definition header_bytes (b : signed_block) : list Z :=
  le_bytes 20 (previous b) ++ le_bytes 4 (timestamp b) ++ le_bytes 20 (transaction_merkle_root b) ++
  le_bytes 8 (witness_signature b).
Definition header_of_bytes (l : list Z) : option (signed_block * list Z) :=
  if (52 <=? length l)%nat then
    Some (SignedBlock (le_value (take 20 l)) (le_value (take 4 (drop 20 l))) "initminer"
            (le_value (take 20 (drop 24 l))) [] (le_value (take 8 (drop 44 l))) [], drop 52 l)
  else None.
Definition header_only (b : signed_block) : Prop :=
  0 <= previous b < 2 ^ 160 ∧ 0 <= timestamp b < 2 ^ 32 ∧ witness b = "initminer"%string ∧
  0 <= transaction_merkle_root b < 2 ^ 160 ∧ header_extensions b = [] ∧
  0 <= witness_signature b < 2 ^ 64 ∧ block_transactions b = [].

Lemma le_value_at n x s t : 0 <= x < 2 ^ (8 * Z.of_nat n) → le_value (take n (drop (length s) (s ++ le_bytes n x ++ t))) = x.
Proof.
  intros Hx. rewrite drop_app_length, take_app_le by by rewrite le_bytes_length.
  rewrite take_ge by by rewrite le_bytes_length. by apply le_value_bytes.
Qed.
#[global, program] Instance header_pack : BlockPack := {|
  packable := header_only;
  pack := header_bytes;
  unpack := header_of_bytes
|}.
Next Obligation.
  intros [prev t w root exts sig txs] rest (H1 & H2 & H3 & H4 & H5 & H6 & H7).
  unfold header_of_bytes, header_bytes. cbn [previous timestamp witness transaction_merkle_root header_extensions
    witness_signature block_transactions] in *. subst.
  assert (length (le_bytes 20 prev ++ le_bytes 4 t ++ le_bytes 20 root ++ le_bytes 8 sig) = 52%nat) as Hlen
    by by rewrite !length_app, !le_bytes_length.
  rewrite length_app, Hlen. cbn [Nat.leb Nat.add]. f_equal. f_equal.
  - rewrite <- !app_assoc. f_equal.
    + by apply (le_value_at 20 prev []).
    + by apply (le_value_at 4 t (le_bytes 20 prev)).
    + rewrite (app_assoc (le_bytes 20 prev)). by apply (le_value_at 20 root (le_bytes 20 prev ++ le_bytes 4 t)).
    + rewrite (app_assoc (le_bytes 20 prev)), (app_assoc _ (le_bytes 20 root)).
      by apply (le_value_at 8 sig ((le_bytes 20 prev ++ le_bytes 4 t) ++ le_bytes 20 root)).
Qed.

Definition demo_blocks : list signed_block := [block_a1; block_a2; block_a3].
Definition demo_log : block_log :=
  BlockLog (log_bytes 0 demo_blocks) (index_bytes (positions 0 demo_blocks)) (last demo_blocks)
    (block_id_of block_a3).

Lemma demo_packable : Forall packable demo_blocks.
Proof. repeat apply Forall_cons_2; [..|constructor]; vm_compute; repeat split; discriminate. Qed.
Lemma demo_numbers i b : demo_blocks !! i = Some b → block_num b = Z.of_nat i + 1.
Proof. destruct i as [|[|[|i]]]; [intros [=<-]; vm_compute; reflexivity..|discriminate]. Qed.
Lemma demo_log_holds : holds demo_log demo_blocks.
Proof.
  split; [reflexivity..|exact demo_numbers|vm_compute; reflexivity|exact demo_packable].
Qed.

Lemma read_block_by_num_holds_witness : read_block_by_num 2 demo_log = Ok (Some block_a2).
Proof.
  rewrite (read_block_by_num_holds demo_log demo_blocks 2 demo_log_holds); [reflexivity|vm_compute; reflexivity].
Defined.

Lemma append_holds_witness :
  let b := fork_block (block_id_of block_a3) 9 in
  (∃ l, append b demo_log = (Ok (start_of demo_blocks 3), l) ∧ holds l (demo_blocks ++ [b])) ∧
  append block_a2 demo_log = (Err assert_exception, demo_log).
Proof.
  intros b. split.
  - apply (append_holds demo_log demo_blocks b demo_log_holds);
      [vm_compute; repeat split; discriminate|vm_compute; reflexivity..].
  - apply (append_holds demo_log demo_blocks block_a2 demo_log_holds);
      [vm_compute; repeat split; discriminate|vm_compute; reflexivity..].
Defined.

(** The index has lost its last two entries. *)
Lemma open_repairs_index_witness :
  ∃ l, open (BlockLog (log_bytes 0 demo_blocks) (index_bytes [0]) None 0) = (Ok tt, l) ∧ holds l demo_blocks.
Proof.
  apply (open_repairs_index demo_blocks [0]);
    [discriminate| |exact demo_packable|vm_compute; reflexivity|exact demo_numbers].
  split; [constructor; [split; [discriminate|reflexivity]|constructor]|].
  intros E. vm_compute in E. discriminate E.
Defined.

Lemma open_single_block_witness :
  ∃ l, open (BlockLog (log_bytes 0 [block_a1]) [] None 0) = (Ok tt, l) ∧
    append block_a2 l = (Err assert_exception, l).
Proof.
  destruct (open_single_block block_a1 block_a2) as (l & H1 & _ & H2);
    [vm_compute; repeat split; discriminate|vm_compute; reflexivity..|].
  exists l. exact (conj H1 H2).
Defined.
