(* ===== verification/Utilities.v ===== *)
(** * Utilities: private keys as text and C string literals

    [libraries/utilities/key_conversion.cpp] and [string_escape.cpp].  Hashing,
    base 58 and private keys are fc's: class [KeyLib]. *)

From S2P Require Import Prelude FcLib Tables Config Asset Names Authority Operations Transaction Block BlockLog.
From Stdlib Require Import Ascii.
Import Stdlib.Strings.String (String, EmptyString).

(** A private key is a number; [private_key_of] is the conversion
    [fc::variant( bytes ).as< private_key >()]. *)
Definition bytes (l : list Z) : Prop := Forall (λ b, 0 ≤ b < 256) l.
Class KeyLib := {
  sha256 : list Z → list Z;
  sha256_length l : length (sha256 l) = 32%nat;
  sha256_bytes l : bytes (sha256 l);
  to_base58 : list Z → string;
  from_base58 : string → option (list Z);    (* [None]: throws parse_error_exception *)
  from_to_base58 l : bytes l → from_base58 (to_base58 l) = Some l;
  get_secret : Z → list Z;
  get_secret_length k : length (get_secret k) = 32%nat;
  get_secret_bytes k : bytes (get_secret k);
  private_key_of : list Z → result Z;
  private_key_of_secret k : 0 ≤ k < 2 ^ 256 → private_key_of (get_secret k) = Ok k
}.

Section keys.
Context `{KL : KeyLib}.

(** key_conversion.cpp:30 *)
Definition key_to_wif (secret : list Z) : string :=
  let data := 128 :: secret in
  let digest := sha256 (sha256 data) in
  to_base58 (data ++ take 4 digest).
(** key_conversion.cpp:42 *)
Definition private_key_to_wif (key : Z) : string := key_to_wif (get_secret key).
(** key_conversion.cpp:47 *)
Definition wif_to_key (wif_key : string) : result (option Z) :=
  match from_base58 wif_key with
  | None => mret None
  | Some wif_bytes =>
    let n := length wif_bytes in
    if decide (n < 5)%nat then mret None
    else
      key ← private_key_of (take (n - 5) (drop 1 wif_bytes));
      let check := sha256 (take (n - 4) wif_bytes) in
      let check2 := sha256 check in
      let sum := drop (n - 4) wif_bytes in
      mret (if bool_decide (take 4 check = sum) || bool_decide (take 4 check2 = sum) then Some key else None)
  end.

(** The bytes of a text: version, key, and a checksum of one or two hashes. *)
Lemma wif_split (v : Z) (body sum : list Z) :
  length sum = 4%nat →
  let l := v :: body ++ sum in
  length l = (length body + 5)%nat ∧ take (length l - 5) (drop 1 l) = body ∧
  take (length l - 4) l = v :: body ∧ drop (length l - 4) l = sum.
Proof.
  intros Hs l. assert (length l = (length body + 5)%nat) as Hl by (unfold l; simpl; rewrite length_app; lia).
  assert (length l - 4 = S (length body))%nat as E by lia. assert (length l - 5 = length body)%nat as E5 by lia.
  split; [exact Hl|]. rewrite E, E5. unfold l. cbn [take drop]. rewrite take_app_length, drop_app_length, drop_0, take_app_length.
  by split_and!.
Qed.
Lemma wif_to_key_bytes w v body sum k :
  from_base58 w = Some (v :: body ++ sum) → length sum = 4%nat → private_key_of body = Ok k →
  take 4 (sha256 (v :: body)) = sum ∨ take 4 (sha256 (sha256 (v :: body))) = sum → wif_to_key w = Ok (Some k).
Proof.
  intros Hw Hs Hk Hc. unfold wif_to_key. rewrite Hw. cbv zeta.
  destruct (wif_split v body sum Hs) as (Hl & -> & -> & ->). rewrite decide_False by lia. rewrite Hk. simpl.
  destruct Hc as [Hc|Hc]; rewrite (bool_decide_true _ Hc), ?orb_true_r; done.
Qed.

(** A key written as text reads back as itself. *)
Theorem wif_roundtrip k : 0 ≤ k < 2 ^ 256 → wif_to_key (private_key_to_wif k) = Ok (Some k).
Proof.
  intros Hk. set (l := get_secret k). apply (wif_to_key_bytes _ 128 l (take 4 (sha256 (sha256 (128 :: l))))).
  - apply from_to_base58. constructor; [lia|]. apply Forall_app. split; [apply get_secret_bytes|].
    apply Forall_take, sha256_bytes.
  - rewrite length_take, sha256_length. lia.
  - by apply private_key_of_secret.
  - by right.
Qed.

(** [wif_to_key] accepts exactly the texts of base 58 that hold a byte, a key and
    the first four bytes of one or two hashes of them.  The byte is not looked at,
    although [key_to_wif] always writes 0x80 and always hashes twice. *)
Theorem wif_to_key_accepts w k :
  wif_to_key w = Ok (Some k) ↔
  ∃ v body sum, from_base58 w = Some (v :: body ++ sum) ∧ length sum = 4%nat ∧ private_key_of body = Ok k ∧
    (take 4 (sha256 (v :: body)) = sum ∨ take 4 (sha256 (sha256 (v :: body))) = sum).
Proof.
  split; [|intros (v & body & sum & H1 & H2 & H3 & H4); eauto using wif_to_key_bytes].
  unfold wif_to_key. destruct (from_base58 w) as [l|] eqn:Hw; [|done]. cbv zeta.
  destruct (decide _) as [|Hn]; [done|]. destruct l as [|v l]; [simpl in Hn; lia|].
  rewrite <- (take_drop (length l - 4) l). set (body := take _ l). set (sum := drop (length l - 4) l).
  assert (length sum = 4%nat) as Hs by (unfold sum; rewrite length_drop; simpl in Hn; lia).
  destruct (wif_split v body sum Hs) as (_ & -> & -> & ->).
  intros (key & Hk & H)%bind_Ok. injection H as H. exists v, body, sum. split; [done|]. split; [done|].
  destruct (_ || _) eqn:E; [|done]. injection H as ->. split; [done|].
  apply orb_true_iff in E as [E|E]; apply bool_decide_eq_true in E; auto.
Qed.
End keys.

(** ** C string literals *)

Definition chr (n : nat) : ascii := ascii_of_nat n.
Definition dquote : ascii := chr 34.
Definition backslash : ascii := chr 92.

(** string_escape.cpp:35: the letter behind the backslash *)
Definition escape_letter (c : ascii) : option ascii :=
  match nat_of_ascii c with
  | 7 => Some (chr 97) | 8 => Some (chr 98) | 9 => Some (chr 116) | 10 => Some (chr 110)
  | 11 => Some (chr 118) | 12 => Some (chr 102) | 13 => Some (chr 114) | 92 => Some (chr 92) | 34 => Some (chr 34)
  | _ => None
  end%nat.
Fixpoint escape_chars (s : string) : string :=
  match s with
  | EmptyString => EmptyString
  | String c s =>
    match escape_letter c with
    | Some e => String backslash (String e (escape_chars s))
    | None => String c (escape_chars s)
    end
  end.
(** string_escape.cpp:29 *)
Definition escape_string_for_c_source_code (input : string) : string :=
  String.append (String dquote (escape_chars input)) (String dquote EmptyString).

(** How C reads a literal: a backslash starts a simple escape sequence, the literal
    ends at a quote and holds no line break. *)
Definition escaped_char (e : ascii) : option ascii :=
  match nat_of_ascii e with
  | 97 => Some (chr 7) | 98 => Some (chr 8) | 116 => Some (chr 9) | 110 => Some (chr 10) | 118 => Some (chr 11)
  | 102 => Some (chr 12) | 114 => Some (chr 13) | 92 => Some (chr 92) | 34 => Some (chr 34) | 39 => Some (chr 39)
  | 63 => Some (chr 63)
  | _ => None
  end%nat.
Fixpoint read_chars (s : string) : option string :=
  match s with
  | EmptyString => None
  | String c s =>
    if Ascii.eqb c dquote then match s with EmptyString => Some EmptyString | _ => None end
    else if Ascii.eqb c (chr 10) then None
    else if Ascii.eqb c backslash then
      match s with
      | String e s => v ← escaped_char e; String v <$> read_chars s
      | EmptyString => None
      end
    else String c <$> read_chars s
  end.
Definition read_literal (s : string) : option string :=
  match s with String c s => if Ascii.eqb c dquote then read_chars s else None | EmptyString => None end.

(** The nine escaped characters and the others. *)
Lemma escape_letter_reads c :
  match escape_letter c with
  | Some e => escaped_char e = Some c
  | None => Ascii.eqb c dquote = false ∧ Ascii.eqb c (chr 10) = false ∧ Ascii.eqb c backslash = false
  end.
Proof. by destruct c as [[] [] [] [] [] [] [] []]; vm_compute. Qed.
Lemma escape_chars_read s : read_chars (String.append (escape_chars s) (String dquote EmptyString)) = Some s.
Proof.
  induction s as [|c s IH]; [done|]. simpl. pose proof (escape_letter_reads c) as H.
  destruct (escape_letter c) as [e|]; simpl.
  - rewrite H. simpl. by rewrite IH.
  - destruct H as (-> & -> & ->). by rewrite IH.
Qed.

(** The literal that [escape_string_for_c_source_code] writes is read by C as the
    input, whatever characters it holds. *)
Theorem escape_string_reads s : read_literal (escape_string_for_c_source_code s) = Some s.
Proof. apply escape_chars_read. Qed.

(** ** Witness *)

Lemma le_bytes_bytes n x : bytes (le_bytes n x).
Proof. revert x. induction n as [|n IH]; intros x; constructor; [by apply Z.mod_pos_bound|apply IH]. Qed.

(** A sum in the place of the hash, a character for every byte in the place of base 58. *)
Definition byte_char (b : Z) : ascii := ascii_of_nat (Z.to_nat b).
Definition char_byte (c : ascii) : Z := Z.of_nat (nat_of_ascii c).
Lemma char_byte_char b : 0 ≤ b < 256 → char_byte (byte_char b) = b.
Proof. intros H. unfold char_byte, byte_char. rewrite nat_ascii_embedding; lia. Qed.
#[local, program] Instance demo_keys : KeyLib := {|
  sha256 l := replicate 32 (foldr Z.add 0 l mod 256);
  to_base58 l := String.string_of_list_ascii (byte_char <$> l);
  from_base58 s := Some (char_byte <$> String.list_ascii_of_string s);
  get_secret := le_bytes 32;
  private_key_of l := Ok (le_value l)
|}.
Next Obligation. intros l. apply length_replicate. Qed.
Next Obligation. intros l. apply Forall_replicate, Z.mod_pos_bound. lia. Qed.
Next Obligation.
  intros l Hl. cbv beta. rewrite String.list_ascii_of_string_of_list_ascii, <- list_fmap_compose.
  f_equal. induction Hl; [done|]. csimpl. f_equal; [by apply char_byte_char|done].
Qed.
Next Obligation. apply le_bytes_length. Qed.
Next Obligation. apply le_bytes_bytes. Qed.
Next Obligation. intros k Hk. cbv beta. f_equal. by apply le_value_bytes. Qed.

Lemma wif_roundtrip_witness : wif_to_key (private_key_to_wif 1234567) = Ok (Some 1234567).
Proof. apply wif_roundtrip. split; [discriminate|reflexivity]. Defined.
