(* ===== verification/Objects.v ===== *)
(** * Objects: the rows of the chain database and access to them

    The object classes of [libraries/chain/include/wls/chain/*_object.hpp],
    [witness_objects.hpp], [wls_objects.hpp] and [hardfork.d].  An object's [id]
    is its key in its table; [time_point_sec] is a number of seconds; a
    [shared_string] is a string.  [chain] is the database that the handlers see:
    one table per index, and the objects of which there is exactly one.

    [create_row], [modify_row] and [remove_row] are [db.create], [db.modify] and
    [db.remove] on that view.  An exception leaves no trace in it: files
    Chainbase and ChainbaseRefine are about the undo sessions that ensure this. *)

From S2P Require Import Prelude FcLib Tables Config Asset Names Authority Operations Reward.

(** account_object.hpp:31 *)
Record account_object := Account {
  name : string;
  memo_key : Z;
  account_json_metadata : string;
  proxy : string;
  last_account_update : Z;
  account_created : Z;
  recovery_account : string;
  comment_count : Z;
  lifetime_vote_count : Z;
  post_count : Z;
  voting_power : Z;
  last_vote_time : Z;
  balance : asset;
  reward_steem_balance : asset;
  reward_vesting_balance : asset;
  reward_vesting_steem : asset;
  curation_rewards : Z;
  posting_rewards : Z;
  vesting_shares : asset;
  vesting_withdraw_rate : asset;
  next_vesting_withdrawal : Z;
  withdrawn : Z;
  to_withdraw : Z;
  withdraw_routes : Z;
  proxied_vsf_votes : list Z;
  witnesses_voted_for : Z;
  last_post : Z;
  last_root_post : Z;
  post_bandwidth : Z;
  asb_for_sale : bool;
  asb_to : string;
  asb_price : asset
}.
#[global] Instance account_eta : Eta account_object := λ r,
  Account (name r) (memo_key r) (account_json_metadata r) (proxy r) (last_account_update r)
    (account_created r) (recovery_account r) (comment_count r) (lifetime_vote_count r)
    (post_count r) (voting_power r) (last_vote_time r) (balance r) (reward_steem_balance r)
    (reward_vesting_balance r) (reward_vesting_steem r) (curation_rewards r) (posting_rewards r)
    (vesting_shares r) (vesting_withdraw_rate r) (next_vesting_withdrawal r) (withdrawn r)
    (to_withdraw r) (withdraw_routes r) (proxied_vsf_votes r) (witnesses_voted_for r)
    (last_post r) (last_root_post r) (post_bandwidth r) (asb_for_sale r) (asb_to r) (asb_price r).

Definition WLS (v : Z) : asset := Asset v WLS_SYMBOL.
Definition VESTS (v : Z) : asset := Asset v VESTS_SYMBOL.

(** What [create] starts from: the default member initializers. *)
Definition default_account : account_object :=
  Account "" 0 "" "" 0 0 "" 0 0 0 WLS_100_PERCENT 0
    (WLS 0) (WLS 0) (VESTS 0) (WLS 0) 0 0 (VESTS 0) (VESTS 0) tps_max 0 0 0
    [0; 0; 0; 0] 0 0 tps_min 0 false "" (WLS 0).

(** account_object.hpp:106 *)
Record account_authority_object := AccountAuthority {
  auth_account : string;
  auth_owner : authority;
  auth_active : authority;
  auth_posting : authority;
  last_owner_update : Z
}.
#[global] Instance account_authority_eta : Eta account_authority_object := λ r,
  AccountAuthority (auth_account r) (auth_owner r) (auth_active r) (auth_posting r)
    (last_owner_update r).
Definition empty_authority : authority := Authority 0 [] [].
Definition default_account_authority : account_authority_object :=
  AccountAuthority "" empty_authority empty_authority empty_authority 0.

(** comment_object.hpp:52 *)
Record comment_object := Comment {
  category : string;
  parent_author : string;
  parent_permlink : string;
  author : string;
  permlink : string;
  title : string;
  body : string;
  comment_json_metadata : string;
  comment_last_update : Z;
  comment_created : Z;
  active : Z;
  last_payout : Z;
  depth : Z;
  children : Z;
  net_rshares : Z;
  abs_rshares : Z;
  vote_rshares : Z;
  children_abs_rshares : Z;
  cashout_time : Z;
  max_cashout_time : Z;
  total_vote_weight : Z;
  comment_reward_weight : Z;
  total_payout_value : asset;
  curator_payout_value : asset;
  beneficiary_payout_value : asset;
  author_rewards : Z;
  net_votes : Z;
  root_comment : Z;
  max_accepted_payout : asset;
  allow_replies : bool;
  allow_votes : bool;
  allow_curation_rewards : bool;
  beneficiaries : list beneficiary_route_type
}.
#[global] Instance comment_eta : Eta comment_object := λ r,
  Comment (category r) (parent_author r) (parent_permlink r) (author r) (permlink r) (title r)
    (body r) (comment_json_metadata r) (comment_last_update r) (comment_created r) (active r)
    (last_payout r) (depth r) (children r) (net_rshares r) (abs_rshares r) (vote_rshares r)
    (children_abs_rshares r) (cashout_time r) (max_cashout_time r) (total_vote_weight r)
    (comment_reward_weight r) (total_payout_value r) (curator_payout_value r)
    (beneficiary_payout_value r) (author_rewards r) (net_votes r) (root_comment r)
    (max_accepted_payout r) (allow_replies r) (allow_votes r) (allow_curation_rewards r)
    (beneficiaries r).
Definition default_comment : comment_object :=
  Comment "" "" "" "" "" "" "" "" 0 0 0 0 0 0 0 0 0 0 0 0 0 0 (WLS 0) (WLS 0) (WLS 0) 0 0 0
    (WLS 1000000000) true true true [].

(** comment_object.hpp:117 *)
Record comment_vote_object := CommentVote {
  cv_voter : Z;
  cv_comment : Z;
  cv_weight : Z;
  cv_rshares : Z;
  cv_vote_percent : Z;
  cv_last_update : Z;
  cv_num_changes : Z
}.
#[global] Instance comment_vote_eta : Eta comment_vote_object := λ r,
  CommentVote (cv_voter r) (cv_comment r) (cv_weight r) (cv_rshares r) (cv_vote_percent r)
    (cv_last_update r) (cv_num_changes r).

(** witness_objects.hpp:31 *)
Inductive witness_schedule_type := top19 | timeshare | miner | none.

(** witness_objects.hpp:46 *)
Record witness_object := Witness {
  owner : string;
  witness_created : Z;
  url : string;
  total_missed : Z;
  last_aslot : Z;
  last_confirmed_block_num : Z;
  signing_key : Z;
  props : chain_properties;
  votes : Z;
  schedule : witness_schedule_type;
  virtual_last_update : Z;
  virtual_position : Z;
  virtual_scheduled_time : Z;
  last_work : Z;
  running_version : Z;
  hardfork_version_vote : Z;
  hardfork_time_vote : Z
}.
#[global] Instance witness_eta : Eta witness_object := λ r,
  Witness (owner r) (witness_created r) (url r) (total_missed r) (last_aslot r)
    (last_confirmed_block_num r) (signing_key r) (props r) (votes r) (schedule r)
    (virtual_last_update r) (virtual_position r) (virtual_scheduled_time r) (last_work r)
    (running_version r) (hardfork_version_vote r) (hardfork_time_vote r).
Definition default_witness : witness_object :=
  Witness "" 0 "" 0 0 0 0 default_chain_properties 0 none 0 0 u128_max 0 0 0 WLS_GENESIS_TIME.

(** witness_objects.hpp:111 *)
Record witness_vote_object := WitnessVoteObj { wvo_witness : Z; wvo_account : Z }.
#[global] Instance witness_vote_eta : Eta witness_vote_object := λ r,
  WitnessVoteObj (wvo_witness r) (wvo_account r).

(** witness_objects.hpp:128 *)
Record witness_schedule_object := WitnessSchedule {
  current_virtual_time : Z;
  next_shuffle_block_num : Z;
  current_shuffled_witnesses : list string;
  num_scheduled_witnesses : Z;
  top19_weight : Z;
  timeshare_weight : Z;
  witness_pay_normalization_factor : Z;
  median_props : chain_properties;
  majority_version : Z;
  max_voted_witnesses : Z;
  max_runner_witnesses : Z;
  hardfork_required_witnesses : Z
}.
#[global] Instance witness_schedule_eta : Eta witness_schedule_object := λ r,
  WitnessSchedule (current_virtual_time r) (next_shuffle_block_num r)
    (current_shuffled_witnesses r) (num_scheduled_witnesses r) (top19_weight r)
    (timeshare_weight r) (witness_pay_normalization_factor r) (median_props r)
    (majority_version r) (max_voted_witnesses r) (max_runner_witnesses r)
    (hardfork_required_witnesses r).
Definition default_witness_schedule : witness_schedule_object :=
  WitnessSchedule 0 1 (replicate 21 ""%string) 1 1 5 25 default_chain_properties 0
    WLS_MAX_VOTED_WITNESSES WLS_MAX_RUNNER_WITNESSES WLS_HARDFORK_REQUIRED_WITNESSES.

(** wls_objects.hpp:23 *)
Record withdraw_vesting_route_object := Route {
  from_account : Z;
  to_account : Z;
  percent : Z;
  auto_vest : bool
}.
#[global] Instance route_eta : Eta withdraw_vesting_route_object := λ r,
  Route (from_account r) (to_account r) (percent r) (auto_vest r).

(** wls_objects.hpp:50 *)
Record reward_fund_object := RewardFund {
  fund_name : string;
  reward_balance : asset;
  recent_claims : Z;
  fund_last_update : Z;
  fund_content_constant : Z;
  percent_curation_rewards : Z;
  percent_content_rewards : Z;
  author_reward_curve : curve_id;
  curation_reward_curve : curve_id
}.
#[global] Instance reward_fund_eta : Eta reward_fund_object := λ r,
  RewardFund (fund_name r) (reward_balance r) (recent_claims r) (fund_last_update r)
    (fund_content_constant r) (percent_curation_rewards r) (percent_content_rewards r)
    (author_reward_curve r) (curation_reward_curve r).

(** global_property_object.hpp:22 *)
Record dynamic_global_property_object := GlobalProps {
  head_block_number : Z;
  head_block_id : Z;
  time : Z;
  current_witness : string;
  current_supply : asset;
  total_vesting_fund_steem : asset;
  total_vesting_shares : asset;
  gpo_total_reward_fund_steem : asset;
  gpo_total_reward_shares2 : Z;
  pending_rewarded_vesting_shares : asset;
  pending_rewarded_vesting_steem : asset;
  gpo_maximum_block_size : Z;
  current_aslot : Z;
  recent_slots_filled : Z;
  participation_count : Z;
  last_irreversible_block_num : Z;
  vote_power_reserve_rate : Z
}.
#[global] Instance gpo_eta : Eta dynamic_global_property_object := λ r,
  GlobalProps (head_block_number r) (head_block_id r) (time r) (current_witness r)
    (current_supply r) (total_vesting_fund_steem r) (total_vesting_shares r)
    (gpo_total_reward_fund_steem r) (gpo_total_reward_shares2 r)
    (pending_rewarded_vesting_shares r) (pending_rewarded_vesting_steem r)
    (gpo_maximum_block_size r) (current_aslot r) (recent_slots_filled r)
    (participation_count r) (last_irreversible_block_num r) (vote_power_reserve_rate r).
Definition default_gpo : dynamic_global_property_object :=
  GlobalProps 0 0 0 "" (WLS 0) (WLS 0) (VESTS 0) (WLS 0) 0 (VESTS 0) (WLS 0) 0 0 0 0 0 40.

(** hardfork.d/0-preamble.hf:18 *)
Record hardfork_property_object := HardforkProps {
  processed_hardforks : list Z;
  last_hardfork : Z;
  current_hardfork_version : Z;
  next_hardfork : Z;
  next_hardfork_time : Z
}.
#[global] Instance hpo_eta : Eta hardfork_property_object := λ r,
  HardforkProps (processed_hardforks r) (last_hardfork r) (current_hardfork_version r)
    (next_hardfork r) (next_hardfork_time r).

(** transaction_object.hpp:17, without the packed copy of the transaction, that
    only the mempool restoration of [db_with.hpp] reads *)
Record transaction_object := TransactionObj { trx_id : Z; trx_expiration : Z }.
(** block_summary_object.hpp:16 *)
Record block_summary_object := BlockSummary { block_id : Z }.
#[global] Instance block_summary_eta : Eta block_summary_object := λ r, BlockSummary (block_id r).

(** The chain database: database.cpp:2006, the indexes [initialize_indexes] adds. *)
Record chain := Chain {
  gpo : dynamic_global_property_object;
  accounts : table account_object;
  account_authorities : table account_authority_object;
  witnesses : table witness_object;
  transactions : table transaction_object;
  block_summaries : table block_summary_object;
  wso : witness_schedule_object;
  comments : table comment_object;
  comment_votes : table comment_vote_object;
  witness_votes : table witness_vote_object;
  hpo : hardfork_property_object;
  routes : table withdraw_vesting_route_object;
  reward_funds : table reward_fund_object
}.
#[global] Instance chain_eta : Eta chain := λ r,
  Chain (gpo r) (accounts r) (account_authorities r) (witnesses r) (transactions r)
    (block_summaries r) (wso r) (comments r) (comment_votes r) (witness_votes r) (hpo r)
    (routes r) (reward_funds r).
Definition empty_chain : chain :=
  Chain default_gpo empty_table empty_table empty_table empty_table empty_table
    default_witness_schedule empty_table empty_table empty_table
    (HardforkProps [] 0 0 0 0) empty_table empty_table.

(** ** Rows *)

Section rows.
Context {S V : Type} (proj : S → table V) `{F : !Field proj}.

(** [get( id )] *)
Definition get_row (i : Z) : M S V :=
  t ← gets proj; lift (of_option out_of_range (rows t !! i)).

(** A reference to a row: it is the row as it is now. *)
Definition deref (i : Z) : M S V :=
  t ← gets proj; lift (of_option undefined_behaviour (rows t !! i)).

(** [create]: the next id; a row with an equal unique key makes it throw. *)
Definition create_row (same_key : V → V → bool) (v : V) : M S Z :=
  t ← gets proj;
  match find_row (same_key v) t with
  | Some _ => throw logic_error
  | None =>
    modify (update proj (λ t, Table (<[next_id t := v]> (rows t)) (next_id t + 1)));;
    mret (next_id t)
  end.

(** [modify]: the modifier may throw; a reference to a removed row is not valid. *)
Definition modify_row (i : Z) (f : V → result V) : M S unit :=
  t ← gets proj;
  x ← lift (of_option undefined_behaviour (rows t !! i));
  y ← lift (f x);
  modify (update proj (λ t, t <| rows ::= <[i := y]> |>)).

(** [remove] *)
Definition remove_row (i : Z) : M S unit :=
  t ← gets proj;
  match rows t !! i with
  | None => throw undefined_behaviour
  | Some _ => modify (update proj (λ t, t <| rows ::= delete i |>))
  end.
End rows.

Definition modify_gpo (f : dynamic_global_property_object → result dynamic_global_property_object)
  : M chain unit :=
  g ← gets gpo; g ← lift (f g); modify (update gpo (λ _, g)).
Definition modify_wso (f : witness_schedule_object → result witness_schedule_object)
  : M chain unit :=
  g ← gets wso; g ← lift (f g); modify (update wso (λ _, g)).
Definition modify_hpo (f : hardfork_property_object → hardfork_property_object) : M chain unit :=
  modify (update hpo f).

Notation modify_account := (modify_row accounts).
Notation modify_comment := (modify_row comments).
Notation modify_witness := (modify_row witnesses).
Notation modify_fund := (modify_row reward_funds).

(** ** Unique keys and lookups *)

Definition same_name (a b : account_object) : bool := String.eqb (name a) (name b).
Definition same_auth_account (a b : account_authority_object) : bool :=
  String.eqb (auth_account a) (auth_account b).
Definition same_owner (a b : witness_object) : bool := String.eqb (owner a) (owner b).
Definition is_comment (a p : string) (c : comment_object) : bool :=
  String.eqb (author c) a && String.eqb (c_str (permlink c)) (c_str p).
Definition same_permlink (a b : comment_object) : bool := is_comment (author a) (permlink a) b.
Definition same_vote (a b : comment_vote_object) : bool :=
  (cv_comment a =? cv_comment b) && (cv_voter a =? cv_voter b).
Definition same_witness_vote (a b : witness_vote_object) : bool :=
  (wvo_account a =? wvo_account b) && (wvo_witness a =? wvo_witness b).
Definition same_route (a b : withdraw_vesting_route_object) : bool :=
  (from_account a =? from_account b) && (to_account a =? to_account b).
Definition same_fund (a b : reward_fund_object) : bool := String.eqb (fund_name a) (fund_name b).
Definition same_trx (a b : transaction_object) : bool := trx_id a =? trx_id b.

(** database.cpp:363-371 *)
Definition find_account (n : string) : M chain (option (Z * account_object)) :=
  t ← gets accounts; mret (find_row (λ a, String.eqb (name a) n) t).
Definition get_account (n : string) : M chain (Z * account_object) :=
  o ← find_account n; lift (of_option out_of_range o).
Definition find_witness (n : string) : M chain (option (Z * witness_object)) :=
  t ← gets witnesses; mret (find_row (λ w, String.eqb (owner w) n) t).
Definition get_witness (n : string) : M chain (Z * witness_object) :=
  o ← find_witness n; lift (of_option out_of_range o).
Definition find_comment (a p : string) : M chain (option (Z * comment_object)) :=
  t ← gets comments; mret (find_row (is_comment a p) t).
Definition get_comment (a p : string) : M chain (Z * comment_object) :=
  o ← find_comment a p; lift (of_option out_of_range o).
Definition get_authority (n : string) : M chain (Z * account_authority_object) :=
  t ← gets account_authorities;
  lift (of_option out_of_range (find_row (λ a, String.eqb (auth_account a) n) t)).
Definition get_reward_fund : M chain (Z * reward_fund_object) :=
  t ← gets reward_funds;
  lift (of_option out_of_range (find_row (λ f, String.eqb (fund_name f) WLS_POST_REWARD_FUND_NAME) t)).

(** database.cpp:2371-2376 *)
Definition head_block_time : M chain Z := gets (λ s, time (gpo s)).
Definition head_block_num : M chain Z := gets (λ s, head_block_number (gpo s)).
