(* ===== verification/Ledger.v ===== *)
(** * Ledger: balances, vesting shares and witness votes

    The part of [libraries/chain/database.cpp] that moves tokens between
    accounts, the vesting fund and the supply: [pay_fee], [create_vesting],
    [adjust_balance], [adjust_reward_balance], [adjust_supply], the propagation of
    votes along proxies, [clear_null_account_balance],
    [process_vesting_withdrawals] and the three [retally] functions; the share
    prices of [global_property_object.hpp]. *)

From S2P Require Import Prelude FcLib Tables Config Asset Names Authority Operations Reward Objects.

Section ledger.
Context `{FC : FcLib}.

(** ** Prices and weights *)

(** global_property_object.hpp:49 *)
Definition get_vesting_share_price (g : dynamic_global_property_object) : price :=
  if (amount (total_vesting_fund_steem g) =? 0) || (amount (total_vesting_shares g) =? 0)
  then Price (Asset 1 WLS_SYMBOL) (Asset 1000 VESTS_SYMBOL)
  else Price (total_vesting_shares g) (total_vesting_fund_steem g).

(** global_property_object.hpp:57 *)
Definition get_reward_vesting_share_price (g : dynamic_global_property_object) : result price :=
  if (amount (pending_rewarded_vesting_shares g) =? 0) ||
     (amount (pending_rewarded_vesting_steem g) =? 0)
  then mret (get_vesting_share_price g)
  else
    b ← asset_add (total_vesting_shares g) (pending_rewarded_vesting_shares g);
    q ← asset_add (total_vesting_fund_steem g) (pending_rewarded_vesting_steem g);
    mret (Price b q).

(** [std::accumulate] over safe integers *)
Fixpoint safe_sum (init : Z) (l : list Z) : result Z :=
  match l with
  | [] => mret init
  | x :: l => acc ← safe_add init x; safe_sum acc l
  end.

(** account_object.hpp:80 *)
Definition witness_vote_weight (a : account_object) : result Z :=
  safe_sum (amount (vesting_shares a)) (proxied_vsf_votes a).
(** account_object.hpp:85 *)
Definition proxied_vsf_votes_total (a : account_object) : result Z :=
  safe_sum 0 (proxied_vsf_votes a).

(** ** Balances *)

(** database.cpp:2566 *)
Definition adjust_balance (a : Z) (delta : asset) : M chain unit :=
  modify_account a (λ acnt,
    if symbol delta =? WLS_SYMBOL then
      b ← asset_plus_eq (balance acnt) delta; mret (acnt <| balance := b |>)
    else Err assert_exception).

(** database.cpp:2581 *)
Definition adjust_reward_balance (a : Z) (delta : asset) : M chain unit :=
  modify_account a (λ acnt,
    if symbol delta =? WLS_SYMBOL then
      b ← asset_plus_eq (reward_steem_balance acnt) delta;
      mret (acnt <| reward_steem_balance := b |>)
    else Err assert_exception).

(** database.cpp:2597 *)
Definition adjust_supply (delta : asset) (adjust_vesting : bool) : M chain unit :=
  n ← head_block_num;
  let adjust_vesting := if n <? WLS_BLOCKS_PER_DAY * 7 then false else adjust_vesting in
  modify_gpo (λ props,
    if symbol delta =? WLS_SYMBOL then
      v ← (if adjust_vesting && (0 <? amount delta) then safe_mul (amount delta) 9 else mret 0);
      let new_vesting := Asset v WLS_SYMBOL in
      d ← asset_add delta new_vesting;
      s ← asset_plus_eq (current_supply props) d;
      f ← asset_plus_eq (total_vesting_fund_steem props) new_vesting;
      mret (props <| current_supply := s |> <| total_vesting_fund_steem := f |>)
    else Err assert_exception).

(** database.cpp:2623 *)
Definition get_balance (a : account_object) (sym : Z) : result asset :=
  if sym =? WLS_SYMBOL then mret (balance a) else Err assert_exception.

(** database.cpp:418 *)
Definition pay_fee (a : Z) (fee : asset) : M chain unit :=
  assert (0 <=? amount fee);;
  if amount fee =? 0 then mret tt
  else
    acnt ← deref accounts a;
    b ← lift (asset_geb (balance acnt) fee); assert b;;
    d ← lift (asset_neg fee);
    adjust_balance a d;;
    adjust_supply d false.

(** ** Votes *)

(** database.cpp:1040.  [w.votes.value + 1] is an unchecked 64-bit addition. *)
Definition adjust_witness_vote (w : Z) (delta : Z) : M chain unit :=
  now ← gets (λ s, current_virtual_time (wso s));
  total ← gets (λ s, amount (total_vesting_shares (gpo s)));
  modify_witness w (λ w,
    let delta_pos := u128_mul (u128_of_i64 (votes w)) (u128_sub now (virtual_last_update w)) in
    let pos := u128_add (virtual_position w) delta_pos in
    v ← safe_add (votes w) delta;
    FC_ASSERT (v <=? total);;
    let sched := u128_add now
      (u128_div (u128_sub VIRTUAL_SCHEDULE_LAP_LENGTH2 pos) (u128_of_i64 (swrap 64 (v + 1)))) in
    let sched := if sched <? now then u128_max else sched in
    mret (w <| virtual_position := pos |> <| virtual_last_update := now |>
            <| votes := v |> <| virtual_scheduled_time := sched |>)).

(** The rows of [by_account_witness] for one account, in order. *)
Definition votes_of (a : Z) (t : table witness_vote_object) : list (Z * witness_vote_object) :=
  filter (λ iv, wvo_account iv.2 = a)
    (sorted_rows (λ x y, wvo_witness x <=? wvo_witness y) t).

(** database.cpp:1029 *)
Definition adjust_witness_votes (a : Z) (delta : Z) : M chain unit :=
  t ← gets witness_votes;
  for_each (votes_of a t) (λ iv,
    get_row witnesses (wvo_witness iv.2);;
    adjust_witness_vote (wvo_witness iv.2) delta).

(** database.cpp:1006.  [rem] is what is left of the depth:
    [depth = WLS_MAX_PROXY_RECURSION_DEPTH - rem]. *)
Definition depth_of (rem : nat) : nat := Z.to_nat WLS_MAX_PROXY_RECURSION_DEPTH - rem.

Definition add_proxied (i : nat) (delta : Z) (acnt : account_object) : result account_object :=
  v ← of_option undefined_behaviour (proxied_vsf_votes acnt !! i);
  v ← safe_add v delta;
  mret (acnt <| proxied_vsf_votes ::= <[i := v]> |>).

Fixpoint adjust_proxied_witness_votes_rec (rem : nat) (a : Z) (delta : Z) : M chain unit :=
  acnt ← deref accounts a;
  if negb (String.eqb (proxy acnt) WLS_PROXY_TO_SELF_ACCOUNT) then
    match rem with
    | O => mret tt
    | S rem' =>
      p ← get_account (proxy acnt);
      modify_account p.1 (add_proxied (depth_of rem) delta);;
      adjust_proxied_witness_votes_rec rem' p.1 delta
    end
  else adjust_witness_votes a delta.
Definition adjust_proxied_witness_votes (a : Z) (delta : Z) : M chain unit :=
  adjust_proxied_witness_votes_rec (Z.to_nat WLS_MAX_PROXY_RECURSION_DEPTH) a delta.

(** database.cpp:987, the version with one delta per level: the loop on
    [i = WLS_MAX_PROXY_RECURSION_DEPTH - depth - 1, ..., 0]. *)
Fixpoint add_proxied_array (n depth : nat) (delta : list Z) (acnt : account_object)
    : result account_object :=
  match n with
  | O => mret acnt
  | S i =>
    d ← of_option undefined_behaviour (delta !! i);
    acnt ← add_proxied (i + depth) d acnt;
    add_proxied_array i depth delta acnt
  end.
(** the loop on [i = WLS_MAX_PROXY_RECURSION_DEPTH - depth, ..., 0] *)
Fixpoint sum_delta (n : nat) (delta : list Z) (acc : Z) : result Z :=
  match n with
  | O => mret acc
  | S i =>
    d ← of_option undefined_behaviour (delta !! i);
    acc ← safe_add acc d; sum_delta i delta acc
  end.

Fixpoint adjust_proxied_witness_votes_array_rec (rem : nat) (a : Z) (delta : list Z) : M chain unit :=
  acnt ← deref accounts a;
  if negb (String.eqb (proxy acnt) WLS_PROXY_TO_SELF_ACCOUNT) then
    match rem with
    | O => mret tt
    | S rem' =>
      p ← get_account (proxy acnt);
      modify_account p.1 (add_proxied_array rem (depth_of rem) delta);;
      adjust_proxied_witness_votes_array_rec rem' p.1 delta
    end
  else
    total ← lift (sum_delta (S rem) delta 0);
    adjust_witness_votes a total.
Definition adjust_proxied_witness_votes_array (a : Z) (delta : list Z) : M chain unit :=
  adjust_proxied_witness_votes_array_rec (Z.to_nat WLS_MAX_PROXY_RECURSION_DEPTH) a delta.

(** database.cpp:1061 *)
Definition clear_witness_votes (a : Z) : M chain unit :=
  t ← gets witness_votes;
  for_each (votes_of a t) (λ iv, remove_row witness_votes iv.1);;
  modify_account a (λ acc, mret (acc <| witnesses_voted_for := 0 |>)).

(** ** Vesting *)

(** database.cpp:921 *)
Definition create_vesting (to : Z) (steem : asset) (to_reward_balance : bool) : M chain asset :=
  cprops ← gets gpo;
  p ← lift (if to_reward_balance then get_reward_vesting_share_price cprops
            else mret (get_vesting_share_price cprops));
  new_vesting ← lift (asset_mul_price steem p);
  modify_account to (λ a,
    if to_reward_balance then
      b ← asset_plus_eq (reward_vesting_balance a) new_vesting;
      s ← asset_plus_eq (reward_vesting_steem a) steem;
      mret (a <| reward_vesting_balance := b |> <| reward_vesting_steem := s |>)
    else
      v ← asset_plus_eq (vesting_shares a) new_vesting;
      mret (a <| vesting_shares := v |>));;
  modify_gpo (λ props,
    if to_reward_balance then
      b ← asset_plus_eq (pending_rewarded_vesting_shares props) new_vesting;
      s ← asset_plus_eq (pending_rewarded_vesting_steem props) steem;
      mret (props <| pending_rewarded_vesting_shares := b |>
                  <| pending_rewarded_vesting_steem := s |>)
    else
      f ← asset_plus_eq (total_vesting_fund_steem props) steem;
      v ← asset_plus_eq (total_vesting_shares props) new_vesting;
      mret (props <| total_vesting_fund_steem := f |> <| total_vesting_shares := v |>));;
  (if to_reward_balance then mret tt
   else adjust_proxied_witness_votes to (amount new_vesting));;
  mret new_vesting.

(** database.cpp:1083, one [if] after the other; the total is passed along. *)
Definition clear_null_liquid (null : Z) (total : asset) : M chain asset :=
  a ← deref accounts null;
  if 0 <? amount (balance a) then
    total ← lift (asset_plus_eq total (balance a));
    d ← lift (asset_neg (balance a));
    adjust_balance null d;; mret total
  else mret total.

Definition clear_null_vesting (null : Z) (total : asset) : M chain asset :=
  a ← deref accounts null;
  if 0 <? amount (vesting_shares a) then
    g ← gets gpo;
    converted ← lift (asset_mul_price (vesting_shares a) (get_vesting_share_price g));
    modify_gpo (λ g,
      v ← asset_minus_eq (total_vesting_shares g) (vesting_shares a);
      f ← asset_minus_eq (total_vesting_fund_steem g) converted;
      mret (g <| total_vesting_shares := v |> <| total_vesting_fund_steem := f |>));;
    modify_account null (λ a, mret (a <| vesting_shares ::= λ x, x <| amount := 0 |> |>));;
    lift (asset_plus_eq total converted)
  else mret total.

Definition clear_null_reward (null : Z) (total : asset) : M chain asset :=
  a ← deref accounts null;
  if 0 <? amount (reward_steem_balance a) then
    total ← lift (asset_plus_eq total (reward_steem_balance a));
    d ← lift (asset_neg (reward_steem_balance a));
    adjust_reward_balance null d;; mret total
  else mret total.

Definition clear_null_reward_vesting (null : Z) (total : asset) : M chain asset :=
  a ← deref accounts null;
  if 0 <? amount (reward_vesting_balance a) then
    total ← lift (asset_plus_eq total (reward_vesting_steem a));
    modify_gpo (λ g,
      b ← asset_minus_eq (pending_rewarded_vesting_shares g) (reward_vesting_balance a);
      s ← asset_minus_eq (pending_rewarded_vesting_steem g) (reward_vesting_steem a);
      mret (g <| pending_rewarded_vesting_shares := b |> <| pending_rewarded_vesting_steem := s |>));;
    modify_account null (λ a, mret (a
      <| reward_vesting_steem ::= λ x, x <| amount := 0 |> |>
      <| reward_vesting_balance ::= λ x, x <| amount := 0 |> |>));;
    mret total
  else mret total.

Definition clear_null_account_balance : M chain unit :=
  n ← get_account WLS_NULL_ACCOUNT;
  total ← clear_null_liquid n.1 (WLS 0);
  total ← clear_null_vesting n.1 total;
  total ← clear_null_reward n.1 total;
  total ← clear_null_reward_vesting n.1 total;
  if 0 <? amount total then d ← lift (asset_neg total); adjust_supply d false else mret tt.

(** database.cpp:1142 *)
Definition adjust_rshares2 (old_rshares2 new_rshares2 : Z) : M chain unit :=
  modify_gpo (λ p, mret (p <| gpo_total_reward_shares2 ::=
    λ t, u128_add (u128_sub t old_rshares2) new_rshares2 |>)).

(** database.cpp:1153 *)
Definition update_owner_authority (n : string) (owner_authority : authority) : M chain unit :=
  now ← head_block_time;
  a ← get_authority n;
  modify_row account_authorities a.1 (λ auth,
    mret (auth <| auth_owner := owner_authority |> <| last_owner_update := now |>)).

(** ** Withdrawals *)

(** database.cpp:1185: the amount of this week's withdrawal.  [%] by zero is
    undefined. *)
Definition withdrawal_amount (a : account_object) : result Z :=
  rest ← safe_sub (to_withdraw a) (withdrawn a);
  if rest <? amount (vesting_withdraw_rate a) then
    if amount (vesting_withdraw_rate a) =? 0 then Err undefined_behaviour
    else
      m ← safe_mod (to_withdraw a) (amount (vesting_withdraw_rate a));
      mret (Z.min (amount (vesting_shares a)) m)
  else mret (Z.min (amount (vesting_shares a)) (amount (vesting_withdraw_rate a))).

(** The routes from [upper_bound( (from, 0) )] on: id 0 is left out. *)
Definition routes_of (a : Z) (t : table withdraw_vesting_route_object)
  : list (Z * withdraw_vesting_route_object) :=
  filter (λ iv, from_account iv.2 = a ∧ 0 < to_account iv.2)
    (sorted_rows (λ x y, to_account x <=? to_account y) t).

Definition route_share (to_withdraw percent : Z) : result Z :=
  swrap 64 <$> u128_to_u64
    (u128_div (u128_mul (u128_of_i64 to_withdraw) percent) WLS_100_PERCENT).

(** database.cpp:1192, the first pass *)
Definition deposit_as_vests (to_withdraw : Z) (as_vests : Z)
    (iv : Z * withdraw_vesting_route_object) : M chain Z :=
  let r := iv.2 in
  if auto_vest r then
    to_deposit ← lift (route_share to_withdraw (percent r));
    as_vests ← lift (safe_add as_vests to_deposit);
    (if 0 <? to_deposit then
       get_row accounts (to_account r);;
       modify_account (to_account r) (λ a,
         v ← safe_add (amount (vesting_shares a)) to_deposit;
         mret (a <| vesting_shares ::= λ x, x <| amount := v |> |>));;
       adjust_proxied_witness_votes (to_account r) to_deposit
     else mret tt);;
    mret as_vests
  else mret as_vests.

(** database.cpp:1217, the second pass *)
Definition deposit_as_steem (to_withdraw : Z) (acc : Z * asset)
    (iv : Z * withdraw_vesting_route_object) : M chain (Z * asset) :=
  let r := iv.2 in
  if negb (auto_vest r) then
    get_row accounts (to_account r);;
    to_deposit ← lift (route_share to_withdraw (percent r));
    as_steem ← lift (safe_add acc.1 to_deposit);
    cprops ← gets gpo;
    converted ← lift (asset_mul_price (Asset to_deposit VESTS_SYMBOL) (get_vesting_share_price cprops));
    total ← lift (asset_plus_eq acc.2 converted);
    (if 0 <? to_deposit then
       modify_account (to_account r) (λ a,
         b ← asset_plus_eq (balance a) converted; mret (a <| balance := b |>));;
       modify_gpo (λ o,
         f ← asset_minus_eq (total_vesting_fund_steem o) converted;
         v ← safe_sub (amount (total_vesting_shares o)) to_deposit;
         mret (o <| total_vesting_fund_steem := f |>
                 <| total_vesting_shares ::= λ x, x <| amount := v |> |>))
     else mret tt);;
    mret (as_steem, total)
  else mret acc.

(** database.cpp:1249 *)
Definition withdraw_from (to_withdraw_now : Z) (converted : asset) (a : account_object)
    : result account_object :=
  v ← safe_sub (amount (vesting_shares a)) to_withdraw_now;
  b ← asset_plus_eq (balance a) converted;
  w ← safe_add (withdrawn a) to_withdraw_now;
  let a := a <| vesting_shares ::= λ x, x <| amount := v |> |>
             <| balance := b |> <| withdrawn := w |> in
  if (to_withdraw a <=? withdrawn a) || (amount (vesting_shares a) =? 0) then
    mret (a <| vesting_withdraw_rate ::= λ x, x <| amount := 0 |> |>
            <| next_vesting_withdrawal := tps_max |>)
  else
    mret (a <| next_vesting_withdrawal ::= λ t, tps_add t WLS_VESTING_WITHDRAW_INTERVAL_SECONDS |>).

(** database.cpp:1178, the body of the loop *)
Definition process_withdrawal (from : Z) : M chain unit :=
  a ← deref accounts from;
  to_withdraw ← lift (withdrawal_amount a);
  t ← gets routes;
  as_vests ← fold_m (routes_of from t) (deposit_as_vests to_withdraw) 0;
  acc ← fold_m (routes_of from t) (deposit_as_steem to_withdraw) (0, WLS 0);
  d ← lift (safe_sub to_withdraw acc.1);
  to_convert ← lift (safe_sub d as_vests);
  assert (0 <=? to_convert);;
  cprops ← gets gpo;
  converted ← lift (asset_mul_price (Asset to_convert VESTS_SYMBOL) (get_vesting_share_price cprops));
  modify_account from (withdraw_from to_withdraw converted);;
  modify_gpo (λ o,
    f ← asset_minus_eq (total_vesting_fund_steem o) converted;
    v ← safe_sub (amount (total_vesting_shares o)) to_convert;
    mret (o <| total_vesting_fund_steem := f |>
            <| total_vesting_shares ::= λ x, x <| amount := v |> |>));;
  if 0 <? to_withdraw then
    d ← lift (safe_neg to_withdraw); adjust_proxied_witness_votes from d
  else mret tt.

Definition by_next_vesting_withdrawal (i : Z) (a : account_object) : Z * Z :=
  (next_vesting_withdrawal a, i).

(** database.cpp:1170.  [current] is the iterator: it has moved on before the
    account it pointed to is changed. *)
Definition withdrawal_step (current : option Z) : M chain (option Z + unit) :=
  match current with
  | None => mret (inr tt)
  | Some i =>
    a ← deref accounts i;
    now ← head_block_time;
    if next_vesting_withdrawal a <=? now then
      t ← gets accounts;
      let next := seek by_next_vesting_withdrawal (Some (by_next_vesting_withdrawal i a)) t in
      process_withdrawal i;; mret (inl (fst <$> next))
    else mret (inr tt)
  end.
Definition process_vesting_withdrawals : M chain unit :=
  t ← gets accounts;
  loop_log 64 withdrawal_step (fst <$> seek by_next_vesting_withdrawal None t).

(** database.cpp:1283 *)
Definition adjust_total_payout (c : Z) (total curator beneficiary : asset) : M chain unit :=
  modify_comment c (λ c,
    t ← (if symbol (total_payout_value c) =? symbol total
         then asset_plus_eq (total_payout_value c) total else mret (total_payout_value c));
    cu ← asset_plus_eq (curator_payout_value c) curator;
    b ← asset_plus_eq (beneficiary_payout_value c) beneficiary;
    mret (c <| total_payout_value := t |> <| curator_payout_value := cu |>
            <| beneficiary_payout_value := b |>)).

(** ** Retallies *)

(** database.cpp:2819 *)
Definition retally_witness_votes : M chain unit :=
  ws ← gets witnesses;
  for_each (ascending (rows ws)) (λ iw, modify_witness iw.1 (λ w,
    mret (w <| votes := 0 |> <| virtual_position := 0 |>)));;
  acs ← gets accounts;
  t ← gets witness_votes;
  for_each (ascending (rows acs)) (λ ia,
    if negb (String.eqb (proxy ia.2) WLS_PROXY_TO_SELF_ACCOUNT) then mret tt
    else for_each (votes_of ia.1 t) (λ iv,
      get_row witnesses (wvo_witness iv.2);;
      weight ← lift (witness_vote_weight ia.2);
      adjust_witness_vote (wvo_witness iv.2) weight)).

(** database.cpp:2852 *)
Definition retally_witness_vote_counts (force : bool) : M chain unit :=
  acs ← gets accounts;
  t ← gets witness_votes;
  for_each (ascending (rows acs)) (λ ia,
    let n := if force || negb (String.eqb (proxy ia.2) WLS_PROXY_TO_SELF_ACCOUNT)
             then wrap 16 (Z.of_nat (length (votes_of ia.1 t))) else 0 in
    if negb (witnesses_voted_for ia.2 =? n) then
      modify_account ia.1 (λ a, mret (a <| witnesses_voted_for := n |>))
    else mret tt).

(** database.cpp:2801: every comment adds one to each of its ancestors.  The
    walk up ends at a root post: [fuel] bounds the depth. *)
Fixpoint retally_ancestors (fuel : nat) (c : Z) : M chain unit :=
  match fuel with
  | O => throw out_of_fuel
  | S fuel =>
    modify_comment c (λ c, mret (c <| children ::= λ n, wrap 32 (n + 1) |>));;
    row ← deref comments c;
    if negb (String.eqb (parent_author row) WLS_ROOT_POST_PARENT) then
      p ← get_comment (parent_author row) (parent_permlink row);
      retally_ancestors fuel p.1
    else mret tt
  end.
Definition retally_comment_children : M chain unit :=
  cs ← gets comments;
  for_each (ascending (rows cs)) (λ ic,
    modify_comment ic.1 (λ c, mret (c <| children := 0 |>)));;
  for_each (ascending (rows cs)) (λ ic,
    if negb (String.eqb (parent_author ic.2) WLS_ROOT_POST_PARENT) then
      p ← get_comment (parent_author ic.2) (parent_permlink ic.2);
      retally_ancestors (S (size (rows cs))) p.1
    else mret tt).

End ledger.
