(* ===== verification/Invariants.v ===== *)
(** * Invariants: the supply invariants of the ledger

    [validate_invariants] of [libraries/chain/database.cpp] adds up what all the
    accounts and reward funds hold and compares it with the global properties.
    Here the four sums are functions of the state, [supply_inv] is what the
    function checks ([validate_invariants_sound]), and every operation of file
    Ledger is proved to move the sums by exactly what its arguments say.

    [drift s s' d1 d2 d3 d4] says by how much an operation changes the difference
    between each global total and the sum it stands for: an operation that
    preserves the invariants has [drift s s' 0 0 0 0], and the drifts of two
    operations in a row add up. *)

From S2P Require Import Prelude FcLib Tables Config Asset Names Authority Operations Reward Objects Ledger.

Section invariants.
Context `{FC : FcLib}.

(** ** The check of the code *)

Definition votes_ok (s : chain) : result unit :=
  each (λ iw : Z * witness_object,
    FC_ASSERT (votes iw.2 <=? amount (total_vesting_shares (gpo s))))
    (ascending (rows (witnesses s))).

Record totals := Totals {
  total_supply : asset; total_vesting : asset; pending_vesting_steem : asset;
  total_vsf_votes : Z }.

(** database.cpp:2734 *)
Definition add_account (t : totals) (a : account_object) : result totals :=
  s ← asset_plus_eq (total_supply t) (balance a);
  s ← asset_plus_eq s (reward_steem_balance a);
  v ← asset_plus_eq (total_vesting t) (vesting_shares a);
  v ← asset_plus_eq v (reward_vesting_balance a);
  p ← asset_plus_eq (pending_vesting_steem t) (reward_vesting_steem a);
  w ← (if String.eqb (proxy a) WLS_PROXY_TO_SELF_ACCOUNT then witness_vote_weight a
       else of_option undefined_behaviour (proxied_vsf_votes a !! 3%nat));
  n ← safe_add (total_vsf_votes t) w;
  mret (Totals s v p n).
Fixpoint add_accounts (l : list (Z * account_object)) (t : totals) : result totals :=
  match l with
  | [] => mret t
  | ia :: l => t ← add_account t ia.2; add_accounts l t
  end.
Fixpoint add_funds (l : list (Z * reward_fund_object)) (s : asset) : result asset :=
  match l with
  | [] => mret s
  | f :: l => s ← asset_plus_eq s (reward_balance f.2); add_funds l s
  end.

(** database.cpp:2715.  The sum of the comments' [rshares2] (2746-2757) is
    computed and not used. *)
Definition validate_invariants (s : chain) : result unit :=
  let g := gpo s in
  votes_ok s;;
  t ← add_accounts (sorted_rows (λ a b, negb (String.ltb (name b) (name a))) (accounts s))
        (Totals (WLS 0) (VESTS 0) (WLS 0) 0);
  supply ← add_funds (ascending (rows (reward_funds s))) (total_supply t);
  x ← asset_add (total_vesting_fund_steem g) (gpo_total_reward_fund_steem g);
  x ← asset_add x (pending_rewarded_vesting_steem g);
  supply ← asset_plus_eq supply x;
  FC_ASSERT (asset_eqb (current_supply g) supply);;
  v ← asset_add (total_vesting_shares g) (pending_rewarded_vesting_shares g);
  FC_ASSERT (asset_eqb v (total_vesting t));;
  FC_ASSERT (amount (total_vesting_shares g) =? total_vsf_votes t);;
  FC_ASSERT (asset_eqb (pending_rewarded_vesting_steem g) (pending_vesting_steem t)).

(** ** The sums *)

Definition account_wls (a : account_object) : Z :=
  amount (balance a) + amount (reward_steem_balance a).
Definition account_vests (a : account_object) : Z :=
  amount (vesting_shares a) + amount (reward_vesting_balance a).
Definition account_pending (a : account_object) : Z := amount (reward_vesting_steem a).
Definition sumZ (l : list Z) : Z := foldr Z.add 0 l.
Definition account_votes (a : account_object) : Z :=
  if String.eqb (proxy a) WLS_PROXY_TO_SELF_ACCOUNT
  then amount (vesting_shares a) + sumZ (proxied_vsf_votes a)
  else default 0 (proxied_vsf_votes a !! 3%nat).
Definition fund_wls (f : reward_fund_object) : Z := amount (reward_balance f).

Definition excess_wls (s : chain) : Z :=
  amount (current_supply (gpo s)) - msum account_wls (rows (accounts s))
  - msum fund_wls (rows (reward_funds s)) - amount (total_vesting_fund_steem (gpo s))
  - amount (gpo_total_reward_fund_steem (gpo s)) - amount (pending_rewarded_vesting_steem (gpo s)).
Definition excess_vests (s : chain) : Z :=
  amount (total_vesting_shares (gpo s)) + amount (pending_rewarded_vesting_shares (gpo s))
  - msum account_vests (rows (accounts s)).
Definition excess_votes (s : chain) : Z :=
  amount (total_vesting_shares (gpo s)) - msum account_votes (rows (accounts s)).
Definition excess_pending (s : chain) : Z :=
  amount (pending_rewarded_vesting_steem (gpo s)) - msum account_pending (rows (accounts s)).

Definition supply_inv (s : chain) : Prop :=
  excess_wls s = 0 ∧ excess_vests s = 0 ∧ excess_votes s = 0 ∧ excess_pending s = 0.

Definition drift (s s' : chain) (d1 d2 d3 d4 : Z) : Prop :=
  excess_wls s' = excess_wls s + d1 ∧ excess_vests s' = excess_vests s + d2 ∧
  excess_votes s' = excess_votes s + d3 ∧ excess_pending s' = excess_pending s + d4.

Lemma drift_refl s : drift s s 0 0 0 0.
Proof. unfold drift. lia. Qed.
Lemma drift_trans s s1 s2 d1 d2 d3 d4 e1 e2 e3 e4 :
  drift s s1 d1 d2 d3 d4 → drift s1 s2 e1 e2 e3 e4 →
  drift s s2 (d1 + e1) (d2 + e2) (d3 + e3) (d4 + e4).
Proof. unfold drift. lia. Qed.
Lemma drift_eq s s' d1 d2 d3 d4 e1 e2 e3 e4 :
  drift s s' d1 d2 d3 d4 → d1 = e1 → d2 = e2 → d3 = e3 → d4 = e4 → drift s s' e1 e2 e3 e4.
Proof. by intros ? -> -> -> ->. Qed.
Lemma drift_inv s s' : supply_inv s → drift s s' 0 0 0 0 → supply_inv s'.
Proof. unfold supply_inv, drift. lia. Qed.

(** ** Sums over lists *)

Lemma sumZ_insert l i x v : l !! i = Some x → sumZ (<[i := v]> l) = sumZ l - x + v.
Proof.
  revert i. induction l as [|y l IH]; intros [|i] H; simplify_eq/=; [lia|].
  unfold sumZ in *. simpl. rewrite IH by done. lia.
Qed.

Lemma msum_list {V} (f : V → Z) (m : gmap Z V) l :
  l ≡ₚ map_to_list m → msum f m = foldr (λ iv acc, f iv.2 + acc) 0 l.
Proof.
  intros Hl. unfold msum. rewrite map_fold_foldr.
  assert (foldr (λ iv acc, f iv.2 + acc) 0 l = foldr (λ iv acc, f iv.2 + acc) 0 (map_to_list m)) as ->.
  { induction Hl; simpl; lia. }
  generalize (map_to_list m). intros l'. induction l' as [|[i v] l' IH]; simpl; [done|]. by f_equal.
Qed.

Lemma safe_sum_Ok init l r : safe_sum init l = Ok r → r = init + sumZ l.
Proof.
  revert init. induction l as [|x l IH]; intros init H; simpl in *.
  { unfold mret, result_ret in H. simplify_eq. lia. }
  apply bind_Ok in H as (acc & Hacc & H). simplify_safe. apply IH in H. unfold sumZ in *. lia.
Qed.

(** ** One row changes *)

Lemma wp_modify_row {V} (proj : chain → table V) `{!Field proj} i f (Q : unit → chain → Prop) s :
  (∀ x y, rows (proj s) !! i = Some x → f x = Ok y →
    Q tt (update proj (λ t, t <| rows ::= <[i := y]> |>) s)) →
  wp (modify_row proj i f) Q s.
Proof.
  intros H. unfold modify_row. wp_step. wp_step. wp_step. wp_step.
  match goal with E : of_option _ _ = Ok _ |- _ => apply of_option_Ok in E end.
  wp_step. wp_step. wp_step. by eapply H.
Qed.

Lemma wp_modify_gpo f (Q : unit → chain → Prop) s :
  (∀ g, f (gpo s) = Ok g → Q tt (s <| gpo := g |>)) → wp (modify_gpo f) Q s.
Proof. intros H. unfold modify_gpo. do 5 wp_step. by apply H. Qed.

Lemma wp_deref {V} (proj : chain → table V) i (Q : V → chain → Prop) s :
  (∀ x, rows (proj s) !! i = Some x → Q x s) → wp (deref proj i) Q s.
Proof. intros H. unfold deref. do 3 wp_step. by apply H, (of_option_Ok undefined_behaviour). Qed.

Lemma wp_get_row {V} (proj : chain → table V) i (Q : V → chain → Prop) s :
  (∀ x, rows (proj s) !! i = Some x → Q x s) → wp (get_row proj i) Q s.
Proof. intros H. unfold get_row. do 3 wp_step. by apply H, (of_option_Ok out_of_range). Qed.

Lemma wp_get_account n (Q : Z * account_object → chain → Prop) s :
  (∀ i a, rows (accounts s) !! i = Some a → name a = n → Q (i, a) s) → wp (get_account n) Q s.
Proof.
  intros H. unfold get_account, find_account. do 5 wp_step.
  match goal with E : of_option _ _ = Ok ?ia |- _ => apply of_option_Ok in E; destruct ia as [i a];
    apply find_row_Some in E as [E1 E2%String.eqb_eq] end. by apply H.
Qed.

Lemma wp_create_row {V} (proj : chain → table V) `{!Field proj} key v (Q : Z → chain → Prop) s :
  (find_row (key v) (proj s) = None →
    Q (next_id (proj s)) (update proj (λ t, Table (<[next_id t := v]> (rows t)) (next_id t + 1)) s)) →
  wp (create_row proj key v) Q s.
Proof.
  intros H. unfold create_row. do 2 wp_step. destruct (find_row _ _) eqn:E; [by wp_step|].
  do 3 wp_step. by apply H.
Qed.

Lemma wp_remove_row {V} (proj : chain → table V) `{!Field proj} i (Q : unit → chain → Prop) s :
  (∀ x, rows (proj s) !! i = Some x → Q tt (update proj (λ t, t <| rows ::= delete i |>) s)) →
  wp (remove_row proj i) Q s.
Proof.
  intros H. unfold remove_row. do 2 wp_step. destruct (rows (proj s) !! i) eqn:E; [|by wp_step].
  wp_step. by eapply H.
Qed.

(** The same rules for frames. *)
Section chain_frames.
Context (R : relation chain) `{!PreOrder R}.

Lemma stable_modify_row {V} (proj : chain → table V) `{!Field proj} i f :
  (∀ s x y, rows (proj s) !! i = Some x → f x = Ok y →
    R s (update proj (λ t, t <| rows ::= <[i := y]> |>) s)) →
  stable R (modify_row proj i f).
Proof. intros H s. apply wp_modify_row. intros. by eapply H. Qed.
Lemma stable_create_row {V} (proj : chain → table V) `{!Field proj} key v :
  (∀ s, R s (update proj (λ t, Table (<[next_id t := v]> (rows t)) (next_id t + 1)) s)) →
  stable R (create_row proj key v).
Proof. intros H s. apply wp_create_row. intros. apply H. Qed.
Lemma stable_remove_row {V} (proj : chain → table V) `{!Field proj} i :
  (∀ s x, rows (proj s) !! i = Some x → R s (update proj (λ t, t <| rows ::= delete i |>) s)) →
  stable R (remove_row proj i).
Proof. intros H s. apply wp_remove_row. intros. by eapply H. Qed.
Lemma stable_modify_gpo f :
  (∀ s g, f (gpo s) = Ok g → R s (s <| gpo := g |>)) → stable R (modify_gpo f).
Proof. intros H s. apply wp_modify_gpo. intros. by apply H. Qed.
Lemma stable_modify_wso f : (∀ s g, R s (s <| wso := g |>)) → stable R (modify_wso f).
Proof. intros H s. unfold modify_wso. repeat wp_step. apply H. Qed.
Lemma stable_modify_hpo f : (∀ s, R s (s <| hpo ::= f |>)) → stable R (modify_hpo f).
Proof. intros H s. unfold modify_hpo. wp_step. apply H. Qed.
Lemma stable_deref {V} (proj : chain → table V) i : stable R (deref proj i).
Proof. intros s. apply wp_deref. intros. reflexivity. Qed.
Lemma stable_get_row {V} (proj : chain → table V) i : stable R (get_row proj i).
Proof. intros s. apply wp_get_row. intros. reflexivity. Qed.
Lemma stable_get_account n : stable R (get_account n).
Proof. intros s. apply wp_get_account. intros. reflexivity. Qed.
Lemma stable_find_account n : stable R (find_account n).
Proof. intros s. unfold find_account. repeat wp_step. reflexivity. Qed.
Lemma stable_find_witness n : stable R (find_witness n).
Proof. intros s. unfold find_witness. repeat wp_step. reflexivity. Qed.
Lemma stable_get_witness n : stable R (get_witness n).
Proof. intros s. unfold get_witness, find_witness. repeat wp_step. reflexivity. Qed.
Lemma stable_find_comment a p : stable R (find_comment a p).
Proof. intros s. unfold find_comment. repeat wp_step. reflexivity. Qed.
Lemma stable_get_comment a p : stable R (get_comment a p).
Proof. intros s. unfold get_comment, find_comment. repeat wp_step. reflexivity. Qed.
Lemma stable_get_authority n : stable R (get_authority n).
Proof. intros s. unfold get_authority. repeat wp_step. reflexivity. Qed.
Lemma stable_get_reward_fund : stable R get_reward_fund.
Proof. intros s. unfold get_reward_fund. repeat wp_step. reflexivity. Qed.
End chain_frames.

Lemma drift_account s i x y :
  rows (accounts s) !! i = Some x →
  drift s (s <| accounts ::= λ t, t <| rows ::= <[i := y]> |> |>)
    (account_wls x - account_wls y) (account_vests x - account_vests y)
    (account_votes x - account_votes y) (account_pending x - account_pending y).
Proof.
  intros H. unfold drift, excess_wls, excess_vests, excess_votes, excess_pending. simpl.
  rewrite !(msum_insert _ _ _ x y) by done. lia.
Qed.

Lemma drift_fund s i x y :
  rows (reward_funds s) !! i = Some x →
  drift s (s <| reward_funds ::= λ t, t <| rows ::= <[i := y]> |> |>)
    (fund_wls x - fund_wls y) 0 0 0.
Proof.
  intros H. unfold drift, excess_wls, excess_vests, excess_votes, excess_pending. simpl.
  rewrite !(msum_insert _ _ _ x y) by done. lia.
Qed.

Definition gpo_wls (g : dynamic_global_property_object) : Z :=
  amount (current_supply g) - amount (total_vesting_fund_steem g)
  - amount (gpo_total_reward_fund_steem g) - amount (pending_rewarded_vesting_steem g).

Lemma drift_gpo s g :
  drift s (s <| gpo := g |>) (gpo_wls g - gpo_wls (gpo s))
    (amount (total_vesting_shares g) + amount (pending_rewarded_vesting_shares g)
      - amount (total_vesting_shares (gpo s)) - amount (pending_rewarded_vesting_shares (gpo s)))
    (amount (total_vesting_shares g) - amount (total_vesting_shares (gpo s)))
    (amount (pending_rewarded_vesting_steem g) - amount (pending_rewarded_vesting_steem (gpo s))).
Proof.
  unfold drift, excess_wls, excess_vests, excess_votes, excess_pending, gpo_wls. simpl. lia.
Qed.

(** An operation that touches neither the accounts nor the funds nor the global
    properties has no drift. *)
Definition untouched (s s' : chain) : Prop :=
  accounts s' = accounts s ∧ reward_funds s' = reward_funds s ∧ gpo s' = gpo s.
Lemma untouched_drift s s' : untouched s s' → drift s s' 0 0 0 0.
Proof.
  intros (Ha & Hf & Hg). unfold drift, excess_wls, excess_vests, excess_votes, excess_pending.
  rewrite Ha, Hf, Hg. lia.
Qed.
Lemma untouched_refl s : untouched s s.
Proof. done. Qed.
Lemma untouched_trans s1 s2 s3 : untouched s1 s2 → untouched s2 s3 → untouched s1 s3.
Proof. intros (?&?&?) (?&?&?). split_and!; congruence. Qed.

End invariants.

(** Symbolic execution of the chain operations: rows are named by [intros]. *)
Ltac bind_oks :=
  repeat match goal with
  | H : mbind _ _ = Ok _ |- _ =>
    let x := fresh "v" in let E := fresh "E" in
    apply bind_Ok in H; destruct H as (x & E & H)
  | H : (if true then ?x else _) = ?r |- _ => change (x = r) in H
  | H : (if false then _ else ?x) = ?r |- _ => change (x = r) in H
  | H : throw_unless _ _ = Ok _ |- _ => apply throw_unless_Ok in H
  | H : Ok _ = Ok _ |- _ => injection H as H; try subst
  | H : mret _ = Ok _ |- _ => unfold mret, result_ret in H
  | H : asset_plus_eq _ _ = Ok _ |- _ => apply asset_plus_eq_Ok in H; destruct H as (? & ? & ?)
  | H : asset_minus_eq _ _ = Ok _ |- _ => apply asset_minus_eq_Ok in H; destruct H as (? & ? & ?)
  | H : asset_add _ _ = Ok _ |- _ => apply asset_add_Ok in H; destruct H as (? & ? & ?)
  | H : asset_sub _ _ = Ok _ |- _ => apply asset_sub_Ok in H; destruct H as (? & ? & ?)
  | H : asset_neg _ = Ok _ |- _ => apply asset_neg_Ok in H; destruct H as (? & ?)
  | H : safe_add _ _ = Ok _ |- _ => apply safe_add_Ok in H; destruct H as (? & ?)
  | H : safe_sub _ _ = Ok _ |- _ => apply safe_sub_Ok in H; destruct H as (? & ?)
  | H : safe_mul _ _ = Ok _ |- _ => apply safe_mul_Ok in H; destruct H as (? & ?)
  | H : safe_neg _ = Ok _ |- _ => apply safe_neg_Ok in H; destruct H as (? & ?)
  | H : of_option _ _ = Ok _ |- _ => apply of_option_Ok in H
  | H : (if ?b then _ else _) = Ok _ |- _ =>
    lazymatch type of H with
    | (if _ then _ else Err _) = _ => let E := fresh "E" in destruct b eqn:E; [|discriminate H]
    end
  end.

Ltac chain_step :=
  lazymatch goal with
  | |- wp (modify_row _ _ _) _ _ => apply wp_modify_row; intros ? ? ? ?
  | |- wp (modify_gpo _) _ _ => apply wp_modify_gpo; intros ? ?
  | |- wp (deref _ _) _ _ => apply wp_deref; intros ? ?
  | |- wp (get_row _ _) _ _ => apply wp_get_row; intros ? ?
  | |- wp (get_account _) _ _ => apply wp_get_account; intros ? ? ? ?
  | |- _ => wp_step
  end.
Ltac drift_lia :=
  unfold account_wls, account_vests, account_pending, fund_wls, gpo_wls, WLS, VESTS in *;
  simpl in *; lia.

#[export] Hint Resolve stable_deref stable_get_row stable_get_account stable_find_account
  stable_find_witness stable_get_witness stable_find_comment stable_get_comment
  stable_get_authority stable_get_reward_fund : stable.

(** Follows the code: every branch, every loop body; [tac] is for the rows that
    are modified. *)
Ltac stable_step tac :=
  lazymatch goal with
  | |- stable _ (mbind _ _) => apply (stable_bind _); [|intros ?]
  | |- stable _ (match ?o with _ => _ end) => destruct o
  | |- stable _ (for_each _ _) => apply (stable_for_each _); intros ?
  | |- stable _ (fold_m _ _ _) => apply (stable_fold_m _); intros ? ?
  | |- stable _ (while_fuel _ _) => apply (stable_while_fuel _)
  | |- stable _ (loop_log _ _ _) => apply (stable_loop_log _); intros ?
  | |- stable _ (modify_row _ _ _) => apply (stable_modify_row _); intros ? ? ? ? ?; tac
  | |- stable _ (create_row _ _ _) => apply (stable_create_row _); intros ?; tac
  | |- stable _ (remove_row _ _) => apply (stable_remove_row _); intros ? ? ?; tac
  | |- stable _ (modify_gpo _) => apply (stable_modify_gpo _); intros ? ? ?; tac
  | |- stable _ (modify_wso _) => apply (stable_modify_wso _); intros ? ?; tac
  | |- stable _ (modify_hpo _) => apply (stable_modify_hpo _); intros ?; tac
  | |- stable _ _ => first [progress unfold head_block_time, head_block_num | solve [auto with stable typeclass_instances]]
  end.
Ltac stable tac := repeat stable_step tac.
