(* ===== verification/Supply.v ===== *)
(** * Supply: every operation of the ledger against the supply invariants

    For each operation of file Ledger, by how much it changes the four
    differences of file Invariants; the operations that are complete by
    themselves preserve [supply_inv]. *)

From S2P Require Import Prelude FcLib Tables Config Asset Names Authority Operations Reward Objects Ledger Invariants.

Section supply.
Context `{FC : FcLib}.

(** Names, proxies and number of proxied votes of all accounts, and the next
    account id: what the operations below do not change. *)
Definition account_shape (a : account_object) : string * string * nat :=
  (name a, proxy a, length (proxied_vsf_votes a)).
Definition shape (s : chain) : gmap Z (string * string * nat) * Z :=
  (account_shape <$> rows (accounts s), next_id (accounts s)).

Definition moves (s s' : chain) (d1 d2 d3 d4 : Z) : Prop :=
  drift s s' d1 d2 d3 d4 ∧ shape s' = shape s.

Lemma shape_account s i x y :
  rows (accounts s) !! i = Some x → account_shape y = account_shape x →
  shape (s <| accounts ::= λ t, t <| rows ::= <[i := y]> |> |>) = shape s.
Proof.
  intros Hx Hy. unfold shape. simpl. rewrite fmap_insert, Hy. f_equal.
  apply insert_id. by rewrite lookup_fmap, Hx.
Qed.

Lemma shape_lookup s s' i a :
  shape s' = shape s → rows (accounts s') !! i = Some a →
  ∃ b, rows (accounts s) !! i = Some b ∧ account_shape b = account_shape a.
Proof.
  intros Hk Ha. apply (f_equal (λ k, k.1 !! i)) in Hk. unfold shape in Hk. simpl in Hk.
  rewrite !lookup_fmap, Ha in Hk.
  destruct (rows (accounts s) !! i) as [b|]; [|done]. simpl in Hk. exists b. split; [done|congruence].
Qed.

Lemma moves_refl s : moves s s 0 0 0 0.
Proof. split; [apply drift_refl|done]. Qed.
Lemma moves_account s i x y :
  rows (accounts s) !! i = Some x → account_shape y = account_shape x →
  moves s (s <| accounts ::= λ t, t <| rows ::= <[i := y]> |> |>)
    (account_wls x - account_wls y) (account_vests x - account_vests y)
    (account_votes x - account_votes y) (account_pending x - account_pending y).
Proof. split; [by apply drift_account|by eapply shape_account]. Qed.
Lemma moves_gpo s g :
  moves s (s <| gpo := g |>) (gpo_wls g - gpo_wls (gpo s))
    (amount (total_vesting_shares g) + amount (pending_rewarded_vesting_shares g)
      - amount (total_vesting_shares (gpo s)) - amount (pending_rewarded_vesting_shares (gpo s)))
    (amount (total_vesting_shares g) - amount (total_vesting_shares (gpo s)))
    (amount (pending_rewarded_vesting_steem g) - amount (pending_rewarded_vesting_steem (gpo s))).
Proof. split; [apply drift_gpo|done]. Qed.
Lemma moves_fund s i x y :
  rows (reward_funds s) !! i = Some x →
  moves s (s <| reward_funds ::= λ t, t <| rows ::= <[i := y]> |> |>)
    (fund_wls x - fund_wls y) 0 0 0.
Proof. split; [by apply drift_fund|done]. Qed.
Lemma moves_untouched s s' : untouched s s' → moves s s' 0 0 0 0.
Proof. intros H. split; [by apply untouched_drift|]. unfold shape. destruct H as (-> & _). done. Qed.
Lemma moves_inv s s' : supply_inv s → moves s s' 0 0 0 0 → supply_inv s'.
Proof. intros ? [? _]. by eapply drift_inv. Qed.

(** What does not depend on the vesting shares, the proxied votes and the proxy
    does not change an account's votes. *)
Lemma account_votes_ext x y :
  proxy y = proxy x → amount (vesting_shares y) = amount (vesting_shares x) →
  proxied_vsf_votes y = proxied_vsf_votes x → account_votes y = account_votes x.
Proof. unfold account_votes. by intros -> -> ->. Qed.

(** The votes of an account whose vesting shares change by [d]. *)
Definition if_self (a : account_object) (d : Z) : Z :=
  if String.eqb (proxy a) WLS_PROXY_TO_SELF_ACCOUNT then d else 0.
Definition if_proxied (a : account_object) (d : Z) : Z :=
  if String.eqb (proxy a) WLS_PROXY_TO_SELF_ACCOUNT then 0 else d.
Lemma account_votes_shares x y d :
  proxy y = proxy x → amount (vesting_shares y) = amount (vesting_shares x) + d →
  proxied_vsf_votes y = proxied_vsf_votes x → account_votes y = account_votes x + if_self x d.
Proof. unfold account_votes, if_self. intros -> -> ->. destruct (String.eqb _ _); lia. Qed.
Lemma if_self_eq a d : proxy a = WLS_PROXY_TO_SELF_ACCOUNT → if_self a d = d.
Proof. unfold if_self. by intros ->. Qed.
Lemma if_self_proxied a d : if_self a d + if_proxied a d = d.
Proof. unfold if_self, if_proxied. destruct (String.eqb _ _); lia. Qed.

End supply.

(** Nothing is created or destroyed. *)
Definition still (s s' : chain) : Prop := moves s s' 0 0 0 0.
#[export] Instance still_preorder : PreOrder still.
Proof.
  split; [exact moves_refl|]. intros s1 s2 s3 [D1 S1] [D2 S2].
  split; [exact (drift_trans _ _ _ _ _ _ _ _ _ _ _ D1 D2)|congruence].
Qed.
Lemma moves_zero_trans s1 s2 s3 : moves s1 s2 0 0 0 0 → moves s2 s3 0 0 0 0 → moves s1 s3 0 0 0 0.
Proof. intros H1 H2. exact (transitivity (R := still) H1 H2). Qed.

(** Ends a chain of moves: the drifts add up, the keys stay. *)
Ltac moves_done :=
  cbv beta in *;
  match goal with
  | |- still _ _ => unfold still, moves, drift in *; destruct_and?; split; [drift_lia|congruence]
  | |- moves _ _ _ _ _ _ =>
    unfold still, moves, drift in *; destruct_and?; split; [drift_lia|congruence]
  end.

Section supply_ops.
Context `{FC : FcLib}.

Lemma adjust_balance_moves a delta s :
  wp (adjust_balance a delta) (λ _ s', moves s s' (- amount delta) 0 0 0) s.
Proof.
  unfold adjust_balance. chain_step. bind_oks.
  match goal with Hx : rows _ !! a = Some ?x |- context [<[a := ?y]>] =>
    pose proof (moves_account s a x y Hx eq_refl);
    assert (account_votes y = account_votes x) by (by apply account_votes_ext)
  end.
  moves_done.
Qed.

Lemma adjust_reward_balance_moves a delta s :
  wp (adjust_reward_balance a delta) (λ _ s', moves s s' (- amount delta) 0 0 0) s.
Proof.
  unfold adjust_reward_balance. chain_step. bind_oks.
  match goal with Hx : rows _ !! a = Some ?x |- context [<[a := ?y]>] =>
    pose proof (moves_account s a x y Hx eq_refl);
    assert (account_votes y = account_votes x) by (by apply account_votes_ext)
  end.
  moves_done.
Qed.

Lemma adjust_supply_moves delta adj s :
  wp (adjust_supply delta adj) (λ _ s', moves s s' (amount delta) 0 0 0) s.
Proof.
  unfold adjust_supply, head_block_num. do 2 chain_step. chain_step. bind_oks.
  match goal with |- moves s (s <| gpo := ?g |>) _ _ _ _ => pose proof (moves_gpo s g) end.
  moves_done.
Qed.
End supply_ops.

(** The row of account [i] of state [s] has become [y]: its move, and nothing
    changes about its votes when it kept its proxy, shares and proxied votes. *)
Ltac account_moved Hx y :=
  lazymatch type of Hx with
  | rows (accounts ?s) !! ?i = Some ?x =>
    pose proof (moves_account s i x y Hx eq_refl);
    try assert (account_votes y = account_votes x) by (by apply account_votes_ext)
  end.
Ltac account_step :=
  apply wp_modify_row;
  let x := fresh "x" in let y := fresh "y" in let Hx := fresh "Hx" in
  intros x y Hx ?; bind_oks;
  lazymatch goal with
  | |- context [<[ _ := ?y ]>] => account_moved Hx y
  end.
Ltac gpo_step :=
  lazymatch goal with
  | |- wp (modify_gpo _) _ ?s =>
    let g := fresh "g" in apply wp_modify_gpo; intros g ?; pose proof (moves_gpo s g); bind_oks
  end.
(** Runs a step whose moves are known. *)
Ltac known L :=
  eapply wp_mono; [apply L|]; cbn [fst snd]; intros.

Section votes.
Context `{FC : FcLib}.

Lemma adjust_witness_vote_untouched w delta s :
  wp (adjust_witness_vote w delta) (λ _ s', untouched s s') s.
Proof. unfold adjust_witness_vote. do 4 wp_step. by apply wp_modify_row. Qed.

Lemma adjust_witness_votes_untouched a delta s :
  wp (adjust_witness_votes a delta) (λ _ s', untouched s s') s.
Proof.
  unfold adjust_witness_votes. do 2 wp_step. apply (wp_for_each _ _ (untouched s)); [|done].
  intros iv s1 _ H1. wp_step. apply wp_get_row. intros ? ?.
  eapply wp_mono; [apply adjust_witness_vote_untouched|]. intros ? s2. by apply untouched_trans.
Qed.

Lemma proxied_votes_insert a z i v old :
  proxied_vsf_votes a !! i = Some old → proxy z = proxy a →
  amount (vesting_shares z) = amount (vesting_shares a) →
  proxied_vsf_votes z = <[i := v]> (proxied_vsf_votes a) →
  account_votes z = account_votes a +
    (if String.eqb (proxy a) WLS_PROXY_TO_SELF_ACCOUNT then v - old
     else if decide (i = 3%nat) then v - old else 0).
Proof.
  intros Hi Hp Hs Hv. unfold account_votes. rewrite Hp, Hs, Hv. destruct (String.eqb _ _).
  - rewrite (sumZ_insert _ _ old) by done. lia.
  - destruct (decide (i = 3%nat)) as [->|Hne].
    + rewrite list_lookup_insert_eq by (by eapply lookup_lt_Some). rewrite Hi. simpl. lia.
    + rewrite list_lookup_insert_ne by done. lia.
Qed.

(** Propagating [delta] along the proxies adds exactly [delta] to the counted
    votes when the account has a proxy, however long the chain of proxies is and
    even when it is a cycle. *)
Lemma adjust_proxied_rec_moves rem a delta s :
  (rem ≤ 4)%nat →
  wp (adjust_proxied_witness_votes_rec rem a delta) (λ _ s', ∃ x, rows (accounts s) !! a = Some x ∧
    moves s s' 0 0 (- (if decide (rem = O) then 0 else if_proxied x delta)) 0) s.
Proof.
  revert a s. induction rem as [|rem IH]; intros a s Hrem; simpl;
    (wp_step; apply wp_deref; intros x Hx; unfold if_proxied; apply wp_if;
     [intros Hself%negb_true_iff|intros Hself%negb_false_iff]).
  - wp_step. eexists. split; [done|]. apply moves_refl.
  - eapply wp_mono; [apply adjust_witness_votes_untouched|]. intros ? s' H.
    eexists. split; [done|]. by apply moves_untouched.
  - wp_step. apply wp_get_account. intros p y Hy Hn. simpl. wp_step.
    apply wp_modify_row. intros y' z Hy' Hz. rewrite Hy in Hy'. injection Hy' as <-.
    unfold add_proxied in Hz. bind_oks.
    match goal with Hold : proxied_vsf_votes y !! _ = Some ?old, _ : ?v = ?old + _
        |- context [<[p := ?z]>] =>
      pose proof (proxied_votes_insert y z _ v old Hold eq_refl eq_refl eq_refl) as Hv;
      assert (account_shape z = account_shape y) as Hsh by
        (unfold account_shape; simpl; by rewrite length_insert);
      pose proof (moves_account s p y z Hy Hsh) as Hm end.
    eapply wp_mono; [apply IH; lia|]. intros ? s' (x1 & Hx1 & Hm1).
    simpl in Hx1. rewrite lookup_insert_eq in Hx1. injection Hx1 as <-.
    eexists. split; [done|]. unfold if_proxied in Hm1. cbn [proxy] in Hm1.
    rewrite Hv in Hm.
    assert (moves s s' (0 + 0) (0 + 0) (- delta) (0 + 0)) as Hall.
    { split; [|exact (eq_trans (proj2 Hm1) (proj2 Hm))]. destruct Hm as [Hm _], Hm1 as [Hm1 _].
      unfold drift in *. destruct_and?. destruct (String.eqb (proxy y) _); [split_and!; try drift_lia|].
      - destruct (decide (rem = 0%nat)); drift_lia.
      - unfold depth_of in *. change (Z.to_nat WLS_MAX_PROXY_RECURSION_DEPTH) with 4%nat in *.
        destruct (decide (rem = 0%nat)) as [Hr|Hr], (decide (4 - S rem = 3)%nat);
          try lia; split_and!; drift_lia. }
    by rewrite Hself.
  - eapply wp_mono; [apply adjust_witness_votes_untouched|]. intros ? s' H.
    eexists. split; [done|]. rewrite Hself. by apply moves_untouched.
Qed.

Lemma adjust_proxied_moves a delta s :
  wp (adjust_proxied_witness_votes a delta) (λ _ s', ∃ x, rows (accounts s) !! a = Some x ∧
    moves s s' 0 0 (- if_proxied x delta) 0) s.
Proof. apply (adjust_proxied_rec_moves 4 a delta s). done. Qed.

(** What the propagation of votes leaves alone: everything but the witnesses and
    the accounts' [proxied_vsf_votes]. *)
Definition strip (a : account_object) : account_object := a <| proxied_vsf_votes := [] |>.
Definition normal (s : chain) : chain :=
  s <| witnesses := empty_table |>
    <| accounts ::= λ t, Table (strip <$> rows t) (next_id t) |>.

Lemma normal_witnesses s f : normal (s <| witnesses ::= f |>) = normal s.
Proof. done. Qed.
Lemma normal_account s i x y :
  rows (accounts s) !! i = Some x → strip y = strip x →
  normal (s <| accounts ::= λ t, t <| rows ::= <[i := y]> |> |>) = normal s.
Proof.
  intros Hx Hy. unfold normal. simpl. rewrite fmap_insert, Hy, insert_id; [done|].
  by rewrite lookup_fmap, Hx.
Qed.
Lemma normal_lookup s s' i a :
  normal s' = normal s → rows (accounts s') !! i = Some a →
  ∃ b, rows (accounts s) !! i = Some b ∧ strip b = strip a.
Proof.
  intros Hn Ha. apply (f_equal (λ s, rows (accounts s) !! i)) in Hn. simpl in Hn.
  rewrite !lookup_fmap, Ha in Hn. destruct (rows (accounts s) !! i) as [b|]; [|done].
  simpl in Hn. exists b. split; [done|congruence].
Qed.

Lemma adjust_witness_votes_normal a delta s :
  wp (adjust_witness_votes a delta) (λ _ s', normal s' = normal s) s.
Proof.
  unfold adjust_witness_votes. do 2 wp_step.
  apply (wp_for_each _ _ (λ s', normal s' = normal s)); [|done].
  intros iv s1 _ H1. wp_step. apply wp_get_row. intros ? ?.
  unfold adjust_witness_vote. do 4 wp_step. by apply wp_modify_row.
Qed.

Lemma adjust_proxied_normal a delta s :
  wp (adjust_proxied_witness_votes a delta) (λ _ s', normal s' = normal s) s.
Proof.
  unfold adjust_proxied_witness_votes. generalize (Z.to_nat WLS_MAX_PROXY_RECURSION_DEPTH).
  intros rem. revert a s. induction rem as [|rem IH]; intros a s; simpl;
    (wp_step; apply wp_deref; intros x Hx; apply wp_if; intros _;
     [|apply adjust_witness_votes_normal]); [done|].
  wp_step. apply wp_get_account. intros p y Hy _. wp_step.
  apply wp_modify_row. intros y' z Hy' Hz. unfold add_proxied in Hz. bind_oks.
  eapply wp_mono; [apply IH|]. intros ? s' ->. by eapply normal_account.
Qed.

Lemma wp_and {A} (m : M chain A) (P Q : A → chain → Prop) s :
  wp m P s → wp m Q s → wp m (λ a s', P a s' ∧ Q a s') s.
Proof. unfold wp. destruct (m s) as [[]|]; auto. Qed.
End votes.

(** ** Vesting and fees *)

Section vesting.
Context `{FC : FcLib}.

Lemma create_vesting_moves to steem b s :
  wp (create_vesting to steem b) (λ _ s', moves s s' (- amount steem) 0 0 0) s.
Proof.
  unfold create_vesting. do 7 wp_step. destruct b.
  - account_step. wp_step. gpo_step. do 3 wp_step. moves_done.
  - apply wp_modify_row. intros x y Hx Hy. bind_oks.
    match goal with |- context [<[to := ?y]>] => account_moved Hx y;
      assert (account_votes y = account_votes x + if_self x (amount a0)) as Hv
        by (by apply account_votes_shares) end.
    wp_step. gpo_step. wp_step. eapply wp_mono; [apply adjust_proxied_moves|].
    intros ? s' (x1 & Hx1 & Hm). cbn in Hx1. rewrite lookup_insert_eq in Hx1. injection Hx1 as <-.
    wp_step. unfold if_proxied in Hm. cbn [proxy] in Hm. fold (if_proxied x (amount a0)) in Hm.
    pose proof (if_self_proxied x (amount a0)). moves_done.
Qed.

Lemma pay_fee_moves a fee s :
  wp (pay_fee a fee) (λ _ s', moves s s' 0 0 0 0) s.
Proof.
  unfold pay_fee. wp_step. wp_step. wp_step; [wp_step; apply moves_refl|].
  wp_step. apply wp_deref. intros x Hx. do 6 wp_step. bind_oks.
  wp_step. known @adjust_balance_moves. known @adjust_supply_moves. moves_done.
Qed.
End vesting.

(** ** Clearing the null account *)

Section null.
Context `{FC : FcLib}.

(** Each step of [clear_null_account_balance] takes out of the ledger what it
    adds to the total. *)
Lemma clear_null_liquid_moves n t s :
  wp (clear_null_liquid n t) (λ t' s', moves s s' (amount t' - amount t) 0 0 0 ∧
    amount t ≤ amount t') s.
Proof.
  unfold clear_null_liquid. wp_step. apply wp_deref. intros x Hx. wp_step.
  - do 4 wp_step. bind_oks. wp_step. known @adjust_balance_moves. wp_step.
    match goal with H : (_ <? _) = true |- _ => apply Z.ltb_lt in H end.
    split; [moves_done|lia].
  - wp_step. split; [|lia]. pose proof (moves_refl s). moves_done.
Qed.

Lemma clear_null_reward_moves n t s :
  wp (clear_null_reward n t) (λ t' s', moves s s' (amount t' - amount t) 0 0 0 ∧
    amount t ≤ amount t') s.
Proof.
  unfold clear_null_reward. wp_step. apply wp_deref. intros x Hx. wp_step.
  - do 4 wp_step. bind_oks. wp_step. known @adjust_reward_balance_moves. wp_step.
    match goal with H : (_ <? _) = true |- _ => apply Z.ltb_lt in H end.
    split; [moves_done|lia].
  - wp_step. split; [|lia]. pose proof (moves_refl s). moves_done.
Qed.

(** The vesting shares: the account must have no proxy, otherwise the votes that
    its proxy holds are not taken back. *)
Lemma clear_null_vesting_moves n t s x :
  rows (accounts s) !! n = Some x → proxy x = WLS_PROXY_TO_SELF_ACCOUNT →
  wp (clear_null_vesting n t) (λ t' s', moves s s' (amount t' - amount t) 0 0 0) s.
Proof.
  intros Hn Hp. unfold clear_null_vesting. wp_step. apply wp_deref. intros x' Hx.
  rewrite Hn in Hx. injection Hx as <-. wp_step.
  - do 4 wp_step. wp_step. gpo_step. wp_step.
    apply wp_modify_row. intros x' y Hx' Hy. bind_oks.
    assert (x' = x) as -> by (cbn in Hx'; congruence).
    match goal with |- context [<[n := ?y]>] => account_moved Hx' y;
      assert (account_votes y = account_votes x + if_self x (- amount (vesting_shares x))) as Hv
        by (apply account_votes_shares; [done|simpl; lia|done]) end.
    rewrite if_self_eq in Hv by done. wp_step. bind_oks. moves_done.
  - wp_step. pose proof (moves_refl s). moves_done.
Qed.

Lemma clear_null_reward_vesting_moves n t s :
  wp (clear_null_reward_vesting n t) (λ t' s', moves s s' (amount t' - amount t) 0 0 0) s.
Proof.
  unfold clear_null_reward_vesting. wp_step. apply wp_deref. intros x Hx. wp_step.
  - do 2 wp_step. bind_oks. wp_step. gpo_step. wp_step.
    apply wp_modify_row. intros x' y Hx' Hy. bind_oks.
    assert (x' = x) as -> by (cbn in Hx'; congruence).
    match goal with |- context [<[n := ?y]>] => account_moved Hx' y end.
    wp_step. moves_done.
  - wp_step. pose proof (moves_refl s). moves_done.
Qed.

(** The price conversion of at most all the vesting shares stays in range. *)
Lemma asset_mul_price_vests a p r :
  symbol a = VESTS_SYMBOL → symbol (base p) = VESTS_SYMBOL →
  0 ≤ amount a ≤ amount (base p) → amount (base p) < 2 ^ 63 → 0 ≤ amount (quote p) < 2 ^ 63 →
  asset_mul_price a p = Ok r → 0 ≤ amount r ≤ amount (quote p).
Proof.
  intros Ha Hb Hle Hbase Hq H. unfold asset_mul_price, symbol_name in H. rewrite Ha, Hb in H.
  change (symbol_byte VESTS_SYMBOL 7) with 0 in H. simpl in H.
  apply bind_Ok in H as (v & Hv & H). unfold mret, result_ret in H. injection H as <-. simpl.
  apply mul_div_Ok in Hv as (Hd & -> & _); [|lia..].
  assert (0 ≤ amount a * amount (quote p) / amount (base p) ≤ amount (quote p)).
  { split; [apply Z.div_pos; nia|]. apply Z.div_le_upper_bound; nia. }
  rewrite swrap_small; [done|lia|simpl; lia].
Qed.

(** The price before there is a vesting fund. *)
Lemma asset_mul_price_start a r :
  symbol a = VESTS_SYMBOL → 0 ≤ amount a < 2 ^ 63 →
  asset_mul_price a (Price (Asset 1 WLS_SYMBOL) (Asset 1000 VESTS_SYMBOL)) = Ok r → 0 ≤ amount r.
Proof.
  intros Ha Hr H. unfold asset_mul_price, symbol_name in H. rewrite Ha in H. cbn [base quote symbol amount] in H.
  change (symbol_byte VESTS_SYMBOL 7) with 0 in H. change (symbol_byte WLS_SYMBOL 7) with 0 in H. simpl in H.
  apply bind_Ok in H as (v & Hv & H). unfold mret, result_ret in H. injection H as <-. simpl.
  apply mul_div_Ok in Hv as (Hd & -> & _); [|lia..].
  rewrite swrap_small; [apply Z.div_pos; lia|lia|]. simpl.
  split; [transitivity 0; [lia|apply Z.div_pos; lia]|apply Z.div_lt_upper_bound; lia].
Qed.

Definition null_wf (s : chain) (a : account_object) : Prop :=
  proxy a = WLS_PROXY_TO_SELF_ACCOUNT ∧ 0 ≤ amount (reward_vesting_steem a) ∧
  symbol (vesting_shares a) = VESTS_SYMBOL ∧ symbol (total_vesting_shares (gpo s)) = VESTS_SYMBOL ∧
  amount (vesting_shares a) ≤ amount (total_vesting_shares (gpo s)) < 2 ^ 63 ∧
  0 ≤ amount (total_vesting_fund_steem (gpo s)) < 2 ^ 63.

Definition null_kept (n : Z) (P : account_object → Prop) (s : chain) : Prop :=
  ∃ a, rows (accounts s) !! n = Some a ∧ P a.

Lemma null_kept_modify n (P : account_object → Prop) f s a (Q : unit → chain → Prop) :
  rows (accounts s) !! n = Some a → P a → (∀ y, f a = Ok y → P y) →
  (∀ s', gpo s' = gpo s → null_kept n P s' → Q tt s') → wp (modify_account n f) Q s.
Proof.
  intros Hn HP Hf HQ. apply wp_modify_row. intros x y Hx Hy. apply HQ; [done|].
  exists y. simpl. rewrite lookup_insert_eq. split; [done|]. apply Hf. congruence.
Qed.

Lemma clear_null_liquid_kept n t s a (P : account_object → Prop) :
  rows (accounts s) !! n = Some a → P a → (∀ x b, P x → P (x <| balance := b |>)) →
  wp (clear_null_liquid n t) (λ _ s', gpo s' = gpo s ∧ null_kept n P s') s.
Proof.
  intros Hn Ha HP. unfold clear_null_liquid. wp_step. apply wp_deref. intros x Hx. wp_step.
  - do 4 wp_step. wp_step. apply (null_kept_modify n P _ s a); [exact Hn|exact Ha| |].
    + intros y Hy. bind_oks. by apply (HP a).
    + intros. by wp_step.
  - wp_step. split; [done|]. by exists a.
Qed.
Lemma clear_null_reward_kept n t s a (P : account_object → Prop) :
  rows (accounts s) !! n = Some a → P a → (∀ x b, P x → P (x <| reward_steem_balance := b |>)) →
  wp (clear_null_reward n t) (λ _ s', null_kept n P s') s.
Proof.
  intros Hn Ha HP. unfold clear_null_reward. wp_step. apply wp_deref. intros x Hx. wp_step.
  - do 4 wp_step. wp_step. apply (null_kept_modify n P _ s a); [exact Hn|exact Ha| |].
    + intros y Hy. bind_oks. by apply (HP a).
    + intros. by wp_step.
  - wp_step. by exists a.
Qed.

Lemma clear_null_vesting_nonneg n t s a :
  rows (accounts s) !! n = Some a → null_wf s a →
  wp (clear_null_vesting n t) (λ t' s', amount t ≤ amount t' ∧
    null_kept n (λ a, 0 ≤ amount (reward_vesting_steem a)) s') s.
Proof.
  intros Hn (Hp & Hr & Hs1 & Hs2 & Hle & Hf). unfold clear_null_vesting.
  wp_step. apply wp_deref. intros x Hx. rewrite Hn in Hx. injection Hx as <-. wp_step.
  - do 4 wp_step.
    match goal with H : asset_mul_price _ _ = Ok _ |- _ => rename H into Hc end.
    match goal with H : (_ <? _) = true |- _ => apply Z.ltb_lt in H end.
    match type of Hc with _ = Ok ?c => assert (0 ≤ amount c) as Hc0 end.
    { unfold get_vesting_share_price in Hc.
      destruct (Z.eqb_spec (amount (total_vesting_fund_steem (gpo s))) 0).
      { apply asset_mul_price_start in Hc; [done|done|lia]. }
      destruct (Z.eqb_spec (amount (total_vesting_shares (gpo s))) 0); [lia|].
      simpl in Hc. apply asset_mul_price_vests in Hc; simpl; [simpl in Hc; lia|done|done|simpl; lia..]. }
    wp_step. apply wp_modify_gpo. intros g _. wp_step.
    eapply (null_kept_modify n (λ a, 0 ≤ amount (reward_vesting_steem a))); [done|done| |].
    + intros y Hy. bind_oks. done.
    + intros s' _ Hk. wp_step. bind_oks. split; [lia|done].
  - wp_step. split; [done|]. by exists a.
Qed.

Lemma clear_null_reward_vesting_nonneg n t s :
  null_kept n (λ a, 0 ≤ amount (reward_vesting_steem a)) s →
  wp (clear_null_reward_vesting n t) (λ t' s', amount t ≤ amount t') s.
Proof.
  intros (a & Hn & Ha). unfold clear_null_reward_vesting.
  wp_step. apply wp_deref. intros x Hx. rewrite Hn in Hx. injection Hx as <-. wp_step.
  - do 2 wp_step. bind_oks. wp_step. apply wp_modify_gpo. intros. wp_step.
    apply wp_modify_row. intros. wp_step. lia.
  - wp_step. done.
Qed.

Lemma clear_null_moves s :
  (∀ i a, rows (accounts s) !! i = Some a → name a = WLS_NULL_ACCOUNT → null_wf s a) →
  wp clear_null_account_balance (λ _ s', moves s s' 0 0 0 0) s.
Proof.
  intros Hwf. unfold clear_null_account_balance.
  wp_step. apply wp_get_account. intros n a Hn Hname. specialize (Hwf _ _ Hn Hname). simpl.
  wp_step. eapply wp_mono; [apply wp_and; [apply clear_null_liquid_moves|
    apply (clear_null_liquid_kept n _ s a (null_wf s)); [done|done|]]|].
  { intros x b. by unfold null_wf. }
  intros t1 s1 [[Hm1 Ht1] (Hg1 & a1 & Hn1 & Hwf1)].
  assert (null_wf s1 a1) as Hwf1' by (unfold null_wf in *; by rewrite Hg1).
  wp_step. eapply wp_mono; [apply wp_and; [eapply clear_null_vesting_moves, Hwf1; exact Hn1|
    by apply (clear_null_vesting_nonneg n _ _ a1)]|].
  intros t2 s2 [Hm2 (Ht2 & a2 & Hn2 & Ha2)].
  wp_step. eapply wp_mono; [apply wp_and; [apply clear_null_reward_moves|
    apply (clear_null_reward_kept n _ s2 a2 (λ a, 0 ≤ amount (reward_vesting_steem a))); done]|].
  intros t3 s3 [[Hm3 Ht3] Hk3].
  wp_step. eapply wp_mono; [apply wp_and; [apply clear_null_reward_vesting_moves|
    by apply clear_null_reward_vesting_nonneg]|].
  intros t4 s4 [Hm4 Ht4]. simpl in Ht1. wp_step.
  - do 2 wp_step. bind_oks. known @adjust_supply_moves. moves_done.
  - wp_step. match goal with H : (_ <? _) = false |- _ => apply Z.ltb_ge in H end.
    moves_done.
Qed.
End null.

(** ** Withdrawals *)

Section withdrawals.
Context `{FC : FcLib}.

Definition account_nonneg (a : account_object) : Prop :=
  0 ≤ amount (vesting_shares a) < 2 ^ 63 ∧ 0 ≤ to_withdraw a ∧
  0 ≤ amount (vesting_withdraw_rate a).
(** What [process_vesting_withdrawals] needs of the accounts and routes. *)
Definition withdraw_wf (s : chain) : Prop :=
  (∀ i a, rows (accounts s) !! i = Some a → account_nonneg a) ∧
  (∀ i r, rows (routes s) !! i = Some r → 0 ≤ percent r ≤ WLS_100_PERCENT).

Lemma withdraw_wf_normal s s' : normal s' = normal s → withdraw_wf s → withdraw_wf s'.
Proof.
  intros Hn [Ha Hr]. split.
  - intros i a Hi. destruct (normal_lookup _ _ _ _ Hn Hi) as (b & Hb & Hs).
    specialize (Ha _ _ Hb). unfold account_nonneg in *.
    assert (vesting_shares a = vesting_shares b ∧ to_withdraw a = to_withdraw b ∧
      vesting_withdraw_rate a = vesting_withdraw_rate b) as (-> & -> & ->); [|done].
    unfold strip in Hs. injection Hs. intros. split_and!; congruence.
  - intros i r Hi. apply (Hr i).
    assert (routes s' = routes s) as <- by exact (f_equal routes Hn). done.
Qed.
Lemma withdraw_wf_account s i y :
  account_nonneg y → withdraw_wf s →
  withdraw_wf (s <| accounts ::= λ t, t <| rows ::= <[i := y]> |> |>).
Proof.
  intros Hy [Ha Hr]. split; [|done]. simpl. intros j a.
  destruct (decide (i = j)) as [->|Hne]; [rewrite lookup_insert_eq|rewrite lookup_insert_ne by done];
    naive_solver.
Qed.
Lemma withdraw_wf_gpo s g : withdraw_wf s → withdraw_wf (s <| gpo := g |>).
Proof. done. Qed.

(** No account loses vesting shares. *)
Definition grows (s s' : chain) : Prop := ∀ i a, rows (accounts s) !! i = Some a →
  ∃ b, rows (accounts s') !! i = Some b ∧ amount (vesting_shares a) ≤ amount (vesting_shares b).
Lemma grows_refl s : grows s s.
Proof. intros i a Hi. exists a. split; [done|lia]. Qed.
Lemma grows_trans s1 s2 s3 : grows s1 s2 → grows s2 s3 → grows s1 s3.
Proof.
  intros H1 H2 i a Hi. destruct (H1 _ _ Hi) as (b & Hb & ?). destruct (H2 _ _ Hb) as (c & ? & ?).
  exists c. split; [done|lia].
Qed.
Lemma grows_normal s s' : normal s' = normal s → grows s s'.
Proof.
  intros Hn i a Hi. destruct (normal_lookup s' s i a ltac:(done) Hi) as (b & Hb & Hs).
  exists b. split; [done|]. unfold strip in Hs. injection Hs. intros. 
  match goal with H : vesting_shares _ = vesting_shares _ |- _ => rewrite H end. done.
Qed.
Lemma grows_account s i x y :
  rows (accounts s) !! i = Some x → amount (vesting_shares x) ≤ amount (vesting_shares y) →
  grows s (s <| accounts ::= λ t, t <| rows ::= <[i := y]> |> |>).
Proof.
  intros Hx Hy j a Ha. simpl. destruct (decide (i = j)) as [->|Hne].
  - exists y. rewrite lookup_insert_eq. split; [done|]. congruence.
  - exists a. by rewrite lookup_insert_ne.
Qed.

Lemma route_share_range tw p r :
  0 ≤ tw < 2 ^ 63 → 0 ≤ p ≤ WLS_100_PERCENT → route_share tw p = Ok r → 0 ≤ r ≤ tw.
Proof.
  intros Htw Hp. unfold route_share, WLS_100_PERCENT in *.
  rewrite u128_of_i64_small, u128_mul_small, u128_div_spec by nia.
  assert (0 ≤ tw * p / 10000 ≤ tw).
  { split; [apply Z.div_pos; nia|]. apply Z.div_le_upper_bound; nia. }
  rewrite u128_to_u64_spec by lia. simpl. intros [= <-].
  rewrite swrap_small; [done|lia|simpl; lia].
Qed.

Lemma withdrawal_amount_range a r :
  account_nonneg a → withdrawal_amount a = Ok r → 0 ≤ r ≤ amount (vesting_shares a).
Proof.
  intros (Hv & Ht & Hr) H. unfold withdrawal_amount in H. apply bind_Ok in H as (rest & _ & H).
  destruct (rest <? _); [|unfold mret, result_ret in H; injection H as <-; lia].
  destruct (Z.eqb_spec (amount (vesting_withdraw_rate a)) 0); [done|].
  rewrite safe_mod_spec in H by done. injection H as <-.
  pose proof (Z.rem_nonneg (to_withdraw a) (amount (vesting_withdraw_rate a)) ltac:(done) ltac:(done)).
  lia.
Qed.

Lemma deposit_as_vests_moves tw acc iv s :
  0 ≤ tw < 2 ^ 63 → 0 ≤ percent iv.2 ≤ WLS_100_PERCENT → withdraw_wf s →
  wp (deposit_as_vests tw acc iv) (λ acc' s', (withdraw_wf s' ∧ grows s s') ∧
    routes s' = routes s ∧ moves s s' 0 (acc - acc') (acc - acc') 0) s.
Proof.
  intros Htw Hp Hwf. unfold deposit_as_vests. wp_step.
  2:{ wp_step. split_and!; [done|apply grows_refl|done|]. pose proof (moves_refl s). moves_done. }
  do 4 wp_step. bind_oks.
  match goal with H : route_share _ _ = Ok _ |- _ => apply route_share_range in H; [|done..] end.
  wp_step. wp_step.
  - wp_step. apply wp_get_row. intros a0' _. wp_step.
    apply wp_modify_row. intros x y Hx Hy. bind_oks.
    match goal with |- context [<[to_account iv.2 := ?y]>] => account_moved Hx y;
      assert (account_votes y = account_votes x + if_self x a) as Hv
        by (by apply account_votes_shares);
      assert (account_nonneg y) as Hy by
        (pose proof (proj1 Hwf _ _ Hx); unfold account_nonneg in *; simpl in *; lia) end.
    eapply wp_mono; [apply wp_and; [apply adjust_proxied_moves|apply adjust_proxied_normal]|].
    intros ? s' [(x1 & Hx1 & Hm) Hn]. cbn in Hx1. rewrite lookup_insert_eq in Hx1.
    injection Hx1 as <-. wp_step.
    unfold if_proxied in Hm. cbn [proxy] in Hm. fold (if_proxied x a) in Hm.
    pose proof (if_self_proxied x a).
    split_and!; [| |exact (f_equal routes Hn)|moves_done].
    { eapply withdraw_wf_normal; [exact Hn|]. by apply withdraw_wf_account. }
    eapply grows_trans; [|apply grows_normal, Hn]. eapply grows_account; [done|simpl; lia].
  - wp_step. wp_step. split_and!; [done|apply grows_refl|done|]. pose proof (moves_refl s).
    match goal with H : (_ <? _) = false |- _ => apply Z.ltb_ge in H end. moves_done.
Qed.

Lemma deposit_as_steem_moves tw acc iv s :
  0 ≤ tw < 2 ^ 63 → 0 ≤ percent iv.2 ≤ WLS_100_PERCENT → withdraw_wf s →
  wp (deposit_as_steem tw acc iv) (λ acc' s', (withdraw_wf s' ∧ grows s s') ∧
    routes s' = routes s ∧ moves s s' 0 (acc.1 - acc'.1) (acc.1 - acc'.1) 0) s.
Proof.
  intros Htw Hp Hwf. unfold deposit_as_steem. wp_step.
  2:{ wp_step. split_and!; [done|apply grows_refl|done|]. pose proof (moves_refl s). moves_done. }
  wp_step. apply wp_get_row. intros row _. do 10 wp_step. bind_oks.
  match goal with H : route_share _ _ = Ok _ |- _ => apply route_share_range in H; [|done..] end.
  wp_step. wp_step.
  - wp_step. apply wp_modify_row. intros x y Hx Hy. bind_oks.
    match goal with |- context [<[to_account iv.2 := ?y]>] => account_moved Hx y;
      assert (account_nonneg y) as Hy by
        (pose proof (proj1 Hwf _ _ Hx); unfold account_nonneg in *; simpl in *; lia) end.
    gpo_step. wp_step. split_and!; [| |done|moves_done].
    { apply withdraw_wf_gpo. by apply withdraw_wf_account. }
    eapply (grows_account s); [done|simpl; lia].
  - wp_step. wp_step. split_and!; [done|apply grows_refl|done|]. pose proof (moves_refl s).
    match goal with H : (_ <? _) = false |- _ => apply Z.ltb_ge in H end. moves_done.
Qed.
End withdrawals.

Section process.
Context `{FC : FcLib}.

Lemma routes_of_elem from t i r :
  (i, r) ∈ routes_of from t → rows t !! i = Some r ∧ from_account r = from ∧ 0 < to_account r.
Proof.
  unfold routes_of. intros [[Hf Ht] Hin]%list_elem_of_filter. by apply elem_of_sorted_rows in Hin.
Qed.

Lemma deposits_moves {B} (f : B → Z * withdraw_vesting_route_object → M chain B) (val : B → Z)
    from acc s :
  withdraw_wf s →
  (∀ acc iv s, 0 ≤ percent iv.2 ≤ WLS_100_PERCENT → withdraw_wf s →
    wp (f acc iv) (λ acc' s', (withdraw_wf s' ∧ grows s s') ∧ routes s' = routes s ∧
      moves s s' 0 (val acc - val acc') (val acc - val acc') 0) s) →
  wp (fold_m (routes_of from (routes s)) f acc) (λ acc' s', (withdraw_wf s' ∧ grows s s') ∧
    routes s' = routes s ∧ moves s s' 0 (val acc - val acc') (val acc - val acc') 0) s.
Proof.
  intros Hwf Hf.
  apply (wp_fold_m _ _ (λ acc' s', (withdraw_wf s' ∧ grows s s') ∧
    routes s' = routes s ∧ moves s s' 0 (val acc - val acc') (val acc - val acc') 0)).
  - intros acc1 [i r] s1 Hin ([Hwf1 Hg1] & Hr1 & Hm1).
    apply routes_of_elem in Hin as (Hi & _).
    eapply wp_mono; [apply Hf; [by eapply (proj2 Hwf)|done]|].
    intros acc2 s2 ([Hwf2 Hg2] & Hr2 & Hm2). split_and!; [done|by eapply grows_trans|congruence|moves_done].
  - split_and!; [done|apply grows_refl|done|]. pose proof (moves_refl s). moves_done.
Qed.

Lemma withdraw_from_Ok tw c x y :
  account_nonneg x → 0 ≤ tw ≤ amount (vesting_shares x) → withdraw_from tw c x = Ok y →
  account_nonneg y ∧ account_shape y = account_shape x ∧ proxy y = proxy x ∧
  amount (vesting_shares y) = amount (vesting_shares x) - tw ∧
  proxied_vsf_votes y = proxied_vsf_votes x ∧
  amount (balance y) = amount (balance x) + amount c ∧
  reward_steem_balance y = reward_steem_balance x ∧
  reward_vesting_balance y = reward_vesting_balance x ∧
  reward_vesting_steem y = reward_vesting_steem x.
Proof.
  intros (Hv & Ht & Hr) Htw Hy. unfold withdraw_from in Hy. bind_oks.
  destruct (_ || _); bind_oks; unfold account_nonneg; simpl; split_and!; try done; lia.
Qed.

Lemma process_withdrawal_moves from s :
  withdraw_wf s →
  wp (process_withdrawal from) (λ _ s', withdraw_wf s' ∧ moves s s' 0 0 0 0) s.
Proof.
  intros Hwf. unfold process_withdrawal. wp_step. apply wp_deref. intros a Ha.
  pose proof (proj1 Hwf _ _ Ha) as Hna. do 2 wp_step.
  match goal with H : withdrawal_amount _ = Ok ?r |- _ =>
    apply withdrawal_amount_range in H as Htw; [|done]; rename r into tw end.
  assert (0 ≤ tw < 2 ^ 63) as Htw' by (destruct Hna; lia).
  do 3 wp_step.
  eapply wp_mono; [apply (deposits_moves (deposit_as_vests tw) id); [done|]|].
  { intros. by apply deposit_as_vests_moves. }
  intros as_vests s1 ([Hwf1 Hg1] & Hr1 & Hm1). rewrite <-Hr1. wp_step.
  eapply wp_mono; [apply (deposits_moves (deposit_as_steem tw) fst); [done|]|].
  { intros. by apply deposit_as_steem_moves. }
  intros [as_steem total] s2 ([Hwf2 Hg2] & Hr2 & Hm2). do 10 wp_step. bind_oks. wp_step.
  apply wp_modify_row. intros x y Hx Hy.
  destruct (Hg1 _ _ Ha) as (b1 & Hb1 & ?). destruct (Hg2 _ _ Hb1) as (b2 & Hb2 & ?).
  assert (b2 = x) as -> by congruence.
  apply withdraw_from_Ok in Hy as (Hny & Hyn & Hyp & Hys & Hyv & Hyb & Hyr & Hyrv & Hyrs);
    [|by apply (proj1 Hwf2 _ _ Hx)|lia].
  pose proof (moves_account s2 from x y Hx Hyn) as Hm3.
  assert (account_votes y = account_votes x + if_self x (- tw)) as Hv
    by (apply account_votes_shares; [done|lia|done]).
  assert (∀ s4, moves s2 s4 0 (tw - a1) (tw - a1) 0 → moves s s4 0 0 0 0) as Hfinal.
  { clear -Hm1 Hm2 H0 H1. intros. simpl in *. unfold id in *. moves_done. }
  assert (account_wls y = account_wls x + amount a2 ∧ account_vests y = account_vests x - tw ∧
    account_pending y = account_pending x) as (Hw1 & Hw2 & Hw3).
  { unfold account_wls, account_vests, account_pending. rewrite Hyr, Hyrv, Hyrs. lia. }
  rewrite Hv, Hw1, Hw2, Hw3 in Hm3. clear Hm1 Hm2 Hg1 Hg2.
  wp_step. gpo_step.
  pose proof (if_self_proxied x (- tw)).
  wp_step.
  - do 2 wp_step. bind_oks.
    eapply wp_mono; [apply wp_and; [apply adjust_proxied_moves|apply adjust_proxied_normal]|].
    intros ? s' [(x1 & Hx1 & Hm) Hn]. cbn in Hx1. rewrite lookup_insert_eq in Hx1.
    injection Hx1 as <-. subst.
    assert (if_proxied y (- tw) = if_proxied x (- tw)) as Hpx by (unfold if_proxied; by rewrite Hyp).
    rewrite Hpx in Hm. split.
    + eapply withdraw_wf_normal; [exact Hn|]. apply withdraw_wf_gpo. by apply withdraw_wf_account.
    + apply Hfinal. moves_done.
  - wp_step. split.
    + apply withdraw_wf_gpo. by apply withdraw_wf_account.
    + assert (tw = 0) by (match goal with H : (_ <? _) = false |- _ => apply Z.ltb_ge in H end; lia).
      assert (if_self x (- tw) = 0) by (unfold if_self; destruct (String.eqb _ _); lia).
      apply Hfinal. moves_done.
Qed.
End process.

(** ** The withdrawal loop *)

Section loop.
Context `{FC : FcLib}.

Lemma withdrawals_moves s :
  withdraw_wf s →
  wp process_vesting_withdrawals (λ _ s', withdraw_wf s' ∧ moves s s' 0 0 0 0) s.
Proof.
  intros Hwf. unfold process_vesting_withdrawals. do 2 wp_step.
  apply (wp_loop_log _ _ (λ _ s', withdraw_wf s' ∧ moves s s' 0 0 0 0)).
  2:{ split; [done|apply moves_refl]. }
  intros [i|] s1 [Hwf1 Hm1]; simpl; [|by wp_step].
  wp_step. apply wp_deref. intros a Ha. unfold head_block_time. do 2 wp_step. wp_step; [|by wp_step].
  do 3 wp_step. eapply wp_mono; [by apply process_withdrawal_moves|].
  intros ? s2 [Hwf2 Hm2]. wp_step. split; [done|moves_done].
Qed.

(** The next withdrawal times, and the clock. *)
Definition timing (s : chain) : gmap Z Z := next_vesting_withdrawal <$> rows (accounts s).
Definition same_timing (s s' : chain) : Prop :=
  timing s' = timing s ∧ time (gpo s') = time (gpo s).

Lemma timing_account s i x y :
  rows (accounts s) !! i = Some x → next_vesting_withdrawal y = next_vesting_withdrawal x →
  timing (s <| accounts ::= λ t, t <| rows ::= <[i := y]> |> |>) = timing s.
Proof.
  intros Hx Hy. unfold timing. simpl. rewrite fmap_insert, Hy. apply insert_id.
  by rewrite lookup_fmap, Hx.
Qed.
Lemma timing_normal s s' : normal s' = normal s → same_timing s s'.
Proof.
  intros Hn. split; [|exact (f_equal (λ s, time (gpo s)) Hn)].
  assert (∀ s, timing s = next_vesting_withdrawal <$> rows (accounts (normal s))) as Ht.
  { intros s0. unfold timing, normal. simpl. rewrite <-map_fmap_compose. by apply map_fmap_ext. }
  by rewrite !Ht, Hn.
Qed.
Lemma same_timing_refl s : same_timing s s.
Proof. done. Qed.
Lemma same_timing_trans s1 s2 s3 : same_timing s1 s2 → same_timing s2 s3 → same_timing s1 s3.
Proof. intros [??] [??]. split; congruence. Qed.

Lemma deposit_as_vests_timing tw acc iv s :
  wp (deposit_as_vests tw acc iv) (λ _ s', same_timing s s') s.
Proof.
  unfold deposit_as_vests. wp_step; [|by wp_step]. do 5 wp_step. wp_step; [|by do 2 wp_step].
  wp_step. apply wp_get_row. intros ? _. wp_step. apply wp_modify_row. intros x0 y Hx Hy. bind_oks.
  eapply wp_mono; [apply adjust_proxied_normal|]. intros ? s' Hn. wp_step.
  eapply same_timing_trans; [|apply timing_normal, Hn]. split; [|done]. by eapply timing_account.
Qed.

Lemma deposit_as_steem_timing tw acc iv s :
  wp (deposit_as_steem tw acc iv) (λ _ s', same_timing s s') s.
Proof.
  unfold deposit_as_steem. wp_step; [|by wp_step].
  wp_step. apply wp_get_row. intros row _. do 11 wp_step. wp_step; [|by do 2 wp_step].
  wp_step. apply wp_modify_row. intros x0 y Hx Hy. bind_oks.
  match goal with |- context [<[_ := ?y]>] => pose proof (timing_account s _ x0 y Hx eq_refl) as Ht end.
  apply wp_modify_gpo. intros g Hg. bind_oks. wp_step. split; [exact Ht|done].
Qed.

Lemma withdraw_from_timing tw c x y :
  0 ≤ next_vesting_withdrawal x < 2 ^ 32 → withdraw_from tw c x = Ok y →
  0 ≤ next_vesting_withdrawal y < 2 ^ 32.
Proof.
  intros Hx Hy. unfold withdraw_from in Hy. bind_oks. destruct (_ || _); bind_oks; simpl.
  - unfold tps_max. lia.
  - rewrite tps_add_spec. by apply wrap_range.
Qed.

Lemma process_withdrawal_timing from s :
  (∀ i t, timing s !! i = Some t → 0 ≤ t < 2 ^ 32) →
  wp (process_withdrawal from) (λ _ s', time (gpo s') = time (gpo s) ∧
    (∀ j, j ≠ from → timing s' !! j = timing s !! j) ∧
    (∀ i t, timing s' !! i = Some t → 0 ≤ t < 2 ^ 32)) s.
Proof.
  intros Ht. unfold process_withdrawal. wp_step. apply wp_deref. intros a Ha. do 5 wp_step.
  eapply wp_mono; [apply (wp_fold_m _ _ (λ _ s', same_timing s s')); [|done]|].
  { intros acc iv s1 _ H1. eapply wp_mono; [apply deposit_as_vests_timing|].
    intros ? s2. by apply same_timing_trans. }
  intros as_vests s1 H1. wp_step.
  eapply wp_mono; [apply (wp_fold_m _ _ (λ _ s', same_timing s s')); [|done]|].
  { intros acc iv s2 _ H2. eapply wp_mono; [apply deposit_as_steem_timing|].
    intros ? s3. by apply same_timing_trans. }
  intros as_steem s2 [Ht2 Hg2]. do 11 wp_step. apply wp_modify_row. intros x y Hx Hy.
  wp_step. apply wp_modify_gpo. intros g Hg. bind_oks.
  set (s3 := update gpo _ _).
  assert (time (gpo s3) = time (gpo s) ∧
    (∀ j, j ≠ from → timing s3 !! j = timing s !! j) ∧
    (∀ i t, timing s3 !! i = Some t → 0 ≤ t < 2 ^ 32)) as Hs3.
  { split; [done|]. rewrite <-Ht2. unfold timing. simpl. rewrite fmap_insert. split.
    - intros j Hj. by rewrite lookup_insert_ne.
    - intros i t. destruct (decide (from = i)) as [<-|Hne].
      + rewrite lookup_insert_eq. intros [= <-]. eapply withdraw_from_timing; [|done].
        apply (Ht from). rewrite <-Ht2. unfold timing. by rewrite lookup_fmap, Hx.
      + rewrite lookup_insert_ne by done. intros Hi. apply (Ht i). by rewrite <-Ht2. }
  wp_step; [|by wp_step]. do 2 wp_step.
  eapply wp_mono; [apply adjust_proxied_normal|]. intros ? s4 Hn.
  destruct (timing_normal _ _ Hn) as [-> ->]. done.
Qed.

(** The state in which the loop has a bound: account ids and times have the
    ranges of their types, for [N] accounts. *)
Definition timing_wf (N : Z) (s : chain) : Prop :=
  ∀ i t, timing s !! i = Some t → 0 ≤ i < N ∧ 0 ≤ t < 2 ^ 32.

Definition rounds_left (N : Z) (l : option Z) (s : chain) : Z :=
  match l with
  | None => 0
  | Some i =>
    let t := default 0 (timing s !! i) in
    if t <=? time (gpo s) then (time (gpo s) + 1 - t) * N - i + 1 else 1
  end.

Lemma withdrawal_round N l s l' s' :
  0 ≤ time (gpo s) < 2 ^ 32 → timing_wf N s →
  (match l with None => True | Some i => is_Some (timing s !! i) end) →
  withdrawal_step l s = Ok (inl l', s') →
  (time (gpo s') = time (gpo s) ∧ timing_wf N s' ∧
   match l' with None => True | Some i => is_Some (timing s' !! i) end) ∧
  0 ≤ rounds_left N l' s' < rounds_left N l s.
Proof.
  intros Htime Hwf Hl E. destruct l as [i|]; [|done]. destruct Hl as [t Ht].
  revert E. simpl withdrawal_step.
  match goal with |- ?m s = _ → ?P => intros E; enough (wp m (λ r s', ∀ l', r = inl l' →
    (time (gpo s') = time (gpo s) ∧ timing_wf N s' ∧
     match l' with None => True | Some i => is_Some (timing s' !! i) end) ∧
    0 ≤ rounds_left N l' s' < rounds_left N (Some i) s) s) as Hwp by
    (unfold wp in Hwp; rewrite E in Hwp; by apply Hwp) end.
  clear E l' s'. wp_step. apply wp_deref. intros a Ha.
  assert (t = next_vesting_withdrawal a) as ->.
  { unfold timing in Ht. rewrite lookup_fmap, Ha in Ht. simpl in Ht. congruence. }
  destruct (Hwf _ _ Ht) as [Hi Hta].
  unfold head_block_time. do 2 wp_step. wp_step; [|by wp_step].
  match goal with H : (_ <=? _) = true |- _ => apply Z.leb_le in H as Hle end.
  do 3 wp_step. eapply wp_mono; [apply (process_withdrawal_timing i s)|].
  { intros j u Hj. by apply (Hwf _ _ Hj). }
  intros ? s1 (Hg & Hsame & Hr). wp_step. intros l' [= <-].
  assert (∀ j, is_Some (timing s1 !! j) → is_Some (timing s !! j)) as Hdom.
  { intros j [u Hj]. destruct (decide (j = i)) as [->|Hne]; [by eexists|].
    rewrite <-Hsame by done. by eexists. }
  assert (timing_wf N s1) as Hwf1.
  { intros j u Hj. split; [|by eapply Hr]. destruct (Hdom j) as [u' Hu']; [by eexists|].
    by apply (Hwf _ _ Hu'). }
  unfold rounds_left at 3. rewrite Ht. simpl default. rewrite (proj2 (Z.leb_le _ _) Hle).
  destruct (seek _ _ _) as [[j b]|] eqn:E; simpl fmap.
  2:{ split; [done|]. unfold rounds_left. nia. }
  apply seek_Some in E as (Hj & Hab & _). unfold by_next_vesting_withdrawal in Hab.
  simpl in Hab. apply key_ltb_spec in Hab. simpl in Hab.
  assert (timing s !! j = Some (next_vesting_withdrawal b)) as Htj
    by (unfold timing; by rewrite lookup_fmap, Hj).
  destruct (Hwf _ _ Htj) as [Hjr Htbr].
  assert (j ≠ i) as Hne by (intros ->; rewrite Ha in Hj; simplify_eq; lia).
  split; [split_and!; [done|done|rewrite Hsame by done; by eexists]|].
  simpl. rewrite Hsame, Htj, Hg by done. simpl.
  destruct (Z.leb_spec (next_vesting_withdrawal b) (time (gpo s))); nia.
Qed.
End loop.
