(* ===== verification/Evaluators.v ===== *)
(** * Evaluators: what each operation does to the chain

    [libraries/chain/wls_evaluator.cpp]: one definition per [do_apply].  The
    operations have been validated (file Operations) before they get here.

    What the evaluators use from outside the chain library is the class
    [EvalEnv]: whether the node is producing a block, the interpreters that
    plugins registered for custom operations, and the text patching of
    [comment_operation] bodies (package diff_match_patch). *)

From S2P Require Import Prelude FcLib Tables Config Asset Names Authority Operations Reward Objects Ledger.

Class EvalEnv := {
  is_producing : bool;
  (** [get_custom_json_evaluator( id )->apply( o )], if there is one; its effect
      on the plugin's own state is not part of the chain *)
  custom_interpreter : string → operation → option (result unit);
  (** the body after an edit: [patch_body old new] applies [new] as a patch to
      [old] when it is one, and is [new] otherwise *)
  patch_body : string → string → string
}.

Section evaluators.
Context `{FC : FcLib} `{ENV : EvalEnv}.

Definition nonempty (s : string) : bool := negb (str_size s =? 0).
(** [name.size()] as a condition *)
Definition nonempty_name (n : string) : bool := negb (name_size n =? 0).

(** wls_evaluator.cpp:42 *)
Definition permlink_char (c : Ascii.ascii) : bool :=
  is_let_dig_hyp c.
Definition validate_permlink_0_1 (permlink : string) : result unit :=
  FC_ASSERT ((WLS_MIN_PERMLINK_LENGTH <? str_size permlink) &&
             (str_size permlink <? WLS_MAX_PERMLINK_LENGTH));;
  FC_ASSERT (forallb permlink_char (String.list_ascii_of_string permlink)).

(** wls_evaluator.cpp:56.  The lengths are compared with [||]. *)
Definition strcmp_equal (a b : string) : bool :=
  (str_size a =? str_size b) || String.eqb (c_str a) (c_str b).

(** All the accounts of an authority exist. *)
Definition accounts_exist (a : authority) : M chain unit :=
  for_each (account_auths a) (λ e, get_account e.1;; mret tt).

(** wls_evaluator.cpp:64 *)
Definition witness_update_apply (o : witness_update_operation) : M chain unit :=
  get_account (wu_owner o);;
  assert (str_size (wu_url o) <=? WLS_MAX_WITNESS_URL_LENGTH);;
  assert (symbol (account_creation_fee (wu_props o)) =? WLS_SYMBOL);;
  (if is_producing then assert (maximum_block_size (wu_props o) <=? WLS_SOFT_MAX_BLOCK_SIZE)
   else mret tt);;
  w ← find_witness (wu_owner o);
  match w with
  | Some iw =>
    modify_witness iw.1 (λ w, mret (w <| url := wu_url o |>
      <| signing_key := wu_block_signing_key o |> <| props := wu_props o |>))
  | None =>
    now ← head_block_time;
    create_row witnesses same_owner (default_witness <| owner := wu_owner o |>
      <| url := wu_url o |> <| signing_key := wu_block_signing_key o |>
      <| witness_created := now |> <| props := wu_props o |>);;
    mret tt
  end.

(** wls_evaluator.cpp:99 *)
Definition account_create_apply (o : account_create_operation) : M chain unit :=
  assert (String.eqb (ac_creator o) WLS_WHALESHARE_ACC_NAME);;
  c ← get_account (ac_creator o);
  now ← gets (λ s, time (gpo s));
  b ← lift (asset_geb (balance c.2) (ac_fee o)); assert b;;
  fee ← gets (λ s, amount (account_creation_fee (median_props (wso s))));
  b ← lift (asset_geb (ac_fee o) (Asset fee WLS_SYMBOL)); assert b;;
  accounts_exist (ac_owner o);; accounts_exist (ac_active o);; accounts_exist (ac_posting o);;
  modify_account c.1 (λ c,
    b ← asset_minus_eq (balance c) (ac_fee o); mret (c <| balance := b |>));;
  new_account ← create_row accounts same_name (default_account
    <| name := ac_new_account_name o |> <| memo_key := ac_memo_key o |>
    <| account_created := now |> <| last_vote_time := now |>
    <| recovery_account := ac_creator o |>
    <| account_json_metadata := ac_json_metadata o |>);
  create_row account_authorities same_auth_account
    (AccountAuthority (ac_new_account_name o) (ac_owner o) (ac_active o) (ac_posting o) tps_min);;
  if 0 <? amount (ac_fee o) then create_vesting new_account (ac_fee o) false;; mret tt
  else mret tt.

(** wls_evaluator.cpp:161 *)
Definition account_update_apply (o : account_update_operation) : M chain unit :=
  assert (negb (String.eqb (au_account o) WLS_TEMP_ACCOUNT));;
  (match au_posting o with Some p => lift (authority_validate p) | None => mret tt end);;
  account ← get_account (au_account o);
  account_auth ← get_authority (au_account o);
  (match au_owner o with
   | Some ow =>
     now ← head_block_time;
     assert (WLS_OWNER_UPDATE_LIMIT <? now - last_owner_update account_auth.2);;
     accounts_exist ow;;
     update_owner_authority (name account.2) ow
   | None => mret tt
   end);;
  (match au_active o with Some a => accounts_exist a | None => mret tt end);;
  (match au_posting o with Some a => accounts_exist a | None => mret tt end);;
  now ← head_block_time;
  modify_account account.1 (λ acc,
    let acc := if negb (au_memo_key o =? 0) then acc <| memo_key := au_memo_key o |> else acc in
    let acc := acc <| last_account_update := now |> in
    mret (if nonempty (au_json_metadata o)
          then acc <| account_json_metadata := au_json_metadata o |> else acc));;
  match au_active o, au_posting o with
  | None, None => mret tt
  | _, _ =>
    modify_row account_authorities account_auth.1 (λ auth,
      let auth := match au_active o with Some a => auth <| auth_active := a |> | None => auth end in
      mret (match au_posting o with Some a => auth <| auth_posting := a |> | None => auth end))
  end.

(** wls_evaluator.cpp:225 and 246: disabled *)
Definition account_forsale_apply (o : account_forsale_operation) : M chain unit := assert false.
Definition account_buying_apply (o : account_buying_operation) : M chain unit := assert false.

(** The walk from a comment's parent up to the root post (wls_evaluator.cpp:321
    and 481): [children] changes by [d] and [active] is set. *)
Fixpoint touch_ancestors (fuel : nat) (d now : Z) (p : Z) : M chain unit :=
  match fuel with
  | O => throw out_of_fuel
  | S fuel =>
    modify_comment p (λ p, mret (p <| children ::= λ n, wrap 32 (n + d) |> <| active := now |>));;
    row ← deref comments p;
    if negb (String.eqb (parent_author row) WLS_ROOT_POST_PARENT) then
      q ← get_comment (parent_author row) (parent_permlink row);
      touch_ancestors fuel d now q.1
    else mret tt
  end.
(** A chain of distinct comments is no longer than the table. *)
Definition ancestors_fuel : M chain nat := gets (λ s, S (size (rows (comments s)))).

(** The votes of a comment in [by_comment_voter] order. *)
Definition comment_votes_of (c : Z) (t : table comment_vote_object) : list (Z * comment_vote_object) :=
  filter (λ iv, cv_comment iv.2 = c) (sorted_rows (λ x y, cv_voter x <=? cv_voter y) t).

(** wls_evaluator.cpp:299 *)
Definition delete_comment_apply (o : delete_comment_operation) : M chain unit :=
  ic ← get_comment (dc_author o) (dc_permlink o);
  let comment := ic.2 in
  assert (children comment =? 0);;
  assert (negb (cashout_time comment =? tps_max));;
  assert (net_rshares comment <=? 0);;
  t ← gets comment_votes;
  for_each (comment_votes_of ic.1 t) (λ iv, remove_row comment_votes iv.1);;
  (if negb (String.eqb (parent_author comment) WLS_ROOT_POST_PARENT) then
     p ← get_comment (parent_author comment) (parent_permlink comment);
     now ← head_block_time;
     fuel ← ancestors_fuel;
     touch_ancestors fuel (-1) now p.1
   else mret tt);;
  remove_row comments ic.1.

(** wls_evaluator.cpp:349 *)
Definition add_beneficiaries (c : Z) (l : list beneficiary_route_type) : M chain unit :=
  comment ← deref comments c;
  assert (Z.of_nat (length (beneficiaries comment)) =? 0);;
  assert (abs_rshares comment =? 0);;
  t ← gets accounts;
  modify_comment c (λ c,
    FC_ASSERT (forallb (λ b, match find_row (λ a, String.eqb (name a) (b_account b)) t with
                             | Some _ => true | None => false end) l);;
    mret (c <| beneficiaries ::= λ bs, bs ++ l |>)).

(** wls_evaluator.cpp:366 *)
Definition comment_options_apply (o : comment_options_operation) : M chain unit :=
  ic ← get_comment (cp_author o) (cp_permlink o);
  let comment := ic.2 in
  (if negb (cp_allow_curation_rewards o) || negb (cp_allow_votes o) ||
      (amount (cp_max_accepted_payout o) <? amount (max_accepted_payout comment))
   then assert (abs_rshares comment =? 0) else mret tt);;
  assert (implb (cp_allow_curation_rewards o) (allow_curation_rewards comment));;
  assert (implb (cp_allow_votes o) (allow_votes comment));;
  assert (amount (cp_max_accepted_payout o) <=? amount (max_accepted_payout comment));;
  modify_comment ic.1 (λ c, mret (c <| max_accepted_payout := cp_max_accepted_payout o |>
    <| allow_votes := cp_allow_votes o |>
    <| allow_curation_rewards := cp_allow_curation_rewards o |>));;
  for_each (cp_extensions o) (add_beneficiaries ic.1).

(** wls_evaluator.cpp:440, the constructor of a new comment *)
Definition new_comment (o : comment_operation) (now id : Z) (parent : option comment_object)
    : result comment_object :=
  validate_permlink_0_1 (co_parent_permlink o);;
  validate_permlink_0_1 (co_permlink o);;
  let com := default_comment <| author := co_author o |> <| permlink := co_permlink o |>
    <| comment_last_update := now |> <| comment_created := now |> <| active := now |>
    <| last_payout := tps_min |> <| max_cashout_time := tps_max |>
    <| comment_reward_weight := WLS_100_PERCENT |> in
  let com := match parent with
    | None => com <| parent_author := "" |> <| parent_permlink := co_parent_permlink o |>
        <| category := co_parent_permlink o |> <| root_comment := id |>
    | Some p => com <| parent_author := author p |> <| parent_permlink := permlink p |>
        <| depth := wrap 16 (depth p + 1) |> <| category := category p |>
        <| root_comment := root_comment p |>
    end in
  let com := com <| cashout_time := tps_add now WLS_CASHOUT_WINDOW_SECONDS |>
    <| title := co_title o |> in
  let com := if str_size (co_body o) <? 1024 * 1024 * 128 then com <| body := co_body o |> else com in
  mret (if is_utf8 (co_json_metadata o)
        then com <| comment_json_metadata := co_json_metadata o |> else com).

(** wls_evaluator.cpp:413, a comment that does not exist yet *)
Definition comment_create_case (o : comment_operation) (auth : Z * account_object)
    (parent : option (Z * comment_object)) (now : Z) : M chain unit :=
  let root_post := String.eqb (co_parent_author o) WLS_ROOT_POST_PARENT in
  (match parent with
   | Some p => root ← get_row comments (root_comment p.2); assert (allow_replies root)
   | None => mret tt
   end);;
  n ← head_block_num;
  (if 28800 <? n then
     if root_post then assert (WLS_MIN_ROOT_COMMENT_INTERVAL <? now - last_root_post auth.2)
     else assert (WLS_MIN_REPLY_INTERVAL <? now - last_post auth.2)
   else mret tt);;
  modify_account auth.1 (λ a,
    let a := if root_post then a <| last_root_post := now |> else a in
    mret (a <| last_post := now |> <| post_count ::= λ n, wrap 32 (n + 1) |>));;
  t ← gets comments;
  com ← lift (new_comment o now (next_id t) (snd <$> parent));
  create_row comments same_permlink com;;
  match parent with
  | Some p => fuel ← ancestors_fuel; touch_ancestors fuel 1 now p.1
  | None => mret tt
  end.

(** wls_evaluator.cpp:500, the edit of a comment *)
Definition comment_edit (o : comment_operation) (now : Z) (has_parent : bool) (com : comment_object)
    : result comment_object :=
  let com := com <| comment_last_update := now |> <| active := now |> in
  (if has_parent then FC_ASSERT (String.eqb (parent_author com) (co_parent_author o))
   else FC_ASSERT (String.eqb (parent_author com) ""));;
  FC_ASSERT (strcmp_equal (parent_permlink com) (co_parent_permlink o));;
  let com := if nonempty (co_title o) then com <| title := co_title o |> else com in
  let com := if nonempty (co_json_metadata o) && is_utf8 (co_json_metadata o)
             then com <| comment_json_metadata := co_json_metadata o |> else com in
  mret (if nonempty (co_body o)
        then com <| body := patch_body (body com) (co_body o) |> else com).

(** wls_evaluator.cpp:390 *)
Definition comment_apply (o : comment_operation) : M chain unit :=
  assert (negb (str_size (co_title o) + str_size (co_body o) + str_size (co_json_metadata o) =? 0));;
  existing ← find_comment (co_author o) (co_permlink o);
  auth ← get_account (co_author o);
  parent ← (if negb (String.eqb (co_parent_author o) WLS_ROOT_POST_PARENT) then
              p ← get_comment (co_parent_author o) (co_parent_permlink o);
              assert (depth p.2 <? WLS_MAX_COMMENT_DEPTH);; mret (Some p)
            else mret None);
  (if nonempty (co_json_metadata o) then assert (is_utf8 (co_json_metadata o)) else mret tt);;
  now ← head_block_time;
  match existing with
  | None => comment_create_case o auth parent now
  | Some ic =>
    modify_comment ic.1 (comment_edit o now (match parent with Some _ => true | None => false end))
  end.

(** wls_evaluator.cpp:565 *)
Definition transfer_apply (o : transfer_operation) : M chain unit :=
  from ← get_account (tr_from o);
  to ← get_account (tr_to o);
  bal ← lift (get_balance from.2 (symbol (tr_amount o)));
  b ← lift (asset_geb bal (tr_amount o)); assert b;;
  d ← lift (asset_neg (tr_amount o));
  adjust_balance from.1 d;;
  adjust_balance to.1 (tr_amount o).

(** wls_evaluator.cpp:575 *)
Definition transfer_to_vesting_apply (o : transfer_to_vesting_operation) : M chain unit :=
  from ← get_account (tv_from o);
  to ← (if nonempty_name (tv_to o) then get_account (tv_to o) else mret from);
  bal ← lift (get_balance from.2 WLS_SYMBOL);
  b ← lift (asset_geb bal (tv_amount o)); assert b;;
  d ← lift (asset_neg (tv_amount o));
  adjust_balance from.1 d;;
  create_vesting to.1 (tv_amount o) false;; mret tt.

(** wls_evaluator.cpp:585 *)
Definition withdraw_vesting_apply (o : withdraw_vesting_operation) : M chain unit :=
  account ← get_account (wv_account o);
  let shares := vesting_shares account.2 in
  let asked := wv_vesting_shares o in
  assert (negb (amount asked <? 0));;
  b ← lift (asset_geb shares (Asset 0 VESTS_SYMBOL)); assert b;;
  b ← lift (asset_geb shares asked); assert b;;
  n ← head_block_num;
  m ← lift (safe_mul (amount shares) (WLS_100_PERCENT - get_current_inflation_rate n));
  max_allowed ← lift (safe_div m WLS_100_PERCENT);
  assert (amount asked <=? max_allowed);;
  fee ← gets (λ s, account_creation_fee (median_props (wso s)));
  g ← gets gpo;
  min_vests ← lift (asset_mul_price fee (get_vesting_share_price g));
  let min_vests := min_vests <| amount ::= λ v, swrap 64 (v * 10) |> in
  b ← lift (asset_gtb shares min_vests);
  assert (b || (amount asked =? 0));;
  if amount asked =? 0 then
    assert (negb (amount (vesting_withdraw_rate account.2) =? 0));;
    modify_account account.1 (λ a, mret (a <| vesting_withdraw_rate := Asset 0 VESTS_SYMBOL |>
      <| next_vesting_withdrawal := tps_max |> <| to_withdraw := 0 |> <| withdrawn := 0 |>))
  else
    now ← head_block_time;
    modify_account account.1 (λ a,
      r ← safe_div (amount asked) WLS_VESTING_WITHDRAW_INTERVALS;
      let rate := Asset (if r =? 0 then 1 else r) VESTS_SYMBOL in
      FC_ASSERT (negb (asset_eqb (vesting_withdraw_rate a) rate));;
      mret (a <| vesting_withdraw_rate := rate |>
        <| next_vesting_withdrawal := tps_add now WLS_VESTING_WITHDRAW_INTERVAL_SECONDS |>
        <| to_withdraw := amount asked |> <| withdrawn := 0 |>)).

(** wls_evaluator.cpp:698: the loop adds 16-bit integers.  Its test reads the
    iterator before it compares it with [end()]; the value read there is not
    used. *)
Definition total_percent (from : Z) (t : table withdraw_vesting_route_object) : Z :=
  foldl (λ acc (iv : Z * withdraw_vesting_route_object), wrap 16 (acc + percent iv.2)) 0 (routes_of from t).

(** wls_evaluator.cpp:652 *)
Definition set_withdraw_vesting_route_apply (o : set_withdraw_vesting_route_operation) : M chain unit :=
  from ← get_account (sr_from_account o);
  to ← get_account (sr_to_account o);
  t ← gets routes;
  let wanted := Route from.1 to.1 (sr_percent o) (sr_auto_vest o) in
  (match find_row (same_route wanted) t with
   | None =>
     assert (negb (sr_percent o =? 0));;
     assert (withdraw_routes from.2 <? WLS_MAX_WITHDRAW_ROUTES);;
     create_row routes same_route wanted;;
     modify_account from.1 (λ a, mret (a <| withdraw_routes ::= λ n, wrap 16 (n + 1) |>))
   | Some ir =>
     if sr_percent o =? 0 then
       remove_row routes ir.1;;
       modify_account from.1 (λ a, mret (a <| withdraw_routes ::= λ n, wrap 16 (n - 1) |>))
     else modify_row routes ir.1 (λ _, mret wanted)
   end);;
  t ← gets routes;
  assert (total_percent from.1 t <=? WLS_100_PERCENT).

(** wls_evaluator.cpp:729: the walk along the proxies of the new proxy.  [chain]
    holds the accounts seen; [rem] is how many more of them are allowed. *)
Fixpoint check_proxy_chain (rem : nat) (seen : list Z) (cprox : account_object) : M chain unit :=
  if nonempty_name (proxy cprox) then
    next ← get_account (proxy cprox);
    assert (negb (bool_decide (next.1 ∈ seen)));;
    match rem with
    | O => assert false
    | S rem => check_proxy_chain rem (next.1 :: seen) next.2
    end
  else mret tt.

Definition neg_all (l : list Z) : result (list Z) := mapM safe_neg l.

(** wls_evaluator.cpp:713 *)
Definition account_witness_proxy_apply (o : account_witness_proxy_operation) : M chain unit :=
  account ← get_account (ap_account o);
  assert (negb (String.eqb (proxy account.2) (ap_proxy o)));;
  delta ← lift (neg_all (amount (vesting_shares account.2) :: proxied_vsf_votes account.2));
  adjust_proxied_witness_votes_array account.1 delta;;
  if nonempty_name (ap_proxy o) then
    new_proxy ← get_account (ap_proxy o);
    let seen := if new_proxy.1 =? account.1 then [account.1] else [account.1; new_proxy.1] in
    check_proxy_chain (Z.to_nat WLS_MAX_PROXY_RECURSION_DEPTH - length seen)%nat seen new_proxy.2;;
    clear_witness_votes account.1;;
    modify_account account.1 (λ a, mret (a <| proxy := ap_proxy o |>));;
    delta ← lift (neg_all delta);
    adjust_proxied_witness_votes_array account.1 delta
  else modify_account account.1 (λ a, mret (a <| proxy := ap_proxy o |>)).

(** wls_evaluator.cpp:758 *)
Definition account_witness_vote_apply (o : account_witness_vote_operation) : M chain unit :=
  voter ← get_account (aw_account o);
  assert (negb (nonempty_name (proxy voter.2)));;
  witness ← get_witness (aw_witness o);
  t ← gets witness_votes;
  let wanted := WitnessVoteObj witness.1 voter.1 in
  match find_row (same_witness_vote wanted) t with
  | None =>
    assert (aw_approve o);;
    assert (witnesses_voted_for voter.2 <? WLS_MAX_ACCOUNT_WITNESS_VOTES);;
    create_row witness_votes same_witness_vote wanted;;
    weight ← lift (witness_vote_weight voter.2);
    adjust_witness_vote witness.1 weight;;
    modify_account voter.1 (λ a, mret (a <| witnesses_voted_for ::= λ n, wrap 16 (n + 1) |>))
  | Some iv =>
    assert (negb (aw_approve o));;
    weight ← lift (witness_vote_weight voter.2);
    d ← lift (safe_neg weight);
    adjust_witness_vote witness.1 d;;
    modify_account voter.1 (λ a, mret (a <| witnesses_voted_for ::= λ n, wrap 16 (n - 1) |>));;
    remove_row witness_votes iv.1
  end.

(** ** Votes on comments *)

(** wls_evaluator.cpp:826-864: the power a vote uses and its rshares *)
Definition vote_current_power (now : Z) (voter : account_object) : Z :=
  let elapsed := now - last_vote_time voter in
  let regenerated := Z.quot (WLS_100_PERCENT * elapsed) WLS_VOTE_REGENERATION_SECONDS in
  Z.min (voting_power voter + regenerated) WLS_100_PERCENT.
Definition vote_used_power (current_power weight reserve_rate : Z) : result Z :=
  let used := Z.quot (current_power * Z.abs weight) WLS_100_PERCENT in
  let denom := wrap 32 (reserve_rate * WLS_VOTE_REGENERATION_SECONDS) / (60 * 60 * 24) in
  FC_ASSERT (0 <? denom);;
  let used := Z.quot (used + denom - 1) denom in
  FC_ASSERT (used <=? current_power);;
  mret used.
Definition vote_abs_rshares (voter : account_object) (used weight : Z) : result Z :=
  r ← u128_to_u64 (u128_div
        (u128_mul (u128_of_i64 (amount (vesting_shares voter))) (u128_of_i64 used)) WLS_100_PERCENT);
  let r := swrap 64 r in
  let r := if weight <? 0 then Z.quot r 3 else r in
  FC_ASSERT ((WLS_VOTE_DUST_THRESHOLD <? r) || (weight =? 0));;
  mret r.

(** wls_evaluator.cpp:956: the curation weight of a new vote, and the weight it
    adds to the comment's total.  [old] is the comment's vote_rshares before. *)
Definition curation_weight (now created_at : Z) (rf : reward_fund_object) (old new : Z)
    : result (Z * Z) :=
  let curve := curation_reward_curve rf in
  let weight r := u128_to_u64 (evaluate_reward_curve (u128_of_i64 r) curve (fund_content_constant rf)) in
  old_weight ← weight old;
  new_weight ← weight new;
  let max_vote_weight := wrap 64 (new_weight - old_weight) in
  let delta_t := Z.min (wrap 64 (now - created_at)) WLS_REVERSE_AUCTION_WINDOW_SECONDS in
  w ← u128_to_u64 (u128_div (u128_mul max_vote_weight delta_t) WLS_REVERSE_AUCTION_WINDOW_SECONDS);
  mret (w, max_vote_weight).

Definition set_voting_power (v : Z) (now power : Z) : M chain unit :=
  modify_account v (λ a, mret (a <| voting_power := wrap 16 power |> <| last_vote_time := now |>)).

(** wls_evaluator.cpp:875, the first vote of the voter on the comment *)
Definition vote_new_case (o : vote_operation) (v c now power abs : Z) : M chain unit :=
  assert (negb (vo_weight o =? 0));;
  let rsh := if vo_weight o <? 0 then - abs else abs in
  comment ← deref comments c;
  (if 0 <? rsh then assert (now <? cashout_time comment - WLS_UPVOTE_LOCKOUT) else mret tt);;
  set_voting_power v now power;;
  get_row comments (root_comment comment);;
  assert (0 <? abs);;
  let old_vote_rshares := vote_rshares comment in
  modify_comment c (λ c,
    n ← safe_add (net_rshares c) rsh;
    a ← safe_add (abs_rshares c) abs;
    w ← (if 0 <? rsh then safe_add (vote_rshares c) rsh else mret (vote_rshares c));
    mret (c <| net_rshares := n |> <| abs_rshares := a |> <| vote_rshares := w |>
      <| net_votes ::= λ k, swrap 32 (if 0 <? rsh then k + 1 else k - 1) |>));;
  modify_comment (root_comment comment) (λ c,
    r ← safe_add (children_abs_rshares c) abs; mret (c <| children_abs_rshares := r |>));;
  comment ← deref comments c;
  let eligible := (0 <? rsh) && (last_payout comment =? 0) && allow_curation_rewards comment in
  eligible ← (if eligible then rf ← get_reward_fund; mret (0 <? percent_curation_rewards rf.2)
              else mret false);
  weights ← (if (eligible : bool) then
               rf ← get_reward_fund;
               lift (curation_weight now (comment_created comment) rf.2 old_vote_rshares
                       (vote_rshares comment))
             else mret (0, 0));
  create_row comment_votes same_vote (CommentVote v c weights.1 rsh (vo_weight o) now 0);;
  if negb (weights.2 =? 0) then
    modify_comment c (λ c, mret (c <| total_vote_weight ::= λ t, wrap 64 (t + weights.2) |>))
  else mret tt.

(** wls_evaluator.cpp:1023 *)
Definition net_votes_change (old new : Z) : Z :=
  if (0 <? new) && (old <? 0) then 2
  else if (0 <? new) && (old =? 0) then 1
  else if (new =? 0) && (old <? 0) then 1
  else if (new =? 0) && (0 <? old) then -1
  else if (new <? 0) && (old =? 0) then -1
  else if (new <? 0) && (0 <? old) then -2
  else 0.

(** wls_evaluator.cpp:992, a changed vote *)
Definition vote_change_case (o : vote_operation) (v c now power abs : Z)
    (iv : Z * comment_vote_object) : M chain unit :=
  let cv := iv.2 in
  assert (cv_num_changes cv <? WLS_MAX_VOTE_CHANGES);;
  assert (negb (cv_vote_percent cv =? vo_weight o));;
  let rsh := if vo_weight o <? 0 then - abs else abs in
  comment ← deref comments c;
  (if cv_rshares cv <? rsh then assert (now <? cashout_time comment - WLS_UPVOTE_LOCKOUT)
   else mret tt);;
  set_voting_power v now power;;
  get_row comments (root_comment comment);;
  modify_comment c (λ c,
    n ← safe_sub (net_rshares c) (cv_rshares cv);
    n ← safe_add n rsh;
    a ← safe_add (abs_rshares c) abs;
    mret (c <| net_rshares := n |> <| abs_rshares := a |>
      <| net_votes ::= λ k, swrap 32 (k + net_votes_change (cv_rshares cv) rsh) |>));;
  modify_comment (root_comment comment) (λ c,
    r ← safe_add (children_abs_rshares c) abs; mret (c <| children_abs_rshares := r |>));;
  modify_comment c (λ c, mret (c <| total_vote_weight ::= λ t, wrap 64 (t - cv_weight cv) |>));;
  modify_row comment_votes iv.1 (λ cv, mret (cv <| cv_rshares := rsh |>
    <| cv_vote_percent := vo_weight o |> <| cv_last_update := now |> <| cv_weight := 0 |>
    <| cv_num_changes ::= λ n, swrap 8 (n + 1) |>)).

(** wls_evaluator.cpp:793.  The [rshares2] values it computes (935, 1048) are not
    used. *)
Definition vote_apply (o : vote_operation) : M chain unit :=
  ic ← get_comment (vo_author o) (vo_permlink o);
  iv ← get_account (vo_voter o);
  let comment := ic.2 in let voter := iv.2 in
  (if 0 <? vo_weight o then assert (allow_votes comment) else mret tt);;
  now ← head_block_time;
  t ← gets comment_votes;
  let same := find_row (λ x, (cv_comment x =? ic.1) && (cv_voter x =? iv.1)) t in
  if cashout_time comment =? tps_max then
    if CLEAR_VOTES then mret tt else
    match same with
    | None => create_row comment_votes same_vote (CommentVote iv.1 ic.1 0 0 (vo_weight o) now 0);; mret tt
    | Some cv => modify_row comment_votes cv.1 (λ cv,
        mret (cv <| cv_vote_percent := vo_weight o |> <| cv_last_update := now |>))
    end
  else
    assert (WLS_MIN_VOTE_INTERVAL_SEC <=? now - last_vote_time voter);;
    let current_power := vote_current_power now voter in
    assert (0 <? current_power);;
    rate ← gets (λ s, vote_power_reserve_rate (gpo s));
    used ← lift (vote_used_power current_power (vo_weight o) rate);
    abs ← lift (vote_abs_rshares voter used (vo_weight o));
    match same with
    | None => vote_new_case o iv.1 ic.1 now (current_power - used) abs
    | Some cv =>
      assert (negb (cv_num_changes cv.2 =? -1));;
      vote_change_case o iv.1 ic.1 now (current_power - used) abs cv
    end.

(** ** Custom operations and rewards *)

(** wls_evaluator.cpp:1073 *)
Definition run_interpreter (id : string) (op : operation) : M chain unit :=
  match custom_interpreter id op with
  | None => mret tt
  | Some (Ok _) => mret tt
  | Some (Err e) => if is_producing then throw e else mret tt
  end.
(** wls_evaluator.cpp:1071-1117 *)
Definition custom_apply (o : custom_operation) : M chain unit := mret tt.
Definition custom_json_apply (o : custom_json_operation) : M chain unit :=
  run_interpreter (cj_id o) (custom_json_op o).
Definition custom_binary_apply (o : custom_binary_operation) : M chain unit :=
  run_interpreter (cb_id o) (custom_binary_op o).

(** wls_evaluator.cpp:1128: the WLS behind the vests that are claimed *)
Definition reward_steem_to_move (acnt : account_object) (claim : asset) : result asset :=
  if asset_eqb claim (reward_vesting_balance acnt) then mret (reward_vesting_steem acnt)
  else
    v ← u128_to_u64 (u128_div
      (u128_mul (u128_of_i64 (amount claim)) (u128_of_i64 (amount (reward_vesting_steem acnt))))
      (u128_of_i64 (amount (reward_vesting_balance acnt))));
    mret (Asset (swrap 64 v) WLS_SYMBOL).

(** wls_evaluator.cpp:1119 *)
Definition claim_reward_balance_apply (o : claim_reward_balance_operation) : M chain unit :=
  ia ← get_account (cr_account o);
  let acnt := ia.2 in
  b ← lift (asset_leb (cr_reward_steem o) (reward_steem_balance acnt)); assert b;;
  b ← lift (asset_leb (cr_reward_vests o) (reward_vesting_balance acnt)); assert b;;
  moved ← lift (reward_steem_to_move acnt (cr_reward_vests o));
  d ← lift (asset_neg (cr_reward_steem o));
  adjust_reward_balance ia.1 d;;
  adjust_balance ia.1 (cr_reward_steem o);;
  modify_account ia.1 (λ a,
    v ← asset_plus_eq (vesting_shares a) (cr_reward_vests o);
    b ← asset_minus_eq (reward_vesting_balance a) (cr_reward_vests o);
    s ← asset_minus_eq (reward_vesting_steem a) moved;
    mret (a <| vesting_shares := v |> <| reward_vesting_balance := b |>
            <| reward_vesting_steem := s |>));;
  modify_gpo (λ g,
    v ← asset_plus_eq (total_vesting_shares g) (cr_reward_vests o);
    f ← asset_plus_eq (total_vesting_fund_steem g) moved;
    p ← asset_minus_eq (pending_rewarded_vesting_shares g) (cr_reward_vests o);
    q ← asset_minus_eq (pending_rewarded_vesting_steem g) moved;
    mret (g <| total_vesting_shares := v |> <| total_vesting_fund_steem := f |>
            <| pending_rewarded_vesting_shares := p |> <| pending_rewarded_vesting_steem := q |>));;
  adjust_proxied_witness_votes ia.1 (amount (cr_reward_vests o)).

(** database.cpp:2370, evaluator_registry.hpp:24: no evaluator is registered for
    a virtual operation *)
Definition apply_operation (op : operation) : M chain unit :=
  match op with
  | vote_op o => vote_apply o
  | comment_op o => comment_apply o
  | transfer_op o => transfer_apply o
  | transfer_to_vesting_op o => transfer_to_vesting_apply o
  | withdraw_vesting_op o => withdraw_vesting_apply o
  | account_create_op o => account_create_apply o
  | account_update_op o => account_update_apply o
  | account_forsale_op o => account_forsale_apply o
  | account_buying_op o => account_buying_apply o
  | witness_update_op o => witness_update_apply o
  | account_witness_vote_op o => account_witness_vote_apply o
  | account_witness_proxy_op o => account_witness_proxy_apply o
  | custom_op o => custom_apply o
  | delete_comment_op o => delete_comment_apply o
  | custom_json_op o => custom_json_apply o
  | comment_options_op o => comment_options_apply o
  | set_withdraw_vesting_route_op o => set_withdraw_vesting_route_apply o
  | custom_binary_op o => custom_binary_apply o
  | claim_reward_balance_op o => claim_reward_balance_apply o
  | virtual_op _ => throw undefined_behaviour
  end.

End evaluators.
