(* ===== verification/Conservation.v ===== *)
(** * Conservation: no operation creates or destroys tokens

    [ledger_inv] is the supply invariants of file Invariants with the shape of
    the accounts they rest on: unique names that do not begin with a NUL, ids below
    the next id, four proxied votes each, and no cycle of proxies.  Every evaluator of file Evaluators
    preserves it, so [apply_operation] does. *)

From S2P Require Import Prelude FcLib Tables Config Asset Names Authority Operations Reward Objects Ledger Invariants Supply Evaluators.

(** ** The shape of the accounts *)

Section shapes.

(** Account [i] has account [j] as its proxy. *)
Definition proxies_to (s : chain) (i j : Z) : Prop :=
  ∃ x y, rows (accounts s) !! i = Some x ∧ proxy x ≠ WLS_PROXY_TO_SELF_ACCOUNT ∧
         rows (accounts s) !! j = Some y ∧ name y = proxy x.

Record accounts_wf (s : chain) : Prop := {
  wf_ids i a : rows (accounts s) !! i = Some a → i < next_id (accounts s);
  wf_names i j a b : rows (accounts s) !! i = Some a → rows (accounts s) !! j = Some b →
    name a = name b → i = j;
  wf_visible i a : rows (accounts s) !! i = Some a → hidden (name a) = false;
  wf_len i a : rows (accounts s) !! i = Some a → length (proxied_vsf_votes a) = 4%nat;
  wf_acyclic i : Acc (λ j i, proxies_to s i j) i
}.

(** The invariant that every operation and every block keeps. *)
Definition ledger_inv (s : chain) : Prop := supply_inv s ∧ accounts_wf s.

(** The accounts of a chain in which nobody has a proxy: decidable. *)
Definition plain_accounts (s : chain) : bool :=
  let l := map_to_list (rows (accounts s)) in
  forallb (λ ia, (ia.1 <? next_id (accounts s)) && String.eqb (proxy ia.2) WLS_PROXY_TO_SELF_ACCOUNT
                 && Nat.eqb (length (proxied_vsf_votes ia.2)) 4 && negb (hidden (name ia.2))) l
  && forallb (λ ia, forallb (λ jb, implb (String.eqb (name ia.2) (name jb.2)) (ia.1 =? jb.1)) l) l.
Lemma plain_accounts_wf s : plain_accounts s = true → accounts_wf s.
Proof.
  unfold plain_accounts. intros [H1 H2]%andb_true_iff. rewrite forallb_forall in H1, H2.
  assert (∀ i a, rows (accounts s) !! i = Some a → i < next_id (accounts s) ∧
    proxy a = WLS_PROXY_TO_SELF_ACCOUNT ∧ length (proxied_vsf_votes a) = 4%nat ∧ hidden (name a) = false) as Hall.
  { intros i a Hi. specialize (H1 (i, a)). simpl in H1.
    rewrite !andb_true_iff, Z.ltb_lt, String.eqb_eq, Nat.eqb_eq, negb_true_iff in H1.
    destruct H1 as [[[? ?] ?] ?]; [|done]. by apply list_elem_of_In, elem_of_map_to_list. }
  split.
  - intros i a Hi. apply (Hall i a Hi).
  - intros i j a b Hi Hj Hn. specialize (H2 (i, a)). simpl in H2.
    rewrite forallb_forall in H2. specialize (H2 ltac:(by apply list_elem_of_In, elem_of_map_to_list) (j, b)).
    simpl in H2. rewrite Hn, String.eqb_refl in H2. simpl in H2.
    apply Z.eqb_eq, H2. by apply list_elem_of_In, elem_of_map_to_list.
  - intros i a Hi. apply (Hall i a Hi).
  - intros i a Hi. apply (Hall i a Hi).
  - intros i. constructor. intros j (x & y & Hx & Hp & _). by destruct (Hall i x Hx) as (_ & ? & _).
Qed.

Lemma proxies_to_shape s s' i j : shape s' = shape s → proxies_to s' i j → proxies_to s i j.
Proof.
  intros Hs (x & y & Hx & Hp & Hy & Hn).
  destruct (shape_lookup _ _ _ _ Hs Hx) as (x' & Hx' & Ex).
  destruct (shape_lookup _ _ _ _ Hs Hy) as (y' & Hy' & Ey).
  unfold account_shape in Ex, Ey. exists x', y'. naive_solver congruence.
Qed.

Lemma tc_shape s s' i j : shape s' = shape s → tc (proxies_to s') i j → tc (proxies_to s) i j.
Proof.
  intros Hs. induction 1 as [i j H|i j k H _ IH].
  - constructor. by eapply proxies_to_shape.
  - eapply tc_l; [by eapply proxies_to_shape|done].
Qed.

Lemma accounts_wf_shape s s' : shape s' = shape s → accounts_wf s → accounts_wf s'.
Proof.
  intros Hs [Hid Hnm Hvis Hlen Hac]. split.
  - intros i a Ha. destruct (shape_lookup _ _ _ _ Hs Ha) as (b & Hb & E).
    apply (f_equal snd) in Hs. simpl in Hs. rewrite Hs. eauto.
  - intros i j a b Ha Hb Hn. destruct (shape_lookup _ _ _ _ Hs Ha) as (a' & Ha' & Ea).
    destruct (shape_lookup _ _ _ _ Hs Hb) as (b' & Hb' & Eb). unfold account_shape in *.
    apply (Hnm i j a' b'); [done|done|congruence].
  - intros i a Ha. destruct (shape_lookup _ _ _ _ Hs Ha) as (b & Hb & E).
    unfold account_shape in E. rewrite <-(Hvis i b Hb). congruence.
  - intros i a Ha. destruct (shape_lookup _ _ _ _ Hs Ha) as (b & Hb & E).
    unfold account_shape in E. rewrite <-(Hlen i b Hb). congruence.
  - intros i. specialize (Hac i). induction Hac as [i _ IH]. constructor.
    intros j Hj. apply IH. by eapply proxies_to_shape.
Qed.

(** Following proxies from an account never comes back to it. *)
Lemma Acc_no_cycle {A} (R : relation A) (x : A) : Acc (flip R) x → ¬ tc R x x.
Proof.
  induction 1 as [x _ IH]. intros Hx.
  inversion Hx as [? ? Hxx|? y ? Hxy Hyx]; subst.
  - by apply (IH x Hxx).
  - apply (IH y Hxy). eapply tc_r; [exact Hyx|exact Hxy].
Qed.

Fixpoint avoids (n : nat) (s : chain) (a k : Z) : Prop :=
  match n with
  | O => True
  | S n => ∀ p, proxies_to s a p → p ≠ k ∧ avoids n s p k
  end.

Lemma avoids_tc n s a k : ¬ tc (proxies_to s) a k → avoids n s a k.
Proof.
  revert a. induction n as [|n IH]; intros a H; simpl; [done|]. intros p Hp. split.
  - intros ->. apply H. by constructor.
  - apply IH. intros Ht. apply H. by eapply tc_l.
Qed.
Lemma avoids_shape n s s' a k : shape s' = shape s → avoids n s a k → avoids n s' a k.
Proof.
  intros Hs. revert a. induction n as [|n IH]; intros a H; simpl in *; [done|].
  intros p Hp. destruct (H p) as [? ?]; [by eapply proxies_to_shape|]. auto.
Qed.
Lemma wf_avoids n s i : accounts_wf s → avoids n s i i.
Proof. intros Hwf. apply avoids_tc, Acc_no_cycle, (wf_acyclic s Hwf). Qed.

(** Setting the proxy of [a] to an account whose chain of proxies does not
    reach [a] keeps the graph acyclic. *)
Lemma acyclic_set_proxy s a x y :
  accounts_wf s → rows (accounts s) !! a = Some x → name y = name x →
  length (proxied_vsf_votes y) = length (proxied_vsf_votes x) →
  (∀ q r, proxy y ≠ WLS_PROXY_TO_SELF_ACCOUNT → rows (accounts s) !! q = Some r →
    name r = proxy y → q ≠ a ∧ ¬ tc (proxies_to s) q a) →
  accounts_wf (s <| accounts ::= λ t, t <| rows ::= <[a := y]> |> |>).
Proof.
  intros Hwf Ha Hn Hl Hq. pose proof Hwf as [Hid Hnm Hvis Hlen Hac].
  set (s' := s <| accounts ::= λ t, t <| rows ::= <[a := y]> |> |>).
  assert (∀ i b, rows (accounts s') !! i = Some b → ∃ b', rows (accounts s) !! i = Some b' ∧
    name b' = name b ∧ length (proxied_vsf_votes b') = length (proxied_vsf_votes b) ∧
    (i ≠ a → b' = b) ∧ (i = a → b = y)) as Hrow.
  { intros i b. subst s'. simpl. destruct (decide (a = i)) as [<-|Hne].
    - rewrite lookup_insert_eq. intros [= <-]. exists x. naive_solver.
    - rewrite lookup_insert_ne by done. intros Hi. exists b. naive_solver. }
  assert (∀ i j, i ≠ a → proxies_to s' i j → proxies_to s i j) as Hold.
  { intros i j Hi (u & v & Hu & Hp & Hv & Hnv).
    destruct (Hrow _ _ Hu) as (u' & Hu' & _ & _ & Eu & _).
    destruct (Hrow _ _ Hv) as (v' & Hv' & Ev & _). pose proof (Eu Hi); subst u'.
    exists u, v'. split_and!; try done. congruence. }
  assert (∀ i, i ≠ a → ¬ tc (proxies_to s) i a → Acc (λ j i, proxies_to s' i j) i) as Hfree.
  { intros i. specialize (Hac i). induction Hac as [i _ IH]. intros Hi Ht. constructor.
    intros j Hj. apply Hold in Hj; [|done]. apply IH; [done| |].
    - intros ->. apply Ht. by constructor.
    - intros Hja. apply Ht. by eapply tc_l. }
  assert (Acc (λ j i, proxies_to s' i j) a) as Hacca.
  { constructor. intros j (u & v & Hu & Hp & Hv & Hnv).
    destruct (Hrow _ _ Hu) as (_ & _ & _ & _ & _ & Eu). pose proof (Eu eq_refl). subst u.
    destruct (Hrow _ _ Hv) as (v' & Hv' & Ev & _).
    destruct (Hq j v') as [Hja Ht]; [done|done|congruence|]. by apply Hfree. }
  split.
  - intros i b Hi. destruct (Hrow _ _ Hi) as (b' & Hb' & _). simpl. eauto.
  - intros i j b c Hi Hj E. destruct (Hrow _ _ Hi) as (b' & Hb' & Eb & _).
    destruct (Hrow _ _ Hj) as (c' & Hc' & Ec & _). apply (Hnm i j b' c'); [done|done|congruence].
  - intros i b Hi. destruct (Hrow _ _ Hi) as (b' & Hb' & <- & _). eauto.
  - intros i b Hi. destruct (Hrow _ _ Hi) as (b' & Hb' & _ & <- & _). eauto.
  - intros i. specialize (Hac i). induction Hac as [i _ IH].
    destruct (decide (i = a)) as [->|Hi]; [done|]. constructor.
    intros j Hj. apply IH. by apply Hold.
Qed.

(** A new account: nobody's name, no proxy. *)
Lemma accounts_wf_create s a :
  accounts_wf s → proxy a = WLS_PROXY_TO_SELF_ACCOUNT → length (proxied_vsf_votes a) = 4%nat →
  hidden (name a) = false → find_row (same_name a) (accounts s) = None →
  accounts_wf (s <| accounts ::= λ t, Table (<[next_id t := a]> (rows t)) (next_id t + 1) |>).
Proof.
  intros [Hid Hnm Hvis Hlen Hac] Hp Hl Hshown Hnone.
  set (n := next_id (accounts s)).
  set (s' := s <| accounts ::= λ t, Table (<[next_id t := a]> (rows t)) (next_id t + 1) |>).
  assert (∀ i b, rows (accounts s') !! i = Some b →
    (i = n ∧ b = a) ∨ (i < n ∧ rows (accounts s) !! i = Some b)) as Hrow.
  { intros i b. subst s'. simpl. destruct (decide (n = i)) as [<-|Hne].
    - rewrite lookup_insert_eq. intros [= <-]. by left.
    - rewrite lookup_insert_ne by done. intros Hi. right. split; [|done]. by apply (Hid _ _ Hi). }
  assert (∀ i b, rows (accounts s) !! i = Some b → name b ≠ name a) as Hfresh.
  { intros i b Hi E. pose proof (find_row_None _ _ _ _ Hnone Hi) as H.
    unfold same_name in H. rewrite E, String.eqb_refl in H. done. }
  split.
  - intros i b Hi. simpl. destruct (Hrow _ _ Hi) as [[-> _]|[? _]]; subst n; lia.
  - intros i j b c Hi Hj E. destruct (Hrow _ _ Hi) as [[-> ->]|[? Hi']], (Hrow _ _ Hj) as [[-> ->]|[? Hj']].
    + done.
    + by destruct (Hfresh _ _ Hj').
    + by destruct (Hfresh _ _ Hi').
    + eauto.
  - intros i b Hi. destruct (Hrow _ _ Hi) as [[_ ->]|[_ Hi']]; eauto.
  - intros i b Hi. destruct (Hrow _ _ Hi) as [[_ ->]|[_ Hi']]; eauto.
  - assert (Acc (λ j i, proxies_to s' i j) n) as Hn.
    { constructor. intros j (u & v & Hu & Hpu & _).
      destruct (Hrow _ _ Hu) as [[_ ->]|[? _]]; [congruence|lia]. }
    intros i. specialize (Hac i). induction Hac as [i _ IH].
    destruct (decide (i = n)) as [->|Hi]; [done|]. constructor.
    intros j (u & v & Hu & Hpu & Hv & E).
    destruct (Hrow _ _ Hv) as [[-> ->]|[_ Hv']]; [done|].
    destruct (Hrow _ _ Hu) as [[? _]|[_ Hu']]; [done|].
    apply IH. by exists u, v.
Qed.
End shapes.

(** ** Proxies *)

Section proxies.
Context `{FC : FcLib} `{ENV : EvalEnv}.

Lemma nonempty_name_true n : nonempty_name n = true → n ≠ WLS_PROXY_TO_SELF_ACCOUNT.
Proof. intros H ->. done. Qed.
(** A name of size 0 that does not begin with a NUL is empty. *)
Lemma nonempty_name_false n : nonempty_name n = false → hidden n = false → n = WLS_PROXY_TO_SELF_ACCOUNT.
Proof. unfold nonempty_name. intros H%negb_false_iff%Z.eqb_eq Hh. by apply name_size_0. Qed.

Lemma neg_all_Ok l l' : neg_all l = Ok l' → l' = Z.opp <$> l.
Proof.
  unfold neg_all. revert l'. induction l as [|z l IH]; intros l' H; simpl in H.
  - unfold mret, result_ret in H. by simplify_eq.
  - bind_oks. rewrite (IH _ E0). simpl. destruct_and?. f_equal. done.
Qed.

Lemma sumZ_app l k : sumZ (l ++ k) = sumZ l + sumZ k.
Proof. unfold sumZ. induction l as [|z l IH]; simpl; lia. Qed.
Lemma sumZ_opp l : sumZ (Z.opp <$> l) = - sumZ l.
Proof.
  unfold sumZ. induction l as [|z l IH]; [done|]. rewrite fmap_cons. cbn [foldr]. lia.
Qed.
Lemma sumZ_take_S l i d : l !! i = Some d → sumZ (take (S i) l) = sumZ (take i l) + d.
Proof. intros H. rewrite (take_S_r _ _ _ H), sumZ_app. unfold sumZ. simpl. lia. Qed.

Lemma strip_sums x y :
  strip y = strip x → account_wls y = account_wls x ∧ account_vests y = account_vests x ∧
  account_pending y = account_pending x.
Proof.
  intros H. unfold account_wls, account_vests, account_pending.
  pose proof (f_equal balance H). pose proof (f_equal reward_steem_balance H).
  pose proof (f_equal vesting_shares H). pose proof (f_equal reward_vesting_balance H).
  pose proof (f_equal reward_vesting_steem H). simpl in *. split_and!; congruence.
Qed.

Lemma add_proxied_array_votes n d delta y z :
  add_proxied_array n d delta y = Ok z →
  account_shape z = account_shape y ∧ strip z = strip y ∧
  account_votes z = account_votes y +
    (if String.eqb (proxy y) WLS_PROXY_TO_SELF_ACCOUNT then sumZ (take n delta)
     else if decide (d ≤ 3 < d + n)%nat then default 0 (delta !! (3 - d)%nat) else 0).
Proof.
  revert y. induction n as [|i IH]; intros y H; cbn [add_proxied_array] in H.
  { unfold mret, result_ret in H. simplify_eq. split; [done|]. split; [done|].
    destruct (String.eqb _ _); [simpl; lia|]. rewrite decide_False by lia. lia. }
  apply bind_Ok in H as (di & Hdi & H). apply of_option_Ok in Hdi.
  apply bind_Ok in H as (y1 & Hy1 & H). unfold add_proxied in Hy1. bind_oks.
  match goal with Hold : proxied_vsf_votes y !! _ = Some ?old, _ : ?v = ?old + _,
      H : add_proxied_array _ _ _ ?z1 = Ok z |- _ =>
    pose proof (proxied_votes_insert y z1 _ v old Hold eq_refl eq_refl eq_refl) as Hv;
    assert (account_shape z1 = account_shape y) as Hsh by
      (unfold account_shape; simpl; by rewrite length_insert) end.
  destruct (IH _ H) as (Hs & Hst & Hvz). cbn [proxy] in Hvz.
  split; [congruence|]. split; [rewrite Hst; done|]. rewrite Hvz, Hv.
  rewrite (sumZ_take_S _ _ _ Hdi). destruct (String.eqb _ _); [lia|].
  destruct (decide (i + d = 3)%nat) as [E3|E3].
  - rewrite decide_False, decide_True by lia. replace (3 - d)%nat with i by lia. rewrite Hdi. simpl. lia.
  - destruct (decide (d ≤ 3 < d + i)%nat); [rewrite decide_True by lia; lia|].
    rewrite decide_False by lia. lia.
Qed.

(** One delta per level: what the voters of [a]'s proxies gain in all is the sum
    of the deltas that fit the depth, and only accounts on [a]'s chain of proxies
    change. *)
Lemma adjust_proxied_array_moves rem a delta s x :
  (rem ≤ 4)%nat → (rem ≤ length delta)%nat → rows (accounts s) !! a = Some x →
  wp (adjust_proxied_witness_votes_array_rec rem a delta) (λ _ s',
    moves s s' 0 0 (- if_proxied x (sumZ (take rem delta))) 0 ∧
    ∀ k, avoids rem s a k → rows (accounts s') !! k = rows (accounts s) !! k) s.
Proof.
  intros Hrem Hlen. revert Hrem Hlen a s x.
  induction rem as [|rem IH]; intros Hrem Hlen a s x Hx; cbn [adjust_proxied_witness_votes_array_rec];
    (wp_step; apply wp_deref; intros x' Hx'; assert (x' = x) as -> by congruence;
     unfold if_proxied; apply wp_if;
     [intros Hself%negb_true_iff|intros Hself%negb_false_iff]); rewrite Hself.
  - wp_step. split; [apply moves_refl|done].
  - do 2 wp_step. eapply wp_mono; [apply adjust_witness_votes_untouched|]. intros ? s' Hu.
    split; [by apply moves_untouched|]. intros. by destruct Hu as (-> & _).
  - wp_step. apply wp_get_account. intros p y Hy Hn. cbn [fst snd]. wp_step.
    apply wp_modify_row. intros y' z Hy' Hz. assert (y' = y) as -> by congruence.
    apply add_proxied_array_votes in Hz as (Hsh & Hst & Hv).
    pose proof (moves_account s p y z Hy Hsh) as Hm. rewrite Hv in Hm.
    assert (account_wls z = account_wls y ∧ account_vests z = account_vests y ∧
      account_pending z = account_pending y) as (Ew & Ev & Ep) by by apply strip_sums.
    rewrite Ew, Ev, Ep, !Z.sub_diag in Hm. clear Ew Ev Ep.
    set (s1 := update accounts _ s) in *.
    assert (rows (accounts s1) !! p = Some z) as Hz1 by (subst s1; simpl; by rewrite lookup_insert_eq).
    assert (proxy z = proxy y) as Hpz by (unfold account_shape in Hsh; congruence).
    eapply wp_mono; [apply (IH ltac:(lia) ltac:(lia) p s1 z Hz1)|].
    intros ? s' [Hm1 Hk]. split.
    + unfold if_proxied in Hm1. rewrite Hpz in Hm1.
      destruct (lookup_lt_is_Some_2 delta rem) as [d Hd]; [lia|].
      rewrite (sumZ_take_S _ _ _ Hd) in *.
      unfold depth_of in *. change (Z.to_nat WLS_MAX_PROXY_RECURSION_DEPTH) with 4%nat in *.
      rewrite decide_True in Hm by lia. replace (3 - (4 - S rem))%nat with rem in Hm by lia.
      rewrite Hd in Hm. simpl default in Hm. clear Hk Hz1 Hy Hx. clearbody s1.
      destruct (String.eqb (proxy y) _); moves_done.
    + intros k Hak. destruct (Hak p) as [Hpk Hav]; [exists x, y; by apply String.eqb_neq in Hself|].
      rewrite Hk by (eapply avoids_shape; [apply Hm|done]). subst s1. simpl.
      by rewrite lookup_insert_ne.
  - do 2 wp_step. eapply wp_mono; [apply adjust_witness_votes_untouched|]. intros ? s' Hu.
    split; [by apply moves_untouched|]. intros. by destruct Hu as (-> & _).
Qed.
End proxies.
