(* ===== verification/Demo.v ===== *)
(** * Demo: a small chain

    Six accounts, a witness, a reward fund, a comment that is due for payout and
    a withdrawal that is due, with balanced books: the theorems about the ledger
    are applied to it. *)

From S2P Require Import Prelude FcLib Tables Config Asset Names Authority Operations Reward Objects Ledger Invariants Evaluators Conservation.

Definition demo_env : EvalEnv := {|
  is_producing := false;
  custom_interpreter _ _ := None;
  patch_body _ new := new
|}.

Definition of_rows {V} (l : list V) : table V :=
  Table (list_to_map (imap (λ i v, (Z.of_nat i, v)) l)) (Z.of_nat (length l)).

Definition demo_time : Z := 1600000000.
Definition demo_account (n : string) (wls vests : Z) : account_object :=
  default_account <| name := n |> <| balance := WLS wls |> <| vesting_shares := VESTS vests |>.

Definition demo : chain :=
  empty_chain
  <| gpo := default_gpo <| head_block_number := 100000 |> <| time := demo_time |>
      <| current_witness := "initminer"%string |> <| current_supply := WLS 19135 |>
      <| total_vesting_fund_steem := WLS 3000 |> <| total_vesting_shares := VESTS 3000000 |>
      <| pending_rewarded_vesting_shares := VESTS 10 |>
      <| pending_rewarded_vesting_steem := WLS 5 |>
      <| gpo_maximum_block_size := 65536 |> <| last_irreversible_block_num := 99990 |> |>
  <| accounts := of_rows
      [ (demo_account "alice" 5000 2000000) <| next_vesting_withdrawal := demo_time - 10 |>
          <| vesting_withdraw_rate := VESTS 100000 |> <| to_withdraw := 1300000 |>
          <| withdraw_routes := 1 |> <| witnesses_voted_for := 1 |>;
        (demo_account "bob" 700 1000000) <| reward_vesting_balance := VESTS 10 |>
          <| reward_vesting_steem := WLS 5 |>;
        demo_account "null" 30 0; demo_account "devfund" 0 0; demo_account "initminer" 0 0;
        demo_account "wls" 10000 0 ] |>
  <| account_authorities := of_rows
      [ AccountAuthority "alice" (Authority 1 [] [(11, 1)]) (Authority 1 [] [(12, 1)])
          (Authority 1 [("bob"%string, 1)] [(13, 1)]) 0;
        AccountAuthority "bob" (Authority 1 [] [(21, 1)]) (Authority 1 [] [(22, 1)])
          (Authority 1 [] [(23, 1)]) 0 ] |>
  <| witnesses := of_rows [ default_witness <| owner := "initminer"%string |>
      <| signing_key := 1 |> <| votes := 2000000 |> <| schedule := top19 |>
      <| last_confirmed_block_num := 99999 |> ] |>
  <| block_summaries := Table {[ 34465 := BlockSummary 0 ]} 65536 |>
  <| wso := default_witness_schedule
      <| current_shuffled_witnesses := "initminer"%string :: replicate 20 ""%string |> |>
  <| comments := of_rows [ default_comment <| author := "alice"%string |>
      <| permlink := "post"%string |> <| net_rshares := 1000 |> <| abs_rshares := 1000 |>
      <| vote_rshares := 1000 |> <| total_vote_weight := 100 |>
      <| cashout_time := demo_time - 5 |> <| comment_reward_weight := 10000 |>
      <| beneficiaries := [Beneficiary "bob" 1000] |> ] |>
  <| comment_votes := of_rows [ CommentVote 1 0 100 1000 10000 0 0 ] |>
  <| witness_votes := of_rows [ WitnessVoteObj 0 0 ] |>
  <| hpo := HardforkProps [WLS_GENESIS_TIME] 0 0 0 WLS_GENESIS_TIME |>
  <| routes := of_rows [ Route 0 1 5000 true ] |>
  <| reward_funds := of_rows [ RewardFund "post" (WLS 400) 1000 demo_time WLS_CONTENT_CONSTANT
      WLS_CONTENT_CURATE_REWARD_PERCENT WLS_100_PERCENT linear square_root ] |>.

Lemma demo_ledger : ledger_inv demo.
Proof.
  split; [vm_compute; done|]. apply plain_accounts_wf. vm_compute. done.
Qed.
