(* ===== verification/Bandwidth.v ===== *)
(** * Bandwidth: what the witness plugin lets through

    [libraries/plugins/witness]: the hooks that run before every transaction and
    operation and after every block.  They ration the bytes an account may send by
    its stake, and refuse what would harm the user, but only while a transaction is
    being pushed to this node. *)

From S2P Require Import Prelude FcLib Tables Config Asset Names Authority Operations Transaction Block Reward Objects Ledger Invariants Evaluators.

(** witness_plugin.hpp:31, witness_plugin.cpp:46 *)
Definition RESERVE_RATIO_PRECISION : Z := 10000.
Definition RESERVE_RATIO_MIN_INCREMENT : Z := 5000.
Definition DISTANCE_CALC_PRECISION : Z := 10000.

(** witness_objects.hpp:23 *)
Inductive bandwidth_type := post | forum | market.
#[global] Instance bandwidth_type_eq_dec : EqDecision bandwidth_type.
Proof. solve_decision. Defined.
#[global] Instance bandwidth_type_countable : Countable bandwidth_type.
Proof.
  apply (inj_countable' (λ t, match t with post => 0 | forum => 1 | market => 2 end)%nat
    (λ n, match n with 0 => post | 1 => forum | _ => market end)%nat). by intros [].
Defined.

(** witness_objects.hpp:30.  The account and the type are the unique key. *)
Record account_bandwidth_object := AccountBandwidth {
  average_bandwidth : Z;
  lifetime_bandwidth : Z;
  last_bandwidth_update : Z
}.
(** witness_objects.hpp:72 *)
Record reserve_ratio_object := ReserveRatio {
  average_block_size : Z;
  current_reserve_ratio : Z;
  max_virtual_bandwidth : Z
}.

(** The chain and the objects of the plugin: a content edit lock is the time it ends. *)
Record plugin_db := PluginDb {
  main_db : chain;
  account_bandwidths : gmap (string * bandwidth_type) account_bandwidth_object;
  content_edit_locks : gmap string Z;
  reserve_ratio : option reserve_ratio_object
}.
#[global] Instance plugin_db_eta : Eta plugin_db := λ r,
  PluginDb (main_db r) (account_bandwidths r) (content_edit_locks r) (reserve_ratio r).

(** What fc makes of a memo: the public key of an extended private key, if the memo is
    one, and the public key of the private key that a seed determines. *)
Class MemoKeys := {
  extended_key : string → option Z;
  seed_key : string → Z
}.

Section bandwidth.
Context `{FC : FcLib} `{ENV : EvalEnv} `{CR : Crypto} `{BL : BlockLib} `{MK : MemoKeys}.

Definition plugin_assert (b : bool) : M plugin_db unit := lift (throw_unless plugin_exception b).
(** A read of the chain. *)
Definition on_chain {A} (m : M chain A) : M plugin_db A := λ s,
  match m (main_db s) with Ok (a, c) => Ok (a, s <| main_db := c |>) | Err e => Err e end.

(** ** The reserve ratio *)

(** witness_plugin.cpp:301-334, about once a minute *)
Definition new_reserve_ratio (average max_block_size ratio : Z) : result Z :=
  let quarter := Z.quot max_block_size 4 in
  if quarter =? 0 then Err undefined_behaviour
  else
    let distance := Z.quot (swrap 64 ((average - quarter) * DISTANCE_CALC_PRECISION)) quarter in
    let change d := Z.quot (swrap 64 (ratio * distance)) d in
    mret (if 0 <? distance
          then Z.max RESERVE_RATIO_PRECISION (swrap 64 (ratio - change (distance + DISTANCE_CALC_PRECISION)))
          else Z.min (WLS_MAX_RESERVE_RATIO * RESERVE_RATIO_PRECISION)
                 (swrap 64 (ratio + Z.max RESERVE_RATIO_MIN_INCREMENT (change (distance - DISTANCE_CALC_PRECISION))))).
Definition virtual_bandwidth (max_block_size ratio : Z) : Z :=
  u128_div
    (u128_mul (u128_mul (u128_of_i64 max_block_size) (u128_of_i64 ratio))
       (wrap 64 (WLS_BANDWIDTH_PRECISION * WLS_BANDWIDTH_AVERAGE_WINDOW_SECONDS)))
    (WLS_BLOCK_INTERVAL * RESERVE_RATIO_PRECISION).
(** witness_plugin.cpp:273.  The first factor overflows an [int]: it is taken modulo 2^32. *)
Definition first_reserve_ratio : reserve_ratio_object :=
  ReserveRatio 0 (WLS_MAX_RESERVE_RATIO * RESERVE_RATIO_PRECISION)
    (u128_div
       (u128_mul (u128_mul (u128_of_i64 (swrap 32 (WLS_MAX_BLOCK_SIZE * WLS_MAX_RESERVE_RATIO))) WLS_BANDWIDTH_PRECISION)
          WLS_BANDWIDTH_AVERAGE_WINDOW_SECONDS)
       WLS_BLOCK_INTERVAL).
Definition new_average (average size : Z) : Z :=
  swrap 32 (wrap 64 (swrap 32 (99 * average) + size) / 100).
(** witness_plugin.cpp:264 *)
Definition on_block (b : signed_block) : M plugin_db unit :=
  s ← gets id;
  let g := gpo (main_db s) in
  let max_block_size := gpo_maximum_block_size g in
  r ← lift (match reserve_ratio s with
            | None => mret first_reserve_ratio
            | Some r =>
              let average := new_average (average_block_size r) (pack_size b) in
              if Z.rem (head_block_number g) 20 =? 0 then
                ratio ← new_reserve_ratio average max_block_size (current_reserve_ratio r);
                mret (ReserveRatio average ratio (virtual_bandwidth max_block_size ratio))
              else mret (ReserveRatio average (current_reserve_ratio r) (max_virtual_bandwidth r))
            end);
  modify (λ s, s <| reserve_ratio := Some r |>).

(** ** The bandwidth of an account *)

(** witness_plugin.cpp:359-375 *)
Definition charge (now trx_size : Z) (b : account_bandwidth_object) : result account_bandwidth_object :=
  let trx_bandwidth := swrap 64 (wrap 64 (trx_size * WLS_BANDWIDTH_PRECISION)) in
  let delta_time := now - last_bandwidth_update b in
  old ← (if WLS_BANDWIDTH_AVERAGE_WINDOW_SECONDS <? delta_time then mret 0
         else
           v ← u128_to_u64
                 (u128_div (u128_mul (u128_of_i64 (WLS_BANDWIDTH_AVERAGE_WINDOW_SECONDS - delta_time))
                              (u128_of_i64 (average_bandwidth b)))
                    WLS_BANDWIDTH_AVERAGE_WINDOW_SECONDS);
           mret (swrap 64 v));
  new_bandwidth ← safe_add old trx_bandwidth;
  lifetime ← safe_add (lifetime_bandwidth b) trx_bandwidth;
  mret (AccountBandwidth new_bandwidth lifetime now).
(** witness_plugin.cpp:378-383 *)
Definition has_bandwidth (a : account_object) (b : account_bandwidth_object) (g : dynamic_global_property_object)
    (r : reserve_ratio_object) : bool :=
  u128_mul (u128_of_i64 (average_bandwidth b)) (u128_of_i64 (amount (total_vesting_shares g))) <?
  u128_mul (u128_of_i64 (amount (vesting_shares a))) (max_virtual_bandwidth r).
(** witness_plugin.cpp:340 *)
Definition update_account_bandwidth (a : account_object) (trx_size : Z) (type : bandwidth_type) : M plugin_db unit :=
  s ← gets id;
  let g := gpo (main_db s) in
  if 0 <? amount (total_vesting_shares g) then
    let band := default (AccountBandwidth 0 0 0) (account_bandwidths s !! (name a, type)) in
    band ← lift (charge (time g) trx_size band);
    modify (λ s, s <| account_bandwidths ::= <[(name a, type) := band]> |>);;
    r ← lift (of_option out_of_range (reserve_ratio s));
    when is_producing (plugin_assert (has_bandwidth a band g r))
  else mret tt.

(** witness_plugin.cpp:231: all authorities in one set; [pack_size] is narrowed to 32 bits *)
Definition required_accounts (t : signed_transaction) : gset string :=
  let r := get_required_authorities (operations (trx t)) in req_active r ∪ req_owner r ∪ req_posting r.
Definition pre_transaction (t : signed_transaction) : M plugin_db unit :=
  let trx_size := trx_pack_size t in
  for_each (in_order (required_accounts t)) (λ auth,
    acnt ← on_chain (get_account auth);
    update_account_bandwidth acnt.2 (wrap 32 trx_size) forum;;
    when (existsb is_market_operation (operations (trx t)))
      (update_account_bandwidth acnt.2 (wrap 32 (wrap 64 (trx_size * 10))) market)).

(** ** Operations *)

(** witness_plugin.cpp:122-145: what the memo may be *)
Definition memo_keys (memo account : string) : list Z :=
  (match extended_key memo with Some k => [k] | None => [] end) ++
  [seed_key (account +:+ "owner" +:+ memo); seed_key (account +:+ "active" +:+ memo);
   seed_key (account +:+ "posting" +:+ memo)].
(** witness_plugin.cpp:147-172 *)
Definition no_key_of (keys : list Z) (a : authority) : bool :=
  forallb (λ kw, forallb (λ key, negb (kw.1 =? key)) keys) (key_auths a).
Definition check_memo (memo : string) (account : account_object) (auth : account_authority_object) : M plugin_db unit :=
  let keys := memo_keys memo (name_string (name account)) in
  plugin_assert (no_key_of keys (auth_owner auth));;
  plugin_assert (no_key_of keys (auth_active auth));;
  plugin_assert (no_key_of keys (auth_posting auth));;
  plugin_assert (forallb (λ key, negb (memo_key account =? key)) keys).

(** witness_plugin.cpp:105 *)
Definition comment_options_extension_visitor (cpb : list beneficiary_route_type) : M plugin_db unit :=
  plugin_assert (Z.of_nat (length cpb) <=? 8).
(** witness_plugin.cpp:186 *)
Definition visit_comment_options (o : comment_options_operation) : M plugin_db unit :=
  on_chain (get_comment (cp_author o) (cp_permlink o));;
  for_each (cp_extensions o) comment_options_extension_visitor.
(** witness_plugin.cpp:198 *)
Definition visit_comment (o : comment_operation) : M plugin_db unit :=
  when (negb (String.eqb (co_parent_author o) WLS_ROOT_POST_PARENT))
    (parent ← on_chain (find_comment (co_parent_author o) (co_parent_permlink o));
     match parent with
     | Some (_, p) => plugin_assert (depth p <? WLS_SOFT_MAX_COMMENT_DEPTH)
     | None => mret tt
     end);;
  itr ← on_chain (find_comment (co_author o) (co_permlink o));
  match itr with
  | Some (_, c) =>
    when (cashout_time c =? tps_max)
      (s ← gets id;
       plugin_assert (match content_edit_locks s !! co_author o with
                      | Some lock_time => time (gpo (main_db s)) <? lock_time
                      | None => false
                      end))
  | None => mret tt
  end.
(** witness_plugin.cpp:222 *)
Definition visit_transfer (o : transfer_operation) : M plugin_db unit :=
  when (negb (String.eqb (tr_memo o) ""))
    (a ← on_chain (get_account (tr_from o));
     auth ← on_chain (get_authority (tr_from o));
     check_memo (tr_memo o) a.2 auth.2).
(** witness_plugin.cpp:175 *)
Definition operation_visitor (op : operation) : M plugin_db unit :=
  match op with
  | comment_options_op o => visit_comment_options o
  | comment_op o => visit_comment o
  | transfer_op o => visit_transfer o
  | _ => mret tt
  end.
(** witness_plugin.cpp:255 *)
Definition pre_operation (op : operation) : M plugin_db unit := when is_producing (operation_visitor op).

(** witness_evaluators.cpp:8, witness_operations.cpp:7 *)
Definition enable_content_editing_validate (account : string) : result unit := validate_account_name account.
Definition enable_content_editing (account : string) (relock_time : Z) (s : plugin_db) : plugin_db :=
  s <| content_edit_locks ::= <[account := relock_time]> |>.

End bandwidth.
