(* ===== verification/BandwidthSpec.v ===== *)
(** * BandwidthSpec: the reserve ratio and the rationing of bandwidth

    The reserve ratio stays in its bounds and moves the way the documentation says,
    although not as far; an account's transactions pass only while its average use
    is covered by its stake. *)

From S2P Require Import Prelude FcLib Tables Config Asset Names Authority Operations Transaction Block Reward Objects Ledger Invariants Evaluators Conservation Demo Bandwidth.

(** ** The reserve ratio *)

Section ratio.
Context `{FC : FcLib} `{BL : BlockLib}.

Definition max_ratio : Z := WLS_MAX_RESERVE_RATIO * RESERVE_RATIO_PRECISION.
Definition ratio_in (ratio : Z) : Prop := RESERVE_RATIO_PRECISION <= ratio <= max_ratio.
Ltac constants := unfold ratio_in, max_ratio, WLS_MAX_RESERVE_RATIO, RESERVE_RATIO_PRECISION,
  RESERVE_RATIO_MIN_INCREMENT, DISTANCE_CALC_PRECISION, WLS_MIN_BLOCK_SIZE_LIMIT, WLS_MAX_TRANSACTION_SIZE in *.

(** How far the average use is from a quarter of the block, in units of 1/10000. *)
Definition distance_of (average quarter : Z) : Z := Z.quot ((average - quarter) * 10000) quarter.
Lemma distance_range average quarter :
  0 <= average < 2 ^ 31 → 16384 <= quarter → -10000 <= distance_of average quarter < 2 ^ 31.
Proof.
  intros Ha Hq. unfold distance_of. split.
  - rewrite <- (Z.quot_mul (-10000) quarter) by lia. apply Z.quot_le_mono; lia.
  - apply (Z.le_lt_trans _ (Z.quot ((2 ^ 31) * 10000) quarter)); [apply Z.quot_le_mono; lia|].
    rewrite Z.quot_div_nonneg by lia. apply Z.div_lt_upper_bound; lia.
Qed.

(** The part of the ratio that is taken away or added. *)
Lemma ratio_share ratio e : 0 <= ratio → 0 <= e → 0 <= ratio * e / (e + 10000) <= ratio.
Proof.
  intros Hr He. split; [apply Z.div_pos; nia|]. apply Z.div_le_upper_bound; nia.
Qed.
Lemma ratio_part ratio e k :
  0 <= ratio → 0 <= e → 0 < k → (k - 1) * e <= 10000 → ratio * e / (e + 10000) <= ratio / k.
Proof.
  intros Hr He Hk Hke. apply Z.div_le_lower_bound; [done|].
  pose proof (Z.mul_div_le (ratio * e) (e + 10000) ltac:(lia)). set (x := ratio * e / (e + 10000)) in *. nia.
Qed.

(** The arithmetic of [int64_t] is exact here. *)
Lemma new_reserve_ratio_eq average max_block_size ratio :
  0 <= average < 2 ^ 31 → WLS_MIN_BLOCK_SIZE_LIMIT <= max_block_size < 2 ^ 32 → ratio_in ratio →
  new_reserve_ratio average max_block_size ratio =
    let d := distance_of average (max_block_size / 4) in
    Ok (if 0 <? d then Z.max RESERVE_RATIO_PRECISION (ratio - ratio * d / (d + 10000))
        else Z.min max_ratio (ratio + Z.max RESERVE_RATIO_MIN_INCREMENT (ratio * - d / (- d + 10000)))).
Proof.
  intros Ha Hm Hr. constants. unfold new_reserve_ratio. constants. rewrite Z.quot_div_nonneg by lia.
  set (q := max_block_size / 4). assert (16384 <= q < 2 ^ 30) as Hq.
  { unfold q. split; [apply Z.div_le_lower_bound; lia|apply Z.div_lt_upper_bound; lia]. }
  rewrite (proj2 (Z.eqb_neq q 0)) by lia. pose proof (distance_range average q Ha ltac:(lia)) as Hd.
  rewrite (swrap_small 64 ((average - q) * 10000)) by lia. fold (distance_of average q).
  set (d := distance_of average q) in *. cbv zeta.
  rewrite (swrap_small 64 (ratio * d)) by nia. unfold mret, result_ret. f_equal.
  destruct (Z.ltb_spec 0 d) as [Hp|Hn].
  - pose proof (ratio_share ratio d ltac:(lia) ltac:(lia)). rewrite Z.quot_div_nonneg by nia.
    rewrite swrap_small by lia. done.
  - pose proof (ratio_share ratio (- d) ltac:(lia) ltac:(lia)).
    replace (Z.quot (ratio * d) (d - 10000)) with (ratio * - d / (- d + 10000)).
    2:{ rewrite <- Z.quot_div_nonneg by nia. rewrite <- (Z.quot_opp_opp (ratio * d)) by lia. f_equal; lia. }
    rewrite swrap_small by lia. done.
Qed.

(** The reserve ratio stays between 1 and 20000 (in units of 1/10000) and no
    arithmetic overflows; above a quarter of the block size it never rises, at half
    of it it halves; up to a quarter it rises by half a point or more, unless it is
    at the top, but never by more than a half of itself, and from an eighth on by no more
    than a third, where the comment promises an increase by 50%. *)
Theorem reserve_ratio_moves average max_block_size ratio :
  0 <= average < 2 ^ 31 → WLS_MIN_BLOCK_SIZE_LIMIT <= max_block_size < 2 ^ 32 → ratio_in ratio →
  let quarter := max_block_size / 4 in
  ∃ ratio', new_reserve_ratio average max_block_size ratio = Ok ratio' ∧ ratio_in ratio' ∧
    (quarter <= (average - quarter) * 10000 → ratio' <= ratio) ∧
    (average = 2 * quarter → ratio' = Z.max RESERVE_RATIO_PRECISION (ratio - ratio / 2)) ∧
    (average <= quarter → Z.min max_ratio (ratio + RESERVE_RATIO_MIN_INCREMENT) <= ratio' <= ratio + Z.max RESERVE_RATIO_MIN_INCREMENT (ratio / 2)) ∧
    (quarter <= 2 * average <= 2 * quarter → ratio' <= ratio + Z.max RESERVE_RATIO_MIN_INCREMENT (ratio / 3)).
Proof.
  intros Ha Hm Hr q. rewrite new_reserve_ratio_eq by done. cbv zeta. eexists. split; [reflexivity|]. fold q.
  assert (16384 <= q) as Hq.
  { unfold q. constants. apply Z.div_le_lower_bound; lia. }
  pose proof (distance_range average q Ha Hq) as Hd. set (d := distance_of average q) in *.
  assert (q <= (average - q) * 10000 → 0 < d) as Hpos.
  { intros H. unfold d, distance_of. rewrite Z.quot_div_nonneg by lia. apply Z.div_str_pos. lia. }
  assert (average = 2 * q → d = 10000) as Htwice.
  { intros ->. unfold d, distance_of. replace ((2 * q - q) * 10000) with (10000 * q) by lia. apply Z.quot_mul. lia. }
  assert (average <= q → d <= 0) as Hneg.
  { intros H. unfold d, distance_of. rewrite <- (Z.quot_0_l q) by lia. apply Z.quot_le_mono; lia. }
  assert (q <= 2 * average → -5000 <= d) as Heighth.
  { intros H. unfold d, distance_of. rewrite <- (Z.quot_mul (-5000) q) by lia. apply Z.quot_le_mono; lia. }
  clearbody d. constants. destruct (Z.ltb_spec 0 d) as [Hp|Hn].
  - pose proof (ratio_share ratio d ltac:(lia) ltac:(lia)) as Hs. split; [lia|].
    split; [lia|]. split; [|split; intros; exfalso; lia].
    intros ->%Htwice. rewrite (Z.div_mul_cancel_r ratio 2 10000 ltac:(lia) ltac:(lia) : ratio * 10000 / (10000 + 10000) = _). done.
  - pose proof (ratio_share ratio (- d) ltac:(lia) ltac:(lia)) as Hs. pose proof (ratio_part ratio (- d) 2 ltac:(lia) ltac:(lia) ltac:(lia) ltac:(lia)).
    split; [lia|]. split; [lia|]. split; [lia|]. split; [lia|]. intros He.
    pose proof (ratio_part ratio (- d) 3 ltac:(lia) ltac:(lia) ltac:(lia) ltac:(lia)). lia.
Qed.
End ratio.

Section bandwidth.
Context `{FC : FcLib} `{ENV : EvalEnv} `{CR : Crypto} `{BL : BlockLib} `{MK : MemoKeys}.
Implicit Types (s : plugin_db).

(** ** After a block *)

(** Blocks of up to 21 MB, so that the running average fits 32 bits. *)
Definition max_average : Z := 21000000.
Definition ratio_ok s : Prop :=
  match reserve_ratio s with
  | Some r => 0 <= average_block_size r <= max_average ∧ ratio_in (current_reserve_ratio r)
  | None => True
  end.
Lemma new_average_eq average size :
  0 <= average <= max_average → 0 <= size <= max_average →
  new_average average size = (99 * average + size) / 100 ∧ 0 <= (99 * average + size) / 100 <= max_average.
Proof.
  unfold new_average, max_average. intros Ha Hs. rewrite (swrap_small 32 (99 * average)), (wrap_small 64) by lia.
  pose proof (Z.div_pos (99 * average + size) 100 ltac:(lia) ltac:(lia)).
  pose proof (Z.div_le_upper_bound (99 * average + size) 100 21000000 ltac:(lia) ltac:(lia)).
  rewrite swrap_small by lia. lia.
Qed.
Lemma on_block_keeps b s :
  WLS_MIN_BLOCK_SIZE_LIMIT <= gpo_maximum_block_size (gpo (main_db s)) < 2 ^ 32 → 0 <= pack_size b <= max_average →
  ratio_ok s → twp (on_block b) (λ _ s', ratio_ok s' ∧ main_db s' = main_db s) s.
Proof.
  intros Hm Hb Hok. unfold on_block, twp, gets, mbind, M_bind, lift, id. unfold ratio_ok in *.
  destruct (reserve_ratio s) as [[avg ratio mvb]|] eqn:Er; cbn.
  2:{ split; [|done]. split; [unfold max_average|]; vm_compute; split; discriminate. }
  cbn in Hok. destruct Hok as [Ha Hr]. destruct (new_average_eq avg (pack_size b) Ha Hb) as [-> Hn].
  destruct (_ =? 0).
  - assert (0 <= (99 * avg + pack_size b) / 100 < 2 ^ 31) as H31 by (unfold max_average in *; lia).
    destruct (reserve_ratio_moves _ _ _ H31 Hm Hr) as (r & -> & Hr' & _). cbn. done.
  - cbn. done.
Qed.

(** ** The bandwidth of an account *)

Definition band_ok (now : Z) (b : account_bandwidth_object) : Prop :=
  0 <= average_bandwidth b <= lifetime_bandwidth b ∧ lifetime_bandwidth b < 2 ^ 63 ∧ 0 <= last_bandwidth_update b <= now.
(** The use that is left after [d] seconds. *)
Definition faded (d average : Z) : Z :=
  if WLS_BANDWIDTH_AVERAGE_WINDOW_SECONDS <? d then 0
  else (WLS_BANDWIDTH_AVERAGE_WINDOW_SECONDS - d) * average / WLS_BANDWIDTH_AVERAGE_WINDOW_SECONDS.
Lemma faded_range d average : 0 <= d → 0 <= average → 0 <= faded d average <= average.
Proof.
  unfold faded, WLS_BANDWIDTH_AVERAGE_WINDOW_SECONDS. intros Hd Ha. destruct (Z.ltb_spec (60 * 60 * 24 * 7) d); [lia|].
  split; [apply Z.div_pos; nia|apply Z.div_le_upper_bound; nia].
Qed.

Lemma charge_Ok now size b b' :
  band_ok now b → 0 <= size < 2 ^ 32 → charge now size b = Ok b' →
  band_ok now b' ∧
  average_bandwidth b' = faded (now - last_bandwidth_update b) (average_bandwidth b) + size * WLS_BANDWIDTH_PRECISION.
Proof.
  intros (Ha & Hl & Ht) Hs. unfold charge, WLS_BANDWIDTH_PRECISION.
  rewrite (wrap_small 64 (size * 1000000)), (swrap_small 64 (size * 1000000)) by lia.
  set (d := now - last_bandwidth_update b). assert (0 <= d) as Hd by lia.
  pose proof (faded_range d (average_bandwidth b) Hd ltac:(lia)) as Hf.
  assert ((if WLS_BANDWIDTH_AVERAGE_WINDOW_SECONDS <? d then mret 0 else
    v ← u128_to_u64 (u128_div (u128_mul (u128_of_i64 (WLS_BANDWIDTH_AVERAGE_WINDOW_SECONDS - d)) (u128_of_i64 (average_bandwidth b)))
       WLS_BANDWIDTH_AVERAGE_WINDOW_SECONDS); mret (swrap 64 v)) = Ok (faded d (average_bandwidth b))) as ->.
  { unfold faded in *. destruct (Z.ltb_spec WLS_BANDWIDTH_AVERAGE_WINDOW_SECONDS d); [done|].
    rewrite !u128_of_i64_small, u128_mul_small, u128_div_spec by (unfold WLS_BANDWIDTH_AVERAGE_WINDOW_SECONDS in *; nia).
    rewrite u128_to_u64_spec by lia. cbn [mbind result_bind]. unfold mret, result_ret. by rewrite swrap_small by lia. }
  cbn [mbind result_bind]. intros (a & Ea & E)%bind_Ok. apply bind_Ok in E as (l & El & [= <-]). simplify_safe.
  unfold band_ok. cbn. lia.
Qed.

Definition bands_ok s : Prop := ∀ k b, account_bandwidths s !! k = Some b → band_ok (time (gpo (main_db s))) b.

(** What an accepted transaction leaves of an account: the bandwidth after it, within
    the limit that the stake of the account sets. *)
Definition rationed (g : dynamic_global_property_object) (r : reserve_ratio_object) (a : account_object) (size : Z)
    (type : bandwidth_type) (m : gmap (string * bandwidth_type) account_bandwidth_object) : Prop :=
  ∃ b, m !! (name a, type) = Some b ∧ size * WLS_BANDWIDTH_PRECISION <= average_bandwidth b ∧ has_bandwidth a b g r = true.

Lemma update_bandwidth_wp a size type s :
  is_producing = true → 0 < amount (total_vesting_shares (gpo (main_db s))) → 0 <= size < 2 ^ 32 →
  0 <= time (gpo (main_db s)) → bands_ok s →
  wp (update_account_bandwidth a size type) (λ _ s', bands_ok s' ∧ ∃ b r,
    s' = s <| account_bandwidths ::= <[(name a, type) := b]> |> ∧ reserve_ratio s = Some r ∧
    rationed (gpo (main_db s)) r a size type (account_bandwidths s')) s.
Proof.
  intros Hp Hv Hs Ht Hok. unfold update_account_bandwidth. wp_step. wp_step. cbv zeta. unfold id.
  rewrite (proj2 (Z.ltb_lt _ _) Hv). wp_step. apply wp_lift. intros b Hb.
  apply charge_Ok in Hb as [Hb Ha]; [| |done].
  2:{ destruct (account_bandwidths s !! (name a, type)) as [b0|] eqn:E; cbn; [by eapply Hok|].
      unfold band_ok. cbn. lia. }
  wp_step. wp_step. wp_step. apply wp_lift. intros r Hr%of_option_Ok. rewrite Hp. cbn [when].
  apply wp_intro. intros u s' E. unfold plugin_assert, lift in E.
  destruct (has_bandwidth a b _ r) eqn:Hh; cbn in E; [|done]. injection E as _ <-. split.
  - intros k b'. cbn. intros [[<- <-]|[_ H]]%lookup_insert_Some; [done|by eapply Hok].
  - exists b, r. split; [done|]. split; [done|]. exists b. cbn. rewrite lookup_insert_eq. split; [done|]. split; [|done].
    rewrite Ha. destruct (account_bandwidths s !! (name a, type)) as [b0|] eqn:E; cbn in *.
    + pose proof (Hok _ _ E) as (? & _ & ?). pose proof (faded_range (time (gpo (main_db s)) - last_bandwidth_update b0) (average_bandwidth b0) ltac:(lia) ltac:(lia)). lia.
    + pose proof (faded_range (time (gpo (main_db s)) - 0) 0 ltac:(lia) ltac:(lia)). lia.
Qed.

(** *** The accounts of a transaction *)

Definition is_market (t : signed_transaction) : bool := existsb is_market_operation (operations (trx t)).
(** Account [a] has paid for transaction [t]. *)
Definition paid (t : signed_transaction) (a : string) s : Prop :=
  ∃ i acct r, rows (accounts (main_db s)) !! i = Some acct ∧ name acct = a ∧ reserve_ratio s = Some r ∧
    rationed (gpo (main_db s)) r acct (wrap 32 (trx_pack_size t)) forum (account_bandwidths s) ∧
    (is_market t = true →
     rationed (gpo (main_db s)) r acct (wrap 32 (wrap 64 (trx_pack_size t * 10))) market (account_bandwidths s)).
Definition same_but (l : list string) s s' : Prop :=
  main_db s' = main_db s ∧ reserve_ratio s' = reserve_ratio s ∧
  ∀ k, k.1 ∉ l → account_bandwidths s' !! k = account_bandwidths s !! k.
Lemma paid_frame t a l s s' : a ∉ l → same_but l s s' → paid t a s → paid t a s'.
Proof.
  intros Ha (E1 & E2 & E3) (i & acct & r & Hi & <- & Hr & Hf & Hm). exists i, acct, r. unfold rationed in *.
  rewrite E1, E2, !E3 by done. done.
Qed.

Lemma on_chain_account a s :
  wp (on_chain (get_account a)) (λ iv s', s' = s ∧ rows (accounts (main_db s)) !! iv.1 = Some iv.2 ∧ name iv.2 = a) s.
Proof.
  unfold on_chain, wp, get_account, find_account, gets, mbind, M_bind, lift. cbn.
  destruct (find_row _ _) as [[i x]|] eqn:E; cbn; [|done]. apply find_row_Some in E as [Hi Hn].
  split; [by destruct s|]. split; [done|]. by apply String.eqb_eq.
Qed.

Definition pay (t : signed_transaction) (auth : string) : M plugin_db unit :=
  acnt ← on_chain (get_account auth);
  update_account_bandwidth acnt.2 (wrap 32 (trx_pack_size t)) forum;;
  when (is_market t) (update_account_bandwidth acnt.2 (wrap 32 (wrap 64 (trx_pack_size t * 10))) market).

Lemma pay_wp t a s :
  is_producing = true → 0 < amount (total_vesting_shares (gpo (main_db s))) → 0 <= time (gpo (main_db s)) → bands_ok s →
  wp (pay t a) (λ _ s', bands_ok s' ∧ same_but [a] s s' ∧ paid t a s') s.
Proof.
  intros Hp Hv Ht Hok. unfold pay. wp_step. eapply wp_mono; [apply on_chain_account|].
  intros [i acct] s0 (-> & Hi & Hn). cbn in Hi, Hn. wp_step.
  eapply wp_mono; [apply update_bandwidth_wp; [done|done|by apply wrap_range|done|done]|].
  intros ? s1 (Hok1 & b1 & r & E1 & Hr & Hf). cbn [snd] in *.
  apply wp_when; intros Hmk.
  - eapply wp_mono; [apply update_bandwidth_wp; [done|by subst s1|by apply wrap_range|by subst s1|done]|].
    intros ? s2 (Hok2 & b2 & r2 & E2 & Hr2 & Hf2). split; [done|]. subst s1. cbn in Hr2. assert (r2 = r) as -> by congruence.
    subst s2. cbn in Hf, Hf2 |- *. split.
    + split; [done|]. split; [done|]. intros k Hk%not_elem_of_cons. cbn. destruct Hk as [Hk _].
      rewrite !lookup_insert_ne; [done|intros <-; by cbn in Hk..].
    + exists i, acct, r. cbn. split_and!; [done..| |done].
      destruct Hf as (b & Hb & Hc). exists b. cbn. by rewrite lookup_insert_ne.
  - subst s1. split; [done|]. split.
    + split; [done|]. split; [done|]. intros k Hk%not_elem_of_cons. cbn. destruct Hk as [Hk _].
      rewrite lookup_insert_ne; [done|intros <-; by cbn in Hk].
    + exists i, acct, r. cbn. split_and!; [done..|]. by rewrite Hmk.
Qed.

Lemma pay_all_wp t l s :
  NoDup l → is_producing = true → 0 < amount (total_vesting_shares (gpo (main_db s))) → 0 <= time (gpo (main_db s)) → bands_ok s →
  wp (for_each l (pay t)) (λ _ s', bands_ok s' ∧ same_but l s s' ∧ ∀ a, a ∈ l → paid t a s') s.
Proof.
  intros Hl Hp. revert s. induction Hl as [|a l Ha Hl IH]; intros s Hv Ht Hok; cbn [for_each].
  { wp_step. split; [done|]. split; [done|]. by intros a ?%elem_of_nil. }
  wp_step. eapply wp_mono; [by apply pay_wp|]. intros ? s1 (Hok1 & (E1 & E2 & E3) & Hpaid).
  eapply wp_mono; [apply IH; rewrite ?E1; done|]. intros ? s2 (Hok2 & Hs2 & Hall). split; [done|]. split.
  - destruct Hs2 as (F1 & F2 & F3). split; [congruence|]. split; [congruence|].
    intros k [Hk1 Hk2]%not_elem_of_cons. rewrite F3 by done. apply E3. by intros ?%list_elem_of_singleton.
  - intros x [->|Hx]%elem_of_cons; [by eapply paid_frame|by apply Hall].
Qed.

(** C19: while a transaction is pushed to this node, it passes only if every account
    whose authority it needs can pay for it: afterwards its average use includes the
    transaction, ten times over for transfers, and is within the limit that its stake
    sets, as [has_bandwidth] computes it; the records of all accounts stay consistent and nobody else pays. *)
Theorem bandwidth_rationed t s s' :
  is_producing = true → 0 < amount (total_vesting_shares (gpo (main_db s))) → 0 <= time (gpo (main_db s)) → bands_ok s →
  pre_transaction t s = Ok (tt, s') →
  bands_ok s' ∧ same_but (elements (required_accounts t)) s s' ∧ ∀ a, a ∈ required_accounts t → paid t a s'.
Proof.
  intros Hp Hv Ht Hok E. change (for_each (in_order (required_accounts t)) (pay t) s = Ok (tt, s')) in E.
  assert (in_order (required_accounts t) ≡ₚ elements (required_accounts t)) as Hperm by apply merge_sort_Permutation.
  assert (NoDup (in_order (required_accounts t))) as Hnd by (rewrite Hperm; apply NoDup_elements).
  destruct (wp_ok _ _ _ _ _ (pay_all_wp t _ s Hnd Hp Hv Ht Hok) E) as (H1 & (E1 & E2 & E3) & H3).
  split; [done|]. split; [split; [done|]; split; [done|]|].
  - intros k Hk. apply E3. by rewrite Hperm.
  - intros a Ha. apply H3. by rewrite Hperm, elem_of_elements.
Qed.

(** With the numbers a chain can have, the limit is an inequality of integers: an
    account may use the share of the network's bandwidth that its stake has in all
    stakes. *)
Lemma has_bandwidth_exact a b g r :
  0 <= average_bandwidth b → 0 <= amount (vesting_shares a) → 0 <= amount (total_vesting_shares g) → 0 <= max_virtual_bandwidth r →
  average_bandwidth b * amount (total_vesting_shares g) < 2 ^ 128 → amount (vesting_shares a) * max_virtual_bandwidth r < 2 ^ 128 →
  average_bandwidth b < 2 ^ 63 → amount (vesting_shares a) < 2 ^ 63 → amount (total_vesting_shares g) < 2 ^ 63 →
  has_bandwidth a b g r = true ↔
  average_bandwidth b * amount (total_vesting_shares g) < amount (vesting_shares a) * max_virtual_bandwidth r.
Proof.
  intros. unfold has_bandwidth. rewrite !u128_of_i64_small, !u128_mul_small by nia. apply Z.ltb_lt.
Qed.

(** ** Operations *)

Lemma no_key_of_spec keys x : no_key_of keys x = true ↔ ∀ kw key, kw ∈ key_auths x → key ∈ keys → kw.1 ≠ key.
Proof.
  unfold no_key_of. rewrite List.forallb_forall. setoid_rewrite List.forallb_forall.
  setoid_rewrite negb_true_iff. setoid_rewrite Z.eqb_neq. setoid_rewrite <- list_elem_of_In. naive_solver.
Qed.
Lemma plugin_assert_inv b s u s' : plugin_assert b s = Ok (u, s') → b = true ∧ s' = s.
Proof. unfold plugin_assert, lift. destruct b; [|done]. by intros [= <- <-]. Qed.

(** A transfer whose memo gives away a key of the sender does not pass. *)
Theorem memo_leaks_no_key o s s' :
  tr_memo o ≠ "" → visit_transfer o s = Ok (tt, s') →
  ∃ a auth, name a = tr_from o ∧ (∃ i, rows (accounts (main_db s)) !! i = Some a) ∧
    ∀ key, key ∈ memo_keys (tr_memo o) (name_string (name a)) →
      key ≠ memo_key a ∧ ∀ x kw, x ∈ [auth_owner auth; auth_active auth; auth_posting auth] → kw ∈ key_auths x → kw.1 ≠ key.
Proof.
  intros Hm E. refine (wp_ok (visit_transfer o) (λ _ _, _) s tt s' _ E). clear E. unfold visit_transfer.
  destruct (String.eqb_spec (tr_memo o) "") as [|_]; [done|]. cbn [negb when].
  wp_step. eapply wp_mono; [apply on_chain_account|]. intros [i a] s0 (-> & Hi & Hn). cbn in Hi, Hn.
  wp_step. apply wp_intro. intros [j auth] s1 _. unfold check_memo. cbn [fst snd].
  do 3 (wp_step; apply wp_intro; intros ? ? [? ->]%plugin_assert_inv).
  apply wp_intro. intros ? ? [Hk ->]%plugin_assert_inv. exists a, auth. split; [done|]. split; [by exists i|].
  intros key Hkey. split.
  - rewrite List.forallb_forall in Hk. specialize (Hk key (proj1 (list_elem_of_In _ _) Hkey)). apply negb_true_iff, Z.eqb_neq in Hk. done.
  - intros x kw Hx Hkw. repeat match goal with H : no_key_of _ _ = true |- _ => rewrite no_key_of_spec in H end.
    rewrite !elem_of_cons, elem_of_nil in Hx. naive_solver.
Qed.

(** A post that was paid out for good may be edited only while its author's lock is
    open, and [enable_content_editing] opens it until the time it names. *)
Theorem archived_edit_needs_lock o s i c :
  co_parent_author o = WLS_ROOT_POST_PARENT →
  find_comment (co_author o) (co_permlink o) (main_db s) = Ok (Some (i, c), main_db s) → cashout_time c = tps_max →
  (is_ok (visit_comment o s) = true ↔ ∃ l, content_edit_locks s !! co_author o = Some l ∧ time (gpo (main_db s)) < l) ∧
  ∀ relock, is_ok (visit_comment o (enable_content_editing (co_author o) relock s)) = true ↔ time (gpo (main_db s)) < relock.
Proof.
  intros Hp Hc Hm.
  assert (∀ s1, main_db s1 = main_db s → visit_comment o s1 =
    plugin_assert (match content_edit_locks s1 !! co_author o with Some l => time (gpo (main_db s)) <? l | None => false end) s1) as He.
  { intros s1 E1. unfold visit_comment. rewrite Hp. cbn. unfold mbind, M_bind, on_chain, mret, M_ret. rewrite E1, Hc. cbn.
    rewrite Hm, Z.eqb_refl. unfold when, mbind, M_bind, gets, id. cbn. rewrite <- E1. by destruct s1. }
  rewrite He by done. split.
  - unfold plugin_assert, lift. destruct (content_edit_locks s !! co_author o) as [l|]; [|split; [done|by intros (? & ? & _)]].
    destruct (Z.ltb_spec (time (gpo (main_db s))) l); split; [by eauto|done|done|intros (l' & [= <-] & ?); lia].
  - intros relock. rewrite He by done. cbn. rewrite lookup_insert_eq. unfold plugin_assert, lift.
    destruct (Z.ltb_spec (time (gpo (main_db s))) relock); cbn; split; intros; try done; lia.
Qed.
End bandwidth.

(** ** Witnesses *)

Lemma reserve_ratio_moves_witness :
  new_reserve_ratio 16384 131072 20000000 = Ok 26666666 ∧ 26666666 <= 20000000 + 20000000 / 3.
Proof.
  destruct (reserve_ratio_moves 16384 131072 20000000) as (r & H1 & _ & _ & _ & _ & H2);
    [split; [discriminate|reflexivity]..|split; discriminate|].
  assert (r = 26666666) as ->.
  { vm_compute in H1. by injection H1 as <-. }
  split; [exact H1|]. apply H2. split; discriminate.
Defined.

#[local] Existing Instances fc_ref demo_crypto block_ref.
#[local] Instance pushing_env : EvalEnv := {| is_producing := true; custom_interpreter _ _ := None; patch_body _ new := new |}.
#[local] Instance no_memo_keys : MemoKeys := {| extended_key _ := None; seed_key _ := 0 |}.
Definition demo_db : plugin_db := PluginDb demo ∅ ∅ (Some first_reserve_ratio).
Definition bob_pays : signed_transaction := demo_trx 1 (demo_time + 60).
Definition after_payment : plugin_db :=
  match pre_transaction bob_pays demo_db with Ok (_, s) => s | Err _ => demo_db end.
Lemma payment_run : pre_transaction bob_pays demo_db = Ok (tt, after_payment).
Proof.
  assert (is_ok (pre_transaction bob_pays demo_db) = true) as H by (vm_compute; reflexivity).
  unfold after_payment. destruct (pre_transaction bob_pays demo_db) as [[[] s]|e]; [reflexivity|discriminate H].
Qed.
Lemma demo_bands : bands_ok demo_db.
Proof. intros k b H. discriminate H. Qed.
Lemma demo_stakes : 0 < amount (total_vesting_shares (gpo (main_db demo_db))) ∧ 0 <= time (gpo (main_db demo_db)).
Proof. vm_compute. split; [reflexivity|discriminate]. Qed.
Lemma bob_required : "bob"%string ∈ required_accounts bob_pays.
Proof. apply (bool_decide_unpack _). vm_compute. exact I. Qed.

Lemma bandwidth_rationed_witness : bands_ok after_payment ∧ paid bob_pays "bob" after_payment.
Proof.
  destruct (bandwidth_rationed bob_pays demo_db after_payment (eq_refl : @is_producing pushing_env = true) (proj1 demo_stakes) (proj2 demo_stakes) demo_bands payment_run)
    as (H1 & _ & H2).
  exact (conj H1 (H2 "bob"%string bob_required)).
Defined.
