(* ===== verification/Preservation.v ===== *)
(** * Preservation: the evaluators keep the ledger's invariants

    [ledger_inv] is the supply invariants with the shape of the accounts
    ([accounts_wf]).  An evaluator that moves no tokens is [quiet]: its rules
    follow the structure of the code and a hint database applies them.  The
    evaluators that move tokens are run step by step with the moves of file
    Supply.  [apply_operation_ledger] puts them together: no operation that has
    been validated creates or destroys tokens, whatever it does. *)

From S2P Require Import Prelude FcLib Tables Config Asset Names Authority Operations Reward Objects Ledger Invariants Supply Evaluators Conservation Demo.

(** ** Operations that move nothing *)

(** [quiet m]: [m] is [stable still]. *)
Abbreviation quiet := (stable still).

(** An account whose shape and tokens stay. *)
Definition tokens (a : account_object) :=
  (account_shape a, proxied_vsf_votes a, balance a, reward_steem_balance a, vesting_shares a,
   reward_vesting_balance a, reward_vesting_steem a).
Lemma still_account s i x y :
  rows (accounts s) !! i = Some x → tokens y = tokens x →
  still s (s <| accounts ::= λ t, t <| rows ::= <[i := y]> |> |>).
Proof.
  intros Hx Hy. unfold tokens in Hy. injection Hy as Hn Hp Hl Hv Hb Hr Hs Hrb Hrs.
  assert (account_shape y = account_shape x) as Hsh by (unfold account_shape; congruence).
  pose proof (moves_account s i x y Hx Hsh) as Hm.
  rewrite (account_votes_ext x y) in Hm by congruence.
  unfold account_wls, account_vests, account_pending in Hm. rewrite Hb, Hr, Hs, Hrb, Hrs in Hm.
  by rewrite !Z.sub_diag in Hm.
Qed.

Lemma quiet_adjust_witness_vote `{FC : FcLib} w d : quiet (adjust_witness_vote w d).
Proof.
  intros s. eapply wp_mono; [apply adjust_witness_vote_untouched|].
  intros ? s' H. by apply moves_untouched.
Qed.
#[export] Hint Resolve quiet_adjust_witness_vote : stable.

Ltac quiet :=
  stable ltac:(first
    [ by apply moves_untouched
    | eapply still_account; [eassumption|bind_oks; repeat case_match; bind_oks; done] ]).

(** Runs a step that moves nothing. *)
Ltac pass :=
  eapply wp_mono;
  [lazymatch goal with |- wp ?m _ _ =>
     let H := fresh in assert (quiet m) as H by quiet; exact (H _) end|];
  intros ? ? ?.

Section quiet_evaluators.
Context `{FC : FcLib} `{ENV : EvalEnv}.

Lemma quiet_witness_update o : quiet (witness_update_apply o).
Proof. unfold witness_update_apply. quiet.
Qed.

Lemma quiet_accounts_exist a : quiet (accounts_exist a).
Proof. unfold accounts_exist. quiet. Qed.

Lemma quiet_update_owner_authority n a : quiet (update_owner_authority n a).
Proof. unfold update_owner_authority. quiet. Qed.
Hint Resolve quiet_accounts_exist quiet_update_owner_authority : stable.

Lemma quiet_account_update o : quiet (account_update_apply o).
Proof.
  unfold account_update_apply. quiet.
Qed.

Lemma quiet_touch_ancestors n d now p : quiet (touch_ancestors n d now p).
Proof. revert p. induction n as [|n IH]; intros p; simpl; quiet. Qed.
Hint Resolve quiet_touch_ancestors : stable.

Lemma quiet_delete_comment o : quiet (delete_comment_apply o).
Proof. unfold delete_comment_apply, ancestors_fuel. quiet. Qed.

Lemma quiet_comment_options o : quiet (comment_options_apply o).
Proof. unfold comment_options_apply, add_beneficiaries. quiet. Qed.

Lemma quiet_comment_create o auth p now : quiet (comment_create_case o auth p now).
Proof.
  unfold comment_create_case, ancestors_fuel. quiet.
Qed.
Hint Resolve quiet_comment_create : stable.
Lemma quiet_comment o : quiet (comment_apply o).
Proof. unfold comment_apply. quiet. Qed.

Lemma quiet_withdraw_vesting o : quiet (withdraw_vesting_apply o).
Proof. unfold withdraw_vesting_apply. quiet. Qed.

Lemma quiet_route o : quiet (set_withdraw_vesting_route_apply o).
Proof. unfold set_withdraw_vesting_route_apply. quiet. Qed.

Lemma quiet_witness_vote o : quiet (account_witness_vote_apply o).
Proof. unfold account_witness_vote_apply. quiet. Qed.

Lemma quiet_vote_new o v c now p a : quiet (vote_new_case o v c now p a).
Proof. unfold vote_new_case, set_voting_power. quiet. Qed.
Lemma quiet_vote_change o v c now p a iv : quiet (vote_change_case o v c now p a iv).
Proof. unfold vote_change_case, set_voting_power. quiet. Qed.
Hint Resolve quiet_vote_new quiet_vote_change : stable.
Lemma quiet_vote o : quiet (vote_apply o).
Proof. unfold vote_apply. quiet. Qed.

Lemma quiet_run_interpreter id op : quiet (run_interpreter id op).
Proof. unfold run_interpreter. quiet. Qed.
End quiet_evaluators.

(** ** The operations that move tokens *)

Section moving.
Context `{FC : FcLib} `{ENV : EvalEnv}.

Lemma transfer_moves o : quiet (transfer_apply o).
Proof.
  intros s. unfold transfer_apply. do 2 (wp_step; apply wp_get_account; intros ? ? ? ?).
  repeat wp_step. bind_oks. known @adjust_balance_moves. known @adjust_balance_moves.
  moves_done.
Qed.

Lemma transfer_to_vesting_moves o : quiet (transfer_to_vesting_apply o).
Proof.
  intros s. unfold transfer_to_vesting_apply. wp_step; apply wp_get_account; intros i x Hx _.
  wp_step. apply wp_mono with (Q := λ _ s', s' = s).
  { wp_step; [by apply wp_get_account|by wp_step]. }
  intros to s' ->. repeat wp_step. bind_oks. known @adjust_balance_moves. wp_step.
  known @create_vesting_moves. wp_step. moves_done.
Qed.

Lemma claim_reward_balance_moves o : quiet (claim_reward_balance_apply o).
Proof.
  intros s. unfold claim_reward_balance_apply. wp_step; apply wp_get_account; intros i x Hx _.
  repeat wp_step. bind_oks. known @adjust_reward_balance_moves. wp_step.
  known @adjust_balance_moves. wp_step.
  apply wp_modify_row. intros x1 y Hx1 Hy. bind_oks.
  match goal with |- context [<[i := ?y]>] => account_moved Hx1 y;
    assert (account_votes y = account_votes x1 + if_self x1 (amount (cr_reward_vests o))) as Hv
      by (by apply account_votes_shares) end.
  wp_step. gpo_step.
  eapply wp_mono; [apply adjust_proxied_moves|].
  intros ? s2 (x2 & Hx2 & Hm). cbn in Hx2. rewrite lookup_insert_eq in Hx2. injection Hx2 as <-.
  unfold if_proxied in Hm. cbn [proxy] in Hm. fold (if_proxied x1 (amount (cr_reward_vests o))) in Hm.
  pose proof (if_self_proxied x1 (amount (cr_reward_vests o))). moves_done.
Qed.

(** A new account has nothing but its balance. *)
Lemma moves_new_account s a b :
  accounts_wf s → tokens a = (account_shape a, proxied_vsf_votes default_account, b, WLS 0, VESTS 0, VESTS 0, WLS 0) →
  drift s (s <| accounts ::= λ t, Table (<[next_id t := a]> (rows t)) (next_id t + 1) |>) (- amount b) 0 0 0.
Proof.
  intros Hwf Ha. unfold tokens in Ha. injection Ha as Hl Hb Hr Hs Hrb Hrs.
  assert (rows (accounts s) !! next_id (accounts s) = None) as Hnew.
  { destruct (_ !! _) as [x|] eqn:E; [|done]. apply (wf_ids s Hwf) in E. lia. }
  assert (account_votes a = 0) as Hv.
  { unfold account_votes. rewrite Hl, Hs. simpl. by destruct (String.eqb _ _). }
  unfold drift, excess_wls, excess_vests, excess_votes, excess_pending. simpl.
  rewrite !msum_insert_new by done. rewrite Hv. unfold account_wls, account_vests, account_pending.
  rewrite Hb, Hr, Hs, Hrb, Hrs. simpl. lia.
Qed.

Lemma moves_ledger s s' : moves s s' 0 0 0 0 → ledger_inv s → ledger_inv s'.
Proof.
  intros Hm [Hi Hwf]. split; [by eapply moves_inv|].
  by eapply accounts_wf_shape; [apply Hm|].
Qed.
Lemma quiet_ledger {A} (m : M chain A) s : quiet m → ledger_inv s → wp m (λ _, ledger_inv) s.
Proof. intros Hm Hs. eapply wp_mono; [apply Hm|]. intros ? s' ?. by apply (moves_ledger s). Qed.

Lemma account_create_fee o : account_create_validate o = Ok tt → 0 ≤ amount (ac_fee o).
Proof.
  unfold account_create_validate. intros H. do 5 (apply bind_Ok in H as (? & _ & H)).
  unfold assert_not_negative in H. apply bind_Ok in H as (b & Hb & H). apply throw_unless_Ok in H as ->.
  unfold asset_geb, asset_ltb in Hb. simpl in Hb.
  destruct (symbol (ac_fee o) =? WLS_SYMBOL); [|done]. simpl in Hb.
  injection Hb as Hb. apply negb_true_iff, orb_false_iff in Hb as [Hb _]. by apply Z.ltb_ge in Hb.
Qed.

(** The name of a new account is valid, so it does not begin with a NUL. *)
Lemma account_create_name o : account_create_validate o = Ok tt → hidden (ac_new_account_name o) = false.
Proof.
  unfold account_create_validate, validate_account_name. intros H.
  apply bind_Ok in H as (? & Hn & _). apply throw_unless_Ok in Hn. unfold hidden, name_size.
  destruct (name_string (ac_new_account_name o)); [vm_compute in Hn; congruence|done].
Qed.

Lemma wp_new_account a s (Q : Z → chain → Prop) :
  accounts_wf s → proxy a = WLS_PROXY_TO_SELF_ACCOUNT → hidden (name a) = false →
  tokens a = (account_shape a, proxied_vsf_votes default_account, WLS 0, WLS 0, VESTS 0, VESTS 0, WLS 0) →
  (∀ n s', drift s s' 0 0 0 0 → accounts_wf s' → Q n s') → wp (create_row accounts same_name a) Q s.
Proof.
  intros Hwf Hp Hv Ha HQ. apply wp_create_row. intros Hnew. apply HQ.
  - by apply (moves_new_account s a (WLS 0)).
  - apply accounts_wf_create; [done|done| |done|done]. unfold tokens in Ha. injection Ha as Hl _ _ _ _ _.
    by rewrite Hl.
Qed.

Lemma account_create_ledger o s :
  account_create_validate o = Ok tt → ledger_inv s → wp (account_create_apply o) (λ _, ledger_inv) s.
Proof.
  intros Hval Hs. apply account_create_fee in Hval as Hfee.
  apply account_create_name in Hval as Hname.
  unfold account_create_apply. do 2 wp_step. wp_step. apply wp_get_account. intros c xc Hxc _.
  repeat lazymatch goal with |- wp (accounts_exist _ ≫= _) _ _ => fail | |- _ => wp_step end.
  do 3 (wp_step; eapply wp_mono; [apply quiet_ledger; [apply quiet_accounts_exist|eassumption]|];
    intros ? ? ?).
  match goal with H : (λ _ : unit, ledger_inv) a3 ?s3 |- _ => destruct H as [Hi3 Hwf3]; rename s3 into s4 end.
  wp_step. account_step. match goal with H : moves s4 ?s _ _ _ _ |- _ => rename H into Hm; set (s5 := s) in * end.
  assert (drift s4 s5 (amount (ac_fee o)) 0 0 0 ∧ shape s5 = shape s4) as [Hd5 Hs5].
  { split; [|by apply Hm]. destruct Hm as [Hd _]. unfold drift in *. destruct_and?. drift_lia. }
  assert (accounts_wf s5) as Hwf5 by (by eapply accounts_wf_shape). clearbody s5. clear Hm.
  wp_step. apply wp_new_account; [done..|]. intros n s6 Hd6 Hwf6. wp_step.
  apply wp_create_row. intros _.
  match goal with |- context [update account_authorities ?f s6] =>
    set (s7 := update account_authorities f s6) in * end.
  assert (drift s6 s7 0 0 0 0) as Hd7 by (by apply untouched_drift).
  assert (accounts_wf s7) as Hwf7 by (by apply (accounts_wf_shape s6)). clearbody s7. wp_step.
  - wp_step. eapply wp_mono; [apply create_vesting_moves|]. intros ? s8 [Hd8 Hs8]. wp_step.
    split; [|by eapply accounts_wf_shape]. unfold drift, supply_inv in *. lia.
  - wp_step. match goal with H : (_ <? _) = false |- _ => apply Z.ltb_ge in H end.
    split; [|done]. unfold drift, supply_inv in *. lia.
Qed.

(** ** Changing a proxy *)

(** The check of the new proxy: nobody already seen is reached from it. *)
Lemma check_proxy_chain_spec rem seen q c s :
  accounts_wf s → rows (accounts s) !! q = Some c →
  wp (check_proxy_chain rem seen c) (λ _ s', s' = s ∧ ∀ z, tc (proxies_to s) q z → z ∉ seen) s.
Proof.
  intros Hwf. revert seen q c. induction rem as [|rem IH]; intros seen q c Hq;
    simpl; apply wp_if; intros Hne.
  1,3: wp_step; apply wp_get_account; intros j b Hj Hn; wp_step; wp_step; try done.
  2,3: wp_step; split; [done|]; intros z Hz; exfalso;
    assert (∀ k, ¬ proxies_to s q k) as Hk by
      (intros k (u & v & Hu & Hp & Hv & Hnv); assert (u = c) as -> by congruence;
       apply Hp, nonempty_name_false; [done|]; rewrite <- Hnv; by apply (wf_visible s Hwf k));
    destruct Hz as [? ? Hk1|? ? ? Hk1 _]; by apply Hk in Hk1.
  eapply wp_mono; [by apply IH|]. intros ? s' [-> Hr]. split; [done|]. intros z Hz.
  assert (∀ k, proxies_to s q k → k = j) as Hj'.
  { intros k (u & v & Hu & _ & Hv & Hnv). apply (wf_names s Hwf k j v b); [done|done|congruence]. }
  assert (j ∉ seen) as Hjs.
  { match goal with H : negb _ = true |- _ => by apply negb_true_iff, bool_decide_eq_false in H end. }
  destruct Hz as [? ? Hz|? k ? Hk Hz].
  - by rewrite (Hj' _ Hz).
  - rewrite (Hj' _ Hk) in Hz. specialize (Hr _ Hz). set_solver.
Qed.

Lemma quiet_clear_counter a : quiet (modify_account a (λ acc, mret (acc <| witnesses_voted_for := 0 |>))).
Proof. quiet. Qed.

(** [clear_witness_votes] only touches the counter of votes. *)
Lemma clear_witness_votes_spec a s x :
  rows (accounts s) !! a = Some x →
  wp (clear_witness_votes a) (λ _ s', moves s s' 0 0 0 0 ∧
    rows (accounts s') !! a = Some (x <| witnesses_voted_for := 0 |>)) s.
Proof.
  intros Hx. unfold clear_witness_votes. do 3 wp_step.
  eapply wp_mono; [apply (wp_for_each _ _ (untouched s)); [|done]|].
  - intros iv s1 _ H1. apply wp_remove_row. intros _ _. by eapply untouched_trans.
  - intros ? s1 Hu. pose proof (moves_untouched _ _ Hu) as Hm.
    eapply wp_mono; [apply wp_and; [apply quiet_clear_counter|]|].
    + apply wp_modify_row with (Q := λ _ s', rows (accounts s') !! a = Some (x <| witnesses_voted_for := 0 |>)).
      intros x1 y Hx1 Hy. assert (x1 = x) as -> by (destruct Hu as (Ha & _); congruence).
      simpl. rewrite lookup_insert_eq. by injection Hy as <-.
    + intros ? s2 [Hm2 Hx2]. split; [by eapply moves_zero_trans|done].
Qed.

(** The votes that follow the proxy of an account. *)
Definition follows (x : account_object) : Z :=
  sumZ (take 4 (amount (vesting_shares x) :: proxied_vsf_votes x)).
Lemma if_proxied_opp x d : if_proxied x (- d) = - if_proxied x d.
Proof. unfold if_proxied. by destruct (String.eqb (proxy x) _). Qed.
Lemma follows_votes x y :
  length (proxied_vsf_votes x) = 4%nat → amount (vesting_shares y) = amount (vesting_shares x) →
  proxied_vsf_votes y = proxied_vsf_votes x →
  account_votes y + if_proxied y (follows x) = account_votes x + if_proxied x (follows x).
Proof.
  intros Hl Hs Hv. unfold account_votes, if_proxied, follows. rewrite Hs, Hv.
  destruct (proxied_vsf_votes x) as [|p0 [|p1 [|p2 [|p3 [|]]]]]; simplify_eq/=.
  destruct (String.eqb _ _), (String.eqb _ _); unfold sumZ; simpl; lia.
Qed.

(** The proxy of [a] becomes [p]: its own votes and those of the old and the new
    proxies change by the same amount. *)
Lemma wp_set_proxy a p s x (Q : unit → chain → Prop) :
  rows (accounts s) !! a = Some x → length (proxied_vsf_votes x) = 4%nat →
  (∀ y s', rows (accounts s') !! a = Some y → proxy y = p → name y = name x →
    vesting_shares y = vesting_shares x → proxied_vsf_votes y = proxied_vsf_votes x →
    s' = s <| accounts ::= λ t, t <| rows ::= <[a := y]> |> |> →
    drift s s' 0 0 (if_proxied y (follows x) - if_proxied x (follows x)) 0 → Q tt s') →
  wp (modify_account a (λ a, mret (a <| proxy := p |>))) Q s.
Proof.
  intros Hx Hl HQ. apply wp_modify_row. intros x' y Hx' Hy. assert (x' = x) as -> by congruence.
  assert (name y = name x ∧ vesting_shares y = vesting_shares x ∧ account_wls y = account_wls x ∧
    account_vests y = account_vests x ∧ account_pending y = account_pending x ∧
    proxied_vsf_votes y = proxied_vsf_votes x ∧ proxy y = p) as (Hn & Hs & Hw & Hv & Hp & Hpv & Hyp)
    by (bind_oks; done).
  clear Hy. apply (HQ y); try done; [simpl; by rewrite lookup_insert_eq|].
  pose proof (drift_account s a x y Hx) as Hd. rewrite Hw, Hv, Hp, !Z.sub_diag in Hd.
  pose proof (follows_votes x y Hl ltac:(by rewrite Hs) Hpv). unfold drift in *. lia.
Qed.

Lemma relink_wf s1 s2 a q c x y :
  accounts_wf s1 → shape s2 = shape s1 → rows (accounts s2) !! a = Some x → name y = name x →
  proxied_vsf_votes y = proxied_vsf_votes x →
  rows (accounts s1) !! q = Some c → name c = proxy y → q ≠ a → ¬ tc (proxies_to s1) q a →
  accounts_wf (s2 <| accounts ::= λ t, t <| rows ::= <[a := y]> |> |>).
Proof.
  intros Hwf1 Hsh Hx Hn Hv Hq Hc Hqa Ht. assert (accounts_wf s2) as Hwf2 by (by eapply accounts_wf_shape).
  apply (acyclic_set_proxy s2 a x y); [done|done|done|congruence|].
  intros q' r Hpy Hq' Hr. destruct (shape_lookup s1 s2 q' r) as (r' & Hr' & Er); [done|done|].
  assert (q' = q) as -> by
    (apply (wf_names s1 Hwf1 q' q r' c); [done|done|unfold account_shape in Er; congruence]).
  split; [done|]. contradict Ht. by apply (tc_shape s1 s2).
Qed.

(** The branch that means to clear the proxy, taken when [size()] of the new one is 0. *)
Lemma account_witness_proxy_clears o s :
  nonempty_name (ap_proxy o) = false → accounts_wf s →
  wp (account_witness_proxy_apply o) (λ _ s', accounts_wf s' ∧ ∃ a x y,
    rows (accounts s) !! a = Some x ∧ name x = ap_account o ∧ rows (accounts s') !! a = Some y ∧
    name y = name x ∧ proxy y = ap_proxy o ∧ drift s s' 0 0 (if_proxied y (follows x)) 0) s.
Proof.
  intros Hne Hwf. unfold account_witness_proxy_apply. wp_step. apply wp_get_account. intros a x Hx Hnx.
  cbn [fst snd]. do 4 wp_step.
  match goal with H : neg_all _ = Ok _ |- _ => apply neg_all_Ok in H as -> end.
  pose proof (wf_len s Hwf a x Hx) as Hlen. wp_step.
  eapply wp_mono; [apply (adjust_proxied_array_moves 4 a _ s x); [done| |done]|].
  { rewrite length_fmap. simpl. lia. }
  intros ? s1 [Hm1 Hk1]. specialize (Hk1 a (wf_avoids _ _ _ Hwf)). rewrite Hx in Hk1.
  rewrite <-fmap_take, sumZ_opp in Hm1. change (sumZ (take 4 _)) with (follows x) in Hm1.
  assert (accounts_wf s1) as Hwf1 by (eapply accounts_wf_shape; [apply Hm1|done]).
  destruct Hm1 as [Hd1 _]. rewrite Hne. eapply wp_set_proxy; [exact Hk1|done|].
  intros y s' Hy Hp Hny Hs Hv E Hd. split.
  - rewrite E. apply (acyclic_set_proxy s1 a x y); [done|done|done|congruence|].
    intros q r Hq Hr Hnr. destruct Hq. apply nonempty_name_false; [congruence|].
    rewrite <- Hnr. by apply (wf_visible s1 Hwf1 q).
  - exists a, x, y. split_and!; try done.
    pose proof (if_proxied_opp x (follows x)). unfold drift in *. lia.
Qed.

Lemma account_witness_proxy_ledger o s :
  account_witness_proxy_validate o = Ok tt → hidden (ap_proxy o) = false → ledger_inv s →
  wp (account_witness_proxy_apply o) (λ _, ledger_inv) s.
Proof.
  intros Hval Hshown [Hi Hwf].
  assert (ap_proxy o ≠ ap_account o) as Hself.
  { unfold account_witness_proxy_validate in Hval. bind_oks. by apply negb_true_iff, String.eqb_neq in Hval. }
  destruct (nonempty_name (ap_proxy o)) eqn:Hne; cycle 1.
  { eapply wp_mono; [by apply account_witness_proxy_clears|]. intros ? s' (Hwf' & a & x & y & _ & _ & _ & _ & Hp & Hd).
    split; [|done]. unfold if_proxied in Hd. rewrite Hp, (nonempty_name_false _ Hne Hshown) in Hd. cbn in Hd.
    unfold supply_inv, drift in *. lia. }
  unfold account_witness_proxy_apply. wp_step. apply wp_get_account. intros a x Hx Hnx.
  cbn [fst snd]. do 4 wp_step.
  match goal with H : neg_all _ = Ok _ |- _ => apply neg_all_Ok in H as -> end.
  pose proof (wf_len s Hwf a x Hx) as Hlen.
  set (delta := amount (vesting_shares x) :: proxied_vsf_votes x).
  wp_step. eapply wp_mono; [apply (adjust_proxied_array_moves 4 a _ s x); [done| |done]|].
  { rewrite length_fmap. simpl. lia. }
  intros ? s1 [Hm1 Hk1]. specialize (Hk1 a (wf_avoids _ _ _ Hwf)). rewrite Hx in Hk1.
  rewrite <-fmap_take, sumZ_opp in Hm1. change (sumZ (take 4 delta)) with (follows x) in Hm1.
  assert (accounts_wf s1) as Hwf1 by (eapply accounts_wf_shape; [apply Hm1|done]).
  destruct Hm1 as [Hd1 _].
  rewrite Hne. wp_step. apply wp_get_account. intros q c Hq Hnq. cbn [fst snd].
  assert (q ≠ a) as Hqa by congruence.
  rewrite (proj2 (Z.eqb_neq q a) Hqa). wp_step.
  eapply wp_mono; [by apply check_proxy_chain_spec|]. intros ? s2 [-> Hreach]. wp_step.
  eapply wp_mono; [by apply clear_witness_votes_spec|]. intros ? s2 [[Hd2 Hsh2] Hx2].
  set (x2 := x <| witnesses_voted_for := 0 |>) in *.
  assert (accounts_wf s2) as Hwf2 by (by eapply accounts_wf_shape). wp_step.
  eapply wp_set_proxy; [exact Hx2|done|].
  intros y s4 Hy Hp Hny Hs Hv E4 Hd4. do 2 wp_step.
  match goal with H : neg_all _ = Ok _ |- _ => apply neg_all_Ok in H as -> end.
  eapply wp_mono; [apply (adjust_proxied_array_moves 4 a _ s4 y); [done| |done]|].
  { rewrite !length_fmap. simpl. lia. }
  intros ? s5 [[Hd5 Hsh5] _]. rewrite <-!fmap_take, !sumZ_opp, Z.opp_involutive in Hd5.
  change (sumZ (take 4 delta)) with (follows x) in Hd5.
  assert (accounts_wf s4) as Hwf4.
  { rewrite E4. apply (relink_wf s1 s2 a q c x2 y); try done; [congruence|].
    intros Ht. apply (Hreach a); [done|set_solver]. }
  split; [|by eapply accounts_wf_shape].
  change (follows x2) with (follows x) in Hd4. change (if_proxied x2) with (if_proxied x) in Hd4.
  pose proof (if_proxied_opp x (follows x)). unfold supply_inv, drift in *. lia.
Qed.




(** ** Every operation *)

(** What an operation must not do for the votes to add up: give an account a proxy
    whose name begins with a NUL. *)
Definition visible_op (op : operation) : bool :=
  match op with account_witness_proxy_op o => negb (hidden (ap_proxy o)) | _ => true end.

Lemma apply_operation_keeps op s :
  operation_validate op = Ok tt → visible_op op = true → ledger_inv s → wp (apply_operation op) (λ _, ledger_inv) s.
Proof.
  intros Hval Hop Hs. destruct op; simpl in *;
    first [ by apply account_create_ledger | by apply account_witness_proxy_ledger; [|apply negb_true_iff|]
          | apply quiet_ledger; [|done]].
  all: first [ apply quiet_vote | apply quiet_comment | apply transfer_moves
             | apply transfer_to_vesting_moves | apply quiet_withdraw_vesting
             | apply quiet_account_update | apply (stable_assert _) | apply quiet_witness_update
             | apply quiet_witness_vote | apply (stable_ret _) | apply quiet_delete_comment
             | apply quiet_run_interpreter | apply quiet_comment_options | apply quiet_route
             | apply claim_reward_balance_moves | apply (stable_throw _) ].
Qed.

(** C1: every operation that passes [validate] and is applied keeps the supply
    invariants and the shape of the accounts: whatever the operation, the current
    supply stays the sum of all balances, funds and pending rewards, the vesting
    shares and the witness votes add up to their total, and the proxies form no cycle.
    The one exception is a proxy whose name begins with a NUL, which [validate] lets
    pass. *)
Theorem apply_operation_ledger op s s' :
  operation_validate op = Ok tt → visible_op op = true → ledger_inv s →
  apply_operation op s = Ok (tt, s') → ledger_inv s'.
Proof. intros Hval Hop Hs E. exact (wp_ok _ _ _ _ _ (apply_operation_keeps op s Hval Hop Hs) E). Qed.
End moving.


Definition demo_op : operation := account_witness_proxy_op (WitnessProxy "alice" "bob").
Definition demo_proxied : chain :=
  match apply_operation (FC := fc_ref) (ENV := demo_env) demo_op demo with Ok (_, s) => s | Err _ => demo end.
Lemma apply_operation_ledger_witness :
  operation_validate (FC := fc_ref) demo_op = Ok tt ∧ ledger_inv demo ∧
  apply_operation (FC := fc_ref) (ENV := demo_env) demo_op demo = Ok (tt, demo_proxied) ∧
  ledger_inv demo_proxied.
Proof.
  split; [vm_compute; reflexivity|]. split; [exact demo_ledger|].
  split; [vm_compute; reflexivity|].
  apply (apply_operation_ledger (FC := fc_ref) (ENV := demo_env) demo_op demo).
  - vm_compute. reflexivity.
  - reflexivity.
  - exact demo_ledger.
  - vm_compute. reflexivity.
Defined.
