(* ===== verification/LedgerSpec.v ===== *)
(** * LedgerSpec: what the ledger operations promise

    The properties of file Ledger: votes follow the proxies exactly, the null
    account is emptied into the supply, withdrawals convert without loss and end,
    and [validate_invariants] checks the supply invariants. *)

From S2P Require Import Prelude FcLib Tables Config Asset Names Authority Operations Reward Objects Ledger Invariants Supply Evaluators Conservation Demo Preservation.

(** The state an operation leaves, for the examples. *)
Definition after {S A} (m : M S A) (s : S) : S := match m s with Ok (_, s') => s' | Err _ => s end.

Section ledger_spec.
Context `{FC : FcLib}.

(** ** Votes along proxies *)

(** When the vesting shares of an account with a proxy change by [delta],
    [adjust_proxied_witness_votes] changes the votes that the ledger counts by
    exactly [delta], whatever the chain of proxies: longer than the maximal depth
    or even a cycle; for an account without a proxy it changes no account. *)
Theorem adjust_proxied_exact a x delta s s' :
  rows (accounts s) !! a = Some x →
  adjust_proxied_witness_votes a delta s = Ok (tt, s') →
  msum account_votes (rows (accounts s')) = msum account_votes (rows (accounts s)) +
    (if String.eqb (proxy x) WLS_PROXY_TO_SELF_ACCOUNT then 0 else delta) ∧
  normal s' = normal s.
Proof.
  intros Hx E.
  destruct (wp_ok _ _ _ _ _ (adjust_proxied_moves a delta s) E) as (x' & Hx' & (_ & _ & Hd & _) & _).
  pose proof (wp_ok _ _ _ _ _ (adjust_proxied_normal a delta s) E) as Hn.
  split; [|done]. assert (x' = x) as -> by congruence.
  assert (amount (total_vesting_shares (gpo s')) = amount (total_vesting_shares (gpo s))) as Ht
    by exact (f_equal (λ s, amount (total_vesting_shares (gpo s))) Hn).
  unfold excess_votes, if_proxied in *. destruct (String.eqb _ _); lia.
Qed.

(** ** The null account *)

(** Emptying the null account keeps the books balanced: what it held, with
    its vesting shares at the current price, leaves the current supply. *)
Theorem clear_null_ledger s s' :
  (∀ i a, rows (accounts s) !! i = Some a → name a = WLS_NULL_ACCOUNT → null_wf s a) →
  ledger_inv s → clear_null_account_balance s = Ok (tt, s') → ledger_inv s'.
Proof.
  intros Hn Hs E. apply (moves_ledger s s'); [|done]. exact (wp_ok _ _ _ _ _ (clear_null_moves s Hn) E).
Qed.

(** ** Withdrawals *)

(** Processing the withdrawals that are due, with their routes to other
    accounts as vests or as WLS, neither creates nor destroys tokens or votes. *)
Theorem withdrawals_ledger s s' :
  withdraw_wf s → ledger_inv s → process_vesting_withdrawals s = Ok (tt, s') →
  ledger_inv s' ∧ withdraw_wf s'.
Proof.
  intros Hw Hs E. destruct (wp_ok _ _ _ _ _ (withdrawals_moves s Hw) E) as [Hw' Hm].
  split; [by apply (moves_ledger s s')|done].
Qed.

(** C27: the withdrawal loop ends: with 32-bit times and fewer than 2^31 accounts
    the 64-bit counter of the model never runs out, although every round puts the
    account back into the queue at a later time. *)
Theorem withdrawals_end N i s i' s' :
  0 ≤ time (gpo s) < 2 ^ 32 → 0 ≤ N < 2 ^ 31 → timing_wf N s →
  is_Some (rows (accounts s) !! i) →
  iter_log 64 withdrawal_step (Some i) s ≠ Ok (inl i', s').
Proof.
  intros Ht HN Hwf Hi.
  apply (iter_log_fuel 64 withdrawal_step (λ l s, 0 ≤ time (gpo s) < 2 ^ 32 ∧ timing_wf N s ∧
    match l with None => True | Some i => is_Some (timing s !! i) end) (rounds_left N)).
  - intros l s1 (Ht1 & Hwf1 & Hl) l' s2 E.
    destruct (withdrawal_round N l s1 l' s2 Ht1 Hwf1 Hl E) as [(T & ? & ?) ?]. rewrite T. done.
  - split_and!; [lia|lia|done|]. unfold timing. destruct Hi as [a Ha]. rewrite lookup_fmap, Ha. by eexists.
  - unfold rounds_left. destruct Hi as [a Ha].
    assert (timing s !! i = Some (next_vesting_withdrawal a)) as E by (unfold timing; by rewrite lookup_fmap, Ha).
    destruct (Hwf _ _ E) as [? ?]. rewrite E. simpl. destruct (_ <=? _); nia.
Qed.

(** ** The check of the invariants *)

Definition totals_of (t : totals) : Z * Z * Z * Z :=
  (amount (total_supply t), amount (total_vesting t), amount (pending_vesting_steem t), total_vsf_votes t).

Lemma add_account_Ok t a t' :
  add_account t a = Ok t' →
  totals_of t' = (amount (total_supply t) + account_wls a, amount (total_vesting t) + account_vests a,
    amount (pending_vesting_steem t) + account_pending a, total_vsf_votes t + account_votes a).
Proof.
  unfold add_account. intros H.
  repeat (let v := fresh "v" in apply bind_Ok in H as (v & ? & H)).
  unfold mret, result_ret in H. injection H as <-. unfold totals_of. simpl.
  repeat match goal with H : asset_plus_eq _ _ = Ok _ |- _ => apply asset_plus_eq_Ok in H as (? & ? & ?) end.
  match goal with H : safe_add _ _ = Ok _ |- _ => apply safe_add_Ok in H as [? ?] end.
  assert (v4 = account_votes a) as ->.
  { unfold account_votes. destruct (String.eqb _ _).
    - match goal with H : witness_vote_weight _ = Ok _ |- _ => by apply safe_sum_Ok in H end.
    - match goal with H : of_option _ _ = Ok _ |- _ => apply of_option_Ok in H; by rewrite H end. }
  unfold account_wls, account_vests, account_pending. f_equal; [f_equal; [f_equal|]|]; lia.
Qed.

Lemma add_accounts_Ok l t t' :
  add_accounts l t = Ok t' →
  totals_of t' =
    (amount (total_supply t) + foldr (λ ia acc, account_wls ia.2 + acc) 0 l,
     amount (total_vesting t) + foldr (λ ia acc, account_vests ia.2 + acc) 0 l,
     amount (pending_vesting_steem t) + foldr (λ ia acc, account_pending ia.2 + acc) 0 l,
     total_vsf_votes t + foldr (λ ia acc, account_votes ia.2 + acc) 0 l).
Proof.
  revert t. induction l as [|[i a] l IH]; intros t H; simpl in *.
  - unfold mret, result_ret in H. injection H as <-. unfold totals_of. by rewrite !Z.add_0_r.
  - apply bind_Ok in H as (t1 & H1 & H). apply add_account_Ok in H1. rewrite (IH _ H).
    unfold totals_of in H1. injection H1 as -> -> -> ->. f_equal; [f_equal; [f_equal|]|]; lia.
Qed.

Lemma add_funds_Ok l a a' :
  add_funds l a = Ok a' → amount a' = amount a + foldr (λ f acc, fund_wls f.2 + acc) 0 l.
Proof.
  revert a. induction l as [|[i f] l IH]; intros a H; simpl in *.
  - unfold mret, result_ret in H. injection H as <-. lia.
  - apply bind_Ok in H as (b & Hb & H). apply asset_plus_eq_Ok in Hb as (_ & _ & Hb).
    rewrite (IH _ H), Hb. unfold fund_wls. lia.
Qed.

Lemma asset_eqb_amount a b : asset_eqb a b = true → amount a = amount b.
Proof. unfold asset_eqb. intros [_ H]%andb_true_iff. by apply Z.eqb_eq. Qed.

(** C18: [validate_invariants] is right to accept: when it returns, the four sums
    over all accounts and funds are the totals of the global properties. *)
Theorem validate_invariants_sound s : validate_invariants s = Ok tt → supply_inv s.
Proof.
  unfold validate_invariants. intros H.
  repeat (let v := fresh "v" in apply bind_Ok in H as (v & ? & H)).
  repeat match goal with
  | H : asset_add _ _ = Ok _ |- _ => apply asset_add_Ok in H as (_ & _ & ?)
  | H : asset_plus_eq _ _ = Ok _ |- _ => apply asset_plus_eq_Ok in H as (_ & _ & ?)
  | H : throw_unless _ _ = Ok _ |- _ => apply throw_unless_Ok in H
  | H : asset_eqb _ _ = true |- _ => apply asset_eqb_amount in H
  | H : (_ =? _) = true |- _ => apply Z.eqb_eq in H
  | H : add_funds _ _ = Ok _ |- _ => apply add_funds_Ok in H
  | H : add_accounts _ _ = Ok _ |- _ => apply add_accounts_Ok in H
  end.
  assert (∀ f : account_object → Z, foldr (λ ia acc, f ia.2 + acc) 0
    (sorted_rows (λ a b, negb (String.ltb (name b) (name a))) (accounts s)) = msum f (rows (accounts s))) as Hs.
  { intros f. symmetry. apply msum_list, sorted_rows_perm. }
  match goal with H : totals_of _ = _ |- _ => rewrite !Hs in H; unfold totals_of in H; injection H; intros end.
  rewrite <-(msum_list fund_wls (rows (reward_funds s))) in * by apply ascending_perm.
  unfold supply_inv, excess_wls, excess_vests, excess_votes, excess_pending. simpl in *. lia.
Qed.
End ledger_spec.

(** ** On the small chain *)

Lemma demo_null : ∀ i a, rows (accounts demo) !! i = Some a → name a = WLS_NULL_ACCOUNT → null_wf demo a.
Proof.
  assert (map_Forall (λ _ a, name a = WLS_NULL_ACCOUNT → null_wf demo a) (rows (accounts demo))) as H; [|exact H].
  apply (bool_decide_unpack _). vm_compute. exact I.
Qed.

Lemma demo_withdraw : withdraw_wf demo.
Proof.
  split.
  - assert (map_Forall (λ _ a, account_nonneg a) (rows (accounts demo))) as H; [|exact H].
    apply (bool_decide_unpack _). vm_compute. exact I.
  - assert (map_Forall (λ _ r, 0 ≤ percent r ≤ WLS_100_PERCENT) (rows (routes demo))) as H; [|exact H].
    apply (bool_decide_unpack _). vm_compute. exact I.
Qed.
Lemma demo_timing : timing_wf 6 demo.
Proof.
  assert (map_Forall (λ i t, 0 ≤ i < 6 ∧ 0 ≤ t < 2 ^ 32) (timing demo)) as H; [|exact H].
  apply (bool_decide_unpack _). vm_compute. exact I.
Qed.

Definition demo_alice : account_object :=
  default default_account (rows (accounts demo_proxied) !! 0).
Lemma adjust_proxied_exact_witness :
  rows (accounts demo_proxied) !! 0 = Some demo_alice ∧
  let s' := after (adjust_proxied_witness_votes (FC := fc_ref) 0 77) demo_proxied in
  msum account_votes (rows (accounts s')) = msum account_votes (rows (accounts demo_proxied)) + 77.
Proof.
  split; [vm_compute; reflexivity|].
  exact (proj1 (adjust_proxied_exact (FC := fc_ref) 0 demo_alice 77 demo_proxied
    (after (adjust_proxied_witness_votes (FC := fc_ref) 0 77) demo_proxied)
    ltac:(vm_compute; reflexivity) ltac:(vm_compute; reflexivity))).
Defined.

Lemma clear_null_ledger_witness :
  clear_null_account_balance (FC := fc_ref) demo =
    Ok (tt, after (clear_null_account_balance (FC := fc_ref)) demo) ∧
  ledger_inv (after (clear_null_account_balance (FC := fc_ref)) demo).
Proof.
  split; [vm_compute; reflexivity|].
  exact (clear_null_ledger (FC := fc_ref) demo _ demo_null demo_ledger ltac:(vm_compute; reflexivity)).
Defined.

Lemma withdrawals_ledger_witness :
  process_vesting_withdrawals (FC := fc_ref) demo =
    Ok (tt, after (process_vesting_withdrawals (FC := fc_ref)) demo) ∧
  ledger_inv (after (process_vesting_withdrawals (FC := fc_ref)) demo).
Proof.
  split; [vm_compute; reflexivity|].
  exact (proj1 (withdrawals_ledger (FC := fc_ref) demo _ demo_withdraw demo_ledger
    ltac:(vm_compute; reflexivity))).
Defined.

Lemma withdrawals_end_witness :
  is_Some (rows (accounts demo) !! 0) ∧
  ∀ i' s', iter_log 64 (withdrawal_step (FC := fc_ref)) (Some 0) demo ≠ Ok (inl i', s').
Proof.
  split; [vm_compute; by eexists|]. intros i' s'.
  apply (withdrawals_end (FC := fc_ref) 6 0 demo i' s');
    [vm_compute; done|lia|exact demo_timing|vm_compute; by eexists].
Defined.

Lemma validate_invariants_sound_witness :
  validate_invariants (FC := fc_ref) demo = Ok tt ∧ supply_inv demo.
Proof.
  split; [vm_compute; reflexivity|].
  exact (validate_invariants_sound (FC := fc_ref) demo ltac:(vm_compute; reflexivity)).
Defined.
