(* ===== verification/Plugins.v ===== *)
(** * Plugins: observers of the chain state

    A plugin keeps indices of its own beside the chain's and is called through the
    signals of [libraries/chain/database.cpp]: before and after every operation it
    sees a notification.  A plugin may also register an interpreter for the custom
    operations that carry its name
    ([chain/include/wls/chain/generic_custom_operation_interpreter.hpp]).

    [with_plugin P] is the database with the indices [P] of one plugin; [Plugin P] is
    what the plugin connects to the signals, and [apply_observed] is
    [database::apply_operation] with the plugin in place.  The handlers of the plugins
    modelled here throw before they change anything, so that a notification that fails
    leaves no trace. *)

From S2P Require Import Prelude FcLib Tables Config Asset Names Authority Operations Transaction Reward Objects Ledger Evaluators.

(** operation_notification.hpp:9 *)
Record operation_notification := Note {
  note_trx_id : Z;
  note_block : Z;
  note_trx_in_block : Z;
  note_op_in_trx : Z;
  note_op : operation
}.

Record with_plugin (P : Type) := WithPlugin { base : chain; own : P }.
Arguments WithPlugin {P} base own.
Arguments base {P} w.
Arguments own {P} w.
#[global] Instance with_plugin_eta {P} : Eta (with_plugin P) := λ w, WithPlugin (base w) (own w).

(** An operation on the chain, or on the indices of the plugin. *)
Definition on_base {P A} (m : M chain A) : M (with_plugin P) A := λ s,
  match m (base s) with Ok (a, c) => Ok (a, WithPlugin c (own s)) | Err e => Err e end.
Definition on_own {P A} (m : M P A) : M (with_plugin P) A := λ s,
  match m (own s) with Ok (a, p) => Ok (a, WithPlugin (base s) p) | Err e => Err e end.

(** [catch( const fc::exception& )] catches the exceptions of fc and not those of the
    standard library, which chainbase throws; no clause catches undefined behaviour or
    the end of the fuel of a model. *)
Definition is_fc_exception (e : exn) : bool :=
  match e with
  | out_of_range | logic_error | runtime_error | undefined_behaviour | out_of_fuel => false
  | _ => true
  end.
Definition is_exception (e : exn) : bool :=
  match e with undefined_behaviour | out_of_fuel => false | _ => true end.

(** database_exceptions.hpp:45 *)
Definition try_notify {S} (m : M S unit) : M S unit := λ s,
  match m s with
  | Ok r => Ok r
  | Err e => if bool_decide (e = plugin_exception) || negb (is_exception e) then Err e else Ok (tt, s)
  end.

Class Plugin `{FC : FcLib} `{ENV : EvalEnv} (P : Type) := {
  pre_apply_operation : operation_notification → M (with_plugin P) unit;
  post_apply_operation : operation_notification → M (with_plugin P) unit;
  (** [get_custom_json_evaluator( id )], if it is this plugin's *)
  get_interpreter : string → option (operation → M (with_plugin P) unit)
}.

Section plugins.
Context `{FC : FcLib} `{ENV : EvalEnv} {P : Type} `{PL : !Plugin P}.

(** wls_evaluator.cpp:1073 *)
Definition run_custom (eval : operation → M (with_plugin P) unit) (op : operation) : M (with_plugin P) unit := λ s,
  match eval op s with
  | Ok r => Ok r
  | Err e => if (is_fc_exception e && is_producing) || negb (is_exception e) then Err e else Ok (tt, s)
  end.
(** evaluator_registry.hpp:24, and the custom operations of this plugin *)
Definition evaluate (op : operation) : M (with_plugin P) unit :=
  match op with
  | custom_json_op o =>
    match get_interpreter (cj_id o) with Some e => run_custom e op | None => on_base (apply_operation op) end
  | custom_binary_op o =>
    match get_interpreter (cb_id o) with Some e => run_custom e op | None => on_base (apply_operation op) end
  | _ => on_base (apply_operation op)
  end.
(** database.cpp:2370 *)
Definition apply_observed (note : operation_notification) : M (with_plugin P) unit :=
  try_notify (pre_apply_operation note);;
  evaluate (note_op note);;
  try_notify (post_apply_operation note).
(** database.cpp:836, with [virtual_op op] *)
Definition push_virtual_operation (note : operation_notification) : M (with_plugin P) unit :=
  assert (is_virtual_operation (note_op note));;
  try_notify (pre_apply_operation note);;
  try_notify (post_apply_operation note).

(** database.cpp:2359-2366: the operations of a transaction in their order *)
Definition notes_of (trx_id block trx_in_block : Z) (ops : list operation) : list operation_notification :=
  imap (λ i op, Note trx_id block trx_in_block (wrap 16 (Z.of_nat i)) op) ops.
Definition apply_operations (trx_id block trx_in_block : Z) (ops : list operation) : M (with_plugin P) unit :=
  for_each (notes_of trx_id block trx_in_block ops) apply_observed.
End plugins.

(** ** The interpreter of a plugin's custom operations *)

Section interpreter.
Context `{FC : FcLib} `{ENV : EvalEnv} {P Op : Type}.
Context (validate : Op → result unit) (required_of : Op → required → required).
Context (do_apply : Op → M (with_plugin P) unit).

(** generic_custom_operation_interpreter.hpp:29 *)
Definition apply_custom_operations (custom_operations : list Op) (outer_o : operation) : M (with_plugin P) unit :=
  let outer := operation_get_required_authorities outer_o no_requirement in
  inner ← lift (foldl (λ r o, inner ← r; validate o;; mret (required_of o inner)) (mret no_requirement) custom_operations);
  assert (bool_decide (req_owner inner = req_owner outer));;
  assert (bool_decide (req_active inner = req_active outer));;
  assert (bool_decide (req_posting inner = req_posting outer));;
  assert (bool_decide (req_other inner = req_other outer));;
  for_each custom_operations do_apply.

(** The text or the bytes of a custom operation, read as operations of the plugin. *)
Context (from_json : string → result (list Op)) (from_binary : list Z → result (list Op)).
(** generic_custom_operation_interpreter.hpp:66-107 *)
Definition interpret (outer_o : operation) : M (with_plugin P) unit :=
  match outer_o with
  | custom_json_op o => ops ← lift (from_json (cj_json o)); apply_custom_operations ops outer_o
  | custom_binary_op o => ops ← lift (from_binary (cb_data o)); apply_custom_operations ops outer_o
  | _ => throw undefined_behaviour
  end.
End interpreter.

(** ** Facts about hooks *)

Section facts.
Context {P : Type}.
Implicit Types (s : with_plugin P).

(** What a failing or succeeding notification keeps. *)
Lemma try_notify_wp (m : M (with_plugin P) unit) (Q : unit → with_plugin P → Prop) s :
  wp m Q s → Q tt s → wp (try_notify m) Q s.
Proof. unfold wp, try_notify. intros H HQ. destruct (m s) as [[[] s']|e]; [done|]. by destruct (_ || _). Qed.

Lemma try_notify_twp (m : M (with_plugin P) unit) (Q : unit → with_plugin P → Prop) s :
  twp m Q s → wp (try_notify m) Q s.
Proof. unfold wp, twp, try_notify. by destruct (m s) as [[]|]. Qed.

Lemma on_base_wp {A} (m : M chain A) (Q : A → with_plugin P → Prop) s :
  wp m (λ a c, Q a (WithPlugin c (own s))) (base s) → wp (on_base m) Q s.
Proof. unfold wp, on_base. by destruct (m (base s)) as [[]|]. Qed.

Lemma on_own_wp {A} (m : M P A) (Q : A → with_plugin P → Prop) s :
  wp m (λ a p, Q a (WithPlugin (base s) p)) (own s) → wp (on_own m) Q s.
Proof. unfold wp, on_own. by destruct (m (own s)) as [[]|]. Qed.

(** One round of a loop whose body is known to return. *)
Lemma for_each_cons_Ok {T A} (f : A → M T unit) x l (t t' : T) :
  f x t = Ok (tt, t') → for_each (x :: l) f t = for_each l f t'.
Proof. intros H. simpl. unfold mbind, M_bind. by rewrite H. Qed.
End facts.

(** ** Numbered rows

    Several indices are ordered by an account and a number: the rows of an account in
    the order of their numbers. *)

Definition entries_of {V} (a : string) (h : gmap (string * Z) V) : list (Z * V) :=
  merge_sort (λ x y, x.1 ≤ y.1) (omap (λ kv, if String.eqb kv.1.1 a then Some (kv.1.2, kv.2) else None) (map_to_list h)).

Section entries.
Context {V : Type}.
Implicit Types (h : gmap (string * Z) V).

Lemma elem_of_entries a h i op : (i, op) ∈ entries_of a h ↔ h !! (a, i) = Some op.
Proof.
  unfold entries_of. rewrite merge_sort_Permutation, list_elem_of_omap. split.
  - intros ([[b j] op'] & Hin & H). cbn in H. destruct (String.eqb_spec b a) as [->|]; [|done].
    injection H as -> ->. by apply elem_of_map_to_list.
  - intros H. exists ((a, i), op). rewrite elem_of_map_to_list. split; [done|]. cbn. by rewrite String.eqb_refl.
Qed.
Definition entry_le (x y : Z * V) : Prop := x.1 ≤ y.1.
Lemma entries_sorted a h : StronglySorted entry_le (entries_of a h).
Proof.
  apply Sorted_StronglySorted; [intros x y z; unfold entry_le; lia|].
  apply Sorted_merge_sort. intros x y. lia.
Qed.
Lemma last_greatest (l : list (Z * V)) x : StronglySorted entry_le l → last l = Some x →
  x ∈ l ∧ ∀ y, y ∈ l → y.1 ≤ x.1.
Proof.
  intros Hs Hl. apply last_Some in Hl as [l' ->]. split; [set_solver|].
  intros y [Hy| ->%list_elem_of_singleton]%elem_of_app; [|lia].
  apply (StronglySorted_app_1_elem_of _ _ _ _ _ Hs Hy). set_solver.
Qed.
Lemma head_least (l : list (Z * V)) x y : StronglySorted entry_le (x :: l) → y ∈ x :: l → x.1 ≤ y.1.
Proof.
  intros [_ H]%StronglySorted_inv [->|Hy]%elem_of_cons; [lia|]. rewrite Forall_forall in H. by apply H.
Qed.
End entries.
