(* ===== verification/Payout.v ===== *)
(** * Payout: content rewards and inflation

    The part of [libraries/chain/database.cpp] that mints the block's inflation
    ([process_funds], [pay_reward_funds]) and pays the reward funds out to the
    authors, beneficiaries and curators of the comments whose payout time has
    come ([process_comment_cashout], [cashout_comment_helper], [pay_curators]).
    The virtual operations they report to the plugins are not modelled. *)

From S2P Require Import Prelude FcLib Tables Config Asset Names Authority Operations Reward Objects Ledger Evaluators.

Section payout.
Context `{FC : FcLib}.

(** ** Payouts *)

(** The votes of a comment in [by_comment_weight_voter] order: by descending
    weight. *)
Definition heavier (a b : comment_vote_object) : bool :=
  (cv_weight b <? cv_weight a) || ((cv_weight a =? cv_weight b) && (cv_voter a <=? cv_voter b)).
Definition votes_by_weight (c : Z) (t : table comment_vote_object) : list (Z * comment_vote_object) :=
  filter (λ iv, cv_comment iv.2 = c) (sorted_rows heavier t).

(** database.cpp:1317-1335, one vote: [unclaimed] is what nobody claimed yet *)
Definition pay_curator (max_rewards total_weight : Z) (unclaimed : Z) (iv : Z * comment_vote_object)
    : M chain Z :=
  claim ← lift (u128_to_u64 (u128_div
    (u128_mul (u128_of_i64 max_rewards) (u128_of_i64 (cv_weight iv.2))) total_weight));
  if 0 <? claim then
    let claim := swrap 64 claim in
    unclaimed ← lift (safe_sub unclaimed claim);
    get_row accounts (cv_voter iv.2);;
    create_vesting (cv_voter iv.2) (WLS claim) true;;
    modify_account (cv_voter iv.2) (λ a,
      r ← safe_add (curation_rewards a) claim; mret (a <| curation_rewards := r |>));;
    mret unclaimed
  else mret unclaimed.

(** database.cpp:1302.  Returns the unclaimed rewards and the new value of
    [max_rewards], which is passed by reference. *)
Definition pay_curators (ci : Z) (max_rewards : Z) : M chain (Z * Z) :=
  c ← deref comments ci;
  r ← (if negb (allow_curation_rewards c) then mret (0, 0)
       else if 0 <? total_vote_weight c then
         t ← gets comment_votes;
         u ← fold_m (votes_by_weight ci t) (pay_curator max_rewards (total_vote_weight c)) max_rewards;
         mret (u, max_rewards)
       else mret (max_rewards, max_rewards));
  m ← lift (safe_sub r.2 r.1);
  mret (r.1, m).

(** database.cpp:66 and 1460: the fund as the whole block sees it *)
Record fund_context := FundContext {
  fc_recent_claims : Z;
  fc_reward_balance : asset;
  fc_steem_awarded : Z
}.
#[global] Instance fund_context_eta : Eta fund_context := λ r,
  FundContext (fc_recent_claims r) (fc_reward_balance r) (fc_steem_awarded r).

(** database.cpp:1346 and 1362-1364: the context of one comment *)
Definition fill_comment_reward_context (c : comment_object) (rf : reward_fund_object) (f : fund_context)
    : comment_reward_context :=
  RewardContext (net_rshares c) (comment_reward_weight c) (max_accepted_payout c)
    (fc_recent_claims f) (fc_reward_balance f) (author_reward_curve rf) (fund_content_constant rf).

(** database.cpp:1378: one beneficiary; returns the total of them *)
Definition pay_beneficiary (author_tokens : Z) (total : Z) (b : beneficiary_route_type) : M chain Z :=
  m ← lift (safe_mul author_tokens (b_weight b));
  tokens ← lift (safe_div m WLS_100_PERCENT);
  a ← get_account (b_account b);
  create_vesting a.1 (WLS tokens) true;;
  lift (safe_add total tokens).

(** database.cpp:1369-1409: [reward_tokens] shared out; returns what was claimed *)
Definition share_reward (ci : Z) (reward_tokens : Z) : M chain Z :=
  rf ← get_reward_fund;
  cur ← lift (u128_to_u64 (u128_div
    (u128_mul reward_tokens (percent_curation_rewards rf.2)) WLS_100_PERCENT));
  let curation_tokens := swrap 64 cur in
  r ← lift (u128_to_u64 reward_tokens);
  author_tokens ← lift (safe_sub (swrap 64 r) curation_tokens);
  uc ← pay_curators ci curation_tokens;
  author_tokens ← lift (safe_add author_tokens uc.1);
  let curation_tokens := uc.2 in
  claimed_reward ← lift (safe_add author_tokens curation_tokens);
  c ← deref comments ci;
  total_beneficiary ← fold_m (beneficiaries c) (pay_beneficiary author_tokens) 0;
  author_tokens ← lift (safe_sub author_tokens total_beneficiary);
  a ← get_account (author c);
  create_vesting a.1 (WLS author_tokens) true;;
  adjust_total_payout ci (WLS author_tokens) (WLS curation_tokens) (WLS total_beneficiary);;
  modify_comment ci (λ c,
    r ← safe_add (author_rewards c) author_tokens; mret (c <| author_rewards := r |>));;
  a ← get_account (author c);
  modify_account a.1 (λ a,
    r ← safe_add (posting_rewards a) author_tokens; mret (a <| posting_rewards := r |>));;
  mret claimed_reward.

(** database.cpp:1411 *)
Definition reset_comment (now : Z) (c : comment_object) : comment_object :=
  (if 0 <? net_rshares c then c <| net_rshares := 0 |> else c)
  <| children_abs_rshares := 0 |> <| abs_rshares := 0 |> <| vote_rshares := 0 |>
  <| total_vote_weight := 0 |> <| max_cashout_time := tps_max |> <| cashout_time := tps_max |>
  <| last_payout := now |>.

(** database.cpp:1353 *)
Definition cashout_comment_helper (f : fund_context) (ci : Z) : M chain Z :=
  c ← deref comments ci;
  claimed ← (if 0 <? net_rshares c then
               rf ← get_reward_fund;
               reward ← lift (get_rshare_reward (fill_comment_reward_context c rf.2 f));
               let reward_tokens := u128_of_i64 (swrap 64 reward) in
               if 0 <? reward_tokens then share_reward ci reward_tokens else mret 0
             else mret 0);
  now ← head_block_time;
  modify_comment ci (λ c, mret (reset_comment now c));;
  t ← gets comment_votes;
  for_each (comment_votes_of ci t) (λ iv,
    c ← deref comments ci;
    if negb (cashout_time c =? tps_max) then
      modify_row comment_votes iv.1 (λ v, mret (v <| cv_num_changes := -1 |>))
    else if CLEAR_VOTES then remove_row comment_votes iv.1 else mret tt);;
  mret claimed.

(** database.cpp:1467: a fund's recent claims decay over 15 days *)
Definition decay_claims (now : Z) (rf : reward_fund_object) : reward_fund_object :=
  let delta := now - fund_last_update rf in
  let rf := if delta <? WLS_RECENT_RSHARES_DECAY_RATE then
      rf <| recent_claims ::= λ r, u128_sub r
        (u128_div (u128_mul r (u128_of_i64 delta)) WLS_RECENT_RSHARES_DECAY_RATE) |>
    else rf in
  rf <| fund_last_update := now |>.
Definition decay_fund (acc : list fund_context) (ir : Z * reward_fund_object) : M chain (list fund_context) :=
  now ← head_block_time;
  modify_fund ir.1 (λ rf, mret (decay_claims now rf));;
  rf ← deref reward_funds ir.1;
  mret (acc ++ [FundContext (recent_claims rf) (reward_balance rf) 0]).

(** The comments in [by_cashout_time] order; those that the first loop reads. *)
Definition by_cashout_time (i : Z) (c : comment_object) : Z * Z := (cashout_time c, i).
Definition earlier (a b : comment_object) : bool := cashout_time a <=? cashout_time b.
Definition due (now : Z) (t : table comment_object) : list (Z * comment_object) :=
  filter (λ ic, cashout_time ic.2 ≤ now) (sorted_rows earlier t).

(** database.cpp:1507 *)
Definition add_claim (funds : list fund_context) (ic : Z * comment_object) : M chain (list fund_context) :=
  if 0 <? net_rshares ic.2 then
    rf ← get_reward_fund;
    f ← lift (of_option undefined_behaviour (funds !! Z.to_nat rf.1));
    let claim := evaluate_reward_curve (u128_of_i64 (net_rshares ic.2)) (author_reward_curve rf.2)
                   (fund_content_constant rf.2) in
    mret (<[Z.to_nat rf.1 := f <| fc_recent_claims ::= λ r, u128_add r claim |>]> funds)
  else mret funds.

(** database.cpp:1533, the body of the loop; [inr]: no comment is due *)
Definition cashout_step (funds : list fund_context) : M chain (list fund_context + list fund_context) :=
  t ← gets comments;
  now ← head_block_time;
  match seek by_cashout_time None t with
  | Some (i, c) =>
    if cashout_time c <=? now then
      rf ← get_reward_fund;
      f ← lift (of_option undefined_behaviour (funds !! Z.to_nat rf.1));
      claimed ← cashout_comment_helper f i;
      awarded ← lift (safe_add (fc_steem_awarded f) claimed);
      mret (inl (<[Z.to_nat rf.1 := f <| fc_steem_awarded := awarded |>]> funds))
    else mret (inr funds)
  | None => mret (inr funds)
  end.

(** database.cpp:1542: the cached funds, by index *)
Fixpoint write_funds (i : Z) (funds : list fund_context) : M chain unit :=
  match funds with
  | [] => mret tt
  | f :: funds =>
    get_row reward_funds i;;
    modify_fund i (λ rf,
      b ← asset_minus_eq (reward_balance rf) (WLS (fc_steem_awarded f));
      mret (rf <| recent_claims := fc_recent_claims f |> <| reward_balance := b |>));;
    write_funds (i + 1) funds
  end.

(** database.cpp:1454 *)
Definition process_comment_cashout : M chain unit :=
  t ← gets reward_funds;
  funds ← fold_m (ascending (rows t)) decay_fund [];
  now ← head_block_time;
  cs ← gets comments;
  funds ← fold_m (due now cs) add_claim funds;
  funds ← loop_log 64 cashout_step funds;
  write_funds 0 funds.

(** ** Inflation *)

(** database.cpp:1635 *)
Definition pay_reward_fund (reward used : Z) (ir : Z * reward_fund_object) : M chain Z :=
  m ← lift (safe_mul reward (percent_content_rewards ir.2));
  r ← lift (safe_div m WLS_100_PERCENT);
  modify_fund ir.1 (λ rf,
    b ← asset_plus_eq (reward_balance rf) (WLS r); mret (rf <| reward_balance := b |>));;
  used ← lift (safe_add used r);
  assert (used <=? reward);;
  mret used.
Definition pay_reward_funds (reward : Z) : M chain Z :=
  t ← gets reward_funds;
  fold_m (ascending (rows t)) (pay_reward_fund reward) 0.

(** [x * percent / WLS_100_PERCENT] on [share_type] *)
Definition percent_of (x percent : Z) : result Z :=
  m ← safe_mul x percent; safe_div m WLS_100_PERCENT.

(** database.cpp:1574-1586 *)
Definition producer_reward (w : witness_object) (s : witness_schedule_object) (reward : Z) : result Z :=
  r ← safe_mul reward WLS_MAX_WITNESSES;
  r ← match schedule w with
      | timeshare => safe_mul r (timeshare_weight s)
      | miner | top19 => safe_mul r (top19_weight s)
      | none => mret r
      end;
  safe_div r (witness_pay_normalization_factor s).

(** database.cpp:1559 *)
Definition process_funds : M chain unit :=
  n ← head_block_num;
  supply ← gets (λ s, amount (current_supply (gpo s)));
  m ← lift (safe_mul supply (get_current_inflation_rate n));
  new_steem ← lift (safe_div m (WLS_100_PERCENT * WLS_BLOCKS_PER_YEAR));
  content ← lift (percent_of new_steem WLS_CONTENT_REWARD_PERCENT);
  content ← pay_reward_funds content;
  devfund ← lift (percent_of new_steem WLS_DEV_FUND_PERCENT);
  d ← lift (safe_sub new_steem content);
  witness_reward ← lift (safe_sub d devfund);
  who ← gets (λ s, current_witness (gpo s));
  cwit ← get_witness who;
  s ← gets wso;
  witness_reward ← lift (producer_reward cwit.2 s witness_reward);
  d ← lift (safe_add content devfund);
  new_steem ← lift (safe_add d witness_reward);
  modify_gpo (λ p,
    x ← asset_plus_eq (current_supply p) (WLS new_steem); mret (p <| current_supply := x |>));;
  a ← get_account (owner cwit.2);
  create_vesting a.1 (WLS witness_reward) false;;
  dev ← get_account WLS_DEV_FUND_ACC_NAME;
  modify_account dev.1 (λ a,
    b ← asset_plus_eq (balance a) (WLS devfund); mret (a <| balance := b |>)).

End payout.
