(* ===== verification/PayoutSpec.v ===== *)
(** * PayoutSpec: payouts and inflation keep the ledger balanced

    What file Payout pays out leaves the reward funds, what it mints is added to
    the current supply ([process_comment_cashout_ledger],
    [process_funds_ledger]); the payout loop ends, and when it does no comment is
    due ([process_comment_cashout_done]). *)

From S2P Require Import Prelude FcLib Tables Config Asset Names Authority Operations Reward Objects Ledger Invariants Supply Evaluators Conservation Demo Preservation LedgerSpec Payout.

Section payout_moves.
Context `{FC : FcLib}.

Lemma quiet_adjust_total_payout c t u b : quiet (adjust_total_payout c t u b).
Proof. unfold adjust_total_payout. quiet. Qed.

Lemma pay_curator_moves m w u iv s :
  wp (pay_curator m w u iv) (λ u' s', moves s s' (u' - u) 0 0 0) s.
Proof.
  unfold pay_curator. do 3 wp_step.
  - repeat wp_step. apply wp_get_row. intros _ _. wp_step. known @create_vesting_moves. wp_step.
    pass. wp_step.
    bind_oks. moves_done.
  - wp_step. pose proof (moves_refl s). moves_done.
Qed.

(** The curators get [max_rewards] less what they leave. *)
Lemma pay_curators_moves c m s :
  wp (pay_curators c m) (λ r s', moves s s' (- r.2) 0 0 0 ∧ (r.1 + r.2 = m ∨ r = (0, 0))) s.
Proof.
  unfold pay_curators. wp_step. apply wp_deref. intros x Hx. wp_step.
  apply wp_mono with (Q := λ r s', moves s s' (r.1 - r.2) 0 0 0 ∧ (r.2 = m ∨ r = (0, 0))).
  { pose proof (moves_refl s). wp_step; [wp_step; split; [moves_done|by right]|].
    wp_step; [|wp_step; split; [moves_done|by left]]. do 3 wp_step.
    eapply wp_mono; [apply (wp_fold_m _ _ (λ u s', moves s s' (u - m) 0 0 0)); [|moves_done]|].
    - intros u iv s1 _ Hu. eapply wp_mono; [apply pay_curator_moves|]. intros u' s2 Hm2. moves_done.
    - intros u s1 Hu. wp_step. split; [exact Hu|by left]. }
  intros [u v] s1 [Hm Hr]. wp_step. wp_step. wp_step. bind_oks. simpl in *. split; [moves_done|].
  destruct Hr as [->|[= -> ->]]; [left; lia|right; f_equal; lia].
Qed.

Lemma pay_beneficiary_moves a t b s :
  wp (pay_beneficiary a t b) (λ t' s', moves s s' (t - t') 0 0 0) s.
Proof.
  unfold pay_beneficiary. repeat wp_step. apply wp_get_account. intros i x _ _. wp_step.
  known @create_vesting_moves. wp_step. bind_oks. moves_done.
Qed.

Lemma share_reward_moves c r s :
  wp (share_reward c r) (λ claimed s', moves s s' (- claimed) 0 0 0) s.
Proof.
  unfold share_reward. wp_step.
  eapply wp_mono; [apply (stable_get_reward_fund still)|]. intros rf s1 Hm1. repeat wp_step.
  known @pay_curators_moves. destruct_and?. repeat wp_step. apply wp_deref. intros x Hx. wp_step.
  match goal with |- wp (fold_m ?l (pay_beneficiary ?a) 0) _ ?s2 =>
    eapply wp_mono; [apply (wp_fold_m _ _ (λ t s', moves s2 s' (- t) 0 0 0))|] end.
  { intros t b s3 _ Hm3. eapply wp_mono; [apply pay_beneficiary_moves|]. intros t' s4 Hm4. moves_done. }
  { match goal with |- moves ?s _ _ _ _ _ => pose proof (moves_refl s) end. moves_done. }
  intros total s3 Hm3. repeat wp_step. apply wp_get_account. intros i y _ _. wp_step.
  known @create_vesting_moves. wp_step. known @quiet_adjust_total_payout. wp_step.
  pass. wp_step.
  apply wp_get_account. intros j z _ _. wp_step.
  pass. wp_step.
  bind_oks. moves_done.
Qed.

Lemma cashout_comment_helper_moves f c s :
  wp (cashout_comment_helper f c) (λ claimed s', moves s s' (- claimed) 0 0 0) s.
Proof.
  unfold cashout_comment_helper, head_block_time. wp_step. apply wp_deref. intros x Hx. wp_step.
  apply wp_mono with (Q := λ claimed s', moves s s' (- claimed) 0 0 0).
  { pose proof (moves_refl s). wp_step; [|by wp_step]. wp_step.
    eapply wp_mono; [apply (stable_get_reward_fund still)|]. intros rf s1 Hm1. do 2 wp_step.
    wp_step; [|by wp_step]. eapply wp_mono; [apply share_reward_moves|].
    intros r s2 Hm2. moves_done. }
  intros claimed s1 Hm1.
  match goal with |- wp ?m _ _ => assert (wp m (λ r s', r = claimed ∧ moves s1 s' 0 0 0 0) s1) as Hrest end.
  { do 2 wp_step. wp_step. pass. do 2 wp_step. wp_step.
    pass. wp_step.
    split; [done|]. moves_done. }
  eapply wp_mono; [exact Hrest|]. intros r s2 [-> Hm2]. moves_done.
Qed.

(** ** The funds of one block *)

Definition awarded (funds : list fund_context) : Z := sumZ (fc_steem_awarded <$> funds).
Lemma awarded_insert i f g funds :
  funds !! i = Some f → awarded (<[i := g]> funds) = awarded funds - fc_steem_awarded f + fc_steem_awarded g.
Proof.
  intros H. unfold awarded. rewrite list_fmap_insert. apply sumZ_insert. by rewrite list_lookup_fmap, H.
Qed.

Lemma decay_fund_moves acc ir s :
  wp (decay_fund acc ir) (λ acc' s', moves s s' 0 0 0 0 ∧ awarded acc' = awarded acc) s.
Proof.
  unfold decay_fund, head_block_time. do 2 wp_step. wp_step. apply wp_modify_row. intros x y Hx Hy. wp_step.
  apply wp_deref. intros z Hz. wp_step. split.
  - pose proof (moves_fund s ir.1 x y Hx) as Hm.
    assert (fund_wls y = fund_wls x) as E.
    { unfold decay_claims in Hy. bind_oks. by destruct (_ <? _). }
    by rewrite E, Z.sub_diag in Hm.
  - unfold awarded. rewrite fmap_app, sumZ_app. unfold sumZ. simpl. lia.
Qed.

Lemma add_claim_moves funds ic s :
  wp (add_claim funds ic) (λ funds' s', moves s s' 0 0 0 0 ∧ awarded funds' = awarded funds) s.
Proof.
  unfold add_claim. pose proof (moves_refl s). wp_step; [|by wp_step]. wp_step.
  eapply wp_mono; [apply (stable_get_reward_fund still)|]. intros rf s1 Hm1. do 2 wp_step. bind_oks. wp_step.
  split; [done|]. erewrite awarded_insert by done. simpl. lia.
Qed.

Lemma cashout_step_moves funds s :
  wp (cashout_step funds) (λ r s', match r with
    | inl funds' => moves s s' (awarded funds - awarded funds') 0 0 0
    | inr funds' => moves s s' 0 0 0 0 ∧ awarded funds' = awarded funds end) s.
Proof.
  unfold cashout_step, head_block_time. pose proof (moves_refl s). do 4 wp_step.
  destruct (seek _ _ _) as [[i c]|]; [|by wp_step]. wp_step; [|by wp_step]. wp_step.
  eapply wp_mono; [apply (stable_get_reward_fund still)|]. intros rf s1 Hm1. do 2 wp_step. wp_step.
  known @cashout_comment_helper_moves. do 2 wp_step. wp_step. bind_oks.
  erewrite awarded_insert by done. simpl. moves_done.
Qed.

Lemma write_funds_moves i funds s :
  wp (write_funds i funds) (λ _ s', moves s s' (awarded funds) 0 0 0) s.
Proof.
  revert i s. induction funds as [|f funds IH]; intros i s; simpl; [wp_step; apply moves_refl|].
  wp_step. apply wp_get_row. intros _ _. wp_step. apply wp_modify_row. intros x y Hx Hy. bind_oks.
  match goal with |- context [<[i := ?y]>] => pose proof (moves_fund s i x y Hx) end.
  eapply wp_mono; [apply IH|]. intros ? s' H'. unfold awarded in *. rewrite fmap_cons.
  unfold sumZ in *. simpl foldr. moves_done.
Qed.

Lemma process_comment_cashout_moves : quiet process_comment_cashout.
Proof.
  intros s. unfold process_comment_cashout, head_block_time. do 3 wp_step.
  eapply wp_mono; [apply (wp_fold_m _ _ (λ funds s', moves s s' 0 0 0 0 ∧ awarded funds = 0))|].
  { intros acc ir s1 _ [Hm1 W1]. eapply wp_mono; [apply decay_fund_moves|]. intros acc' s2 [Hm2 W2].
    split; [by eapply moves_zero_trans|lia]. }
  { split; [apply moves_refl|done]. }
  intros funds s1 [Hm1 W1]. do 4 wp_step. wp_step.
  eapply wp_mono; [apply (wp_fold_m _ _ (λ funds s', moves s s' 0 0 0 0 ∧ awarded funds = 0))|].
  { intros acc ir s2 _ [Hm2 W2]. eapply wp_mono; [apply add_claim_moves|]. intros acc' s3 [Hm3 W3].
    split; [by eapply moves_zero_trans|lia]. }
  { done. }
  clear dependent s1 funds. intros funds s1 [Hm1 W1]. wp_step.
  eapply wp_mono; [apply (wp_loop_log _ _ (λ funds s', moves s s' (- awarded funds) 0 0 0)
    (λ funds s', moves s s' (- awarded funds) 0 0 0))|].
  { intros l s2 Hm2. eapply wp_mono; [apply cashout_step_moves|].
    intros [l'|l'] s3 Hm3; [|destruct Hm3 as [Hm3 W3]]; moves_done. }
  { moves_done. }
  intros funds' s2 Hm2. eapply wp_mono; [apply write_funds_moves|]. intros ? s3 Hm3. moves_done.
Qed.
End payout_moves.

(** ** Inflation *)

Section funds.
Context `{FC : FcLib}.

Lemma pay_reward_funds_moves r s :
  wp (pay_reward_funds r) (λ used s', moves s s' (- used) 0 0 0 ∧ used ≤ Z.max r 0) s.
Proof.
  unfold pay_reward_funds. do 2 wp_step.
  apply (wp_fold_m _ _ (λ used s', moves s s' (- used) 0 0 0 ∧ used ≤ Z.max r 0)).
  - intros u ir s1 _ [Hm1 Hu1]. unfold pay_reward_fund. do 5 wp_step.
    apply wp_modify_row. intros x y Hx Hy. bind_oks.
    match goal with |- context [<[ir.1 := ?y]>] => pose proof (moves_fund s1 ir.1 x y Hx) end.
    repeat wp_step. bind_oks.
    match goal with H : (_ <=? _) = true |- _ => apply Z.leb_le in H end. split; [moves_done|lia].
  - pose proof (moves_refl s). split; [moves_done|lia].
Qed.

(** The block's inflation: what is added to the supply is what the reward funds,
    the producer and the development fund get. *)
Lemma process_funds_moves : quiet process_funds.
Proof.
  intros s. unfold process_funds, head_block_num. repeat wp_step.
  eapply wp_mono; [apply pay_reward_funds_moves|]. intros content s1 [Hm1 _]. repeat wp_step.
  pass. repeat wp_step. gpo_step. wp_step. apply wp_get_account. intros i x _ _. wp_step.
  known @create_vesting_moves. wp_step. apply wp_get_account. intros j y _ _.
  account_step.
  moves_done.
Qed.
End funds.

Section ledger.
Context `{FC : FcLib}.

(** C20: paying out the comments that are due keeps the books balanced: what the
    authors, beneficiaries and curators get leaves the reward fund. *)
Theorem process_comment_cashout_ledger s s' :
  ledger_inv s → process_comment_cashout s = Ok (tt, s') → ledger_inv s'.
Proof.
  intros Hs E. exact (wp_ok _ _ _ _ _ (quiet_ledger _ s process_comment_cashout_moves Hs) E).
Qed.

(** The inflation of a block is added to the current supply exactly as it is
    handed out to the reward funds, the producer and the development fund. *)
Theorem process_funds_ledger s s' :
  ledger_inv s → process_funds s = Ok (tt, s') → ledger_inv s'.
Proof.
  intros Hs E. exact (wp_ok _ _ _ _ _ (quiet_ledger _ s process_funds_moves Hs) E).
Qed.
End ledger.

Lemma process_comment_cashout_ledger_witness :
  process_comment_cashout (FC := fc_ref) demo =
    Ok (tt, after (process_comment_cashout (FC := fc_ref)) demo) ∧
  ledger_inv (after (process_comment_cashout (FC := fc_ref)) demo).
Proof.
  split; [vm_compute; reflexivity|].
  exact (process_comment_cashout_ledger (FC := fc_ref) demo _ demo_ledger ltac:(vm_compute; reflexivity)).
Defined.

Lemma process_funds_ledger_witness :
  process_funds (FC := fc_ref) demo = Ok (tt, after (process_funds (FC := fc_ref)) demo) ∧
  ledger_inv (after (process_funds (FC := fc_ref)) demo).
Proof.
  split; [vm_compute; reflexivity|].
  exact (process_funds_ledger (FC := fc_ref) demo _ demo_ledger ltac:(vm_compute; reflexivity)).
Defined.

(** ** The payout loop ends *)

Section termination.
Context `{FC : FcLib}.

(** The cashout times of all comments: only [reset_comment] changes them. *)
Definition cashouts (s : chain) : gmap Z Z := cashout_time <$> rows (comments s).
Definition same_cashouts (s s' : chain) : Prop := cashouts s' = cashouts s ∧ time (gpo s') = time (gpo s).
#[local] Instance same_cashouts_preorder : PreOrder same_cashouts.
Proof. split; [done|]. intros ? ? ? [??] [??]. split; congruence. Qed.

Lemma same_cashouts_comment s i x y :
  rows (comments s) !! i = Some x → cashout_time y = cashout_time x →
  same_cashouts s (s <| comments ::= λ t, t <| rows ::= <[i := y]> |> |>).
Proof.
  intros Hx Hy. split; [|done]. unfold cashouts. simpl. rewrite fmap_insert, Hy. apply insert_id.
  by rewrite lookup_fmap, Hx.
Qed.

Ltac frame :=
  stable ltac:(first
    [ done
    | eapply same_cashouts_comment; [eassumption|bind_oks; done]
    | bind_oks; done
    | split; [done|bind_oks; repeat case_match; bind_oks; done] ]).

Lemma frame_adjust_proxied a d : stable same_cashouts (adjust_proxied_witness_votes a d).
Proof.
  intros s. eapply wp_mono; [apply adjust_proxied_normal|]. intros ? s' Hn.
  split; [exact (f_equal cashouts Hn)|exact (f_equal (λ s, time (gpo s)) Hn)].
Qed.
Hint Resolve frame_adjust_proxied : stable.
Lemma frame_create_vesting a v b : stable same_cashouts (create_vesting a v b).
Proof. unfold create_vesting. frame. Qed.
Hint Resolve frame_create_vesting : stable.
Lemma frame_pay_curators c m : stable same_cashouts (pay_curators c m).
Proof. unfold pay_curators, pay_curator. frame. Qed.
Lemma frame_pay_beneficiary a t b : stable same_cashouts (pay_beneficiary a t b).
Proof. unfold pay_beneficiary. frame. Qed.
Hint Resolve frame_pay_curators frame_pay_beneficiary : stable.
Lemma frame_share_reward c r : stable same_cashouts (share_reward c r).
Proof. unfold share_reward, adjust_total_payout. frame. Qed.
Hint Resolve frame_share_reward : stable.

Lemma cashout_comment_helper_cashouts f i s :
  wp (cashout_comment_helper f i) (λ _ s', cashouts s' = <[i := tps_max]> (cashouts s) ∧
    time (gpo s') = time (gpo s)) s.
Proof.
  unfold cashout_comment_helper. wp_step. apply wp_deref. intros c Hc. wp_step.
  match goal with |- wp ?m _ _ => assert (stable same_cashouts m) as Hm by frame end.
  eapply wp_mono; [apply Hm|]. clear Hm. intros claimed s1 [H1 T1]. unfold head_block_time.
  do 3 wp_step. apply wp_modify_row. intros x y Hx Hy.
  match goal with |- wp ?m ?Q ?s2 => assert (stable same_cashouts m) as Hm by frame;
    assert (cashouts s2 = <[i := tps_max]> (cashouts s) ∧ time (gpo s2) = time (gpo s)) as [H2 T2] end.
  { split; [|done]. rewrite <-H1. unfold cashouts. simpl. rewrite fmap_insert. f_equal.
    unfold reset_comment in Hy. bind_oks. by destruct (0 <? _). }
  eapply wp_mono; [apply Hm|]. intros ? s3 [H3 T3]. split; congruence.
Qed.

Definition dues (s : chain) : gmap Z Z := filter (λ it, it.2 ≤ time (gpo s)) (cashouts s).

Lemma cashout_round funds s funds' s' :
  time (gpo s) < tps_max → cashout_step funds s = Ok (inl funds', s') →
  time (gpo s') = time (gpo s) ∧ size (dues s) = S (size (dues s')).
Proof.
  intros Ht E. revert E.
  match goal with |- ?m s = _ → ?P => intros E; enough (wp m (λ r s', ∀ l, r = inl l →
    time (gpo s') = time (gpo s) ∧ size (dues s) = S (size (dues s'))) s) as Hwp by
    (unfold wp in Hwp; rewrite E in Hwp; by eapply Hwp) end.
  clear E funds' s'. unfold cashout_step, head_block_time. do 4 wp_step.
  destruct (seek _ _ _) as [[i c]|] eqn:Es; [|by wp_step]. wp_step; [|by wp_step].
  apply seek_Some in Es as (Hi & _).
  match goal with H : (_ <=? _) = true |- _ => apply Z.leb_le in H as Hle end.
  wp_step. eapply wp_mono; [apply (stable_get_reward_fund same_cashouts)|]. intros rf s1 [H1 T1].
  do 3 wp_step. eapply wp_mono; [apply cashout_comment_helper_cashouts|].
  intros claimed s2 [H2 T2]. do 2 wp_step. wp_step. intros l _. split; [congruence|].
  unfold dues. rewrite H2, H1, T2, T1, map_filter_insert_False by (simpl; lia).
  assert (filter (λ it, it.2 ≤ time (gpo s)) (cashouts s) !! i = Some (cashout_time c)) as Hdue
    by (apply map_lookup_filter_Some; split; [unfold cashouts; by rewrite lookup_fmap, Hi|done]).
  rewrite map_filter_delete, map_size_delete, Hdue.
  assert (size (filter (λ it, it.2 ≤ time (gpo s)) (cashouts s)) ≠ 0%nat); [|lia].
  by eapply map_size_ne_0_lookup_2.
Qed.

Lemma cashout_stop funds s :
  wp (cashout_step funds) (λ r s', ∀ l, r = inr l → ∀ i t, cashouts s' !! i = Some t → time (gpo s') < t) s.
Proof.
  unfold cashout_step, head_block_time. do 4 wp_step. destruct (seek _ _ _) as [[i c]|] eqn:Es.
  - apply seek_Some in Es as (Hi & _ & Hmin). apply wp_if; intros Hle; [repeat wp_step|].
    + eapply wp_mono; [apply (stable_get_reward_fund same_cashouts)|]. intros rf s1 _. repeat wp_step.
      eapply wp_mono; [apply cashout_comment_helper_cashouts|]. intros ? s2 _. by repeat wp_step.
    + wp_step. intros l _ j t Hj. apply Z.leb_gt in Hle. unfold cashouts in Hj.
      rewrite lookup_fmap in Hj. destruct (rows (comments s) !! j) as [b|] eqn:Ej; [|done].
      injection Hj as <-. specialize (Hmin j b Ej eq_refl). apply key_ltb_false in Hmin.
      unfold by_cashout_time in Hmin. simpl in Hmin. lia.
  - wp_step. intros l _ j t Hj. apply seek_begin_None in Es. unfold cashouts in Hj.
    by rewrite lookup_fmap, Es in Hj.
Qed.

Lemma write_funds_frame i funds : stable same_cashouts (write_funds i funds).
Proof. revert i. induction funds as [|f funds IH]; intros i; simpl; frame. Qed.

(** C23: the payout loop of a block ends: the 64-bit counter of the model never
    runs out, and when [process_comment_cashout] returns no comment's payout time
    has come. *)
Theorem process_comment_cashout_done s :
  time (gpo s) < tps_max → Z.of_nat (size (rows (comments s))) < 2 ^ 64 →
  (∀ funds funds' s', iter_log 64 cashout_step funds s ≠ Ok (inl funds', s')) ∧
  (∀ s', process_comment_cashout s = Ok (tt, s') →
    ∀ i c, rows (comments s') !! i = Some c → time (gpo s') < cashout_time c).
Proof.
  intros Ht Hsize. split.
  - intros funds. apply (iter_log_fuel 64 cashout_step (λ _ s, time (gpo s) < tps_max)
      (λ _ s, Z.of_nat (size (dues s)))); [|done|].
    + intros l s1 Ht1 l' s2 E. apply cashout_round in E as [T E]; [|done]. rewrite T. split; [done|lia].
    + eapply Z.le_lt_trans; [|exact Hsize]. unfold dues. apply Nat2Z.inj_le.
      etransitivity; [apply map_size_filter|]. unfold cashouts. by rewrite map_size_fmap.
  - intros s' E i c Hc.
    enough (wp process_comment_cashout (λ _ s', ∀ i t, cashouts s' !! i = Some t → time (gpo s') < t) s) as Hwp.
    { apply (wp_ok _ _ _ _ _ Hwp E i). unfold cashouts. by rewrite lookup_fmap, Hc. }
    unfold process_comment_cashout, head_block_time. do 3 wp_step.
    apply wp_mono with (Q := λ _ _, True); [by apply (wp_fold_m _ _ (λ _ _, True)); [intros; apply wp_intro|]|].
    intros funds s1 _. do 5 wp_step.
    apply wp_mono with (Q := λ _ _, True); [by apply (wp_fold_m _ _ (λ _ _, True)); [intros; apply wp_intro|]|].
    intros funds1 s2 _. wp_step.
    eapply wp_mono; [apply (wp_loop_log _ _ (λ _ _, True)
      (λ _ s', ∀ i t, cashouts s' !! i = Some t → time (gpo s') < t)); [|done]|].
    { intros l s3 _. eapply wp_mono; [apply cashout_stop|]. intros [?|?] s4 H4; [done|by eapply H4]. }
    intros l s3 H3. eapply wp_mono; [apply write_funds_frame|]. intros ? s4 [H4 T4].
    rewrite H4, T4. exact H3.
Qed.
End termination.

Lemma process_comment_cashout_done_witness :
  let s' := after (process_comment_cashout (FC := fc_ref)) demo in
  process_comment_cashout (FC := fc_ref) demo = Ok (tt, s') ∧
  ∀ i c, rows (comments s') !! i = Some c → time (gpo s') < cashout_time c.
Proof.
  split; [vm_compute; reflexivity|].
  apply (process_comment_cashout_done (FC := fc_ref) demo);
    [vm_compute; reflexivity|vm_compute; reflexivity|vm_compute; reflexivity].
Defined.
