(* ===== verification/Schedule.v ===== *)
(** * Schedule: slots and the witness schedule

    [libraries/chain/witness_schedule.cpp] and the slot functions of
    [libraries/chain/database.cpp]: which witness may produce a block in which
    three-second slot, and the choice, every 21 blocks, of the next 21
    witnesses. *)

From S2P Require Import Prelude FcLib Tables Config Asset Names Authority Operations Reward Objects Ledger Invariants.

Section schedule.
Context `{FC : FcLib}.

(** ** Slots *)

(** database.cpp:876 *)
Definition get_scheduled_witness (slot_num : Z) (s : chain) : result string :=
  let aslot := wrap 64 (current_aslot (gpo s) + slot_num) in
  if num_scheduled_witnesses (wso s) =? 0 then Err undefined_behaviour
  else of_option undefined_behaviour
         (current_shuffled_witnesses (wso s) !! Z.to_nat (aslot mod num_scheduled_witnesses (wso s))).

(** database.cpp:884 *)
Definition get_slot_time (slot_num : Z) (s : chain) : Z :=
  if slot_num =? 0 then 0
  else
    let offset := wrap 32 (slot_num * WLS_BLOCK_INTERVAL) in
    if head_block_number (gpo s) =? 0 then tps_add (time (gpo s)) offset
    else
      let head_block_abs_slot := Z.quot (time (gpo s)) WLS_BLOCK_INTERVAL in
      let head_slot_time := wrap 32 (head_block_abs_slot * WLS_BLOCK_INTERVAL) in
      tps_add head_slot_time offset.

(** database.cpp:908 *)
Definition get_slot_at_time (when : Z) (s : chain) : Z :=
  let first_slot_time := get_slot_time 1 s in
  if when <? first_slot_time then 0
  else wrap 32 (Z.quot (when - first_slot_time) WLS_BLOCK_INTERVAL + 1).

(** ** The choice of the witnesses *)

(** [by_vote_name] and [by_schedule_time] order *)
Definition more_votes (a b : witness_object) : bool :=
  (votes b <? votes a) || ((votes a =? votes b) && negb (String.ltb (owner b) (owner a))).
Definition sooner (a b : Z * witness_object) : Prop :=
  virtual_scheduled_time a.2 < virtual_scheduled_time b.2 ∨
  (virtual_scheduled_time a.2 = virtual_scheduled_time b.2 ∧ a.1 ≤ b.1).
#[global] Instance sooner_dec : RelDecision sooner.
Proof. intros a b. unfold sooner. apply _. Defined.
Definition by_schedule_time (t : table witness_object) : list (Z * witness_object) :=
  merge_sort sooner (map_to_list (rows t)).

(** witness_schedule.cpp:79: [n] is how many may still be selected *)
Fixpoint select_voted (n : nat) (l : list (Z * witness_object)) : list (Z * witness_object) :=
  match l, n with
  | [], _ | _, O => []
  | iw :: l, S n' =>
    if signing_key iw.2 =? 0 then select_voted n l else iw :: select_voted n' l
  end.

(** witness_schedule.cpp:97: the new virtual time, the witnesses that were looked
    at and those that were added *)
Fixpoint select_running (n : nat) (l : list (Z * witness_object)) (selected : list Z) (vt : Z)
    : Z * list (Z * witness_object) * list (Z * witness_object) :=
  match l, n with
  | [], _ | _, O => (vt, [], [])
  | iw :: l, S n' =>
    let vt := virtual_scheduled_time iw.2 in
    if (signing_key iw.2 =? 0) || bool_decide (iw.1 ∈ selected) then
      let r := select_running n l selected vt in (r.1.1, iw :: r.1.2, r.2)
    else
      let r := select_running n' l selected vt in (r.1.1, iw :: r.1.2, iw :: r.2)
  end.

(** witness_schedule.cpp:119: tells whether the virtual time overflows *)
Fixpoint advance_virtual_time (vt : Z) (l : list (Z * witness_object)) : M chain bool :=
  match l with
  | [] => mret false
  | iw :: l =>
    w ← deref witnesses iw.1;
    let next := u128_add vt
      (u128_div VIRTUAL_SCHEDULE_LAP_LENGTH (u128_of_i64 (swrap 64 (votes w + 1)))) in
    if next <? vt then mret true
    else
      modify_witness iw.1 (λ w, mret (w <| virtual_position := 0 |>
        <| virtual_last_update := vt |> <| virtual_scheduled_time := next |>));;
      advance_virtual_time vt l
  end.

(** witness_schedule.cpp:10 *)
Definition reset_virtual_schedule_time : M chain unit :=
  modify_wso (λ o, mret (o <| current_virtual_time := 0 |>));;
  t ← gets witnesses;
  for_each (ascending (rows t)) (λ iw, modify_witness iw.1 (λ w,
    mret (w <| virtual_position := 0 |> <| virtual_last_update := 0 |>
      <| virtual_scheduled_time :=
           u128_div VIRTUAL_SCHEDULE_LAP_LENGTH2 (u128_of_i64 (swrap 64 (votes w + 1))) |>))).

(** ** Versions *)

(** A [flat_map] of counters: one more for [k]. *)
Fixpoint bump {K} (lt eq : K → K → bool) (k : K) (l : list (K * Z)) : list (K * Z) :=
  match l with
  | [] => [(k, 1)]
  | (k', n) :: l' =>
    if eq k k' then (k', wrap 32 (n + 1)) :: l'
    else if lt k k' then (k, 1) :: l
    else (k', n) :: bump lt eq k l'
  end.
Definition count_all {K} (lt eq : K → K → bool) (l : list K) : list (K * Z) :=
  foldl (λ m k, bump lt eq k m) [] l.

(** witness_schedule.cpp:164: the highest version that enough witnesses run *)
Fixpoint find_majority (required on : Z) (l : list (Z * Z)) : option Z :=
  match l with
  | [] => None
  | (v, n) :: l =>
    let on := on + n in
    if required <=? on then Some v else find_majority required on l
  end.

Definition vote_ltb (a b : Z * Z) : bool := (a.1 <? b.1) || ((a.1 =? b.1) && (a.2 <? b.2)).
Definition vote_eqb (a b : Z * Z) : bool := (a.1 =? b.1) && (a.2 =? b.2).

(** The scheduled witnesses: the objects of the names in the schedule. *)
Definition scheduled_witnesses : M chain (list witness_object) :=
  s ← gets wso;
  fold_m (seqZ 0 (num_scheduled_witnesses s)) (λ acc i,
    n ← lift (of_option undefined_behaviour (current_shuffled_witnesses s !! Z.to_nat i));
    w ← get_witness n; mret (acc ++ [w.2])) [].

(** witness_schedule.cpp:144-210 *)
Definition update_versions : M chain Z :=
  s ← gets wso;
  ws ← scheduled_witnesses;
  let versions := count_all (λ a b, b <? a) Z.eqb (running_version <$> ws) in
  let hf_votes := count_all vote_ltb vote_eqb
    ((λ w, (hardfork_version_vote w, hardfork_time_vote w)) <$> ws) in
  (match List.find (λ e, hardfork_required_witnesses s <=? e.2) hf_votes with
   | Some (hf, _) =>
     h ← gets hpo;
     if negb ((next_hardfork h =? hf.1) && (next_hardfork_time h =? hf.2)) then
       modify_hpo (λ h, h <| next_hardfork := hf.1 |> <| next_hardfork_time := hf.2 |>)
     else mret tt
   | None => modify_hpo (λ h, h <| next_hardfork := current_hardfork_version h |>)
   end);;
  mret (default (majority_version s) (find_majority (hardfork_required_witnesses s) 0 versions)).

(** ** The shuffle *)

Definition XORSHIFT : Z := 2685821657736338717.

(** witness_schedule.cpp:238: the random position at or after [i], of [n] *)
Definition shuffle_index (now_hi i n : Z) : Z :=
  let k := wrap 64 (now_hi + wrap 64 (i * XORSHIFT)) in
  let k := Z.lxor k (Z.shiftr k 12) in
  let k := Z.lxor k (wrap 64 (Z.shiftl k 25)) in
  let k := Z.lxor k (Z.shiftr k 27) in
  let k := wrap 64 (k * XORSHIFT) in
  i + k mod (n - i).

Definition swap_at {A} (i j : nat) (l : list A) : result (list A) :=
  x ← of_option undefined_behaviour (l !! i);
  y ← of_option undefined_behaviour (l !! j);
  mret (<[j := x]> (<[i := y]> l)).

(** witness_schedule.cpp:234, from position [i] on *)
Fixpoint shuffle (rounds : nat) (now_hi i n : Z) (l : list string) : result (list string) :=
  match rounds with
  | O => mret l
  | S rounds =>
    l ← swap_at (Z.to_nat i) (Z.to_nat (shuffle_index now_hi i n)) l;
    shuffle rounds now_hi (i + 1) n l
  end.

(** witness_schedule.cpp:215: the new schedule *)
Definition new_schedule (now head_num : Z) (elected running : list string) (vt version : Z)
    (s : witness_schedule_object) : result witness_schedule_object :=
  let active := elected ++ running in
  let names := active ++ drop (length active) (replicate (Z.to_nat WLS_MAX_WITNESSES) ""%string) in
  let n := Z.max (wrap 8 (Z.of_nat (length active))) 1 in
  names ← shuffle (Z.to_nat n) (wrap 64 (Z.shiftl now 32)) 0 n names;
  mret (s <| current_shuffled_witnesses := names |> <| num_scheduled_witnesses := n |>
    <| witness_pay_normalization_factor :=
         wrap 32 (top19_weight s * Z.of_nat (length elected)
                  + timeshare_weight s * Z.of_nat (length running)) |>
    <| current_virtual_time := vt |> <| next_shuffle_block_num := wrap 32 (head_num + n) |>
    <| majority_version := version |>).

(** ** Median properties *)

(** The element in the middle of the sorted list: [std::sort] and [size / 2]. *)
Definition key_le {A} (key : A → Z) (a b : A) : Prop := key a ≤ key b.
#[global] Instance key_le_dec {A} (key : A → Z) : RelDecision (key_le key).
Proof. intros a b. unfold key_le. apply _. Defined.
Definition median {A} (key : A → Z) (l : list A) : result A :=
  of_option undefined_behaviour
    (merge_sort (key_le key) l !! (length l / 2)%nat).

(** witness_schedule.cpp:30.  [std::sort] does not say how it orders equal fees:
    they are equal assets, every fee is in WLS. *)
Definition update_median_witness_props : M chain unit :=
  ws ← scheduled_witnesses;
  fee ← lift (median amount ((λ w, account_creation_fee (props w)) <$> ws));
  size ← lift (median id ((λ w, maximum_block_size (props w)) <$> ws));
  modify_wso (λ s, mret (s <| median_props ::= λ p,
    p <| account_creation_fee := fee |> <| maximum_block_size := size |> |>));;
  modify_gpo (λ g, mret (g <| gpo_maximum_block_size := size |>)).

(** witness_schedule.cpp:68 *)
Definition update_witness_schedule4 : M chain unit :=
  s ← gets wso;
  t ← gets witnesses;
  let voted := select_voted (Z.to_nat (max_voted_witnesses s)) (sorted_rows more_votes t) in
  for_each voted (λ iw, modify_witness iw.1 (λ w, mret (w <| schedule := top19 |>)));;
  let r := select_running (Z.to_nat WLS_MAX_WITNESSES - length voted) (by_schedule_time t)
             voted.*1 (current_virtual_time s) in
  let running := r.2 in
  for_each running (λ iw, modify_witness iw.1 (λ w, mret (w <| schedule := timeshare |>)));;
  reset ← advance_virtual_time r.1.1 r.1.2;
  vt ← (if (reset : bool) then reset_virtual_schedule_time;; mret 0 else mret r.1.1);
  assert (length (voted ++ running) =? Nat.min (Z.to_nat WLS_MAX_WITNESSES) (size (rows t)))%nat;;
  version ← update_versions;
  now ← head_block_time;
  n ← head_block_num;
  modify_wso (new_schedule now n (owner ∘ snd <$> voted) (owner ∘ snd <$> running) vt version);;
  update_median_witness_props.

(** witness_schedule.cpp:263 *)
Definition update_witness_schedule : M chain unit :=
  n ← head_block_num;
  if n mod WLS_MAX_WITNESSES =? 0 then update_witness_schedule4 else mret tt.

End schedule.
