(* ===== verification/ScheduleSpec.v ===== *)
(** * ScheduleSpec: the properties of the witness schedule

    Slot numbers and slot times are inverse to each other; the shuffle permutes
    the scheduled names whatever the "random" numbers are; over a round of slots
    every scheduled witness produces once; the elected witnesses are the ones
    with the most votes; the majority version and the median properties are what
    their names say. *)

From S2P Require Import Prelude FcLib Tables Config Asset Names Authority Operations Reward Objects Ledger Invariants Evaluators Conservation Demo LedgerSpec Schedule.

(** ** Slots *)

Section slots.
Context `{FC : FcLib}.

Lemma get_slot_time_exact n s :
  head_block_number (gpo s) ≠ 0 → 0 ≤ time (gpo s) → 1 ≤ n →
  time (gpo s) + WLS_BLOCK_INTERVAL * n < 2 ^ 32 →
  get_slot_time n s = WLS_BLOCK_INTERVAL * (time (gpo s) `div` WLS_BLOCK_INTERVAL + n).
Proof.
  unfold WLS_BLOCK_INTERVAL. intros Hh Ht Hn Hb. unfold get_slot_time, WLS_BLOCK_INTERVAL.
  rewrite (proj2 (Z.eqb_neq n 0)), (proj2 (Z.eqb_neq _ 0) Hh) by lia.
  rewrite Z.quot_div_nonneg, tps_add_spec by lia.
  pose proof (Z.div_mod (time (gpo s)) 3 ltac:(lia)). pose proof (Z.mod_pos_bound (time (gpo s)) 3 ltac:(lia)).
  rewrite (wrap_small 32 (n * 3)), (wrap_small 32 (_ `div` 3 * 3)), wrap_small by lia. lia.
Qed.

(** On a chain with a block, [get_slot_at_time] gives slot [n] exactly for the
    times from [get_slot_time n] until the next slot; slots start after the head
    block and at multiples of the block interval. *)
Theorem slot_at_time_inverse n when s :
  head_block_number (gpo s) ≠ 0 → 0 ≤ time (gpo s) → 1 ≤ n → 0 ≤ when < 2 ^ 32 →
  time (gpo s) + WLS_BLOCK_INTERVAL * (n + 1) < 2 ^ 32 →
  (get_slot_at_time when s = n ↔ get_slot_time n s ≤ when < get_slot_time (n + 1) s) ∧
  time (gpo s) < get_slot_time n s ∧ get_slot_time n s mod WLS_BLOCK_INTERVAL = 0.
Proof.
  intros Hh Ht Hn Hw Hb. unfold get_slot_at_time.
  rewrite !get_slot_time_exact by (unfold WLS_BLOCK_INTERVAL in *; lia).
  unfold WLS_BLOCK_INTERVAL in *.
  pose proof (Z.div_mod (time (gpo s)) 3 ltac:(lia)). pose proof (Z.mod_pos_bound (time (gpo s)) 3 ltac:(lia)).
  set (h := time (gpo s) `div` 3) in *. split_and!; [|lia|].
  - destruct (when <? 3 * (h + 1)) eqn:E.
    + apply Z.ltb_lt in E. lia.
    + apply Z.ltb_ge in E. rewrite Z.quot_div_nonneg by lia.
      pose proof (Z.div_mod (when - 3 * (h + 1)) 3 ltac:(lia)).
      pose proof (Z.mod_pos_bound (when - 3 * (h + 1)) 3 ltac:(lia)).
      set (q := (when - 3 * (h + 1)) `div` 3) in *. rewrite wrap_small; lia.
  - rewrite Z.mul_comm. by apply Z.mod_mul.
Qed.
End slots.

(** ** The shuffle *)

Lemma shuffle_index_range now_hi i n : 0 ≤ i < n → i ≤ shuffle_index now_hi i n < n.
Proof.
  intros H. unfold shuffle_index.
  match goal with |- context [?k mod (n - i)] => pose proof (Z.mod_pos_bound k (n - i) ltac:(lia)) end. lia.
Qed.

(** [l'] is [l] with its first [n] elements permuted. *)
Definition permuted_prefix {A} (n : nat) (l l' : list A) : Prop :=
  take n l' ≡ₚ take n l ∧ drop n l' = drop n l.
#[global] Instance permuted_prefix_preorder {A} n : PreOrder (@permuted_prefix A n).
Proof.
  split; [done|]. intros l1 l2 l3 [H1 E1] [H2 E2]. split; [by rewrite H2|by rewrite E2].
Qed.

Lemma swap_at_permutes {A} (n i j : nat) (l : list A) :
  (i < n)%nat → (j < n)%nat → (n ≤ length l)%nat →
  ∃ l', swap_at i j l = Ok l' ∧ permuted_prefix n l l' ∧ length l' = length l.
Proof.
  intros Hi Hj Hn. unfold swap_at.
  destruct (lookup_lt_is_Some_2 l i ltac:(lia)) as [x Hx].
  destruct (lookup_lt_is_Some_2 l j ltac:(lia)) as [y Hy].
  rewrite Hx, Hy. simpl. eexists. split; [done|]. split.
  - assert (drop n (<[j:=x]> (<[i:=y]> l)) = drop n l) as Ed by (by rewrite !drop_insert_lt).
    split; [|done]. apply (Permutation_app_inv_r (drop n l)). rewrite <-Ed at 1.
    rewrite !take_drop. by apply Permutation_insert_swap.
  - by rewrite !length_insert.
Qed.

Lemma shuffle_permutes rounds now_hi i n l :
  0 ≤ i → Z.of_nat rounds = n - i → n ≤ Z.of_nat (length l) →
  ∃ l', shuffle rounds now_hi i n l = Ok l' ∧ permuted_prefix (Z.to_nat n) l l' ∧ length l' = length l.
Proof.
  revert i l. induction rounds as [|rounds IH]; intros i l Hi Hr Hn; simpl.
  { exists l. split_and!; [done|reflexivity|done]. }
  pose proof (shuffle_index_range now_hi i n ltac:(lia)).
  destruct (swap_at_permutes (Z.to_nat n) (Z.to_nat i) (Z.to_nat (shuffle_index now_hi i n)) l)
    as (l1 & -> & H1 & L1); [lia..|]. simpl.
  destruct (IH (i + 1) l1) as (l2 & -> & H2 & L2); [lia..|].
  exists l2. split_and!; [done|by transitivity l1|lia].
Qed.

(** The new schedule always exists and its first [num_scheduled_witnesses]
    names are the elected and running witnesses in some order: the shuffle loses
    nobody, doubles nobody and never leaves the array, whatever the block time
    makes of the generator.  The other positions are empty. *)
Lemma new_schedule_permutes now head_num elected running vt version s
    (active := elected ++ running) :
  Z.of_nat (length active) ≤ WLS_MAX_WITNESSES →
  ∃ s', new_schedule now head_num elected running vt version s = Ok s' ∧
    num_scheduled_witnesses s' = Z.max 1 (Z.of_nat (length active)) ∧
    take (Z.to_nat (num_scheduled_witnesses s')) (current_shuffled_witnesses s') ≡ₚ
      (if decide (active = []) then [""%string] else active) ∧
    length (current_shuffled_witnesses s') = Z.to_nat WLS_MAX_WITNESSES ∧
    ∀ i, num_scheduled_witnesses s' ≤ Z.of_nat i < WLS_MAX_WITNESSES →
      current_shuffled_witnesses s' !! i = Some ""%string.
Proof.
  intros Hlen. unfold new_schedule. fold active. unfold WLS_MAX_WITNESSES in *.
  set (rest := drop (length active) (replicate (Z.to_nat 21) ""%string)).
  assert (length (active ++ rest) = 21)%nat as L
    by (unfold rest; rewrite length_app, length_drop, length_replicate; lia).
  rewrite (wrap_small 8) by lia.
  destruct (shuffle_permutes (Z.to_nat (Z.max (Z.of_nat (length active)) 1)) (wrap 64 (Z.shiftl now 32)) 0
    (Z.max (Z.of_nat (length active)) 1) (active ++ rest)) as (l & -> & [Hp Hd] & Ll); [lia..|].
  eexists. split; [reflexivity|]. simpl. rewrite L in Ll.
  assert (take (Z.to_nat (Z.max (Z.of_nat (length active)) 1)) (active ++ rest) =
    if decide (active = []) then [""%string] else active) as Et.
  { unfold rest. destruct (decide _) as [->|Hne]; [done|].
    assert (length active ≠ 0)%nat by (by intros ?%length_zero_iff_nil).
    rewrite Z.max_l, Nat2Z.id by lia. by rewrite take_app_length. }
  split_and!; [lia|by rewrite Hp, Et|done|].
  intros i Hi. set (n := Z.to_nat (Z.max (Z.of_nat (length active)) 1)) in *.
  assert (n ≤ i ∧ length active ≤ i ∧ i < 21)%nat as (? & ? & ?) by (unfold n; lia). clearbody n.
  replace i with (n + (i - n))%nat by lia. rewrite <-lookup_drop, Hd, lookup_drop.
  rewrite lookup_app_r by lia. unfold rest. rewrite lookup_drop. apply lookup_replicate. split; [done|lia].
Qed.

(** ** A round of slots *)

Lemma seqZ_mod_perm a n : 0 < n → (λ k, k mod n) <$> seqZ a n ≡ₚ seqZ 0 n.
Proof.
  intros Hn. apply NoDup_Permutation.
  - apply NoDup_fmap_2_strong; [|apply NoDup_seqZ]. intros x y Hx%elem_of_seqZ Hy%elem_of_seqZ E.
    pose proof (Z.div_mod x n ltac:(lia)). pose proof (Z.div_mod y n ltac:(lia)).
    destruct (Z.lt_trichotomy (x `div` n) (y `div` n)) as [?|[?|?]]; nia.
  - apply NoDup_seqZ.
  - intros x. rewrite list_elem_of_fmap, elem_of_seqZ. split.
    + intros (y & -> & _). pose proof (Z.mod_pos_bound y n Hn). lia.
    + intros Hx. exists (a + (x - a) mod n). split.
      * rewrite Z.add_mod_idemp_r by lia. replace (a + (x - a)) with x by lia. by rewrite Z.mod_small by lia.
      * apply elem_of_seqZ. pose proof (Z.mod_pos_bound (x - a) n Hn). lia.
Qed.

Lemma lookup_seqZ_take {A} (d : A) (l : list A) n :
  0 ≤ n ≤ Z.of_nat (length l) → (λ k, default d (l !! Z.to_nat k)) <$> seqZ 0 n = take (Z.to_nat n) l.
Proof.
  intros Hn. apply list_eq. intros i. rewrite list_lookup_fmap.
  destruct (decide (i < Z.to_nat n)%nat) as [Hi|Hi].
  - rewrite lookup_seqZ_lt, lookup_take_lt by lia. simpl. rewrite Z.add_0_l, Nat2Z.id.
    by destruct (lookup_lt_is_Some_2 l i ltac:(lia)) as [x ->].
  - rewrite lookup_seqZ_ge, lookup_take_ge by lia. done.
Qed.

(** Over any [num_scheduled_witnesses] slots in a row every scheduled witness
    has its turn once: their witnesses are a permutation of the schedule. *)
Theorem scheduled_round_robin `{FC : FcLib} slot s (n := num_scheduled_witnesses (wso s)) :
  0 < n ≤ Z.of_nat (length (current_shuffled_witnesses (wso s))) →
  0 ≤ slot → 0 ≤ current_aslot (gpo s) → current_aslot (gpo s) + slot + n < 2 ^ 64 →
  ∃ l, Forall2 (λ k w, get_scheduled_witness k s = Ok w) (seqZ slot n) l ∧
    l ≡ₚ take (Z.to_nat n) (current_shuffled_witnesses (wso s)).
Proof.
  intros Hn Hs Ha Hb. set (names := current_shuffled_witnesses (wso s)) in *.
  set (turn k := default ""%string (names !! Z.to_nat ((current_aslot (gpo s) + k) mod n))).
  exists (turn <$> seqZ slot n). split.
  - apply Forall2_fmap_r. apply Forall_Forall2_diag. apply Forall_seqZ. intros k Hk. unfold get_scheduled_witness, turn.
    fold n names. rewrite (proj2 (Z.eqb_neq n 0)) by lia. rewrite (wrap_small 64) by lia.
    pose proof (Z.mod_pos_bound (current_aslot (gpo s) + k) n ltac:(lia)).
    simpl. by destruct (lookup_lt_is_Some_2 names (Z.to_nat ((current_aslot (gpo s) + k) mod n)) ltac:(lia)) as [x ->].
  - rewrite <-(lookup_seqZ_take ""%string) by lia.
    rewrite <-(seqZ_mod_perm (current_aslot (gpo s) + slot)) by lia.
    rewrite <-(fmap_add_seqZ (current_aslot (gpo s))), <-!list_fmap_compose. done.
Qed.

(** ** The elected witnesses *)

Definition has_key (iw : Z * witness_object) : Prop := signing_key iw.2 ≠ 0.
#[global] Instance has_key_dec iw : Decision (has_key iw).
Proof. unfold has_key. apply _. Defined.

Lemma select_voted_take n l : select_voted n l = take n (filter has_key l).
Proof.
  revert n. induction l as [|iw l IH]; intros n; [by destruct n|].
  destruct n as [|n]; [done|]. simpl. destruct (Z.eqb_spec (signing_key iw.2) 0) as [E|E].
  - by rewrite filter_cons_False by (unfold has_key; auto).
  - rewrite filter_cons_True by done. simpl. by rewrite IH.
Qed.

Lemma select_running_take n l sel vt :
  (select_running n l sel vt).2 = take n (filter (λ iw, has_key iw ∧ iw.1 ∉ sel) l).
Proof.
  revert n vt. induction l as [|iw l IH]; intros n vt; [by destruct n|].
  destruct n as [|n]; [done|]. simpl.
  destruct (Z.eqb_spec (signing_key iw.2) 0) as [E|E]; simpl.
  { by rewrite filter_cons_False by (unfold has_key; tauto). }
  case_bool_decide as Hin; simpl; rewrite IH.
  - by rewrite filter_cons_False by (unfold has_key; tauto).
  - by rewrite filter_cons_True by done.
Qed.

Lemma StronglySorted_filter {A} (R : relation A) (P : A → Prop) `{∀ x, Decision (P x)} l :
  StronglySorted R l → StronglySorted R (filter P l).
Proof.
  induction 1 as [|x l Hl IH Hx]; [constructor|]. rewrite filter_cons.
  destruct (decide (P x)); [|done]. constructor; [done|].
  rewrite Forall_forall in *. intros y [_ Hy]%list_elem_of_filter. auto.
Qed.

(** The first index is a decreasing order of the votes. *)
Lemma more_votes_sorted (t : table witness_object) :
  StronglySorted (λ a b, votes b.2 ≤ votes a.2) (sorted_rows more_votes t).
Proof.
  apply Sorted_StronglySorted; [intros a b c ??; lia|].
  assert (Sorted (row_le more_votes) (sorted_rows more_votes t)) as H.
  { apply Sorted_merge_sort. intros [i a] [j b]. unfold row_le, more_votes. simpl.
    destruct (Z.lt_trichotomy (votes a) (votes b)) as [?|[->|?]].
    - right. apply orb_true_iff. left. by apply Z.ltb_lt.
    - rewrite !Z.ltb_irrefl, Z.eqb_refl. simpl. unfold String.ltb.
      rewrite (String.compare_antisym (owner b)). destruct (String.compare (owner a) (owner b)); auto.
    - left. apply orb_true_iff. left. by apply Z.ltb_lt. }
  induction H as [|x l Hl IH Hhd]; constructor; [done|].
  destruct Hhd as [|y l Hxy]; constructor. unfold row_le, more_votes in Hxy.
  apply orb_true_iff in Hxy as [?%Z.ltb_lt|[?%Z.eqb_eq _]%andb_true_iff]; lia.
Qed.

Lemma scheduled_witnesses_frame : stable (=) scheduled_witnesses.
Proof. unfold scheduled_witnesses. stable idtac. Qed.

Section update.
Context `{FC : FcLib}.

(** The median properties leave the schedule alone. *)
Lemma update_median_schedule :
  stable (λ s s', current_shuffled_witnesses (wso s') = current_shuffled_witnesses (wso s) ∧
    num_scheduled_witnesses (wso s') = num_scheduled_witnesses (wso s)) update_median_witness_props.
Proof.
  intros s. unfold update_median_witness_props, modify_wso, modify_gpo.
  wp_step. eapply wp_mono; [apply scheduled_witnesses_frame|]. intros ws s1 <-. repeat wp_step.
  unfold mret, result_ret in *. by simplify_eq/=.
Qed.

Definition owners (l : list (Z * witness_object)) : list string := (owner ∘ snd) <$> l.

(** The witnesses that are chosen, written as prefixes of filtered indices. *)
Section chosen.
Context (s : chain).
Abbreviation w := (rows (witnesses s)).
Definition candidates : list (Z * witness_object) := filter has_key (sorted_rows more_votes (witnesses s)).
Definition voted : list (Z * witness_object) := take (Z.to_nat (max_voted_witnesses (wso s))) candidates.
Definition running : list (Z * witness_object) :=
  take (Z.to_nat WLS_MAX_WITNESSES - length voted)
    (filter (λ iw, has_key iw ∧ iw.1 ∉ voted.*1) (by_schedule_time (witnesses s))).

Lemma chosen_rows i x : (i, x) ∈ voted ++ running → w !! i = Some x ∧ signing_key x ≠ 0.
Proof.
  intros [Hi|Hi]%elem_of_app; apply elem_of_take in Hi as (k & Hi & _);
  apply list_elem_of_lookup_2, list_elem_of_filter in Hi as [Hk Hi].
  - split; [by apply elem_of_sorted_rows in Hi|done].
  - split; [|apply Hk]. unfold by_schedule_time in Hi. rewrite merge_sort_Permutation in Hi.
    by apply elem_of_map_to_list.
Qed.

Lemma chosen_NoDup : NoDup (voted ++ running).
Proof.
  apply NoDup_app. split_and!.
  - eapply sublist_NoDup; [|apply sublist_take]. apply NoDup_filter.
    unfold sorted_rows. rewrite merge_sort_Permutation. apply NoDup_map_to_list.
  - intros iw Hv Hr. apply elem_of_take in Hr as (k & Hr & _).
    apply list_elem_of_lookup_2, list_elem_of_filter in Hr as [[_ Hni] _].
    apply Hni, list_elem_of_fmap. by exists iw.
  - eapply sublist_NoDup; [|apply sublist_take]. apply NoDup_filter.
    unfold by_schedule_time. rewrite merge_sort_Permutation. apply NoDup_map_to_list.
Qed.

Lemma owners_NoDup :
  (∀ i j x y, w !! i = Some x → w !! j = Some y → owner x = owner y → i = j) →
  NoDup (owners (voted ++ running)).
Proof.
  intros Hown. apply NoDup_fmap_2_strong; [|apply chosen_NoDup].
  intros [i x] [j y] [Hx _]%chosen_rows [Hy _]%chosen_rows Ho. simpl in Ho.
  assert (i = j) as <- by (by eapply Hown). f_equal. congruence.
Qed.

Lemma voted_most i x :
  0 ≤ max_voted_witnesses (wso s) → w !! i = Some x → signing_key x ≠ 0 → (i, x) ∉ voted →
  Z.of_nat (length voted) = max_voted_witnesses (wso s) ∧
  ∀ j y, (j, y) ∈ voted → votes x ≤ votes y.
Proof.
  intros Hmax Hx Hk Hni. set (n := Z.to_nat (max_voted_witnesses (wso s))).
  assert ((i, x) ∈ candidates) as Hl
    by (apply list_elem_of_filter; split; [done|by apply elem_of_sorted_rows]).
  rewrite <-(take_drop n candidates) in Hl. apply elem_of_app in Hl as [?|Hd]; [done|]. split.
  - unfold voted. fold n. rewrite length_take. apply list_elem_of_lookup_1 in Hd as [k Hd].
    rewrite lookup_drop in Hd. apply lookup_lt_Some in Hd. lia.
  - intros j y Hy. assert (StronglySorted (λ a b, votes b.2 ≤ votes a.2) candidates) as Hs
      by apply StronglySorted_filter, more_votes_sorted.
    rewrite <-(take_drop n candidates) in Hs. exact (StronglySorted_app_1_elem_of _ _ _ _ _ Hs Hy Hd).
Qed.

Lemma schedule4_names :
  w ≠ ∅ → wp update_witness_schedule4 (λ _ s',
    take (Z.to_nat (num_scheduled_witnesses (wso s'))) (current_shuffled_witnesses (wso s')) ≡ₚ
      owners (voted ++ running) ∧
    num_scheduled_witnesses (wso s') = Z.min WLS_MAX_WITNESSES (Z.of_nat (size w))) s.
Proof.
  intros Hne. unfold update_witness_schedule4. repeat wp_step. rewrite select_voted_take.
  match goal with |- context [take ?n ?l] => change (take n l) with voted end.
  eapply wp_mono; [apply wp_any|]. intros ? s1 _. rewrite select_running_take. fold running.
  do 3 (wp_step; eapply wp_mono; [apply wp_any|]; intros ? ? _).
  wp_step. wp_step. wp_step. eapply wp_mono; [apply wp_any|]. intros version s5 _.
  unfold head_block_time, head_block_num, modify_wso. repeat wp_step.
  eapply wp_mono; [apply update_median_schedule|]. simpl. intros ? s6 [-> ->].
  match goal with H : (_ =? _)%nat = true |- _ => apply Nat.eqb_eq in H; rename H into Hlen end.
  match goal with H : new_schedule _ _ _ _ _ _ _ = _ |- _ => rename H into Hnew end.
  edestruct (new_schedule_permutes (time (gpo s5)) (head_block_number (gpo s5)) (owners voted)
    (owners running)) as (o' & Ho & Hn & Hp & _).
  { unfold owners. rewrite <-fmap_app, length_fmap. unfold WLS_MAX_WITNESSES in *. lia. }
  unfold owners in Ho, Hp, Hn. rewrite Ho in Hnew. injection Hnew as <-.
  rewrite <-fmap_app in Hp, Hn. rewrite length_fmap in Hn.
  assert (size w ≠ 0)%nat by (by apply map_size_non_empty_iff).
  split; [|rewrite Hn, Hlen; unfold WLS_MAX_WITNESSES in *; lia].
  rewrite Hp. destruct (decide _) as [En|]; [|done]. exfalso.
  apply (f_equal length) in En. rewrite length_fmap in En. simpl in En. unfold WLS_MAX_WITNESSES in *. lia.
Qed.
End chosen.

(** C26: a new schedule holds every chosen witness once: first the witnesses with a
    signing key that have the most votes, as many as may be elected, then running
    ones.  A witness with a key that was not elected has at most the votes of every
    elected one, nobody without a key produces, and the schedule is full: 21 names,
    or all witnesses there are. *)
Theorem update_witness_schedule4_elects s s' (w := rows (witnesses s)) :
  w ≠ ∅ → 0 ≤ max_voted_witnesses (wso s) ≤ WLS_MAX_WITNESSES →
  (∀ i j x y, w !! i = Some x → w !! j = Some y → owner x = owner y → i = j) →
  update_witness_schedule4 s = Ok (tt, s') →
  ∃ voted running,
    take (Z.to_nat (num_scheduled_witnesses (wso s'))) (current_shuffled_witnesses (wso s')) ≡ₚ
      owners (voted ++ running) ∧
    num_scheduled_witnesses (wso s') = Z.min WLS_MAX_WITNESSES (Z.of_nat (size w)) ∧
    NoDup (owners (voted ++ running)) ∧
    (∀ i x, (i, x) ∈ voted ++ running → w !! i = Some x ∧ signing_key x ≠ 0) ∧
    (∀ i x, w !! i = Some x → signing_key x ≠ 0 → (i, x) ∉ voted →
      Z.of_nat (length voted) = max_voted_witnesses (wso s) ∧
      ∀ j y, (j, y) ∈ voted → votes x ≤ votes y).
Proof.
  intros Hne Hmax Hown E. exists (voted s), (running s).
  destruct (wp_ok _ _ _ _ _ (schedule4_names s Hne) E) as [Hp Hn].
  split_and!; [done|done|by apply owners_NoDup|apply chosen_rows|].
  intros i x Hx Hk Hni. apply (voted_most s i x); [lia|done..].
Qed.
End update.

(** ** The majority version *)

(** How many of the list satisfy [P]. *)
Definition count (P : Z → bool) (l : list Z) : Z := Z.of_nat (length (filter (λ x, P x = true) l)).
Definition at_least (v : Z) (l : list Z) : Z := count (λ x, v <=? x) l.

(** The counters of [witness_versions] at or above [v]. *)
Definition weight_from (v : Z) (m : list (Z * Z)) : Z :=
  foldr (λ e acc, (if v <=? e.1 then e.2 else 0) + acc) 0 m.
Abbreviation bump_version := (bump (λ a b, b <? a) Z.eqb).

Lemma count_cons P x l : count P (x :: l) = (if P x then 1 else 0) + count P l.
Proof. unfold count. rewrite filter_cons. destruct (P x); simpl; lia. Qed.

Lemma count_perm P l l' : l ≡ₚ l' → count P l = count P l'.
Proof. intros Hp. unfold count. by rewrite Hp. Qed.
Lemma minimum (l : list Z) : ∃ v, Forall (λ x, v ≤ x) l.
Proof.
  induction l as [|x l [v IH]]; [by exists 0|]. exists (Z.min x v). constructor; [lia|].
  eapply Forall_impl; [done|]. simpl. lia.
Qed.
Lemma at_least_all v l : Forall (λ x, v ≤ x) l → at_least v l = Z.of_nat (length l).
Proof.
  unfold at_least. induction 1 as [|x l Hx Hl IH]; [done|]. rewrite count_cons, IH.
  rewrite (proj2 (Z.leb_le v x) Hx). simpl. lia.
Qed.

Lemma weight_bump v k m N :
  Forall (λ e, 0 ≤ e.2 ≤ N) m → 0 ≤ N → N + 1 < 2 ^ 32 →
  weight_from v (bump_version k m) = (if v <=? k then 1 else 0) + weight_from v m ∧
  Forall (λ e, 0 ≤ e.2 ≤ N + 1) (bump_version k m).
Proof.
  intros Hm H0 HN. induction Hm as [|[k' n] m Hn Hm IH]; simpl.
  { split; [lia|]. constructor; [simpl; lia|constructor]. }
  simpl in Hn. assert (Forall (λ e : Z * Z, 0 ≤ e.2 ≤ N + 1) m) as Hm' by (eapply Forall_impl; [done|]; simpl; lia).
  destruct (Z.eqb_spec k k') as [->|Hne]; simpl.
  { rewrite wrap_small by lia. split; [destruct (v <=? k'); lia|]. constructor; [simpl; lia|done]. }
  destruct (k' <? k); simpl.
  { split; [lia|]. constructor; [simpl; lia|]. constructor; [simpl; lia|done]. }
  destruct IH as [-> IH]. split; [lia|]. constructor; [simpl; lia|done].
Qed.

Lemma bump_sorted k m :
  StronglySorted (λ a b : Z * Z, b.1 < a.1) m →
  StronglySorted (λ a b : Z * Z, b.1 < a.1) (bump_version k m) ∧
  ∀ e, e ∈ (bump_version k m).*1 → e = k ∨ e ∈ m.*1.
Proof.
  induction 1 as [|[k' n] m Hm [IH Hin] Hf]; simpl.
  { split; [repeat constructor|]. intros e ->%list_elem_of_singleton. by left. }
  destruct (Z.eqb_spec k k') as [->|Hne]; simpl.
  { split; [|intros; by right]. constructor; [done|]. eapply Forall_impl; [done|]. done. }
  destruct (Z.ltb_spec k' k); simpl.
  - split; [|set_solver]. constructor; [by constructor|]. constructor; [done|].
    eapply Forall_impl; [done|]. simpl. lia.
  - split; [|set_solver]. constructor; [done|]. rewrite Forall_forall in *. intros [a b] Ha. simpl.
    assert (a ∈ (bump_version k m).*1) as [->|Ha']%Hin by (apply list_elem_of_fmap; by eexists (_, _)); [lia|].
    apply list_elem_of_fmap in Ha' as (e & -> & He). by apply (Hf e).
Qed.

Lemma count_all_spec l :
  Z.of_nat (length l) < 2 ^ 32 →
  let m := count_all (λ a b, b <? a) Z.eqb l in
  StronglySorted (λ a b : Z * Z, b.1 < a.1) m ∧ (∀ v, weight_from v m = at_least v l) ∧
  (∀ e, e ∈ m.*1 → e ∈ l) ∧ Forall (λ e, 0 ≤ e.2 ≤ Z.of_nat (length l)) m.
Proof.
  unfold count_all. induction l as [|k l IH] using rev_ind; intros Hl.
  { split_and!; [constructor|done|by intros e ?%elem_of_nil|constructor]. }
  rewrite length_app in Hl. simpl in Hl. destruct IH as (Hs & Hw & Hin & Hf); [lia|].
  rewrite foldl_snoc, length_app. simpl. set (m := foldl _ _ _) in *.
  destruct (bump_sorted k m Hs) as [Hs' Hin'].
  assert (∀ v, weight_from v (bump_version k m) = (if v <=? k then 1 else 0) + weight_from v m ∧
    Forall (λ e, 0 ≤ e.2 ≤ Z.of_nat (length l) + 1) (bump_version k m)) as Hb
    by (intros v; apply weight_bump; [done|lia..]).
  split_and!; [done| | |].
  - intros v. rewrite (proj1 (Hb v)), Hw. unfold at_least.
    rewrite (count_perm _ (l ++ [k]) (k :: l)) by (by rewrite Permutation_app_comm). by rewrite count_cons.
  - intros e [->|He]%Hin'; set_solver.
  - replace (Z.of_nat (length l + 1)) with (Z.of_nat (length l) + 1) by lia. apply (Hb 0).
Qed.

(** The counters still to come all count lower versions. *)
Lemma find_majority_spec required on m :
  StronglySorted (λ a b : Z * Z, b.1 < a.1) m → Forall (λ e, 0 ≤ e.2) m → on < required →
  match find_majority required on m with
  | Some v => v ∈ m.*1 ∧ required ≤ on + weight_from v m ∧
      ∀ v', v < v' → on + weight_from v' m < required
  | None => ∀ v, on + weight_from v m < required
  end.
Proof.
  intros Hs. revert on. induction Hs as [|[v n] m Hm IH Hhd]; intros on Hf Hon; simpl; [lia|].
  apply Forall_cons in Hf as [Hn Hf]. simpl in Hn.
  assert (∀ v', v < v' → weight_from v' m = 0) as Habove.
  { intros v' Hv. clear IH Hm Hf. induction Hhd as [|[a b] m Hab Hm IH]; [done|]. simpl in *.
    rewrite IH. destruct (Z.leb_spec v' a); lia. }
  assert (∀ v', 0 ≤ weight_from v' m) as Hpos.
  { intros v'. clear -Hf. induction Hf as [|[a b] m Hab Hm IH]; simpl in *; [lia|]. destruct (v' <=? a); lia. }
  destruct (Z.leb_spec required (on + n)) as [Hr|Hr].
  - split_and!; [by left| |].
    + rewrite Z.leb_refl. specialize (Hpos v). lia.
    + intros v' Hv. rewrite Habove by done. destruct (Z.leb_spec v' v); lia.
  - specialize (IH (on + n) Hf Hr). destruct (find_majority required (on + n) m) as [v0|].
    + destruct IH as (Hin & Hge & Hlt). assert (v0 < v) as Hv0.
      { apply list_elem_of_fmap in Hin as (e & -> & He). rewrite Forall_forall in Hhd. by apply (Hhd e). }
      split_and!; [by right| |].
      * destruct (Z.leb_spec v0 v); lia.
      * intros v' Hv'. specialize (Hlt v' Hv'). destruct (v' <=? v); lia.
    + intros v'. specialize (IH v'). destruct (v' <=? v); lia.
Qed.

(** The majority version is the highest version that at least
    [hardfork_required_witnesses] of the scheduled witnesses run or exceed; there
    is none only when fewer witnesses than that are scheduled. *)
Theorem majority_version_highest required l :
  0 < required → Z.of_nat (length l) < 2 ^ 32 →
  match find_majority required 0 (count_all (λ a b, b <? a) Z.eqb l) with
  | Some v => v ∈ l ∧ required ≤ at_least v l ∧ ∀ v', v < v' → at_least v' l < required
  | None => Z.of_nat (length l) < required
  end.
Proof.
  intros Hr Hl. destruct (count_all_spec l Hl) as (Hs & Hw & Hin & Hf).
  set (m := count_all _ _ _) in *.
  assert (Forall (λ e : Z * Z, 0 ≤ e.2) m) as Hf' by (eapply Forall_impl; [done|]; simpl; lia).
  pose proof (find_majority_spec required 0 m Hs Hf' ltac:(lia)) as H.
  destruct (find_majority _ _ _) as [v|].
  - destruct H as (H1 & H2 & H3). setoid_rewrite Hw in H2. setoid_rewrite Hw in H3. split_and!; [auto|lia|].
    intros v' Hv'. specialize (H3 v' Hv'). lia.
  - destruct (minimum l) as [v Hv]. specialize (H v). rewrite Hw in H. rewrite (at_least_all v l Hv) in H. lia.
Qed.

(** ** Medians *)

(** At least half of the list (rounded up, and one more on the low side when it is
    even) is on each side of [m]. *)
Definition is_median {A} (key : A → Z) (l : list A) (m : A) : Prop :=
  m ∈ l ∧ (length l / 2 < length (filter (λ x, (key x ≤ key m)%Z) l))%nat ∧
  (length l - length l / 2 ≤ length (filter (λ x, (key m ≤ key x)%Z) l))%nat.

Lemma filter_all {A} (P : A → Prop) `{∀ x, Decision (P x)} l : Forall P l → filter P l = l.
Proof. induction 1; [done|]. rewrite filter_cons_True by done. by f_equal. Qed.

(** The element at position [n] of the sorted list. *)
Lemma nth_sorted {A} (key : A → Z) (l : list A) n m :
  merge_sort (key_le key) l !! n = Some m →
  m ∈ l ∧ (n < length (filter (λ x, (key x ≤ key m)%Z) l))%nat ∧
  (length l - n ≤ length (filter (λ x, (key m ≤ key x)%Z) l))%nat.
Proof.
  intros Hm. set (l' := merge_sort (key_le key) l) in *.
  assert (l' ≡ₚ l) as Hp by apply merge_sort_Permutation.
  assert (StronglySorted (key_le key) l') as Hs.
  { apply StronglySorted_merge_sort; unfold key_le; [intros a b c; lia|intros a b; lia]. }
  rewrite <-!Hp. clearbody l'.
  pose proof (take_drop_middle l' n m Hm) as El. pose proof (lookup_lt_Some _ _ _ Hm) as Hlt.
  assert (length (take n l') = n) as Ln by (rewrite length_take; lia).
  rewrite <-El in Hs. apply StronglySorted_app in Hs as (Hlo & _ & Hhi).
  inversion_clear Hhi as [|? ? _ Hge]. split_and!.
  - by apply list_elem_of_lookup_2 in Hm.
  - rewrite <-El, filter_app, length_app. rewrite (filter_all _ (take n l')).
    + rewrite filter_cons_True by lia. simpl. lia.
    + apply Forall_forall. intros x Hx. by apply Hlo; [|left].
  - rewrite <-El at 2. rewrite filter_app, length_app, (filter_all _ (m :: _)).
    + simpl. rewrite length_drop. lia.
    + constructor; [lia|]. eapply Forall_impl; [exact Hge|]. done.
Qed.

Lemma median_spec {A} (key : A → Z) l m : median key l = Ok m → is_median key l m.
Proof. unfold median. intros Hm%of_option_Ok. exact (nth_sorted key l _ m Hm). Qed.

(** The account creation fee and the block size in force are medians of what
    the scheduled witnesses propose: at least half of them propose at most, and at
    least half of them at least that, so that no minority can move it out of the
    range of the others. *)
Theorem update_median_spec `{FC : FcLib} s s' :
  update_median_witness_props s = Ok (tt, s') →
  ∃ ws, scheduled_witnesses s = Ok (ws, s) ∧
    is_median amount ((λ w, account_creation_fee (props w)) <$> ws)
      (account_creation_fee (median_props (wso s'))) ∧
    is_median id ((λ w, maximum_block_size (props w)) <$> ws) (maximum_block_size (median_props (wso s'))) ∧
    gpo_maximum_block_size (gpo s') = maximum_block_size (median_props (wso s')).
Proof.
  intros E. refine (wp_ok _ (λ _ s', _) _ _ _ _ E).
  unfold update_median_witness_props, modify_wso, modify_gpo. wp_step.
  pose proof (scheduled_witnesses_frame s) as Hf. apply wp_intro. intros ws s1 Hws.
  pose proof (wp_ok _ _ _ _ _ Hf Hws) as <-. clear Hf. repeat wp_step. exists ws.
  unfold mret, result_ret in *. simplify_eq/=. split_and!; [done|by apply median_spec..|done].
Qed.

(** ** Three witnesses *)

Definition demo_witness (n : string) (key v fee : Z) : witness_object :=
  default_witness <| owner := n |> <| signing_key := key |> <| votes := v |>
    <| props ::= λ p, p <| account_creation_fee := WLS fee |> |>.
Definition demo_schedule : chain :=
  demo <| witnesses := of_rows [ demo_witness "initminer" 1 100 10; demo_witness "alice" 2 300 30;
    demo_witness "bob" 3 200 20 ] |> <| wso ::= λ o, o <| max_voted_witnesses := 2 |> |>.
Definition demo_shuffled : chain := after (update_witness_schedule4 (FC := fc_ref)) demo_schedule.

Lemma slot_at_time_inverse_witness :
  get_slot_at_time (FC := fc_ref) (demo_time + 7) demo = 2 ∧
  get_slot_time (FC := fc_ref) 2 demo ≤ demo_time + 7 < get_slot_time (FC := fc_ref) 3 demo.
Proof.
  assert (get_slot_at_time (FC := fc_ref) (demo_time + 7) demo = 2) as H by (vm_compute; reflexivity).
  split; [exact H|].
  refine (proj1 (proj1 (slot_at_time_inverse (FC := fc_ref) 2 (demo_time + 7) demo _ _ _ _ _)) H);
    vm_compute; (done || (split; done)).
Defined.

Lemma update_witness_schedule4_elects_witness :
  update_witness_schedule4 (FC := fc_ref) demo_schedule = Ok (tt, demo_shuffled) ∧
  ∃ voted running : list (Z * witness_object), NoDup (owners (voted ++ running)) ∧
    num_scheduled_witnesses (wso demo_shuffled) = 3.
Proof.
  assert (update_witness_schedule4 (FC := fc_ref) demo_schedule = Ok (tt, demo_shuffled)) as H
    by (vm_compute; reflexivity).
  split; [exact H|].
  destruct (update_witness_schedule4_elects (FC := fc_ref) demo_schedule demo_shuffled)
    as (voted & running & _ & Hn & Hd & _); [| | |exact H|].
  - apply (bool_decide_unpack _). vm_compute. exact I.
  - vm_compute. split; intros E; discriminate E.
  - clear H. intros i j x y Hx Hy Ho.
    assert (map_Forall (λ i x, map_Forall (λ j y, owner x = owner y → i = j) (rows (witnesses demo_schedule)))
      (rows (witnesses demo_schedule))) as Hall by (apply (bool_decide_unpack _); vm_compute; exact I).
    exact (Hall i x Hx j y Hy Ho).
  - exists voted, running. split; [exact Hd|]. rewrite Hn. vm_compute. reflexivity.
Defined.

Lemma scheduled_round_robin_witness :
  ∃ l, Forall2 (λ k w, get_scheduled_witness k demo_shuffled = Ok w) (seqZ 5 3) l ∧
    l ≡ₚ ["alice"; "bob"; "initminer"]%string.
Proof.
  destruct (scheduled_round_robin (FC := fc_ref) 5 demo_shuffled) as (l & Hl & Hp);
    [vm_compute; split; done|vm_compute; done..|].
  exists l. split; [exact Hl|]. rewrite Hp. apply (bool_decide_unpack _). vm_compute. exact I.
Defined.

Lemma majority_version_highest_witness :
  find_majority 3 0 (count_all (λ a b, b <? a) Z.eqb [7; 9; 7; 8; 5]) = Some 7 ∧
  3 ≤ at_least 7 [7; 9; 7; 8; 5].
Proof.
  pose proof (majority_version_highest 3 [7; 9; 7; 8; 5] ltac:(lia) ltac:(vm_compute; done)) as H.
  assert (find_majority 3 0 (count_all (λ a b, b <? a) Z.eqb [7; 9; 7; 8; 5]) = Some 7) as E
    by (vm_compute; reflexivity).
  rewrite E in H. split; [exact E|]. exact (proj1 (proj2 H)).
Defined.

Lemma update_median_spec_witness :
  account_creation_fee (median_props (wso (after update_median_witness_props demo_shuffled))) = WLS 20 ∧
  ∃ ws, scheduled_witnesses demo_shuffled = Ok (ws, demo_shuffled) ∧
    is_median amount ((λ w, account_creation_fee (props w)) <$> ws) (WLS 20).
Proof.
  split; [vm_compute; reflexivity|].
  destruct (update_median_spec (FC := fc_ref) demo_shuffled (after update_median_witness_props demo_shuffled))
    as (ws & Hws & Hm & _); [vm_compute; reflexivity|].
  exists ws. split; [exact Hws|]. exact Hm.
Defined.
