(* ===== verification/Blocks.v ===== *)
(** * Blocks: applying a block to the chain

    [libraries/chain/database.cpp]: the header checks, the transactions, the
    bookkeeping that follows a block, hardforks and the genesis state.  The parts
    of [_apply_block] that touch the block log and the fork database are in file
    Node; the tail of the block (null account, funds, payouts, withdrawals,
    schedule) is in Ledger, Payout and Schedule. *)

From stdpp Require Import pretty.
From S2P Require Import Prelude FcLib Tables Config Asset Names Authority Operations Transaction Block Reward Objects Ledger Invariants Evaluators Payout Schedule.

(** ** Skip flags *)

(** database.hpp:54 *)
Definition skip_nothing : Z := 0.
Definition skip_witness_signature : Z := 2 ^ 0.
Definition skip_transaction_signatures : Z := 2 ^ 1.
Definition skip_transaction_dupe_check : Z := 2 ^ 2.
Definition skip_fork_db : Z := 2 ^ 3.
Definition skip_block_size_check : Z := 2 ^ 4.
Definition skip_tapos_check : Z := 2 ^ 5.
Definition skip_authority_check : Z := 2 ^ 6.
Definition skip_merkle_check : Z := 2 ^ 7.
Definition skip_undo_history_check : Z := 2 ^ 8.
Definition skip_witness_schedule_check : Z := 2 ^ 9.
Definition skip_validate : Z := 2 ^ 10.
Definition skip_validate_invariants : Z := 2 ^ 11.
Definition skip_block_log : Z := 2 ^ 13.
(** [ skip & flags ] as a condition *)
Definition skips (skip flags : Z) : bool := negb (Z.land skip flags =? 0).

(** shared_db_merkle.hpp:5: every entry is commented out *)
Definition shared_db_merkle : gmap Z Z := ∅.

(** Constants that packages compute, and the maximal undo history of the node. *)
Class ChainParams := {
  WLS_CHAIN_ID : Z;
  init_public_key : Z;
  init_public_key_valid : init_public_key ≠ 0;
  max_undo : Z
}.

(** The hardforks the program knows: their number, times and versions; index 0 is
    the genesis. *)
Class Hardforks := {
  WLS_NUM_HARDFORKS : Z;
  hardfork_times : list Z;
  hardfork_versions : list Z
}.
(** database.cpp:2634 and hardfork.d/0-preamble.hf:52: no hardfork yet *)
Definition wls_hardforks : Hardforks := {|
  WLS_NUM_HARDFORKS := 0;
  hardfork_times := [WLS_GENESIS_TIME];
  hardfork_versions := [0]
|}.
#[global] Existing Instance wls_hardforks.

Section blocks.
Context `{FC : FcLib} `{ENV : EvalEnv} `{CR : Crypto} `{BL : BlockLib} `{CP : ChainParams} `{HF : Hardforks}.

(** ** Header *)

(** database.cpp:2378; returns the id and row of the witness *)
Definition validate_block_header (skip : Z) (next_block : signed_block) : M chain (Z * witness_object) :=
  g ← gets gpo;
  assert (head_block_id g =? previous next_block);;
  now ← head_block_time;
  assert (now <? timestamp next_block);;
  iw ← get_witness (to_name (witness next_block));
  when (negb (skips skip skip_witness_signature))
    (ok ← lift (validate_signee (signing_key iw.2) next_block); assert ok);;
  when (negb (skips skip skip_witness_schedule_check))
    (slot_num ← gets (get_slot_at_time (timestamp next_block));
     assert (0 <? slot_num);;
     s ← gets id;
     scheduled ← lift (get_scheduled_witness slot_num s);
     assert (String.eqb (owner iw.2) (name_string scheduled)));;
  mret iw.

(** database.cpp:2237 *)
Definition process_header_extensions (next_block : signed_block) : M chain unit :=
  for_each (header_extensions next_block) (λ e,
    match e with
    | ext_void => mret tt
    | ext_version v =>
      iw ← get_witness (to_name (witness next_block));
      when (negb (v =? running_version iw.2))
        (modify_witness iw.1 (λ w, mret (w <| running_version := v |>)))
    | ext_hardfork_vote v t =>
      iw ← get_witness (to_name (witness next_block));
      when (negb (v =? hardfork_version_vote iw.2) || negb (t =? hardfork_time_vote iw.2))
        (modify_witness iw.1 (λ w, mret (w <| hardfork_version_vote := v |> <| hardfork_time_vote := t |>)))
    end).

(** ** Transactions *)

(** database.cpp:2310: the authorities in force *)
Definition authority_of (f : account_authority_object → authority) (s : chain) (n : string)
    : result authority :=
  match find_row (λ a, String.eqb (auth_account a) n) (account_authorities s) with
  | Some ia => Ok (f ia.2)
  | None => Err out_of_range
  end.

(** database.cpp:2308-2323 *)
Definition check_signatures (t : signed_transaction) (s : chain) : result unit :=
  match signed_verify_authority (authority_of auth_active s) (authority_of auth_owner s)
          (authority_of auth_posting s) (Z.to_nat WLS_MAX_SIG_CHECK_DEPTH) WLS_CHAIN_ID t with
  | Err tx_missing_active_auth =>
    match shared_db_merkle !! (wrap 32 (head_block_number (gpo s) + 1)) with
    | None => Err tx_missing_active_auth
    | Some _ => Ok tt
    end
  | r => r
  end.

(** database.cpp:2329-2343.  [now + fc::seconds( n )] is a 64-bit time. *)
Definition check_expiration (skip : Z) (t : transaction) : M chain unit :=
  when (negb (skips skip skip_tapos_check))
    (b ← get_row block_summaries (ref_block_num t);
     lift (throw_unless transaction_tapos_exception (ref_block_prefix t =? hash_word 1 (block_id b))));;
  now ← head_block_time;
  lift (throw_unless transaction_expiration_exception
          (expiration t <=? now + WLS_MAX_TIME_UNTIL_EXPIRATION));;
  lift (throw_unless transaction_expiration_exception (now <? expiration t));;
  lift (throw_unless transaction_expiration_exception (now <=? expiration t)).

(** database.cpp:2292 *)
Definition _apply_transaction (skip : Z) (t : signed_transaction) : M chain unit :=
  when (negb (skips skip skip_validate)) (lift (transaction_validate (trx t)));;
  let trx_id := transaction_id (trx t) in
  trxs ← gets transactions;
  assert (skips skip skip_transaction_dupe_check ||
          match find_row (λ x, Objects.trx_id x =? trx_id) trxs with None => true | Some _ => false end);;
  when (negb (skips skip (Z.lor skip_transaction_signatures skip_authority_check)))
    (s ← gets id; lift (check_signatures t s));;
  n ← head_block_num;
  when (0 <? n) (check_expiration skip (trx t));;
  when (negb (skips skip skip_transaction_dupe_check))
    (create_row transactions same_trx (TransactionObj trx_id (expiration (trx t)));; mret tt);;
  for_each (operations (trx t)) apply_operation.

(** ** After the transactions *)

(** database.cpp:2401 *)
Definition create_block_summary (next_block : signed_block) : M chain unit :=
  let sid := Z.land (block_num next_block) 65535 in
  get_row block_summaries sid;;
  modify_row block_summaries sid (λ p, mret (p <| block_id := block_id_of next_block |>)).

(** database.cpp:2422, the witness of the missed slot [i + 1]: one more miss, and
    after a day without a block the key is taken away *)
Definition miss_block (b : signed_block) (i : Z) : M chain unit :=
  s ← gets id;
  name ← lift (get_scheduled_witness (i + 1) s);
  iw ← get_witness name;
  when (negb (String.eqb (owner iw.2) (to_name (witness b))))
    (n ← head_block_num;
     modify_witness iw.1 (λ w,
       let w := w <| total_missed ::= λ m, wrap 32 (m + 1) |> in
       mret (if WLS_BLOCKS_PER_DAY <? wrap 64 (n - last_confirmed_block_num w)
             then w <| signing_key := 0 |> else w))).

(** database.cpp:2442, one round of the loop over the slots *)
Definition fill_slot (i : Z) (g : dynamic_global_property_object) : dynamic_global_property_object :=
  let g := g <| participation_count ::=
    λ c, wrap 8 (c - if Z.testbit (recent_slots_filled g) 127 then 1 else 0) |> in
  let g := g <| recent_slots_filled ::=
    λ r, u128_add (u128_shl r 1) (if i =? 0 then 1 else 0) |> in
  g <| participation_count ::= λ c, wrap 8 (c + if i =? 0 then 1 else 0) |>.

(** database.cpp:2409 *)
Definition update_global_dynamic_data (skip : Z) (b : signed_block) : M chain unit :=
  now ← head_block_time;
  missed_blocks ←
    (if negb (now =? 0) then
       slot ← gets (get_slot_at_time (timestamp b));
       let missed_blocks := wrap 32 (slot - 1) in
       for_each (seqZ 0 missed_blocks) (miss_block b);;
       mret missed_blocks
     else mret 0);
  modify_gpo (λ g,
    let g := foldl (λ g i, fill_slot i g) g (seqZ 0 (wrap 32 (missed_blocks + 1))) in
    mret (g <| head_block_number := block_num b |> <| head_block_id := block_id_of b |>
      <| time := timestamp b |>
      <| current_aslot ::= λ a, wrap 64 (a + wrap 32 (missed_blocks + 1)) |>));;
  g ← gets gpo;
  when (negb (skips skip skip_undo_history_check))
    (lift (throw_unless undo_database_exception
       (wrap 32 (head_block_number g - last_irreversible_block_num g) <? max_undo))).

(** database.cpp:2465 *)
Definition update_signing_witness (signing_witness : Z) (new_block : signed_block) : M chain unit :=
  g ← gets gpo;
  slot ← gets (get_slot_at_time (timestamp new_block));
  modify_witness signing_witness (λ w, mret (w <| last_aslot := wrap 64 (current_aslot g + slot) |>
    <| last_confirmed_block_num := block_num new_block |>)).

(** database.cpp:2509: the position of the number that enough witnesses confirmed *)
Definition irreversible_offset (n : Z) : Z :=
  wrap 64 ((WLS_100_PERCENT - WLS_IRREVERSIBLE_THRESHOLD) * n) / WLS_100_PERCENT.

(** database.cpp:2511: [nth_element] puts at [offset] the element that sorting
    would put there *)
Definition nth_confirmed (ws : list witness_object) : result Z :=
  of_option undefined_behaviour
    (merge_sort (key_le id) (last_confirmed_block_num <$> ws)
       !! Z.to_nat (irreversible_offset (Z.of_nat (length ws)))).

(** database.cpp:2477-2526, the state of the chain *)
Definition update_last_irreversible_block : M chain unit :=
  n ← head_block_num;
  if n <? WLS_START_MINER_VOTING_BLOCK then
    modify_gpo (λ g, mret (if WLS_MAX_WITNESSES <? n
      then g <| last_irreversible_block_num := wrap 32 (n - WLS_MAX_WITNESSES) |> else g))
  else
    ws ← scheduled_witnesses;
    c ← lift (nth_confirmed ws);
    let new_last_irreversible_block_num := wrap 32 c in
    g ← gets gpo;
    when (last_irreversible_block_num g <? new_last_irreversible_block_num)
      (modify_gpo (λ g, mret (g <| last_irreversible_block_num := new_last_irreversible_block_num |>))).

(** The transaction that expires first: the begin of [by_expiration]. *)
Definition first_to_expire (t : table transaction_object) : option (Z * transaction_object) :=
  seek (λ i x, (trx_expiration x, i)) None t.

(** database.cpp:2562, one round *)
Definition clear_expired_step : M chain bool :=
  t ← gets transactions;
  now ← head_block_time;
  match first_to_expire t with
  | None => mret false
  | Some (i, x) =>
    if trx_expiration x <? now then remove_row transactions i;; mret true else mret false
  end.
(** database.cpp:2556 *)
Definition clear_expired_transactions : M chain unit :=
  t ← gets transactions;
  while_fuel (S (size (rows t))) clear_expired_step.

(** ** Hardforks *)

(** database.cpp:2634 *)
Definition init_hardforks : M chain unit :=
  h ← gets hpo;
  assert (last_hardfork h <=? WLS_NUM_HARDFORKS);;
  v ← lift (of_option undefined_behaviour (hardfork_versions !! Z.to_nat (last_hardfork h)));
  assert (v <=? 0);;
  v ← lift (of_option undefined_behaviour (hardfork_versions !! Z.to_nat WLS_NUM_HARDFORKS));
  assert (0 =? v).

(** database.cpp:2688 *)
Definition apply_hardfork (hardfork : Z) : M chain unit :=
  h ← gets hpo;
  assert (hardfork =? wrap 32 (last_hardfork h + 1));;
  assert (Z.of_nat (length (processed_hardforks h)) =? hardfork);;
  t ← lift (of_option undefined_behaviour (hardfork_times !! Z.to_nat hardfork));
  v ← lift (of_option undefined_behaviour (hardfork_versions !! Z.to_nat hardfork));
  modify_hpo (λ h, h <| processed_hardforks ::= λ l, l ++ [t] |> <| last_hardfork := hardfork |>
    <| current_hardfork_version := v |>);;
  h ← gets hpo;
  t' ← lift (of_option undefined_behaviour (processed_hardforks h !! Z.to_nat (last_hardfork h)));
  assert (t' =? t).

(** database.cpp:2652, one round *)
Definition hardfork_step : M chain bool :=
  h ← gets hpo;
  now ← head_block_time;
  v ← lift (of_option undefined_behaviour (hardfork_versions !! Z.to_nat (last_hardfork h)));
  if (v <? next_hardfork h) && (next_hardfork_time h <=? now) then
    (if last_hardfork h <? WLS_NUM_HARDFORKS then apply_hardfork (last_hardfork h + 1)
     else throw unknown_hardfork_exception);;
    mret true
  else mret false.
(** database.cpp:2645 *)
Definition process_hardforks : M chain unit :=
  while_fuel (S (Z.to_nat WLS_NUM_HARDFORKS)) hardfork_step.

(** database.cpp:2671 *)
Definition set_hardfork (hardfork : Z) (apply_now : bool) : M chain unit :=
  h ← gets hpo;
  for_each (seqZ (last_hardfork h + 1) (Z.min hardfork WLS_NUM_HARDFORKS - last_hardfork h)) (λ i,
    v ← lift (of_option undefined_behaviour (hardfork_versions !! Z.to_nat i));
    now ← head_block_time;
    modify_hpo (λ h, h <| next_hardfork := v |> <| next_hardfork_time := now |>);;
    when apply_now (apply_hardfork i)).

(** database.cpp:2666 *)
Definition has_hardfork (hardfork : Z) (s : chain) : bool :=
  hardfork <? Z.of_nat (length (processed_hardforks (hpo s))).

(** ** A block *)

(** database.cpp:2149-2165; no block has an entry in [shared_db_merkle] *)
Definition check_merkle (skip : Z) (b : signed_block) : M chain unit :=
  when (negb (skips skip skip_merkle_check))
    (merkle_root ← lift (calculate_merkle_root b);
     if transaction_merkle_root b =? merkle_root then mret tt
     else match shared_db_merkle !! block_num b with
          | Some root => assert (root =? merkle_root)
          | None => throw assert_exception
          end).

(** database.cpp:2142-2216, up to the last irreversible block *)
Definition apply_block_head (skip : Z) (next_block : signed_block) : M chain unit :=
  check_merkle skip next_block;;
  signing_witness ← validate_block_header skip next_block;
  g ← gets gpo;
  assert (pack_size next_block <=? gpo_maximum_block_size g);;
  modify_gpo (λ g, mret (g <| current_witness := to_name (witness next_block) |>));;
  process_header_extensions next_block;;
  w ← get_witness (to_name (witness next_block));
  h ← gets hpo;
  assert (current_hardfork_version h <=? running_version w.2);;
  for_each (block_transactions next_block) (_apply_transaction skip);;
  update_global_dynamic_data skip next_block;;
  update_signing_witness signing_witness.1 next_block;;
  update_last_irreversible_block.

(** database.cpp:2218-2227, the rest *)
Definition apply_block_tail (next_block : signed_block) : M chain unit :=
  create_block_summary next_block;;
  clear_expired_transactions;;
  update_witness_schedule;;
  clear_null_account_balance;;
  process_funds;;
  process_comment_cashout;;
  process_vesting_withdrawals;;
  process_hardforks.

(** database.cpp:2142, what the block does to the chain: between the two parts
    [update_last_irreversible_block] commits undo states and writes the block log. *)
Definition _apply_block (skip : Z) (next_block : signed_block) : M chain unit :=
  apply_block_head skip next_block;; apply_block_tail next_block.

(** ** Genesis *)

(** [create] in an index without another unique key than the id. *)
Definition create_plain {V} (proj : chain → table V) `{!Field proj} (v : V) : M chain unit :=
  modify (update proj (λ t, Table (<[next_id t := v]> (rows t)) (next_id t + 1))).

(** A loop of [n] equal rounds. *)
Definition n_times {S} (n : Z) (m : M S unit) : M S unit := Z.iter n (λ rest, m;; rest) (mret tt).

(** authority.hpp:30, [add_authority] on an empty authority, then a threshold of 1 *)
Definition init_authority : authority :=
  (add_key_authority init_public_key 1 (Authority 0 [] [])) <| weight_threshold := 1 |>.
Definition genesis_account (a : account_object) (threshold : Z) (owner active posting : authority)
    : M chain unit :=
  create_row accounts same_name a;;
  create_row account_authorities same_auth_account
    (AccountAuthority (name a) (owner <| weight_threshold := threshold |>)
       (active <| weight_threshold := threshold |>) (posting <| weight_threshold := 1 |>) tps_min);;
  mret tt.
Definition no_authority : authority := Authority 0 [] [].

(** database.cpp:1903: the name of the [i]th initial witness *)
Definition init_miner_name (i : Z) : string :=
  String.append WLS_INIT_MINER_NAME (if i =? 0 then ""%string else pretty i).

(** database.cpp:1901-1922 *)
Definition genesis_witness (i : Z) : M chain unit :=
  genesis_account (default_account <| name := init_miner_name i |> <| memo_key := init_public_key |>
      <| balance := WLS (if i =? 0 then 1000 else 0) |>) 1 init_authority init_authority init_authority;;
  create_row witnesses same_owner (default_witness <| owner := init_miner_name i |>
    <| signing_key := init_public_key |> <| schedule := miner |>);;
  mret tt.

(** database.cpp:1978 *)
Definition genesis_fund (now : Z) : reward_fund_object :=
  RewardFund WLS_POST_REWARD_FUND_NAME (WLS 0) 140797515942543623 now WLS_CONTENT_CONSTANT
    WLS_CONTENT_CURATE_REWARD_PERCENT WLS_100_PERCENT linear square_root.

(** database.cpp:1802 *)
Definition init_genesis (init_supply : Z) : M chain unit :=
  genesis_account (default_account <| name := WLS_MINER_ACCOUNT |>) 1 no_authority no_authority no_authority;;
  genesis_account (default_account <| name := WLS_NULL_ACCOUNT |>) 1 no_authority no_authority no_authority;;
  genesis_account (default_account <| name := WLS_TEMP_ACCOUNT |>) 0 no_authority no_authority no_authority;;
  genesis_account (default_account <| name := WLS_WHALESHARE_ACC_NAME |> <| memo_key := init_public_key |>
    <| balance := WLS (swrap 64 (wrap 64 (init_supply - 1000))) |>)
    1 init_authority init_authority init_authority;;
  genesis_account (default_account <| name := WLS_DEV_FUND_ACC_NAME |> <| memo_key := init_public_key |>
    <| balance := WLS 0 |>) 1 init_authority init_authority init_authority;;
  for_each (seqZ 0 WLS_MAX_WITNESSES) genesis_witness;;
  modify_gpo (λ _, mret (default_gpo <| current_witness := WLS_INIT_MINER_NAME |>
    <| time := WLS_GENESIS_TIME |> <| recent_slots_filled := 2 ^ 128 - 1 |> <| participation_count := 128 |>
    <| current_supply := WLS (swrap 64 init_supply) |> <| gpo_maximum_block_size := WLS_MAX_BLOCK_SIZE |>));;
  n_times 65536 (create_plain block_summaries (BlockSummary 0));;
  modify_hpo (λ _, HardforkProps [WLS_GENESIS_TIME] 0 0 0 0);;
  modify_wso (λ _, mret (default_witness_schedule
    <| current_shuffled_witnesses ::= <[0%nat := WLS_INIT_MINER_NAME]> |>
    <| max_voted_witnesses := WLS_MAX_VOTED_WITNESSES |>
    <| max_runner_witnesses := WLS_MAX_RUNNER_WITNESSES |>));;
  retally_witness_votes;;
  reset_virtual_schedule_time;;
  retally_witness_vote_counts false;;
  retally_comment_children;;
  retally_witness_vote_counts true;;
  now ← head_block_time;
  create_plain reward_funds (genesis_fund now);;
  t ← gets reward_funds;
  assert (next_id t - 1 =? 0).

End blocks.
