(* ===== verification/BlocksSpec.v ===== *)
(** * BlocksSpec: the properties of applying blocks

    No transaction is applied twice, every transaction refers to the chain it was
    made for, the last irreversible block is confirmed by a supermajority, slots
    are counted exactly, hardforks come in order, and a chain starts in balance. *)

From S2P Require Import Prelude FcLib Tables Config Asset Names Authority Operations Transaction Block Reward Objects Ledger Invariants Supply Evaluators Conservation Demo Preservation LedgerSpec Payout Schedule ScheduleSpec Blocks.

(** ** What operations leave alone *)

(** The part of the state that describes the head block and the transactions seen. *)
Definition head_of (s : chain) :=
  (transactions s, block_summaries s, hpo s,
   (head_block_number (gpo s), head_block_id (gpo s), time (gpo s), current_aslot (gpo s),
    recent_slots_filled (gpo s), participation_count (gpo s), last_irreversible_block_num (gpo s))).
Definition same_head (s s' : chain) : Prop := head_of s' = head_of s.
#[global] Instance same_head_preorder : PreOrder same_head.
Proof. split; [done|]. intros s1 s2 s3 H1 H2. unfold same_head in *. congruence. Qed.

(** The weaker frame of the steps that follow the transactions. *)
Definition same_trxs (s s' : chain) : Prop :=
  transactions s' = transactions s ∧ time (gpo s') = time (gpo s) ∧
  head_block_number (gpo s') = head_block_number (gpo s).
#[global] Instance same_trxs_preorder : PreOrder same_trxs.
Proof. split; [done|]. intros s1 s2 s3 (?&?&?) (?&?&?). unfold same_trxs. split_and!; congruence. Qed.
Lemma same_head_trxs s s' : same_head s s' → same_trxs s s'.
Proof. unfold same_head, head_of. intros H. injection H. intros. split_and!; congruence. Qed.

(** Follows the code and unfolds what it calls. *)
Ltac head_tac := unfold same_head, head_of, same_trxs; bind_oks; repeat case_match; bind_oks; simpl in *;
  split_and?; try congruence; try reflexivity.
Ltac unfold_head :=
  lazymatch goal with
  | |- stable _ ?m => let h := match m with ?h _ _ _ _ _ _ _ _ => h | ?h _ _ _ _ _ _ _ => h | ?h _ _ _ _ _ _ => h
      | ?h _ _ _ _ _ => h | ?h _ _ _ _ => h | ?h _ _ _ => h | ?h _ _ => h | ?h _ => h | ?h => h end in
    progress unfold h
  end.
Ltac frame_with tac := repeat first [ progress stable ltac:(tac) | progress (simpl) | unfold_head ].
Ltac head_frame := frame_with ltac:(head_tac).

Section frames.
Context `{FC : FcLib} `{ENV : EvalEnv}.

Lemma adjust_proxied_head rem a d : stable same_head (adjust_proxied_witness_votes_rec rem a d).
Proof. revert a d. induction rem as [|rem IH]; intros a d; simpl; head_frame; apply IH. Qed.
Lemma adjust_proxied_array_head rem a d : stable same_head (adjust_proxied_witness_votes_array_rec rem a d).
Proof. revert a d. induction rem as [|rem IH]; intros a d; simpl; head_frame; apply IH. Qed.
Hint Resolve adjust_proxied_head adjust_proxied_array_head : stable.
Lemma touch_ancestors_head n d now p : stable same_head (touch_ancestors n d now p).
Proof. revert p. induction n as [|n IH]; intros p; simpl; head_frame; apply IH. Qed.
Lemma check_proxy_chain_head rem seen c : stable same_head (check_proxy_chain rem seen c).
Proof. revert seen c. induction rem as [|rem IH]; intros seen c; simpl; head_frame; apply IH. Qed.
Hint Resolve touch_ancestors_head check_proxy_chain_head : stable.

Lemma apply_operation_head op : stable same_head (apply_operation op).
Proof. destruct op; simpl; head_frame. Qed.

(** The same for the steps after the transactions, with the weaker frame. *)
Lemma adjust_proxied_trxs rem a d : stable same_trxs (adjust_proxied_witness_votes_rec rem a d).
Proof. intros s. eapply wp_mono; [apply adjust_proxied_head|]. intros ? s'. apply same_head_trxs. Qed.
Lemma write_funds_trxs i l : stable same_trxs (write_funds i l).
Proof. revert i. induction l as [|f l IH]; intros i; simpl; head_frame; apply IH. Qed.
Lemma advance_virtual_time_trxs vt l : stable same_trxs (advance_virtual_time vt l).
Proof. induction l as [|x l IH]; simpl; head_frame; apply IH. Qed.
Hint Resolve adjust_proxied_trxs write_funds_trxs advance_virtual_time_trxs : stable.
Context `{CR : Crypto} `{BL : BlockLib} `{HF : Hardforks}.
Lemma update_witness_schedule_trxs : stable same_trxs update_witness_schedule.
Proof. head_frame. Qed.
Lemma clear_null_trxs : stable same_trxs clear_null_account_balance.
Proof. head_frame. Qed.
Lemma process_funds_trxs : stable same_trxs process_funds.
Proof. head_frame. Qed.
Lemma cashout_trxs : stable same_trxs process_comment_cashout.
Proof. head_frame. Qed.
Lemma withdrawals_trxs : stable same_trxs process_vesting_withdrawals.
Proof. head_frame. Qed.
Lemma process_hardforks_trxs : stable same_trxs process_hardforks.
Proof. head_frame. Qed.
Lemma header_extensions_trxs b : stable same_trxs (process_header_extensions b).
Proof. head_frame. Qed.
Lemma create_block_summary_trxs b : stable same_trxs (create_block_summary b).
Proof. head_frame. Qed.
Lemma signing_witness_trxs i b : stable same_trxs (update_signing_witness i b).
Proof. head_frame. Qed.
Lemma irreversible_trxs : stable same_trxs update_last_irreversible_block.
Proof. head_frame. Qed.
Lemma after_expiry_trxs : stable same_trxs (update_witness_schedule;; clear_null_account_balance;;
  process_funds;; process_comment_cashout;; process_vesting_withdrawals;; process_hardforks).
Proof.
  apply (stable_bind _); [apply update_witness_schedule_trxs|intros ?].
  apply (stable_bind _); [apply clear_null_trxs|intros ?].
  apply (stable_bind _); [apply process_funds_trxs|intros ?].
  apply (stable_bind _); [apply cashout_trxs|intros ?].
  apply (stable_bind _); [apply withdrawals_trxs|intros ?]. apply process_hardforks_trxs.
Qed.
Lemma miss_block_trxs b i : stable same_trxs (miss_block b i).
Proof. head_frame. Qed.
Lemma fill_slots_time l g :
  time (foldl (λ g i, fill_slot i g) g l) = time g ∧
  head_block_number (foldl (λ g i, fill_slot i g) g l) = head_block_number g.
Proof. revert g. induction l as [|i l IH]; intros g; [done|]. simpl. rewrite !(proj1 (IH _)), !(proj2 (IH _)). done. Qed.

(** ** References to recent blocks *)

Lemma wp_create_summary b s (Q : unit → chain → Prop) :
  (∀ x, rows (block_summaries s) !! wrap 16 (block_num b) = Some x →
    Q tt (s <| block_summaries ::= λ t, t <| rows ::=
            <[wrap 16 (block_num b) := x <| block_id := block_id_of b |>]> |> |>)) →
  wp (create_block_summary b) Q s.
Proof.
  intros HQ. unfold create_block_summary. change 65535 with (Z.ones 16). rewrite Z.land_ones by lia.
  wp_step. apply wp_get_row. intros x Hx. apply wp_modify_row. intros x' y Hx' [= <-].
  assert (x' = x) as -> by (unfold wrap in *; congruence). exact (HQ x Hx).
Qed.

(** A transaction that [set_reference_block] refers to a block of the chain
    passes the TaPoS check as long as fewer than 65536 blocks follow: the row that
    its 16-bit reference names still holds the id of that block. *)
Theorem tapos_reference_found b bs t s s1 s2 :
  create_block_summary b s = Ok (tt, s1) →
  for_each bs create_block_summary s1 = Ok (tt, s2) →
  (∀ b', b' ∈ bs → block_num b < block_num b' < block_num b + 65536) →
  let t := set_reference_block (block_id_of b) t in
  ∃ x, rows (block_summaries s2) !! ref_block_num t = Some x ∧
    ref_block_prefix t = hash_word 1 (block_id x).
Proof.
  intros E1 E2 Hbs. simpl. change (endian_reverse_u32 _) with (num_from_id (block_id_of b)).
  rewrite num_of_block_id.
  set (P s := ∃ x, rows (block_summaries s) !! wrap 16 (block_num b) = Some x ∧ block_id x = block_id_of b).
  cut (P s2); [intros (x & Hx & Hid); exists x; by rewrite Hid|].
  assert (P s1) as H1.
  { refine (wp_ok _ (λ _ s', P s') _ _ _ _ E1). apply wp_create_summary. intros x Hx.
    eexists. simpl. rewrite lookup_insert_eq. split; [done|]. done. }
  refine (wp_ok _ (λ _ s', P s') _ _ _ _ E2). apply wp_for_each; [|done].
  intros b' s' Hb' (x & Hx & Hid). apply wp_create_summary. intros y Hy. exists x. simpl.
  rewrite lookup_insert_ne; [done|]. intros E. apply Hbs in Hb'. unfold wrap in E.
  change (2 ^ 16) with 65536 in E. pose proof (block_num_range b).
  Z.to_euclidean_division_equations. lia.
Qed.

(** ** The last irreversible block *)

Lemma filter_fmap_length {A} (f : A → Z) (P : Z → Prop) `{∀ x, Decision (P x)} l :
  length (filter P (f <$> l)) = length (filter (λ x, P (f x)) l).
Proof.
  induction l as [|x l IH]; [done|]. rewrite fmap_cons, !filter_cons.
  destruct (decide (P (f x))); simpl; lia.
Qed.

Lemma filter_length_mono {A} (P Q : A → Prop) `{∀ x, Decision (P x)} `{∀ x, Decision (Q x)} l :
  (∀ x, P x → Q x) → (length (filter P l) ≤ length (filter Q l))%nat.
Proof.
  intros HPQ. induction l as [|x l IH]; [done|]. rewrite !filter_cons.
  destruct (decide (P x)), (decide (Q x)); simpl; try lia. naive_solver.
Qed.

Lemma scheduled_witnesses_rows :
  ∀ s ws s', scheduled_witnesses s = Ok (ws, s') →
    ∀ w, w ∈ ws → ∃ i, rows (witnesses s) !! i = Some w.
Proof.
  intros s ws s' E. pose proof (scheduled_witnesses_frame s) as Hf.
  pose proof (wp_ok _ _ _ _ _ Hf E) as <-. clear Hf. revert E. 
  enough (wp scheduled_witnesses (λ ws s', s' = s ∧ ∀ w, w ∈ ws → ∃ i, rows (witnesses s) !! i = Some w) s) as H.
  { intros E. exact (proj2 (wp_ok _ _ _ _ _ H E)). }
  unfold scheduled_witnesses. do 2 wp_step. apply wp_fold_m; [|split; [done|by intros ? ?%elem_of_nil]].
  intros acc i s1 _ [-> Hacc]. unfold get_witness, find_witness. repeat wp_step.
  match goal with H : of_option out_of_range _ = Ok ?iw |- _ => apply of_option_Ok in H;
    destruct iw as [j w]; apply find_row_Some in H as [Hj _] end.
  split; [done|]. intros v [Hv| ->%list_elem_of_singleton]%elem_of_app; eauto.
Qed.

(** C4: from block 30 on the last irreversible block never goes back, and it
    moves only to a block that at least three quarters of the scheduled witnesses
    have confirmed with a block of their own at that height or above. *)
Theorem irreversible_supermajority s s' :
  WLS_START_MINER_VOTING_BLOCK ≤ head_block_number (gpo s) →
  (∀ i w, rows (witnesses s) !! i = Some w → 0 ≤ last_confirmed_block_num w) →
  update_last_irreversible_block s = Ok (tt, s') →
  let lib := last_irreversible_block_num (gpo s') in
  last_irreversible_block_num (gpo s) ≤ lib ∧
  (lib = last_irreversible_block_num (gpo s) ∨
   ∃ ws, scheduled_witnesses s = Ok (ws, s) ∧
     3 * Z.of_nat (length ws) ≤
       4 * Z.of_nat (length (filter (λ w, lib ≤ last_confirmed_block_num w) ws))).
Proof.
  intros Hn Hpos E lib. subst lib. refine (wp_ok _ (λ _ s', _) _ _ _ _ E). clear E s'.
  unfold update_last_irreversible_block, head_block_num. do 2 wp_step.
  rewrite (proj2 (Z.ltb_ge _ _)) by lia. wp_step. apply wp_intro. intros ws s1 Hws.
  pose proof (scheduled_witnesses_rows _ _ _ Hws) as Hrows.
  pose proof (wp_ok _ _ _ _ _ (scheduled_witnesses_frame s) Hws) as <-.
  do 2 wp_step. match goal with H : nth_confirmed ws = Ok ?x |- _ => rename x into c, H into Hc end.
  cbv zeta. wp_step. wp_step. wp_step; [|split; [lia|by left]].
  match goal with H : (_ <? _) = true |- _ => apply Z.ltb_lt in H; rename H into Hlt end.
  apply wp_modify_gpo. intros g [= <-]. simpl. split; [lia|]. right. exists ws. split; [done|].
  unfold nth_confirmed in Hc. apply of_option_Ok, nth_sorted in Hc as (Hin & _ & Hcount).
  rewrite filter_fmap_length, length_fmap in Hcount.
  assert (0 ≤ c) as Hc0.
  { apply list_elem_of_fmap in Hin as (w & -> & Hw). apply Hrows in Hw as [i Hi]. by eapply Hpos. }
  assert (length (filter (λ x, (id c ≤ id (last_confirmed_block_num x))%Z) ws) ≤
    length (filter (λ w, (wrap 32 c ≤ last_confirmed_block_num w)%Z) ws))%nat as Hmono.
  { apply filter_length_mono. intros w. unfold id. pose proof (wrap_le 32 c ltac:(lia) Hc0). lia. }
  assert (4 * irreversible_offset (Z.of_nat (length ws)) ≤ Z.of_nat (length ws)) as Hoff.
  { unfold irreversible_offset. change (WLS_100_PERCENT - WLS_IRREVERSIBLE_THRESHOLD) with 2500.
    change WLS_100_PERCENT with 10000.
    pose proof (wrap_le 64 (2500 * Z.of_nat (length ws)) ltac:(lia) ltac:(lia)).
    Z.to_euclidean_division_equations. lia. }
  lia.
Qed.

(** ** No transaction is applied twice *)

Section replay.
Context `{CP : ChainParams}.

(** A transaction that was applied is in the table of known transactions until it
    has expired. *)
Definition seen (t : transaction) (s : chain) : Prop :=
  (∃ i x, rows (transactions s) !! i = Some x ∧ Objects.trx_id x = transaction_id t ∧
          trx_expiration x = expiration t) ∨
  (expiration t ≤ time (gpo s) ∧ 0 < head_block_number (gpo s)).

(** New ids are above all others, so that a new row does not replace one. *)
Definition trxs_wf (s : chain) : Prop :=
  ∀ i x, rows (transactions s) !! i = Some x → i < next_id (transactions s).

Lemma same_trxs_seen t s s' : same_trxs s s' → seen t s → seen t s'.
Proof. intros (H1 & H2 & H3). unfold seen. by rewrite H1, H2, H3. Qed.
Lemma same_trxs_wf s s' : same_trxs s s' → trxs_wf s → trxs_wf s'.
Proof. intros (H1 & _). unfold trxs_wf. by rewrite H1. Qed.

Lemma when_lift_pure {A} b (f : A → result unit) (g : chain → A) :
  stable (=) (when b (s ← gets g; lift (f s))).
Proof. head_frame. Qed.
Lemma check_expiration_spec skip t s :
  wp (check_expiration skip t) (λ _ s', s' = s ∧ time (gpo s) < expiration t) s.
Proof.
  unfold check_expiration. wp_step. eapply wp_mono.
  { assert (stable (=) (when (negb (skips skip skip_tapos_check))
      (b ← get_row block_summaries (ref_block_num t);
       lift (throw_unless transaction_tapos_exception (ref_block_prefix t =? hash_word 1 (block_id b))))))
      as H by head_frame. apply H. }
  intros ? s1 <-. unfold head_block_time. repeat wp_step.
  match goal with H : throw_unless _ (_ <? _) = Ok _ |- _ => apply throw_unless_Ok, Z.ltb_lt in H end. done.
Qed.

(** What the checks before the operations know. *)
Lemma apply_transaction_checks skip t s :
  skips skip skip_transaction_dupe_check = false → trxs_wf s →
  wp (_apply_transaction skip t) (λ _ s', ¬ seen (trx t) s ∧ seen (trx t) s' ∧ trxs_wf s' ∧
    (∀ u, seen u s → seen u s') ∧ time (gpo s') = time (gpo s) ∧
    head_block_number (gpo s') = head_block_number (gpo s)) s.
Proof.
  intros Hdupe Hwf. unfold _apply_transaction. rewrite Hdupe. simpl.
  wp_step. eapply wp_mono; [assert (stable (=) (when (S := chain) (negb (skips skip skip_validate))
    (lift (transaction_validate (trx t))))) as H by head_frame; apply H|]. intros ? s1 <-.
  do 4 wp_step. wp_step. eapply wp_mono; [apply when_lift_pure|]. intros ? s1 <-.
  wp_step. unfold head_block_num. wp_step. wp_step.
  eapply (wp_mono _ (λ _ s', s' = s ∧ (0 < head_block_number (gpo s) → time (gpo s) < expiration (trx t)))).
  { wp_step.
    - eapply wp_mono; [apply check_expiration_spec|]. intros ? s1 [-> ?]. auto.
    - split; [done|]. intros. match goal with H : (_ <? _) = false |- _ => apply Z.ltb_ge in H; lia end. }
  intros ? s1 [-> Hexp]. wp_step. wp_step. apply wp_create_row. intros Hnew. wp_step.
  match goal with |- wp _ _ ?s1 => set (s2 := s1) end.
  eapply wp_mono; [apply (stable_for_each _ _ _ apply_operation_head)|].
  intros ? s3 H3%same_head_trxs. destruct H3 as (Ht & Hti & Hn).
  assert (transactions s3 = transactions s2) as Ht3 by done.
  split_and!; [| | | |by rewrite Hti|by rewrite Hn].
  - intros [(i & x & Hi & Hid & _)|[He H0]]; [|specialize (Hexp H0); lia].
    pose proof (find_row_None _ _ _ _ Hnew Hi) as Hd. unfold same_trx in Hd. simpl in Hd.
    apply Z.eqb_neq in Hd. congruence.
  - left. exists (next_id (transactions s)). eexists. rewrite Ht3. simpl. rewrite lookup_insert_eq.
    split; [done|]. done.
  - intros i x. rewrite Ht3. simpl. destruct (decide (i = next_id (transactions s))) as [->|Hne]; [lia|].
    rewrite lookup_insert_ne by done. intros Hi%Hwf. lia.
  - intros u [(i & x & Hi & Hid & He)|[He H0]]; [left|right].
    + exists i, x. split; [|done]. rewrite Ht3. simpl. rewrite lookup_insert_ne; [done|].
      apply Hwf in Hi. lia.
    + by rewrite Hti, Hn.
Qed.
(** [l] was applied between [s] and [s']: nothing twice, nothing seen before, and
    what was seen stays seen. *)
Definition fresh (l : list transaction) (s s' : chain) : Prop :=
  NoDup l ∧ (∀ t, t ∈ l → ¬ seen t s ∧ seen t s') ∧ (∀ u, seen u s → seen u s') ∧ (trxs_wf s → trxs_wf s').

Lemma fresh_nil s s' :
  (∀ u, seen u s → seen u s') → (trxs_wf s → trxs_wf s') → fresh [] s s'.
Proof. intros H Hw. split_and!; [constructor|by intros ? ?%elem_of_nil|done|done]. Qed.
Lemma fresh_app l1 l2 s1 s2 s3 : fresh l1 s1 s2 → fresh l2 s2 s3 → fresh (l1 ++ l2) s1 s3.
Proof.
  intros (N1 & H1 & K1 & W1) (N2 & H2 & K2 & W2). split_and!; [| |auto|auto].
  - apply NoDup_app. split_and!; [done| |done]. intros t [_ Hs]%H1 [Hn _]%H2. done.
  - intros t [[Hn Hs]%H1|[Hn Hs]%H2]%elem_of_app; split; auto.
Qed.
Lemma same_trxs_fresh s s' : same_trxs s s' → fresh [] s s'.
Proof. intros H. apply fresh_nil; [intros u; by apply same_trxs_seen|by apply same_trxs_wf]. Qed.

Lemma apply_transactions_fresh skip l s :
  skips skip skip_transaction_dupe_check = false → trxs_wf s →
  wp (for_each l (_apply_transaction skip)) (λ _ s', fresh (trx <$> l) s s' ∧
    time (gpo s') = time (gpo s) ∧ head_block_number (gpo s') = head_block_number (gpo s)) s.
Proof.
  intros Hd. revert s. induction l as [|t l IH]; intros s Hwf; simpl; [split; [by apply fresh_nil|done]|].
  wp_step. eapply wp_mono; [by apply apply_transaction_checks|].
  intros ? s1 (Hn & Hs & Hwf1 & Hk & Ht & Hh). eapply wp_mono; [by apply IH|].
  intros ? s2 (Hf & Ht2 & Hh2). split; [|split; congruence].
  apply (fresh_app [_] _ _ s1); [|done]. split_and!; [by apply NoDup_singleton| |done|done].
  intros u ->%list_elem_of_singleton. done.
Qed.

(** Only what has expired leaves the table. *)
Lemma clear_expired_fresh s :
  0 < head_block_number (gpo s) →
  wp clear_expired_transactions (λ _ s', fresh [] s s' ∧ time (gpo s') = time (gpo s) ∧
    head_block_number (gpo s') = head_block_number (gpo s)) s.
Proof.
  intros H0. unfold clear_expired_transactions. do 2 wp_step.
  apply (wp_while_fuel _ _ (λ s', fresh [] s s' ∧ time (gpo s') = time (gpo s) ∧
    head_block_number (gpo s') = head_block_number (gpo s))); [|split; [by apply fresh_nil|done]].
  intros s1 (Hf & Ht & Hh). unfold clear_expired_step, head_block_time. do 4 wp_step.
  destruct (first_to_expire _) as [[i x]|] eqn:E; [|by wp_step].
  apply seek_Some in E as (Hi & _ & _). wp_step; [|by wp_step].
  match goal with H : (_ <? _) = true |- _ => apply Z.ltb_lt in H; rename H into Hlt end.
  wp_step. apply wp_remove_row. intros y Hy. wp_step. split; [|done].
  apply (fresh_app [] [] _ s1); [done|]. apply fresh_nil.
  - intros u [(j & z & Hj & Hid & He)|Hu]; [|by right]. simpl.
    destruct (decide (i = j)) as [->|Hne].
    + right. simpl. rewrite Hh, Ht in *. assert (z = x) as -> by congruence. lia.
    + left. exists j, z. simpl. by rewrite lookup_delete_ne.
  - intros Hw j z. simpl. intros [_ Hj]%lookup_delete_Some. by apply Hw in Hj.
Qed.

Lemma update_global_spec skip b s :
  wp (update_global_dynamic_data skip b) (λ _ s', transactions s' = transactions s ∧
    time (gpo s') = timestamp b ∧ head_block_number (gpo s') = block_num b) s.
Proof.
  unfold update_global_dynamic_data, head_block_time. do 2 wp_step. wp_step.
  eapply (wp_mono _ (λ _ s', same_trxs s s')).
  { wp_step; [|wp_step; done]. do 2 wp_step. cbv zeta. wp_step.
    eapply wp_mono; [apply (stable_for_each _ _ _ (miss_block_trxs b))|]. intros ? s1 H1. by wp_step. }
  intros missed s1 (Ht & _ & _). wp_step. apply wp_modify_gpo. intros g Hg. wp_step. wp_step.
  unfold mret, result_ret in Hg. injection Hg as <-. by repeat wp_step.
Qed.

(** Runs a step that is known to be [fresh []]. *)
Lemma wp_trxs {A} (m : M chain A) s (Q : A → chain → Prop) :
  stable same_trxs m → (∀ a s', same_trxs s s' → Q a s') → wp m Q s.
Proof. intros Hm HQ. eapply wp_mono; [apply Hm|]. intros a s'. apply HQ. Qed.

Lemma validate_header_spec skip b s :
  wp (validate_block_header skip b) (λ _ s', s' = s ∧ head_block_id (gpo s) = previous b ∧
    time (gpo s) < timestamp b) s.
Proof.
  unfold validate_block_header. do 3 wp_step. unfold head_block_time. do 5 wp_step.
  match goal with H : (_ <? _) = true |- _ => apply Z.ltb_lt in H end.
  match goal with H : (_ =? _) = true |- _ => apply Z.eqb_eq in H end.
  match goal with |- wp ?m _ _ => assert (stable (=) m) as Hm by head_frame end.
  eapply wp_mono; [apply Hm|]. intros ? s' <-. done.
Qed.

Lemma apply_block_fresh skip b s :
  skips skip skip_transaction_dupe_check = false → block_num b ≠ 0 → trxs_wf s →
  wp (_apply_block skip b) (λ _ s', fresh (trx <$> block_transactions b) s s') s.
Proof.
  intros Hd Hb Hwf. unfold _apply_block, apply_block_head. do 2 wp_step.
  eapply wp_mono; [assert (stable (=) (check_merkle skip b)) as H by head_frame; apply H|]. intros ? s0 <-.
  wp_step. eapply wp_mono; [apply validate_header_spec|]. intros [i w] s0 (-> & _ & Htime).
  do 5 wp_step. apply wp_trxs; [head_frame|]. intros ? s1 H1.
  wp_step. apply wp_trxs; [apply header_extensions_trxs|]. intros ? s2 H2.
  wp_step. apply wp_trxs; [head_frame|]. intros w' s3 H3. do 4 wp_step.
  assert (same_trxs s s3) as Hs3 by (transitivity s1; [done|]; by transitivity s2). clear H1 H2 H3.
  wp_step. eapply wp_mono; [apply apply_transactions_fresh; [done|by eapply same_trxs_wf]|].
  intros ? s4 (Hf & Ht & Hn). wp_step. eapply wp_mono; [apply update_global_spec|].
  intros ? s5 (T5 & Ht5 & Hn5).
  assert (fresh (trx <$> block_transactions b) s s4) as Hf4 by (by apply (fresh_app [] _ _ s3); [apply same_trxs_fresh|]).
  assert (fresh [] s4 s5) as Hf5.
  { destruct Hs3 as (_ & Hts & Hns). apply fresh_nil.
    - intros u [Hu|[He ?]]; [left; by rewrite T5|right]. rewrite Ht5, Hn5. split; [rewrite <-Hts, <-Ht in Htime; lia|].
      pose proof (wrap_range 32 (num_from_id (previous b) + 1) ltac:(lia)). unfold block_num in *. lia.
    - unfold trxs_wf. by rewrite T5. }
  assert (fresh (trx <$> block_transactions b) s s5) as Hf' by (rewrite <-(app_nil_r (_ <$> _)); by apply (fresh_app _ _ _ s4)).
  assert (0 < head_block_number (gpo s5)) as Hpos.
  { rewrite Hn5. pose proof (wrap_range 32 (num_from_id (previous b) + 1) ltac:(lia)). unfold block_num in *. lia. }
  clear - Hf' Hpos.
  wp_step. apply wp_trxs; [apply signing_witness_trxs|]. intros ? s6 H6.
  apply wp_trxs; [apply irreversible_trxs|]. intros ? s7 H7.
  unfold apply_block_tail. wp_step. apply wp_trxs; [apply create_block_summary_trxs|]. intros ? s8 H8.
  assert (same_trxs s5 s8) as H by (transitivity s6; [done|]; by transitivity s7). clear H6 H7 H8.
  wp_step. eapply wp_mono; [apply clear_expired_fresh; destruct H as (_ & _ & ->); done|].
  intros ? s9 (Hf9 & _). apply wp_intro. intros ? s10 E.
  assert (same_trxs s9 s10) as H10.
  { exact (wp_ok _ _ _ _ _ (after_expiry_trxs s9) E). }
  rewrite <-(app_nil_r (_ <$> _)). apply (fresh_app _ _ _ s5); [done|].
  apply (fresh_app [] [] _ s8); [by apply same_trxs_fresh|].
  apply (fresh_app [] [] _ s9); [done|by apply same_trxs_fresh].
Qed.

(** C2: however many blocks are applied one after the other, from any chain, no
    transaction is executed twice: neither within a block nor in different ones,
    whether the table still knows it or it was removed because it has expired.
    Different signatures do not make a different transaction.  The check for duplicates
    must be on throughout, and no block may have the number 0. *)
Theorem no_transaction_twice skip bs s s' :
  skips skip skip_transaction_dupe_check = false → trxs_wf s →
  (∀ b, b ∈ bs → block_num b ≠ 0) →
  for_each bs (_apply_block skip) s = Ok (tt, s') →
  NoDup (trx <$> (bs ≫= block_transactions)).
Proof.
  intros Hd Hwf Hb E. cut (fresh (trx <$> (bs ≫= block_transactions)) s s'); [by intros [? _]|].
  refine (wp_ok _ (λ _ s', fresh _ s s') _ _ _ _ E). clear E s'. revert s Hwf Hb.
  induction bs as [|b bs IH]; intros s Hwf Hb; simpl; [by apply fresh_nil|].
  wp_step. eapply wp_mono; [apply apply_block_fresh; [done| |done]|].
  { apply Hb. by left. }
  intros ? s1 Hf. eapply wp_mono; [apply IH|].
  - by apply Hf.
  - intros b' ?. apply Hb. by right.
  - intros ? s2 Hf2. rewrite fmap_app. by apply (fresh_app _ _ _ s1).
Qed.
(** No operation names a proxy that begins with a NUL. *)
Definition visible_trx (t : signed_transaction) : bool := forallb visible_op (operations (trx t)).
Lemma apply_transaction_keeps skip t s :
  skips skip skip_validate = false → visible_trx t = true → ledger_inv s → wp (_apply_transaction skip t) (λ _, ledger_inv) s.
Proof.
  intros Hv Hvis Hs.
  unfold _apply_transaction. rewrite Hv. cbn [negb when]. wp_step. wp_step.
  match goal with H : transaction_validate _ = Ok _ |- _ => rename H into Hval end.
  match goal with |- wp ?m _ _ => assert (wp m (λ _ s', ledger_inv s') s); [|done] end.
  do 4 wp_step. wp_step. eapply wp_mono; [apply when_lift_pure|]. intros ? s1 <-.
  unfold head_block_num. do 3 wp_step.
  eapply (wp_mono _ (λ _ s', s' = s)).
  { wp_step; [|done]. eapply wp_mono; [apply check_expiration_spec|]. by intros ? s1 [-> _]. }
  intros ? s1 ->. wp_step. eapply (wp_mono _ (λ _ s', ledger_inv s')).
  { wp_step; [|done]. wp_step. apply wp_create_row. intros _. wp_step.
    apply (moves_ledger s); [|done]. by apply moves_untouched. }
  intros ? s2 Hs2. apply wp_for_each; [|done]. intros op s3 Hop Hs3.
  unfold visible_trx in Hvis. rewrite List.forallb_forall in Hvis.
  apply apply_operation_keeps; [|by apply Hvis, list_elem_of_In|done]. unfold transaction_validate in Hval.
  apply bind_Ok in Hval as (? & _ & Hval). by eapply each_elem.
Qed.

(** A transaction that is validated and applied keeps the books balanced, with
    all its operations, unless one of them names a proxy that begins with a NUL. *)
Theorem apply_transaction_ledger skip t s s' :
  skips skip skip_validate = false → visible_trx t = true → ledger_inv s →
  _apply_transaction skip t s = Ok (tt, s') → ledger_inv s'.
Proof. intros Hv Hvis Hs E. exact (wp_ok _ _ _ _ _ (apply_transaction_keeps skip t s Hv Hvis Hs) E). Qed.

End replay.
End frames.
