(* ===== verification/ChainSpec.v ===== *)
(** * ChainSpec: slot counters, hardforks and the genesis state

    The participation counter counts the slots that were filled among the last
    128; hardforks are applied one after the other and none is left over; the
    genesis state satisfies the invariants of the ledger. *)

From S2P Require Import Prelude FcLib Tables Config Asset Names Authority Operations Transaction Block Reward Objects Ledger Invariants Supply Evaluators Conservation Demo Preservation LedgerSpec Payout Schedule ScheduleSpec Blocks BlocksSpec.

#[local] Arguments Z.testbit : simpl never.

(** ** Filled slots *)

(** How many of the [n] lowest bits are set. *)
Definition ones (n : nat) (r : Z) : Z :=
  Z.of_nat (length (filter (λ i, Z.testbit r i = true) (seqZ 0 (Z.of_nat n)))).

Lemma ones_S n r : ones (S n) r = ones n r + Z.b2z (Z.testbit r (Z.of_nat n)).
Proof.
  unfold ones. rewrite seqZ_S, filter_app, length_app, Z.add_0_l. simpl.
  rewrite filter_cons. destruct (Z.testbit r (Z.of_nat n)); simpl; lia.
Qed.
Lemma ones_range n r : 0 ≤ ones n r ≤ Z.of_nat n.
Proof.
  induction n as [|n IH]; [done|]. rewrite ones_S. destruct (Z.testbit r (Z.of_nat n)); simpl; lia.
Qed.
Lemma ones_ext n r r' :
  (∀ i, 0 ≤ i < Z.of_nat n → Z.testbit r i = Z.testbit r' i) → ones n r = ones n r'.
Proof.
  induction n as [|n IH]; intros H; [done|]. rewrite !ones_S, IH, H; [done|lia|]. intros. apply H. lia.
Qed.
(** Shifting in a bit from below. *)
Lemma ones_shift n r b : ones (S n) (2 * r + Z.b2z b) = ones n r + Z.b2z b.
Proof.
  induction n as [|n IH].
  - rewrite ones_S. change (ones 0 _) with 0. rewrite Z.testbit_0_r. by destruct b.
  - rewrite ones_S, IH, (ones_S n r), Nat2Z.inj_succ, Z.testbit_succ_r by lia. lia.
Qed.

Section slots.
Context `{FC : FcLib} `{ENV : EvalEnv} `{CR : Crypto} `{BL : BlockLib} `{CP : ChainParams} `{HF : Hardforks}.

(** The counter is the number of filled slots among the last 128. *)
Definition participation_ok (g : dynamic_global_property_object) : Prop :=
  0 ≤ recent_slots_filled g < 2 ^ 128 ∧ participation_count g = ones 128 (recent_slots_filled g).

Lemma fill_slot_participation i g : participation_ok g → participation_ok (fill_slot i g).
Proof.
  intros [Hr Hc]. unfold participation_ok, fill_slot. simpl.
  set (r := recent_slots_filled g) in *. set (b := i =? 0).
  assert (u128_add (u128_shl r 1) (if b then 1 else 0) = wrap 128 (2 * r + Z.b2z b)) as ->.
  { rewrite u128_add_spec, u128_shl_spec by lia. unfold wrap. rewrite Z.add_mod_idemp_l by lia.
    f_equal. rewrite Z.mul_comm. by destruct b. }
  split; [apply wrap_range; lia|].
  assert (ones 128 (wrap 128 (2 * r + Z.b2z b)) = ones 127 r + Z.b2z b) as ->.
  { rewrite <-ones_shift. apply ones_ext. intros j Hj. unfold wrap. apply Z.mod_pow2_bits_low. lia. }
  pose proof (ones_S 127 r) as H1. change (Z.of_nat 127) with 127 in H1.
  pose proof (ones_range 127 r) as H2. rewrite Hc.
  change 128%nat with (S 127) in *. rewrite H1.
  destruct (Z.testbit r 127); destruct b; simpl Z.b2z in *;
    rewrite (wrap_small 8 (_ - _)), wrap_small by lia; lia.
Qed.

Definition same_gpo (s s' : chain) : Prop := gpo s' = gpo s.
#[local] Instance same_gpo_preorder : PreOrder same_gpo.
Proof. split; [done|]. intros s1 s2 s3 H1 H2. unfold same_gpo in *. congruence. Qed.
Lemma miss_block_gpo b i : stable same_gpo (miss_block b i).
Proof. unfold same_gpo. head_frame. Qed.

(** [participation_count] stays the number of filled slots among the last 128,
    without wrapping its 8 bits, and [current_aslot] advances by exactly the slot of
    the block, the missed ones included. *)
Theorem update_global_counts skip b s s' (slot := get_slot_at_time (timestamp b) s) :
  time (gpo s) ≠ 0 → 0 < slot → participation_ok (gpo s) →
  0 ≤ current_aslot (gpo s) → current_aslot (gpo s) + slot < 2 ^ 64 → slot < 2 ^ 32 →
  update_global_dynamic_data skip b s = Ok (tt, s') →
  participation_ok (gpo s') ∧ current_aslot (gpo s') = current_aslot (gpo s) + slot ∧
  head_block_number (gpo s') = block_num b ∧ head_block_id (gpo s') = block_id_of b ∧
  time (gpo s') = timestamp b.
Proof.
  intros Ht Hslot Hp Ha Hb Hs E. refine (wp_ok _ (λ _ s', _) _ _ _ _ E). clear E s'.
  unfold update_global_dynamic_data, head_block_time. do 2 wp_step.
  rewrite (proj2 (Z.eqb_neq _ _) Ht). cbn [negb]. wp_step. do 2 wp_step. cbv zeta. fold slot. wp_step.
  eapply wp_mono; [apply (stable_for_each _ _ _ (miss_block_gpo b))|].
  intros ? s1 Hg. unfold same_gpo in Hg. wp_step. wp_step. apply wp_modify_gpo. intros g Hg'. unfold mret, result_ret in Hg'.
  injection Hg' as <-. wp_step. wp_step. rewrite Hg.
  assert (∀ l g, participation_ok g → participation_ok (foldl (λ g i, fill_slot i g) g l) ∧
    current_aslot (foldl (λ g i, fill_slot i g) g l) = current_aslot g) as Hfold.
  { induction l as [|i l IH]; intros g Hg0; [done|]. simpl.
    destruct (IH (fill_slot i g)) as [H1 H2]; [by apply fill_slot_participation|]. rewrite H2. done. }
  destruct (Hfold (seqZ 0 (wrap 32 (wrap 32 (slot - 1) + 1))) (gpo s) Hp) as [H1 H2].
  eapply (wp_mono _ (λ _ s', gpo s' = _)); [|intros ? s' ->].
  { wp_step; [wp_step|]; simpl; reflexivity. }
  split_and!; [exact H1| |done..].
  simpl. rewrite H2. rewrite (wrap_small 32 (slot - 1)) by lia.
  replace (slot - 1 + 1) with slot by lia. by rewrite (wrap_small 32 slot), wrap_small by lia.
Qed.
End slots.

(** ** Hardforks *)

Section hardforks.
Context `{HF : Hardforks}.
Context (Hnum : 0 ≤ WLS_NUM_HARDFORKS < 2 ^ 32 - 1)
  (Htimes : Z.of_nat (length hardfork_times) = WLS_NUM_HARDFORKS + 1)
  (Hversions : Z.of_nat (length hardfork_versions) = WLS_NUM_HARDFORKS + 1).

(** The hardforks up to [last_hardfork] have been processed, in order. *)
Definition hardforks_wf (h : hardfork_property_object) : Prop :=
  0 ≤ last_hardfork h ≤ WLS_NUM_HARDFORKS ∧
  processed_hardforks h = take (S (Z.to_nat (last_hardfork h))) hardfork_times ∧
  hardfork_versions !! Z.to_nat (last_hardfork h) = Some (current_hardfork_version h).

Lemma apply_hardfork_spec s (h := hpo s) :
  hardforks_wf h → last_hardfork h < WLS_NUM_HARDFORKS →
  ∃ h', apply_hardfork (last_hardfork h + 1) s = Ok (tt, s <| hpo := h' |>) ∧ hardforks_wf h' ∧
    last_hardfork h' = last_hardfork h + 1 ∧ next_hardfork h' = next_hardfork h ∧
    next_hardfork_time h' = next_hardfork_time h.
Proof.
  intros (Hl & Hp & Hv) Hlt. set (n := Z.to_nat (last_hardfork h)) in *.
  assert (Z.to_nat (last_hardfork h + 1) = S n) as En by lia.
  destruct (lookup_lt_is_Some_2 hardfork_times (S n) ltac:(lia)) as [t Ht].
  destruct (lookup_lt_is_Some_2 hardfork_versions (S n) ltac:(lia)) as [v Hv'].
  unfold apply_hardfork, mbind, M_bind, gets, assert, lift, modify_hpo, modify. fold h.
  rewrite (wrap_small 32) by lia. rewrite Z.eqb_refl. simpl.
  assert (Z.of_nat (length (processed_hardforks h)) =? last_hardfork h + 1 = true) as ->.
  { apply Z.eqb_eq. rewrite Hp, length_take. lia. }
  cbn [throw_unless]. rewrite En, Ht, Hv'. cbn [of_option]. simpl. fold h.
  assert ((processed_hardforks h ++ [t]) !! S n = Some t) as ->.
  { rewrite lookup_app_r; rewrite Hp, length_take; [|lia]. by replace (S n - _)%nat with 0%nat by lia. }
  simpl. rewrite Z.eqb_refl. simpl. eexists. split; [done|].
  split_and!; [|done..]. split_and!; simpl; [lia|lia| |by rewrite En].
  rewrite En, Hp. symmetry. by apply take_S_r.
Qed.

Lemma hardfork_step_spec s (h := hpo s) :
  hardforks_wf h →
  match hardfork_step s with
  | Ok (true, s') => hardforks_wf (hpo s') ∧ last_hardfork (hpo s') = last_hardfork h + 1 ∧
      next_hardfork (hpo s') = next_hardfork h ∧ next_hardfork_time (hpo s') = next_hardfork_time h ∧
      gpo s' = gpo s
  | Ok (false, s') => s' = s ∧
      (next_hardfork h ≤ current_hardfork_version h ∨ time (gpo s) < next_hardfork_time h)
  | Err e => e = unknown_hardfork_exception ∧ last_hardfork h = WLS_NUM_HARDFORKS
  end.
Proof.
  intros Hwf. pose proof Hwf as (Hl & _ & Hv). subst h.
  unfold hardfork_step, head_block_time, mbind, M_bind, gets, lift. rewrite Hv. simpl.
  destruct ((current_hardfork_version (hpo s) <? next_hardfork (hpo s)) &&
            (next_hardfork_time (hpo s) <=? time (gpo s))) eqn:E.
  - destruct (Z.ltb_spec (last_hardfork (hpo s)) WLS_NUM_HARDFORKS) as [Hlt|Hge].
    + destruct (apply_hardfork_spec s Hwf Hlt) as (h' & -> & Hwf' & Hl' & Hn & Ht). simpl. auto.
    + simpl. split; [done|lia].
  - simpl. split; [done|]. apply andb_false_iff in E as [?%Z.ltb_ge|?%Z.leb_gt]; lia.
Qed.

(** [process_hardforks] applies the hardforks in order, one after the other, and
    ends with none left over: afterwards the version the witnesses agreed on is
    reached, or its time has not come.  It fails only when the witnesses agreed on
    a hardfork the program does not know. *)
Theorem process_hardforks_complete s :
  hardforks_wf (hpo s) →
  match process_hardforks s with
  | Ok (_, s') => hardforks_wf (hpo s') ∧ last_hardfork (hpo s) ≤ last_hardfork (hpo s') ∧
      gpo s' = gpo s ∧
      (next_hardfork (hpo s) ≤ current_hardfork_version (hpo s') ∨
       time (gpo s) < next_hardfork_time (hpo s))
  | Err e => e = unknown_hardfork_exception
  end.
Proof.
  unfold process_hardforks. intros Hwf.
  assert (WLS_NUM_HARDFORKS - last_hardfork (hpo s) < Z.of_nat (S (Z.to_nat WLS_NUM_HARDFORKS))) as Hn
    by (destruct Hwf as (Hl & _); lia).
  revert s Hwf Hn. induction (S (Z.to_nat WLS_NUM_HARDFORKS)) as [|n IH]; intros s Hwf Hn.
  { destruct Hwf as (Hl & _). lia. }
  cbn [while_fuel]. unfold mbind, M_bind. pose proof (hardfork_step_spec s Hwf) as Hs.
  destruct (hardfork_step s) as [[[] s1]|e].
  - destruct Hs as (Hwf1 & Hl & Hnx & Ht & Hg). specialize (IH s1 Hwf1 ltac:(lia)).
    rewrite Hg, Hnx, Ht, Hl in IH. destruct (while_fuel n hardfork_step s1) as [[[] s2]|e]; [|done].
    destruct IH as (? & ? & ? & ?). split_and!; [done|lia|done|done].
  - destruct Hs as [-> Hs]. simpl. split_and!; [done|lia|done|done].
  - apply Hs.
Qed.
End hardforks.

(** ** Genesis *)

Section genesis.
Context `{FC : FcLib} `{ENV : EvalEnv} `{CR : Crypto} `{BL : BlockLib} `{CP : ChainParams} `{HF : Hardforks}.

(** While the accounts are created: they hold [d] WLS, nothing else has value. *)
Definition founding (d : Z) (s : chain) : Prop :=
  drift empty_chain s (- d) 0 0 0 ∧ accounts_wf s ∧ gpo s = default_gpo ∧ reward_funds s = empty_table ∧
  transactions s = empty_table.

Lemma wp_genesis_account a threshold ow ac po d s :
  proxy a = WLS_PROXY_TO_SELF_ACCOUNT → hidden (name a) = false →
  tokens a = (account_shape a, proxied_vsf_votes default_account, balance a, WLS 0, VESTS 0, VESTS 0, WLS 0) →
  founding d s →
  wp (genesis_account a threshold ow ac po) (λ _ s', founding (d + amount (balance a)) s') s.
Proof.
  intros Hp Hvis Ha (Hd & Hwf & Hg & Hf & Ht). unfold genesis_account. wp_step. apply wp_create_row. intros Hnew.
  match goal with |- wp _ _ ?s => set (s1 := s) in * end.
  assert (drift s s1 (- amount (balance a)) 0 0 0) as Hd1 by (by apply moves_new_account).
  assert (accounts_wf s1) as Hwf1.
  { apply accounts_wf_create; [done|done| |done|done]. unfold tokens in Ha. injection Ha as Hl _ _ _ _. by rewrite Hl. }
  wp_step. apply wp_create_row. intros _. wp_step.
  match goal with |- founding _ ?s => set (s2 := s) in * end.
  assert (drift s1 s2 0 0 0 0) as Hd2 by (by apply untouched_drift).
  split_and!; [unfold drift in *; lia|by apply (accounts_wf_shape s1)|done..].
Qed.

Hint Resolve quiet_adjust_witness_vote : stable.
Lemma quiet_retally_votes : quiet retally_witness_votes.
Proof. unfold retally_witness_votes. quiet. Qed.
Lemma quiet_reset_time : quiet reset_virtual_schedule_time.
Proof. unfold reset_virtual_schedule_time. quiet. Qed.
Lemma quiet_retally_counts f : quiet (retally_witness_vote_counts f).
Proof. unfold retally_witness_vote_counts. quiet. Qed.
Lemma quiet_retally_ancestors n c : quiet (retally_ancestors n c).
Proof. revert c. induction n as [|n IH]; intros c; simpl; quiet; apply IH. Qed.
Hint Resolve quiet_retally_ancestors : stable.
Lemma quiet_retally_children : quiet retally_comment_children.
Proof. unfold retally_comment_children. quiet. Qed.

Lemma init_miner_visible i : hidden (init_miner_name i) = false.
Proof.
  unfold hidden, name_size, name_string, init_miner_name, WLS_INIT_MINER_NAME.
  by destruct (16 <=? _)%nat.
Qed.
Definition seed (i : Z) : Z := if i =? 0 then 1000 else 0.
Lemma wp_genesis_witnesses l d s :
  founding d s → wp (for_each l genesis_witness) (λ _ s', founding (d + foldr Z.add 0 (seed <$> l)) s') s.
Proof.
  revert d s. induction l as [|i l IH]; intros d s Hd; simpl; [by rewrite Z.add_0_r|].
  wp_step. unfold genesis_witness. wp_step. eapply wp_mono; [by apply wp_genesis_account; [|apply init_miner_visible|..]|].
  intros ? s1 H1. wp_step. apply wp_create_row. intros _. wp_step.
  eapply wp_mono; [apply (IH (d + seed i))|].
  - destruct H1 as (Hd1 & Hwf1 & Hg1 & Hf1 & Ht1). split_and!; [|by eapply accounts_wf_shape, Hwf1|done..].
    simpl in Hd1. unfold seed. exact Hd1.
  - intros ? s2 H2. by rewrite Z.add_assoc.
Qed.

Lemma n_times_frame {S} (R : relation S) `{!PreOrder R} n (m : M S unit) : stable R m → stable R (n_times n m).
Proof.
  intros Hm. unfold n_times. destruct n as [|p|p]; [by apply (stable_ret _)| |by apply (stable_ret _)].
  simpl. apply Pos.iter_invariant; [|by apply (stable_ret _)].
  intros rest Hr. apply (stable_bind _); [done|]. intros _. done.
Qed.

(** The state is in balance, its properties are [g], and no transaction is known. *)
Definition founded (s : chain) (g : dynamic_global_property_object) : Prop :=
  supply_inv s ∧ accounts_wf s ∧ gpo s = g ∧ transactions s = empty_table ∧ reward_funds s = empty_table.
(** What the rest of the genesis neither moves nor touches. *)
Definition calm (s s' : chain) : Prop :=
  still s s' ∧ gpo s' = gpo s ∧ transactions s' = transactions s ∧ reward_funds s' = reward_funds s.
#[local] Instance calm_preorder : PreOrder calm.
Proof.
  split; [intros s; split; [reflexivity|done]|].
  intros s1 s2 s3 (? & ? & ? & ?) (? & ? & ? & ?). split_and!; [by transitivity s2|congruence..].
Qed.
Definition same_base (s s' : chain) : Prop := gpo s' = gpo s ∧ transactions s' = transactions s ∧
  reward_funds s' = reward_funds s.
#[local] Instance same_base_preorder : PreOrder same_base.
Proof. split; [done|]. intros s1 s2 s3 (? & ? & ?) (? & ? & ?). unfold same_base. split_and!; congruence. Qed.
Ltac base_frame := frame_with ltac:(unfold same_base; bind_oks; repeat case_match; bind_oks; by split_and!).
Lemma calm_intro (m : M chain unit) : quiet m → stable same_base m → stable calm m.
Proof.
  intros Hq Hb s. apply wp_intro. intros ? s' E. split; [exact (wp_ok _ _ _ _ _ (Hq s) E)|].
  exact (wp_ok _ _ _ _ _ (Hb s) E).
Qed.
Lemma calm_create x : stable calm (create_plain block_summaries x).
Proof. intros s. unfold create_plain. wp_step. split_and!; [by apply moves_untouched|done..]. Qed.
Lemma calm_hpo f : stable calm (modify_hpo f).
Proof. intros s. unfold modify_hpo. wp_step. split_and!; [by apply moves_untouched|done..]. Qed.
Lemma calm_wso f : stable calm (modify_wso f).
Proof. intros s. unfold modify_wso. repeat wp_step. split_and!; [by apply moves_untouched|done..]. Qed.
Lemma calm_votes : stable calm retally_witness_votes.
Proof. apply calm_intro; [apply quiet_retally_votes|base_frame]. Qed.
Lemma calm_reset : stable calm reset_virtual_schedule_time.
Proof. apply calm_intro; [apply quiet_reset_time|base_frame]. Qed.
Lemma calm_counts f : stable calm (retally_witness_vote_counts f).
Proof. apply calm_intro; [apply quiet_retally_counts|base_frame]. Qed.
Lemma calm_children : stable calm retally_comment_children.
Proof.
  assert (∀ n c, stable same_base (retally_ancestors n c)) as Hr.
  { intros n. induction n as [|n IH]; intros c; simpl; base_frame; apply IH. }
  apply calm_intro; [apply quiet_retally_children|base_frame].
Qed.
Lemma wp_calm (m : M chain unit) s (Q : unit → chain → Prop) :
  stable calm m → (∀ s', calm s s' → Q tt s') → wp m Q s.
Proof. intros Hm HQ. eapply wp_mono; [apply Hm|]. intros [] s'. apply HQ. Qed.
Lemma calm_founded s s' g : calm s s' → founded s g → founded s' g.
Proof.
  intros (Hs & Hg & Ht & Hf) (Hi & Hw & ? & ? & ?). destruct (moves_ledger s s' Hs (conj Hi Hw)).
  split_and!; [done|done|congruence..].
Qed.
(** A new chain starts in balance: the genesis state satisfies the invariants of
    the ledger with the initial supply in its accounts, its participation counter
    counts 128 filled slots, and no transaction is known yet. *)
Theorem init_genesis_ledger init_supply s :
  1000 ≤ init_supply < 2 ^ 63 → init_genesis init_supply empty_chain = Ok (tt, s) →
  ledger_inv s ∧ amount (current_supply (gpo s)) = init_supply ∧ participation_ok (gpo s) ∧
  transactions s = empty_table ∧ time (gpo s) = WLS_GENESIS_TIME.
Proof.
  intros Hsup E. refine (wp_ok _ (λ _ s', _) _ _ _ _ E). clear E s.
  assert (founding 0 empty_chain) as H0.
  { split_and!; [done| |done..]. by apply plain_accounts_wf. }
  unfold init_genesis.
  do 5 (wp_step; eapply wp_mono; [eapply wp_genesis_account; [reflexivity..|eassumption]|];
    clear H0; intros ? ? H0; cbv beta in H0).
  wp_step. eapply wp_mono; [eapply wp_genesis_witnesses, H0|]. cbv beta.
  intros ? s1 (Hd & Hwf & Hg & Hf & Ht). wp_step. apply wp_modify_gpo. intros g Hg'.
  unfold mret, result_ret in Hg'. injection Hg' as <-.
  assert (swrap 64 (wrap 64 (init_supply - 1000)) = init_supply - 1000) as E1
    by (rewrite wrap_small, swrap_small; lia).
  rewrite (swrap_small 64 init_supply) by lia. rewrite E1 in Hd. clear E1 H0.
  match goal with |- wp _ _ ?s => set (s2 := s) in * end.
  assert (founded s2 (gpo s2)) as H2.
  { pose proof (moves_gpo s1 (gpo s2)) as [Hm _]. change (s1 <| gpo := gpo s2 |>) with s2 in Hm.
    rewrite Hg in Hm. split_and!; [|by apply (accounts_wf_shape s1)|done..].
    change (foldr Z.add 0 (seed <$> seqZ 0 WLS_MAX_WITNESSES)) with 1000 in Hd.
    destruct Hd as (D1 & D2 & D3 & D4), Hm as (M1 & M2 & M3 & M4).
    change (excess_wls empty_chain) with 0 in D1. change (excess_vests empty_chain) with 0 in D2.
    change (excess_votes empty_chain) with 0 in D3. change (excess_pending empty_chain) with 0 in D4.
    unfold supply_inv. rewrite M1, M2, M3, M4, D1, D2, D3, D4. unfold gpo_wls. simpl. lia. }
  assert (participation_ok (gpo s2)) as Hp by (split; [split; vm_compute; done|vm_compute; reflexivity]).
  assert (current_supply (gpo s2) = WLS init_supply) as Hcs by done.
  assert (time (gpo s2) = WLS_GENESIS_TIME) as Htm by done. clearbody s2.
  wp_step. eapply wp_mono; [exact (n_times_frame calm 65536 _ (calm_create (BlockSummary 0)) s2)|].
  intros ? s3 C1. cbv beta in C1. wp_step. apply (wp_calm _ _ _ (calm_hpo _)). intros s4 C2.
  wp_step. apply (wp_calm _ _ _ (calm_wso _)). intros s5 C3.
  wp_step. apply (wp_calm _ _ _ calm_votes). intros s6 C4.
  wp_step. apply (wp_calm _ _ _ calm_reset). intros s7 C5.
  wp_step. apply (wp_calm _ _ _ (calm_counts _)). intros s8 C6.
  wp_step. apply (wp_calm _ _ _ calm_children). intros s9 C7.
  wp_step. apply (wp_calm _ _ _ (calm_counts _)). intros s10 C8.
  assert (founded s10 (gpo s2)) as (Hi & Hw & Hg10 & Ht10 & Hf10)
    by (repeat (eapply calm_founded; [eassumption|]); exact H2).
  assert (rows (reward_funds s10) = ∅) as Hr by (by rewrite Hf10).
  clear - Hi Hw Hg10 Ht10 Hr Hp Hcs Htm. unfold head_block_time, create_plain. repeat wp_step.
  split; [split; [|by apply (accounts_wf_shape s10)]|].
  - unfold supply_inv, excess_wls, excess_vests, excess_votes, excess_pending in *. simpl.
    rewrite msum_insert_new by (by rewrite Hr). unfold fund_wls at 1. simpl. lia.
  - cbn [gpo transactions update]. rewrite Hg10. split_and!; [by rewrite Hcs|exact Hp|exact Ht10|exact Htm].
Qed.
End genesis.

(** ** A small chain of blocks *)

#[local] Existing Instances fc_ref demo_env demo_crypto block_ref.
Definition demo_params : ChainParams := {|
  WLS_CHAIN_ID := 7; init_public_key := 1; init_public_key_valid := ltac:(lia); max_undo := 10000 |}.
#[local] Existing Instance demo_params.

(** [demo] with a head block whose id carries the number 100000. *)
Definition demo_chain : chain :=
  demo <| gpo ::= λ g, g <| head_block_id := 2 ^ 40 + swap_bytes 100000 |> |>.
Definition demo_flags : Z := skip_transaction_signatures + skip_tapos_check + skip_undo_history_check.
Definition next_block (txs : list signed_transaction) (s : chain) : signed_block :=
  let t := get_slot_time 1 s in
  let b := SignedBlock (head_block_id (gpo s)) t "initminer" 0 [] 1 txs in
  match calculate_merkle_root b with Ok r => b <| transaction_merkle_root := r |> | Err _ => b end.
Definition demo_txs : list signed_transaction :=
  [demo_trx 1 (demo_time + 60); demo_trx 2 (demo_time + 60)].
Definition block_1 : signed_block := next_block demo_txs demo_chain.
Definition chain_1 : chain := after (_apply_block demo_flags block_1) demo_chain.

Lemma no_transaction_twice_witness :
  for_each [block_1] (_apply_block demo_flags) demo_chain = Ok (tt, chain_1) ∧
  NoDup (trx <$> ([block_1] ≫= block_transactions)) ∧
  _apply_transaction demo_flags (demo_trx 2 (demo_time + 60)) chain_1 = Err assert_exception.
Proof.
  assert (for_each [block_1] (_apply_block demo_flags) demo_chain = Ok (tt, chain_1)) as H
    by (vm_compute; reflexivity).
  split; [exact H|]. split; [|vm_compute; reflexivity].
  apply (no_transaction_twice demo_flags [block_1] demo_chain chain_1).
  - reflexivity.
  - intros i x Hx. exact (False_ind _ (lookup_empty_Some i x Hx)).
  - intros b ->%list_elem_of_singleton. vm_compute. intros E; discriminate E.
  - exact H.
Defined.

Lemma apply_transaction_ledger_witness :
  ledger_inv (after (_apply_transaction demo_flags (demo_trx 1 (demo_time + 60))) demo).
Proof.
  apply (apply_transaction_ledger demo_flags (demo_trx 1 (demo_time + 60)) demo).
  - reflexivity.
  - reflexivity.
  - exact demo_ledger.
  - vm_compute. reflexivity.
Defined.

Lemma irreversible_supermajority_witness :
  let s' := after update_last_irreversible_block demo in
  last_irreversible_block_num (gpo s') = 99999 ∧
  last_irreversible_block_num (gpo demo) ≤ last_irreversible_block_num (gpo s').
Proof.
  intros s'. split; [vm_compute; reflexivity|].
  apply (irreversible_supermajority demo s').
  - vm_compute. intros E; discriminate E.
  - intros i w Hw. assert (map_Forall (λ _ w, 0 ≤ last_confirmed_block_num w) (rows (witnesses demo))) as H
      by (apply (bool_decide_unpack _); vm_compute; exact I). exact (H i w Hw).
  - vm_compute. reflexivity.
Defined.

Lemma tapos_reference_found_witness :
  let t := set_reference_block (block_id_of block_1) (trx (demo_trx 1 5)) in
  ref_block_num t = 34465 ∧
  ∃ x, rows (block_summaries (after (create_block_summary block_1) demo_chain)) !! ref_block_num t = Some x.
Proof.
  intros t. split; [vm_compute; reflexivity|].
  destruct (tapos_reference_found block_1 [] (trx (demo_trx 1 5)) demo_chain
    (after (create_block_summary block_1) demo_chain) (after (create_block_summary block_1) demo_chain))
    as (x & Hx & _).
  - vm_compute. reflexivity.
  - reflexivity.
  - intros b' Hb. destruct (not_elem_of_nil _ Hb).
  - exists x. exact Hx.
Defined.

Lemma update_global_counts_witness :
  let s := demo_chain <| gpo ::= λ g, g <| recent_slots_filled := 2 ^ 128 - 1 |> <| participation_count := 128 |> |> in
  let s' := after (update_global_dynamic_data demo_flags block_1) s in
  participation_ok (gpo s') ∧ current_aslot (gpo s') = 1.
Proof.
  intros s s'. destruct (update_global_counts demo_flags block_1 s s') as (Hp & Ha & _).
  1-6: vm_compute; first [reflexivity | intros E; discriminate E | split; [split; [intros E; discriminate E|reflexivity]|reflexivity]].
  - vm_compute. reflexivity.
  - split; [exact Hp|]. rewrite Ha. vm_compute. reflexivity.
Defined.

(** A program that knows two hardforks. *)
Definition two_hardforks : Hardforks := {|
  WLS_NUM_HARDFORKS := 2; hardfork_times := [10; 20; 30]; hardfork_versions := [0; 100; 200] |}.
Lemma process_hardforks_complete_witness :
  let s := demo <| hpo := HardforkProps [10] 0 0 200 1000 |> in
  let s' := after (process_hardforks (HF := two_hardforks)) s in
  last_hardfork (hpo s') = 2 ∧ hardforks_wf (HF := two_hardforks) (hpo s') ∧
  process_hardforks (HF := two_hardforks) (s <| hpo := HardforkProps [10] 0 0 300 1000 |>) =
    Err unknown_hardfork_exception.
Proof.
  intros s s'.
  assert (hardforks_wf (HF := two_hardforks) (hpo s)) as Hwf by (vm_compute; repeat split; intros E; discriminate E).
  pose proof (process_hardforks_complete (HF := two_hardforks) ltac:(vm_compute; split; [intros E; discriminate E|reflexivity])
    eq_refl eq_refl s Hwf) as H.
  assert (process_hardforks (HF := two_hardforks) s = Ok (tt, s')) as E by (vm_compute; reflexivity).
  rewrite E in H. split; [vm_compute; reflexivity|]. split; [exact (proj1 H)|vm_compute; reflexivity].
Defined.

Lemma init_genesis_ledger_witness :
  is_ok (init_genesis WLS_INIT_SUPPLY empty_chain) = true ∧
  ledger_inv (after (init_genesis WLS_INIT_SUPPLY) empty_chain).
Proof.
  assert (is_ok (init_genesis WLS_INIT_SUPPLY empty_chain) = true) as Hok by (vm_compute; reflexivity).
  split; [exact Hok|]. unfold after.
  destruct (init_genesis WLS_INIT_SUPPLY empty_chain) as [[[] s]|e] eqn:E; [|discriminate Hok].
  apply (init_genesis_ledger WLS_INIT_SUPPLY s); [|exact E].
  split; [intros H; discriminate H|reflexivity].
Defined.
