(* ===== verification/BlockLedger.v ===== *)
(** * BlockLedger: a block keeps the books balanced

    The steps of a block, one after the other: most of them move no tokens, the
    others are those of LedgerSpec and PayoutSpec. *)

From S2P Require Import Prelude FcLib Tables Config Asset Names Authority Operations Transaction Block Reward Objects Ledger Invariants Supply Evaluators Conservation Demo Preservation LedgerSpec Payout PayoutSpec Schedule ScheduleSpec Blocks BlocksSpec ChainSpec.

Section block_ledger.
Context `{FC : FcLib} `{ENV : EvalEnv} `{CR : Crypto} `{BL : BlockLib} `{CP : ChainParams} `{HF : Hardforks}.

(** ** The steps that move no tokens *)

(** The totals of the properties that the ledger is about. *)
Definition totals_of (g : dynamic_global_property_object) :=
  (current_supply g, total_vesting_fund_steem g, total_vesting_shares g, gpo_total_reward_fund_steem g,
   pending_rewarded_vesting_shares g, pending_rewarded_vesting_steem g).
Lemma still_gpo s g : totals_of g = totals_of (gpo s) → still s (s <| gpo := g |>).
Proof.
  unfold totals_of. intros H. injection H as H1 H2 H3 H4 H5 H6.
  pose proof (moves_gpo s g) as Hm. unfold gpo_wls in Hm. rewrite H1, H2, H3, H4, H5, H6 in Hm.
  unfold still. rewrite !Z.sub_diag in Hm.
  by replace (amount (total_vesting_shares (gpo s)) + amount (pending_rewarded_vesting_shares (gpo s)) -
    amount (total_vesting_shares (gpo s)) - amount (pending_rewarded_vesting_shares (gpo s))) with 0 in Hm by lia.
Qed.
Lemma fill_slots_totals g l : totals_of (foldl (λ g i, fill_slot i g) g l) = totals_of g.
Proof. revert g. induction l as [|i l IH]; intros g; simpl; [done|]. by rewrite IH. Qed.

Ltac block_leaf := first
  [ by apply moves_untouched
  | apply still_gpo; bind_oks; repeat case_match; bind_oks; first [done | etransitivity; [|apply fill_slots_totals]; done]
  | eapply still_account; [eassumption|bind_oks; repeat case_match; bind_oks; done] ].
Ltac quiet_block := repeat first [progress stable ltac:(block_leaf) | progress unfold when].

Lemma quiet_header_extensions b : quiet (process_header_extensions b).
Proof. unfold process_header_extensions. quiet_block. Qed.
Lemma quiet_validate_header skip b : quiet (validate_block_header skip b).
Proof. unfold validate_block_header. quiet_block. Qed.
Lemma quiet_check_merkle skip b : quiet (check_merkle skip b).
Proof. unfold check_merkle. quiet_block. Qed.
Lemma quiet_signing_witness i b : quiet (update_signing_witness i b).
Proof. unfold update_signing_witness. quiet_block. Qed.
Lemma quiet_summary b : quiet (create_block_summary b).
Proof. unfold create_block_summary. quiet_block. Qed.
Lemma quiet_clear_expired : quiet clear_expired_transactions.
Proof. unfold clear_expired_transactions, clear_expired_step. quiet_block. Qed.
Lemma quiet_process_hardforks : quiet process_hardforks.
Proof. unfold process_hardforks, hardfork_step, apply_hardfork. quiet_block. Qed.
Lemma quiet_irreversible : quiet update_last_irreversible_block.
Proof. unfold update_last_irreversible_block, scheduled_witnesses. quiet_block. Qed.
Lemma quiet_dynamic_data skip b : quiet (update_global_dynamic_data skip b).
Proof. unfold update_global_dynamic_data, miss_block. quiet_block. Qed.
Lemma quiet_advance vt l : quiet (advance_virtual_time vt l).
Proof. induction l as [|iw l IH]; simpl; quiet_block; apply IH. Qed.
Hint Resolve quiet_advance : stable.
Lemma quiet_versions : quiet update_versions.
Proof. unfold update_versions, scheduled_witnesses. quiet_block. Qed.
Lemma quiet_median : quiet update_median_witness_props.
Proof. unfold update_median_witness_props, scheduled_witnesses. quiet_block. Qed.
Hint Resolve quiet_versions quiet_median quiet_reset_time : stable.
Lemma quiet_witness_schedule : quiet update_witness_schedule.
Proof. unfold update_witness_schedule, update_witness_schedule4. quiet_block. Qed.

(** ** The books of the steps between the transactions and the null account *)

Definition same_books (s s' : chain) : Prop := accounts s' = accounts s ∧ totals_of (gpo s') = totals_of (gpo s).
#[local] Instance same_books_preorder : PreOrder same_books.
Proof. split; [done|]. intros s1 s2 s3 [H1 H2] [H3 H4]. split; congruence. Qed.
Ltac books_leaf := unfold same_books; bind_oks; repeat case_match; bind_oks; by split.
Ltac books := repeat first [progress stable ltac:(books_leaf) | progress unfold when].

Lemma advance_books vt l : stable same_books (advance_virtual_time vt l).
Proof. induction l as [|iw l IH]; simpl; books; apply IH. Qed.
Hint Resolve advance_books : stable.

(** database.cpp:2218: up to the schedule, and up to the withdrawals *)
Definition before_null (b : signed_block) : M chain unit :=
  create_block_summary b;; clear_expired_transactions;; update_witness_schedule.
Definition before_withdrawals (b : signed_block) : M chain unit :=
  before_null b;; clear_null_account_balance;; process_funds;; process_comment_cashout.
Lemma before_null_books b : stable same_books (before_null b).
Proof.
  unfold before_null, create_block_summary, clear_expired_transactions, clear_expired_step, update_witness_schedule,
    update_witness_schedule4, reset_virtual_schedule_time, update_versions, update_median_witness_props,
    scheduled_witnesses. books.
Qed.
Lemma before_null_quiet b : quiet (before_null b).
Proof.
  unfold before_null. pose proof (quiet_summary b). pose proof quiet_clear_expired. pose proof quiet_witness_schedule.
  quiet_block; done.
Qed.

(** ** The block *)

Lemma M_bind_inv {A B} (m : M chain A) (f : A → M chain B) b s s' :
  (m ≫= f) s = Ok (b, s') → ∃ a s1, m s = Ok (a, s1) ∧ f a s1 = Ok (b, s').
Proof. unfold mbind, M_bind. destruct (m s) as [[a s1]|e]; [|done]. eauto. Qed.
Lemma M_bind_Ok {A B} (m : M chain A) (f : A → M chain B) s a s1 : m s = Ok (a, s1) → (m ≫= f) s = f a s1.
Proof. unfold mbind, M_bind. by intros ->. Qed.

Definition keeps {A} (m : M chain A) : Prop := ∀ s, ledger_inv s → wp m (λ _, ledger_inv) s.
Lemma keeps_quiet {A} (m : M chain A) : quiet m → keeps m.
Proof. intros H s. by apply quiet_ledger. Qed.
Lemma keeps_bind {A B} (m : M chain A) (f : A → M chain B) : keeps m → (∀ a, keeps (f a)) → keeps (m ≫= f).
Proof. intros Hm Hf s Hs. wp_step. eapply wp_mono; [by apply Hm|]. intros a s1 Hs1. by apply Hf. Qed.
Lemma keeps_for_each {A} (l : list A) f : (∀ x, x ∈ l → keeps (f x)) → keeps (for_each l f).
Proof. intros Hf s Hs. apply wp_for_each; [|done]. intros x s1 Hx. by apply Hf. Qed.

(** No transaction of the block names a proxy that begins with a NUL. *)
Definition visible_block (b : signed_block) : bool := forallb visible_trx (block_transactions b).
Lemma apply_block_head_keeps skip b :
  skips skip skip_validate = false → visible_block b = true → keeps (apply_block_head skip b).
Proof.
  intros Hv Hvis. unfold visible_block in Hvis. rewrite List.forallb_forall in Hvis. unfold apply_block_head.
  pose proof (quiet_check_merkle skip b). pose proof (quiet_validate_header skip b).
  pose proof (quiet_header_extensions b). pose proof (quiet_dynamic_data skip b). pose proof quiet_irreversible.
  pose proof (quiet_signing_witness : ∀ i b, _).
  repeat (lazymatch goal with |- keeps (mbind _ _) => apply keeps_bind; [|intros ?] end;
          [try (apply keeps_quiet; first [done|quiet_block; done])|..]).
  - apply keeps_for_each. intros t Ht s Hs. apply apply_transaction_keeps; [done|by apply Hvis, list_elem_of_In|done].
  - by apply keeps_quiet.
Qed.

(** A whole block: when its transactions are validated and name no hidden proxy, all of
    its steps, from the transactions through the witness schedule, the null account, the
    inflation, the payouts and the withdrawals to the hardforks, keep the books balanced,
    provided that two of the states on the way are in order: the null account after
    the transactions ([null_wf]: it has no proxy and no more shares than there are), and
    the accounts and routes before the withdrawals ([withdraw_wf]: nothing is negative).
    Neither is shown of every chain. *)
Theorem apply_block_ledger skip b s s' :
  skips skip skip_validate = false → visible_block b = true → ledger_inv s →
  (∀ s1, apply_block_head skip b s = Ok (tt, s1) →
    ∀ i a, rows (accounts s1) !! i = Some a → name a = WLS_NULL_ACCOUNT → null_wf s1 a) →
  (∀ s2, (apply_block_head skip b;; before_withdrawals b) s = Ok (tt, s2) → withdraw_wf s2) →
  _apply_block skip b s = Ok (tt, s') → ledger_inv s'.
Proof.
  intros Hv Hvis Hs Hnull Hwd E. unfold _apply_block, apply_block_tail in E.
  apply M_bind_inv in E as ([] & s1 & E1 & E). pose proof (wp_ok _ _ _ _ _ (apply_block_head_keeps skip b Hv Hvis s Hs) E1) as H1.
  specialize (Hnull s1 E1).
  apply M_bind_inv in E as ([] & sa & Ea & E). apply M_bind_inv in E as ([] & sb & Eb & E).
  apply M_bind_inv in E as ([] & s2 & E2 & E). apply M_bind_inv in E as ([] & s3 & E3 & E).
  apply M_bind_inv in E as ([] & s4 & E4 & E). apply M_bind_inv in E as ([] & s5 & E5 & E).
  apply M_bind_inv in E as ([] & s6 & E6 & E7).
  assert (before_null b s1 = Ok (tt, s2)) as En
    by (unfold before_null; by rewrite (M_bind_Ok _ _ _ _ _ Ea), (M_bind_Ok _ _ _ _ _ Eb)).
  pose proof (wp_ok _ _ _ _ _ (quiet_ledger _ s1 (before_null_quiet b) H1) En) as H2.
  destruct (wp_ok _ _ _ _ _ (before_null_books b s1) En) as [Ha Ht].
  assert (ledger_inv s3) as H3.
  { apply (moves_ledger s2 s3); [|done]. refine (wp_ok _ _ _ _ _ (clear_null_moves s2 _) E3).
    intros i a Hi Hn. rewrite Ha in Hi. specialize (Hnull i a Hi Hn). unfold null_wf in *.
    unfold totals_of in Ht. injection Ht as _ Hf Hv' _ _ _. by rewrite Hf, Hv'. }
  pose proof (wp_ok _ _ _ _ _ (quiet_ledger _ s3 process_funds_moves H3) E4) as H4.
  pose proof (wp_ok _ _ _ _ _ (quiet_ledger _ s4 process_comment_cashout_moves H4) E5) as H5.
  assert (withdraw_wf s5) as Hw.
  { apply Hwd. rewrite (M_bind_Ok _ _ _ _ _ E1). unfold before_withdrawals.
    by rewrite (M_bind_Ok _ _ _ _ _ En), (M_bind_Ok _ _ _ _ _ E3), (M_bind_Ok _ _ _ _ _ E4). }
  assert (ledger_inv s6) as H6.
  { apply (moves_ledger s5 s6); [|done]. by destruct (wp_ok _ _ _ _ _ (withdrawals_moves s5 Hw) E6). }
  exact (wp_ok _ _ _ _ _ (quiet_ledger _ s6 quiet_process_hardforks H6) E7).
Qed.
End block_ledger.

#[local] Existing Instances fc_ref demo_env demo_crypto block_ref demo_params.
Lemma demo_chain_ledger : ledger_inv demo_chain.
Proof. split; [vm_compute; done|]. apply plain_accounts_wf. vm_compute. done. Qed.
Lemma after_Ok {A} (m : M chain A) s a s' : m s = Ok (a, s') → s' = after m s.
Proof. unfold after. by intros ->. Qed.
Definition demo_head : chain := after (apply_block_head demo_flags block_1) demo_chain.
Lemma demo_null_wf :
  map_Forall (λ _ a, name a = WLS_NULL_ACCOUNT → null_wf demo_head a) (rows (accounts demo_head)).
Proof. unfold null_wf. apply (bool_decide_unpack _). vm_compute. exact I. Qed.
Definition demo_paid : chain := after (apply_block_head demo_flags block_1;; before_withdrawals block_1) demo_chain.
Lemma demo_withdraw_wf : withdraw_wf demo_paid.
Proof.
  assert (map_Forall (λ _ a, account_nonneg a) (rows (accounts demo_paid))) as H1
    by (unfold account_nonneg; apply (bool_decide_unpack _); vm_compute; exact I).
  assert (map_Forall (λ _ r, 0 ≤ percent r ≤ WLS_100_PERCENT) (rows (routes demo_paid))) as H2
    by (apply (bool_decide_unpack _); vm_compute; exact I).
  split; [exact H1|exact H2].
Qed.
Lemma demo_block_applies : _apply_block demo_flags block_1 demo_chain = Ok (tt, chain_1).
Proof. vm_compute. reflexivity. Qed.
Lemma demo_validated : skips demo_flags skip_validate = false.
Proof. reflexivity. Qed.

Lemma apply_block_ledger_witness : ledger_inv chain_1.
Proof.
  apply (apply_block_ledger demo_flags block_1 demo_chain chain_1 demo_validated eq_refl demo_chain_ledger).
  - intros s1 E i a Hi Hn. rewrite (after_Ok _ _ _ _ E) in *. exact (demo_null_wf i a Hi Hn).
  - intros s2 E. rewrite (after_Ok _ _ _ _ E). exact demo_withdraw_wf.
  - exact demo_block_applies.
Defined.
