(* ===== verification/KeyLookup.v ===== *)
(** * KeyLookup: which accounts a key can sign for

    [libraries/plugins/account_by_key]: an index from public keys to the accounts in
    whose authorities they occur, kept up to date by comparing the keys of an account
    before and after every operation that may change them.  The ids of the rows are
    left out: nothing reads them. *)

From S2P Require Import Prelude FcLib Tables Config Asset Names Authority Operations Transaction Reward Objects Ledger Evaluators Plugins.

(** account_by_key_objects.hpp:20: the pair is the unique key of the index *)
Record key_lookup_object := KeyLookup { lookup_key : Z; lookup_account : string }.
#[global] Instance key_lookup_eq_dec : EqDecision key_lookup_object.
Proof. solve_decision. Defined.
#[global] Instance key_lookup_countable : Countable key_lookup_object.
Proof.
  apply (inj_countable' (λ o, (lookup_key o, lookup_account o)) (λ p, KeyLookup p.1 p.2)).
  by intros [].
Defined.

(** The index of the plugin, and the keys it remembers between the two hooks. *)
Record key_db := KeyDb { key_lookups : gset key_lookup_object; cached_keys : gset Z }.
#[global] Instance key_db_eta : Eta key_db := λ r, KeyDb (key_lookups r) (cached_keys r).

Section key_lookup.
Context `{FC : FcLib} `{ENV : EvalEnv}.

(** The keys of an account, and a [flat_set] of keys in its order. *)
Definition authority_keys (a : authority) : gset Z := list_to_set (key_auths a).*1.
Definition account_keys (a : account_authority_object) : gset Z :=
  authority_keys (auth_owner a) ∪ authority_keys (auth_active a) ∪ authority_keys (auth_posting a).
Definition keys_in_order (keys : gset Z) : list Z := merge_sort Z.le (elements keys).

Definition find_authority (n : string) : M (with_plugin key_db) (option account_authority_object) :=
  on_base (t ← gets account_authorities;
    mret (snd <$> find_row (λ a, String.eqb (auth_account a) n) t)).

(** account_by_key_plugin.cpp:111 *)
Definition clear_cache : M key_db unit := modify (λ s, s <| cached_keys := ∅ |>).
(** account_by_key_plugin.cpp:116 *)
Definition cache_auths (a : account_authority_object) : M key_db unit :=
  modify (λ s, s <| cached_keys ::= λ k, k ∪ account_keys a |>).

(** account_by_key_plugin.cpp:143-160 *)
Definition add_lookup (account : string) (key : Z) : M key_db unit :=
  s ← gets id;
  if bool_decide (key ∈ cached_keys s) then modify (λ s, s <| cached_keys ::= λ k, k ∖ {[key]} |>)
  else modify (λ s, s <| key_lookups ::= λ l, l ∪ {[KeyLookup key account]} |>).
(** account_by_key_plugin.cpp:166-171 *)
Definition remove_lookup (account : string) (key : Z) : M key_db unit :=
  modify (λ s, s <| key_lookups ::= λ l, l ∖ {[KeyLookup key account]} |>).
(** account_by_key_plugin.cpp:126 *)
Definition update_key_lookup (a : account_authority_object) : M key_db unit :=
  for_each (keys_in_order (account_keys a)) (add_lookup (auth_account a));;
  gone ← gets cached_keys;
  for_each (keys_in_order gone) (remove_lookup (auth_account a));;
  clear_cache.

Definition with_authority (n : string) (f : account_authority_object → M key_db unit) : M (with_plugin key_db) unit :=
  a ← find_authority n;
  match a with Some a => on_own (f a) | None => mret tt end.
(** account_by_key_plugin.cpp:37 *)
Definition pre_operation_visitor (op : operation) : M (with_plugin key_db) unit :=
  match op with
  | account_create_op _ | account_forsale_op _ => on_own clear_cache
  | account_update_op o => on_own clear_cache;; with_authority (au_account o) cache_auths
  | account_buying_op o => on_own clear_cache;; with_authority (ab_account_buy o) cache_auths
  | _ => mret tt
  end.
(** account_by_key_plugin.cpp:73 *)
Definition post_operation_visitor (op : operation) : M (with_plugin key_db) unit :=
  match op with
  | account_create_op o => with_authority (ac_new_account_name o) update_key_lookup
  | account_update_op o => with_authority (au_account o) update_key_lookup
  | account_buying_op o => with_authority (ab_account_buy o) update_key_lookup
  | _ => mret tt
  end.

(** account_by_key_plugin.cpp:177 *)
Definition account_by_key_plugin : Plugin key_db := {|
  pre_apply_operation note := pre_operation_visitor (note_op note);
  post_apply_operation note := post_operation_visitor (note_op note);
  get_interpreter _ := None
|}.
#[global] Existing Instance account_by_key_plugin.

(** account_by_key_api.cpp:20 *)
Definition key_references (s : key_db) (key : Z) : list string :=
  in_order (set_map lookup_account (filter (λ o, lookup_key o = key) (key_lookups s))).
Definition get_key_references (s : key_db) (keys : list Z) : list (list string) :=
  key_references s <$> keys.
End key_lookup.
