(* ===== verification/KeyLookupSpec.v ===== *)
(** * KeyLookupSpec: the key index follows the authorities

    Whatever operation is applied, the index holds exactly the keys of the accounts'
    authorities, except that it learns nothing of the accounts of genesis, which no
    operation created. *)

From S2P Require Import Prelude FcLib Tables Config Asset Names Authority Operations Transaction Block Reward Objects Ledger Invariants Evaluators Demo Plugins Blocks BlocksSpec KeyLookup.

(** ** The authorities of a chain *)

Definition authority_row (c : chain) (i : Z) (a : account_authority_object) : Prop :=
  rows (account_authorities c) !! i = Some a.
(** One row for an account, and fresh ids: what the unique indices of chainbase give. *)
Definition authorities_wf (c : chain) : Prop :=
  (∀ i j a b, authority_row c i a → authority_row c j b → auth_account a = auth_account b → i = j) ∧
  (∀ i a, authority_row c i a → i < next_id (account_authorities c)).

(** Only the row of account [n] changes, and it stays the row of [n]. *)
Definition only_authority (n : string) (c c' : chain) : Prop :=
  next_id (account_authorities c') = next_id (account_authorities c) ∧
  ∀ i, match rows (account_authorities c) !! i with
       | None => rows (account_authorities c') !! i = None
       | Some a => ∃ a', authority_row c' i a' ∧ auth_account a' = auth_account a ∧ (auth_account a ≠ n → a' = a)
       end.
#[global] Instance only_authority_preorder n : PreOrder (only_authority n).
Proof.
  split.
  - intros c. split; [done|]. intros i. unfold authority_row. destruct (_ !! i); eauto.
  - intros c1 c2 c3 [H1 H2] [H3 H4]. split; [congruence|]. intros i. specialize (H2 i). specialize (H4 i).
    unfold authority_row in *. destruct (rows (account_authorities c1) !! i) as [a|].
    + destruct H2 as (a' & Ha' & Hn & Hsame). rewrite Ha' in H4. destruct H4 as (a'' & Ha'' & Hn' & Hsame').
      exists a''. split_and!; [done|congruence|]. intros Hne. rewrite Hsame', Hsame; [done..|]. by rewrite Hn.
    + by rewrite H2 in H4.
Qed.

Definition same_authorities (c c' : chain) : Prop := account_authorities c' = account_authorities c.
#[global] Instance same_authorities_preorder : PreOrder same_authorities.
Proof. split; [done|]. intros c1 c2 c3 H1 H2. unfold same_authorities in *. congruence. Qed.
Lemma same_only n c c' : same_authorities c c' → only_authority n c c'.
Proof.
  intros H. unfold same_authorities in H. split; [by rewrite H|]. intros i. unfold authority_row. rewrite H.
  destruct (_ !! i); eauto.
Qed.
Ltac authorities_tac := unfold same_authorities; bind_oks; repeat case_match; bind_oks; done.
Ltac authorities_frame := frame_with ltac:(authorities_tac).

Lemma only_modify c0 c i x y n :
  only_authority n c0 c → authority_row c i x → auth_account x = n → auth_account y = n →
  only_authority n c0 (update account_authorities (λ t, t <| rows ::= <[i := y]> |>) c).
Proof.
  intros H Hx Hn Hf. etrans; [exact H|]. split; [done|]. intros j. unfold authority_row in *. simpl.
  destruct (decide (j = i)) as [->|Hne].
  - rewrite Hx, lookup_insert_eq. eexists. split_and!; [done|congruence|]. by intros [].
  - rewrite lookup_insert_ne by done. destruct (_ !! j); eauto.
Qed.

Section operations.
Context `{FC : FcLib} `{ENV : EvalEnv}.

Lemma adjust_proxied_authorities rem a d : stable same_authorities (adjust_proxied_witness_votes_rec rem a d).
Proof. revert a d. induction rem as [|rem IH]; intros a d; simpl; authorities_frame; apply IH. Qed.
Lemma adjust_proxied_array_authorities rem a d : stable same_authorities (adjust_proxied_witness_votes_array_rec rem a d).
Proof. revert a d. induction rem as [|rem IH]; intros a d; simpl; authorities_frame; apply IH. Qed.
Hint Resolve adjust_proxied_authorities adjust_proxied_array_authorities : stable.
Lemma touch_ancestors_authorities n d now p : stable same_authorities (touch_ancestors n d now p).
Proof. revert p. induction n as [|n IH]; intros p; simpl; authorities_frame; apply IH. Qed.
Lemma check_proxy_chain_authorities rem seen c : stable same_authorities (check_proxy_chain rem seen c).
Proof. revert seen c. induction rem as [|rem IH]; intros seen c; simpl; authorities_frame; apply IH. Qed.
Hint Resolve touch_ancestors_authorities check_proxy_chain_authorities : stable.
Lemma create_vesting_authorities i v b : stable same_authorities (create_vesting i v b).
Proof. authorities_frame. Qed.

(** The two operations that work on authorities. *)
Definition changes_authorities (op : operation) : bool :=
  match op with account_create_op _ | account_update_op _ => true | _ => false end.
Lemma apply_operation_authorities op : changes_authorities op = false → stable same_authorities (apply_operation op).
Proof. intros H. destruct op; try discriminate H; clear H; simpl; authorities_frame. Qed.

(** account_create adds one row, for an account that had none. *)
Definition authority_added (a : account_authority_object) (c c' : chain) : Prop :=
  (∀ i b, authority_row c i b → auth_account b ≠ auth_account a) ∧
  account_authorities c' = Table (<[next_id (account_authorities c) := a]> (rows (account_authorities c)))
    (next_id (account_authorities c) + 1).
Definition created_authority (o : account_create_operation) : account_authority_object :=
  AccountAuthority (ac_new_account_name o) (ac_owner o) (ac_active o) (ac_posting o) tps_min.
Lemma wp_past (R : relation chain) `{!PreOrder R} {A B} c0 (m : M chain A) (f : A → M chain B) Q c :
  R c0 c → stable R m → (∀ a c', R c0 c' → wp (f a) Q c') → wp (m ≫= f) Q c.
Proof.
  intros Hc Hm Hf. apply wp_bind. eapply wp_mono; [apply Hm|]. intros a c' Hc'. apply Hf. by trans c.
Qed.
Ltac past :=
  lazymatch goal with
  | |- wp (create_row account_authorities _ _ ≫= _) _ _ => fail
  | |- wp (get_authority _ ≫= _) _ _ => fail
  | H : same_authorities ?c0 ?c |- wp (_ ≫= _) _ ?c =>
    apply (wp_past same_authorities c0); [exact H|solve [authorities_frame]|];
    clear dependent c; intros ? ? ?; cbv beta
  end.

Lemma account_create_authorities o c :
  wp (account_create_apply o) (λ _ c', authority_added (created_authority o) c c') c.
Proof.
  assert (same_authorities c c) as Hc by done. revert Hc.
  generalize c at 2 4. intros c1 Hc. unfold account_create_apply. repeat past.
  match goal with H : same_authorities c ?c2 |- _ => rename H into H1 end.
  apply wp_bind, wp_create_row. intros Hnew.
  match goal with |- wp ?m _ _ => assert (stable same_authorities m) as Hm by authorities_frame end.
  eapply wp_mono; [apply Hm|]. intros [] c3 H3. unfold same_authorities in *. rewrite H1 in *. split; [|by rewrite H3; simpl; rewrite H1].
  intros i b Hb Heq. pose proof (find_row_None _ _ _ _ Hnew Hb) as Hno.
  unfold same_auth_account in Hno. simpl in Hno. rewrite Heq in Hno. by rewrite String.eqb_refl in Hno.
Qed.

Lemma wp_get_authority n (Q : Z * account_authority_object → chain → Prop) c :
  (∀ i a, authority_row c i a → auth_account a = n → Q (i, a) c) → wp (get_authority n) Q c.
Proof.
  intros H. unfold get_authority. do 3 wp_step. intros.
  match goal with E : of_option _ _ = Ok ?ia |- _ => apply of_option_Ok in E; destruct ia as [i a];
    apply find_row_Some in E as [E1 E2%String.eqb_eq] end. by apply H.
Qed.
Lemma update_owner_only n ow c0 c :
  only_authority n c0 c → wp (update_owner_authority n ow) (λ _, only_authority n c0) c.
Proof.
  intros H. unfold update_owner_authority, head_block_time. do 3 wp_step. apply wp_get_authority.
  intros i a Ha Hn. apply wp_modify_row. intros x y Hx Hy. simpl in Hx. unfold authority_row in Ha.
  rewrite Ha in Hx. injection Hx as <-. injection Hy as <-. by apply (only_modify _ _ _ a).
Qed.
Lemma wp_past_only {A B} n c0 (m : M chain A) (f : A → M chain B) Q c :
  only_authority n c0 c → stable same_authorities m → (∀ a c', only_authority n c0 c' → wp (f a) Q c') → wp (m ≫= f) Q c.
Proof.
  intros Hc Hm Hf. apply wp_bind. eapply wp_mono; [apply Hm|]. intros a c' Hc'. apply Hf.
  trans c; [done|by apply same_only].
Qed.
Ltac past_only :=
  match goal with
  | H : only_authority ?n ?c0 ?c |- wp (_ ≫= _) _ ?c =>
    apply (wp_past_only n c0); [exact H|solve [authorities_frame]|]; intros ? ? ?; cbv beta
  end.

Lemma account_update_authorities o c :
  wp (account_update_apply o) (λ _ c', only_authority (au_account o) c c' ∧
    ∃ i a, authority_row c' i a ∧ auth_account a = au_account o) c.
Proof.
  enough (∀ c1, only_authority (au_account o) c c1 → wp (account_update_apply o) (λ _ c',
    only_authority (au_account o) c c' ∧ ∃ i a, authority_row c' i a ∧ auth_account a = au_account o) c1) as H by by apply H.
  intros c1 Hc. unfold account_update_apply. past_only. past_only.
  apply wp_bind, wp_get_account. intros ia acc Hacc Hname.
  apply wp_bind, wp_get_authority. intros i x Hx Hn. simpl.
  match goal with H : only_authority _ c ?c' |- wp _ _ ?c' => rename H into H2, c' into c2 end.
  assert (only_authority (au_account o) c2 c2) as H2'; [done|].
  apply wp_bind. apply (wp_mono _ (λ _ c', only_authority (au_account o) c2 c')).
  { destruct (au_owner o) as [ow|]; [|done]. past_only. past_only. past_only.
    simpl. rewrite Hname. by apply update_owner_only. }
  intros _ c3 H3. do 4 past_only.
  match goal with H : only_authority _ c2 ?c' |- wp _ _ ?c' => rename H into Hc4, c' into c4 end.
  assert (only_authority (au_account o) c c4) as Hc5 by by trans c2.
  pose proof (proj2 Hc4 i) as Hi. unfold authority_row in Hx. rewrite Hx in Hi. destruct Hi as (y0 & Hy0 & Hyn & _).
  assert (∀ y z : account_authority_object, authority_row c4 i y → auth_account z = auth_account y →
    only_authority (au_account o) c (update account_authorities (λ t, t <| rows ::= <[i := z]> |>) c4) ∧
    ∃ j a, authority_row (update account_authorities (λ t, t <| rows ::= <[i := z]> |>) c4) j a ∧ auth_account a = au_account o) as Hmod.
  { intros y z Hy Hz. unfold authority_row in *. rewrite Hy in Hy0. injection Hy0 as <-. split.
    - apply (only_modify _ _ _ y); [done..|congruence|congruence].
    - exists i, z. split; [apply lookup_insert_eq|congruence]. }
  destruct (au_active o), (au_posting o); [..|split; [done|by exists i, y0; split; [done|congruence]]];
    (apply wp_modify_row; intros y z Hy Hz; injection Hz as <-; by apply (Hmod y)).
Qed.

(** ** The two loops of update_key_lookup *)

Lemma keys_in_order_elem X k : k ∈ keys_in_order X ↔ k ∈ X.
Proof. unfold keys_in_order. by rewrite merge_sort_Permutation, elem_of_elements. Qed.
Lemma keys_in_order_nodup X : NoDup (keys_in_order X).
Proof. unfold keys_in_order. rewrite merge_sort_Permutation. apply NoDup_elements. Qed.

Lemma add_lookup_eq n k s : add_lookup n k s = Ok (tt,
  if bool_decide (k ∈ cached_keys s) then s <| cached_keys ::= λ c, c ∖ {[k]} |>
  else s <| key_lookups ::= λ l, l ∪ {[KeyLookup k n]} |>).
Proof. unfold add_lookup, mbind, M_bind. cbn. by case_bool_decide. Qed.
Lemma add_loop n l s : NoDup l →
  twp (for_each l (add_lookup n)) (λ _ s',
    (∀ k, k ∈ cached_keys s' ↔ k ∈ cached_keys s ∧ k ∉ l) ∧
    ∀ o, o ∈ key_lookups s' ↔ o ∈ key_lookups s ∨ lookup_account o = n ∧ lookup_key o ∈ l ∧ lookup_key o ∉ cached_keys s) s.
Proof.
  revert s. induction l as [|k l IH]; intros s Hnd.
  { unfold twp. simpl. set_solver. }
  apply NoDup_cons in Hnd as [Hk Hnd].
  unfold twp. rewrite (for_each_cons_Ok _ _ _ _ _ (add_lookup_eq n k s)).
  case_bool_decide as Hc.
  - pose proof (IH (s <| cached_keys ::= λ c, c ∖ {[k]} |>) Hnd) as H. unfold twp in H. cbn in H.
    destruct (for_each _ _ _) as [[u s']|]; [|done]. destruct H as [H1 H2]. split.
    + intros k'. rewrite H1. set_solver.
    + intros o. rewrite H2. set_solver.
  - pose proof (IH (s <| key_lookups ::= λ c, c ∪ {[KeyLookup k n]} |>) Hnd) as H. unfold twp in H. cbn in H.
    destruct (for_each _ _ _) as [[u s']|]; [|done]. destruct H as [H1 H2]. split.
    + intros k'. rewrite H1. set_solver.
    + intros [k' n']. rewrite H2. cbn. set_solver.
Qed.
Lemma remove_loop n l s :
  twp (for_each l (remove_lookup n)) (λ _ s', cached_keys s' = cached_keys s ∧
    ∀ o, o ∈ key_lookups s' ↔ o ∈ key_lookups s ∧ ¬ (lookup_account o = n ∧ lookup_key o ∈ l)) s.
Proof.
  revert s. induction l as [|k l IH]; intros s.
  { unfold twp. simpl. set_solver. }
  unfold twp. rewrite (for_each_cons_Ok (remove_lookup n) k l s (s <| key_lookups ::= λ l, l ∖ {[KeyLookup k n]} |>)) by done.
  pose proof (IH (s <| key_lookups ::= λ c, c ∖ {[KeyLookup k n]} |>)) as H. unfold twp in H. cbn in H.
  destruct (for_each _ _ _) as [[u s']|]; [|done]. destruct H as [H1 H2]. split; [done|].
  intros [k' n']. rewrite H2. cbn. set_solver.
Qed.
(** The keys that are new are added, the keys that are gone are removed. *)
Lemma update_key_lookup_spec a s :
  twp (update_key_lookup a) (λ _ s', cached_keys s' = ∅ ∧
    ∀ o, o ∈ key_lookups s' ↔
      (o ∈ key_lookups s ∨ lookup_account o = auth_account a ∧ lookup_key o ∈ account_keys a ∖ cached_keys s) ∧
      ¬ (lookup_account o = auth_account a ∧ lookup_key o ∈ cached_keys s ∖ account_keys a)) s.
Proof.
  unfold update_key_lookup, twp, mbind, M_bind.
  pose proof (add_loop (auth_account a) _ s (keys_in_order_nodup (account_keys a))) as H1. unfold twp in H1.
  destruct (for_each _ _ s) as [[u s1]|]; [|done]. destruct H1 as [Hc1 Hl1]. cbn.
  pose proof (remove_loop (auth_account a) (keys_in_order (cached_keys s1)) s1) as H2. unfold twp in H2.
  destruct (for_each _ _ s1) as [[u' s2]|]; [|done]. destruct H2 as [Hc2 Hl2]. cbn. split; [done|].
  intros o. rewrite Hl2, Hl1, !keys_in_order_elem, Hc1, keys_in_order_elem. set_solver.
Qed.

(** ** The index and the authorities *)

(** Every entry is a key of its account's authorities; every key of an account is an
    entry, except for the accounts [founders]. *)
Definition lookups_follow (founders : gset string) (s : with_plugin key_db) : Prop :=
  (∀ o, o ∈ key_lookups (own s) → ∃ i a, authority_row (base s) i a ∧ auth_account a = lookup_account o ∧
    lookup_key o ∈ account_keys a) ∧
  (∀ i a k, authority_row (base s) i a → auth_account a ∉ founders → k ∈ account_keys a →
    KeyLookup k (auth_account a) ∈ key_lookups (own s)).
Definition lookups_inv (founders : gset string) (s : with_plugin key_db) : Prop :=
  authorities_wf (base s) ∧ lookups_follow founders s.

Lemma lookups_inv_same founders s s' :
  same_authorities (base s) (base s') → key_lookups (own s') = key_lookups (own s) →
  lookups_inv founders s → lookups_inv founders s'.
Proof.
  unfold lookups_inv, authorities_wf, lookups_follow, authority_row, same_authorities. intros -> ->. done.
Qed.

Lemma find_authority_row c n :
  match find_row (λ a, String.eqb (auth_account a) n) (account_authorities c) with
  | Some (i, a) => authority_row c i a ∧ auth_account a = n
  | None => ∀ i a, authority_row c i a → auth_account a ≠ n
  end.
Proof.
  destruct (find_row _ _) as [[i a]|] eqn:E.
  - apply find_row_Some in E as [? ?%String.eqb_eq]. done.
  - intros i a Ha Heq. pose proof (find_row_None _ _ _ _ E Ha) as H. cbn in H. by rewrite Heq, String.eqb_refl in H.
Qed.
Lemma with_authority_eq n f s :
  with_authority n f s =
  match find_row (λ a, String.eqb (auth_account a) n) (account_authorities (base s)) with
  | Some (_, a) => on_own (f a) s
  | None => Ok (tt, s)
  end.
Proof.
  unfold with_authority, find_authority, mbind, M_bind, on_base. cbn. destruct s as [c p]; cbn.
  by destruct (find_row _ _) as [[]|].
Qed.

Lemma authorities_wf_only n c c' : only_authority n c c' → authorities_wf c → authorities_wf c'.
Proof.
  intros [Hnext Hrows] [Huniq Hlt].
  assert (∀ i a', authority_row c' i a' → ∃ a, authority_row c i a ∧ auth_account a' = auth_account a) as Hback.
  { intros i a' Ha'. specialize (Hrows i). unfold authority_row in *. destruct (_ !! i) as [a|] eqn:E; [|congruence].
    destruct Hrows as (a'' & ? & ? & _). exists a. split; congruence. }
  split.
  - intros i j a b (a0 & Ha0 & Ea)%Hback (b0 & Hb0 & Eb)%Hback Heq. apply (Huniq i j a0 b0); congruence.
  - intros i a (a0 & Ha0 & _)%Hback. rewrite Hnext. by apply (Hlt i a0).
Qed.
Lemma authorities_wf_added a c c' : authority_added a c c' → authorities_wf c → authorities_wf c'.
Proof.
  intros [Hnew Htab] [Huniq Hlt]. unfold authorities_wf, authority_row in *. rewrite Htab. simpl. split.
  - intros i j x y [[<- <-]|[Hi Hx]]%lookup_insert_Some [[<- <-]|[Hj Hy]]%lookup_insert_Some Heq; [done|..].
    + by destruct (Hnew j y).
    + by destruct (Hnew i x).
    + by apply (Huniq i j x y).
  - intros i x [[<- <-]|[Hi Hx]]%lookup_insert_Some; [lia|]. specialize (Hlt i x Hx). lia.
Qed.

Lemma post_update founders n s c' cached :
  lookups_inv founders s → authorities_wf c' →
  (∀ i a, auth_account a ≠ n → authority_row c' i a ↔ authority_row (base s) i a) →
  (∀ k, k ∈ cached ↔ ∃ i a, authority_row (base s) i a ∧ auth_account a = n ∧ k ∈ account_keys a) →
  (∃ i a, authority_row c' i a ∧ auth_account a = n) →
  twp (with_authority n update_key_lookup) (λ _, lookups_inv founders) (WithPlugin c' (KeyDb (key_lookups (own s)) cached)).
Proof.
  intros [_ [Hsound Hcomp]] Hwf Hother Hcached (i0 & a0 & Hi0 & Hn0).
  unfold twp. rewrite with_authority_eq. cbn. pose proof (find_authority_row c' n) as Hfind.
  destruct (find_row _ _) as [[i a]|]; [|by destruct (Hfind i0 a0)]. destruct Hfind as [Ha Hn]. unfold on_own. cbn.
  pose proof (update_key_lookup_spec a (KeyDb (key_lookups (own s)) cached)) as H. unfold twp in H.
  destruct (update_key_lookup _ _) as [[u p]|]; [|done]. destruct H as [_ HL]. split; [done|]. cbn in HL.
  setoid_rewrite elem_of_difference in HL. rewrite Hn in HL. split; cbn.
  - intros o [[Ho|(Hacc & Hk & _)] Hkept]%HL; [|exists i, a; split_and!; [done|congruence|done]].
    destruct (Hsound o Ho) as (j & b & Hb & Hname & Hk).
    destruct (decide (lookup_account o = n)) as [Hon|Hon].
    + exists i, a. split_and!; [done|congruence|]. destruct (decide (lookup_key o ∈ account_keys a)); [done|].
      destruct Hkept. split_and!; [done| |done]. apply Hcached. exists j, b. split_and!; [done|congruence|done].
    + exists j, b. split_and!; [|done..]. apply Hother; [congruence|done].
  - intros j b k Hb Hf Hk. apply HL. cbn. destruct (decide (auth_account b = n)) as [Hbn|Hbn].
    + assert (j = i) as -> by (apply (proj1 Hwf j i b a); [done..|congruence]).
      assert (b = a) as -> by (unfold authority_row in *; congruence).
      split; [|by intros (_ & _ & [])]. destruct (decide (k ∈ cached)) as [Hc|Hc]; [|by right].
      left. apply Hcached in Hc as (j & b & Hjb & Hjn & Hjk). rewrite Hn, <-Hjn.
      apply Hcomp with j; [done|congruence|done].
    + split; [|by intros [? _]]. left. apply (Hcomp j); [by apply Hother|done..].
Qed.

Lemma cache_spec n s : authorities_wf (base s) → ∃ cached,
  (on_own clear_cache;; with_authority n cache_auths) s = Ok (tt, WithPlugin (base s) (KeyDb (key_lookups (own s)) cached)) ∧
  ∀ k, k ∈ cached ↔ ∃ i a, authority_row (base s) i a ∧ auth_account a = n ∧ k ∈ account_keys a.
Proof.
  intros [Huniq _]. unfold mbind, M_bind, on_own at 1. cbn. rewrite with_authority_eq. cbn.
  pose proof (find_authority_row (base s) n) as Hfind.
  destruct (find_row _ _) as [[i a]|].
  - destruct Hfind as [Ha Hn]. eexists. split; [done|]. intros k. rewrite elem_of_union. split.
    + intros [?%elem_of_empty|Hk]; [done|]. by exists i, a.
    + intros (j & b & Hb & Hbn & Hk). right. assert (j = i) as -> by (apply (Huniq j i b a); [done..|congruence]).
      unfold authority_row in *. congruence.
  - exists ∅. split; [done|]. intros k. split; [by intros ?%elem_of_empty|].
    intros (i & a & Ha & Hn & _). by destruct (Hfind i a).
Qed.

Lemma wp_try_notify_Ok {A} (m : M (with_plugin key_db) unit) (f : unit → M (with_plugin key_db) A) Q s s' :
  m s = Ok (tt, s') → wp (f tt) Q s' → wp (try_notify m ≫= f) Q s.
Proof. intros Hm. unfold wp, try_notify, mbind, M_bind. by rewrite Hm. Qed.

(** An operation that leaves the authorities alone, between hooks that do nothing. *)
Lemma other_lookups founders op s :
  changes_authorities op = false → lookups_inv founders s →
  wp (try_notify (mret tt);; on_base (apply_operation op);; try_notify (mret tt)) (λ _, lookups_inv founders) s.
Proof.
  intros Hop Hinv. eapply wp_try_notify_Ok; [done|]. apply wp_bind, on_base_wp.
  eapply wp_mono; [by apply apply_operation_authorities|]. intros [] c' Hc'.
  apply try_notify_wp; [apply wp_ret|]; by eapply lookups_inv_same.
Qed.
Lemma create_lookups founders o s :
  lookups_inv founders s →
  wp (try_notify (on_own clear_cache);; on_base (account_create_apply o);;
      try_notify (with_authority (ac_new_account_name o) update_key_lookup)) (λ _, lookups_inv founders) s.
Proof.
  intros Hinv. pose proof Hinv as [Hwf _]. eapply wp_try_notify_Ok; [done|].
  apply wp_bind, on_base_wp. cbn. eapply wp_mono; [apply account_create_authorities|]. intros [] c' Hc'.
  apply try_notify_twp, post_update; [done|by eapply authorities_wf_added|..]; destruct Hc' as [Hnew Htab]; cbn in Hnew.
  - intros i a Ha. unfold authority_row. rewrite Htab. cbn. rewrite lookup_insert_Some. split.
    + by intros [[<- <-]|[_ ?]].
    + intros Hi. right. split; [|done]. pose proof (proj2 Hwf i a Hi). lia.
  - intros k. split; [by intros ?%elem_of_empty|]. intros (i & a & Ha & Hn & _). by destruct (Hnew i a).
  - eexists _, (created_authority o). split; [|done]. unfold authority_row. rewrite Htab. apply lookup_insert_eq.
Qed.
Lemma update_lookups founders o s :
  lookups_inv founders s →
  wp (try_notify (on_own clear_cache;; with_authority (au_account o) cache_auths);; on_base (account_update_apply o);;
      try_notify (with_authority (au_account o) update_key_lookup)) (λ _, lookups_inv founders) s.
Proof.
  intros Hinv. pose proof Hinv as [Hwf _]. destruct (cache_spec (au_account o) s Hwf) as (cached & Hpre & Hcached).
  eapply wp_try_notify_Ok; [exact Hpre|]. apply wp_bind, on_base_wp. cbn.
  eapply wp_mono; [apply account_update_authorities|]. intros [] c' Hc'.
  destruct Hc' as [Hc' Hex]. apply try_notify_twp, post_update; [done|by eapply authorities_wf_only| |done|done].
  intros i a Ha. destruct Hc' as [_ Hc']. specialize (Hc' i). unfold authority_row in *.
  destruct (rows (account_authorities (base s)) !! i) as [b|].
  - destruct Hc' as (b' & Hb' & Hn & Hsame). rewrite Hb'. split; intros [= <-]; f_equal; [symmetry|]; apply Hsame; congruence.
  - rewrite Hc'. done.
Qed.

Lemma apply_observed_lookups founders note s :
  lookups_inv founders s → wp (apply_observed note) (λ _, lookups_inv founders) s.
Proof.
  intros Hinv. unfold apply_observed.
  assert (evaluate (note_op note) = on_base (apply_operation (note_op note))) as -> by by destruct (note_op note).
  cbn [pre_apply_operation post_apply_operation account_by_key_plugin].
  destruct (note_op note) as [| | | | |o|o|o|o| | | | | | | | | | |] eqn:Hop;
    try (by apply other_lookups); [by apply create_lookups|by apply update_lookups|].
  apply wp_bind, wp_intro. done.
Qed.

Lemma key_references_elem p n k : n ∈ key_references p k ↔ KeyLookup k n ∈ key_lookups p.
Proof.
  unfold key_references, in_order. rewrite merge_sort_Permutation, elem_of_elements, elem_of_map. split.
  - intros ([k' n'] & -> & [<- ?]%elem_of_filter). done.
  - intros H. exists (KeyLookup k n). by rewrite elem_of_filter.
Qed.

(** C37: whatever transactions do to the authorities of accounts, the answer of the
    account_by_key API is right: it lists an account for a key only if the key is in
    one of the account's authorities now, and it lists every such account that was
    created by an operation ([founders] are the accounts of genesis). *)
Theorem key_references_exact founders trx_id block trx_in_block ops s s' k n :
  lookups_inv founders s → apply_operations trx_id block trx_in_block ops s = Ok (tt, s') →
  let holds := ∃ i a, authority_row (base s') i a ∧ auth_account a = n ∧ k ∈ account_keys a in
  (n ∈ key_references (own s') k → holds) ∧ (n ∉ founders → holds → n ∈ key_references (own s') k).
Proof.
  intros Hinv E. assert (lookups_inv founders s') as [_ [Hsound Hcomp]].
  { refine (wp_ok _ (λ _ s', lookups_inv founders s') _ _ _ _ E). unfold apply_operations.
    apply wp_for_each; [|done]. intros note s1 _. apply apply_observed_lookups. }
  simpl. rewrite key_references_elem. split.
  - intros H. by apply (Hsound (KeyLookup k n)).
  - intros Hf (i & a & Ha & <- & Hk). by apply (Hcomp i a).
Qed.
End operations.

(** At genesis the index is empty: the accounts that are there already are founders. *)
Lemma genesis_lookups founders c :
  authorities_wf c → (∀ i a, authority_row c i a → auth_account a ∈ founders) →
  lookups_inv founders (WithPlugin c (KeyDb ∅ ∅)).
Proof.
  intros Hwf Hf. split; [done|]. split; cbn.
  - intros o []%elem_of_empty.
  - intros i a k Ha Hn. destruct Hn. by apply (Hf i).
Qed.

(** ** A concrete run *)

(** Alice, bob and the keys that the demo chain gives them; alice changes her active
    and posting keys. *)
Definition demo_lookups : gset key_lookup_object :=
  {[KeyLookup 11 "alice"; KeyLookup 12 "alice"; KeyLookup 13 "alice";
    KeyLookup 21 "bob"; KeyLookup 22 "bob"; KeyLookup 23 "bob"]}.
Definition demo_keys : with_plugin key_db := WithPlugin demo (KeyDb demo_lookups ∅).
Definition demo_key_change : operation :=
  account_update_op (AccountUpdate "alice" None (Some (Authority 1 [] [(99, 1); (11, 1)])) None 0 "").

(** The invariant of a concrete state is decided by looking at its rows. *)
Lemma lookups_inv_check founders s :
  let m := rows (account_authorities (base s)) in
  let L := key_lookups (own s) in
  bool_decide (map_Forall (λ i a, map_Forall (λ j b, auth_account a = auth_account b → i = j) m) m) = true →
  bool_decide (map_Forall (λ i _, i < next_id (account_authorities (base s))) m) = true →
  bool_decide (set_Forall (λ o, ¬ map_Forall (λ _ a, ¬ (auth_account a = lookup_account o ∧ lookup_key o ∈ account_keys a)) m) L) = true →
  bool_decide (map_Forall (λ _ a, auth_account a ∉ founders → set_Forall (λ k, KeyLookup k (auth_account a) ∈ L) (account_keys a)) m) = true →
  lookups_inv founders s.
Proof.
  intros m L H1%bool_decide_eq_true H2%bool_decide_eq_true H3%bool_decide_eq_true H4%bool_decide_eq_true.
  split; split.
  - intros i j a b Ha Hb. by apply (H1 i a Ha j b Hb).
  - apply H2.
  - intros o Ho. apply H3 in Ho. apply map_not_Forall in Ho as (i & a & Ha & Hp); [|apply _].
    exists i, a. apply dec_stable in Hp. done.
  - intros i a k Ha Hf Hk. by apply (H4 i a Ha Hf k Hk).
Qed.

#[local] Existing Instances fc_ref demo_env.
Lemma demo_keys_inv : lookups_inv ∅ demo_keys.
Proof. apply lookups_inv_check; vm_compute; reflexivity. Qed.

Lemma key_references_exact_witness :
  lookups_inv ∅ demo_keys ∧
  ∃ s', apply_operations 1 100001 0 [demo_key_change] demo_keys = Ok (tt, s') ∧
    get_key_references (own s') [99; 12; 11] = [["alice"]; []; ["alice"]] ∧
    ((∃ i a, authority_row (base s') i a ∧ auth_account a = "alice"%string ∧ 99 ∈ account_keys a)).
Proof.
  split; [exact demo_keys_inv|].
  destruct (apply_operations 1 100001 0 [demo_key_change] demo_keys) as [[[] s']|] eqn:E;
    [|vm_compute in E; discriminate E].
  exists s'. split; [done|]. split.
  { vm_compute in E. injection E as <-. vm_compute. reflexivity. }
  refine (proj1 (key_references_exact ∅ 1 100001 0 [demo_key_change] demo_keys s' 99 "alice" demo_keys_inv E) _).
  vm_compute in E. injection E as <-. vm_compute. left.
Defined.
