(* ===== verification/History.v ===== *)
(** * History: which operations concern an account

    [libraries/app/impacted.cpp] and [libraries/plugins/account_history]: every
    operation that concerns a tracked account is stored once and gets the next number
    in the account's history; old entries are pruned.

    The histories are keyed by account and sequence number, which is the unique key of
    their index.  A sequence number has 32 bits; the theorems are about accounts that
    have not used them up. *)

From S2P Require Import Prelude FcLib Tables Config Asset Names Authority Operations Transaction Reward Objects Ledger Evaluators Plugins.

(** ** Impacted accounts *)

Section impacted.
Context `{FC : FcLib}.

(** impacted.cpp:100 *)
Definition virtual_impacted (op : virtual_operation) : gset string :=
  match op with
  | author_reward_operation author _ _ _ => {[author]}
  | curation_reward_operation curator _ _ _ => {[curator]}
  | fill_vesting_withdraw_operation from_account to_account _ _ => {[from_account; to_account]}
  | shutdown_witness_operation owner => {[owner]}
  | comment_benefactor_reward_operation benefactor author _ _ => {[benefactor; author]}
  | producer_reward_operation producer _ => {[producer]}
  | devfund_operation account _ => {[account]}
  | comment_reward_operation _ _ _ | hardfork_operation _ | comment_payout_update_operation _ _ => ∅
  end.
(** impacted.cpp:43: the accounts that have to sign it *)
Definition signers (op : operation) : gset string :=
  let r := operation_get_required_authorities op no_requirement in
  req_posting r ∪ req_active r ∪ req_owner r.
(** impacted.cpp:37 *)
Definition operation_get_impacted_accounts (op : operation) : gset string :=
  match op with
  | account_create_op o => {[ac_new_account_name o; ac_creator o]}
  | comment_op o =>
    {[co_author o]} ∪ (if 0 <? name_size (co_parent_author o) then {[co_parent_author o]} else ∅)
  | vote_op o => {[vo_voter o; vo_author o]}
  | transfer_op o => {[tr_from o; tr_to o]}
  | transfer_to_vesting_op o =>
    {[tv_from o]} ∪
    (if negb (String.eqb (tv_to o) "") && negb (String.eqb (tv_to o) (tv_from o)) then {[tv_to o]} else ∅)
  | set_withdraw_vesting_route_op o => {[sr_from_account o; sr_to_account o]}
  | account_witness_vote_op o => {[aw_account o; aw_witness o]}
  | account_witness_proxy_op o => {[ap_account o; ap_proxy o]}
  | virtual_op o => virtual_impacted o
  | _ => signers op
  end.
(** impacted.cpp:154 *)
Definition transaction_get_impacted_accounts (ops : list operation) : gset string :=
  ⋃ (operation_get_impacted_accounts <$> ops).
End impacted.

(** [fc::get_typename< T >::name()] *)
Definition virtual_typename (op : virtual_operation) : string :=
  match op with
  | author_reward_operation _ _ _ _ => "wls::protocol::author_reward_operation"
  | curation_reward_operation _ _ _ _ => "wls::protocol::curation_reward_operation"
  | comment_reward_operation _ _ _ => "wls::protocol::comment_reward_operation"
  | fill_vesting_withdraw_operation _ _ _ _ => "wls::protocol::fill_vesting_withdraw_operation"
  | shutdown_witness_operation _ => "wls::protocol::shutdown_witness_operation"
  | hardfork_operation _ => "wls::protocol::hardfork_operation"
  | comment_payout_update_operation _ _ => "wls::protocol::comment_payout_update_operation"
  | comment_benefactor_reward_operation _ _ _ _ => "wls::protocol::comment_benefactor_reward_operation"
  | producer_reward_operation _ _ => "wls::protocol::producer_reward_operation"
  | devfund_operation _ _ => "wls::protocol::devfund_operation"
  end.
Definition typename (op : operation) : string :=
  match op with
  | vote_op _ => "wls::protocol::vote_operation"
  | comment_op _ => "wls::protocol::comment_operation"
  | transfer_op _ => "wls::protocol::transfer_operation"
  | transfer_to_vesting_op _ => "wls::protocol::transfer_to_vesting_operation"
  | withdraw_vesting_op _ => "wls::protocol::withdraw_vesting_operation"
  | account_create_op _ => "wls::protocol::account_create_operation"
  | account_update_op _ => "wls::protocol::account_update_operation"
  | account_forsale_op _ => "wls::protocol::account_forsale_operation"
  | account_buying_op _ => "wls::protocol::account_buying_operation"
  | witness_update_op _ => "wls::protocol::witness_update_operation"
  | account_witness_vote_op _ => "wls::protocol::account_witness_vote_operation"
  | account_witness_proxy_op _ => "wls::protocol::account_witness_proxy_operation"
  | custom_op _ => "wls::protocol::custom_operation"
  | delete_comment_op _ => "wls::protocol::delete_comment_operation"
  | custom_json_op _ => "wls::protocol::custom_json_operation"
  | comment_options_op _ => "wls::protocol::comment_options_operation"
  | set_withdraw_vesting_route_op _ => "wls::protocol::set_withdraw_vesting_route_operation"
  | custom_binary_op _ => "wls::protocol::custom_binary_operation"
  | claim_reward_balance_op _ => "wls::protocol::claim_reward_balance_operation"
  | virtual_op o => virtual_typename o
  end.

(** ** The histories *)

(** history_object.hpp:15: the operation itself stands for its packed bytes *)
Record operation_object := OperationObject { obj_note : operation_notification; obj_timestamp : Z }.
(** The indices of the plugin: history_object.hpp:66, an entry is the id of its operation. *)
Record history_db := HistoryDb {
  operations_table : table operation_object;
  histories : gmap (string * Z) Z
}.
#[global] Instance history_db_eta : Eta history_db := λ r, HistoryDb (operations_table r) (histories r).

(** account_history_plugin.cpp:24.  A [flat_map] is the list of its pairs in order. *)
Record account_history_plugin_impl := HistoryPlugin {
  _tracked_accounts : list (string * string);
  _filter_content : bool;
  _blacklist : bool;
  _op_list : gset string;
  _prune : bool
}.

(** account_history_plugin.cpp:163-191: where the iterator stands *)
Definition name_ltb (a b : string) : bool := String.ltb a b.
Definition name_leb (a b : string) : bool := String.leb a b.
Definition in_range (r : string * string) (item : string) : bool := name_leb r.1 item && name_leb item r.2.
Definition is_tracked (ranges : list (string * string)) (item : string) : bool :=
  let before := filter (λ r, name_ltb r.1 item = true) ranges in
  let from := filter (λ r, name_ltb r.1 item = false) ranges in
  match ranges with
  | [] => true
  | _ =>
    match from, last before with
    | r :: _, Some prev => if String.eqb r.1 item then in_range r item else in_range prev item
    | r :: _, None => in_range r item
    | [], Some prev => in_range prev item
    | [], None => false
    end
  end.

Section history.
Context `{FC : FcLib} `{ENV : EvalEnv} (impl : account_history_plugin_impl).

(** account_history_plugin.cpp:113-120 *)
Definition too_old (now sequence seq timestamp : Z) : bool :=
  (30 <? wrap 32 (sequence - seq)) && (30 * 86400 <? now - timestamp).
Fixpoint to_remove (ops : table operation_object) (now sequence : Z) (entries : list (Z * Z)) : result (list Z) :=
  match entries with
  | [] => mret []
  | (seq, op) :: rest =>
    if 30 <? wrap 32 (sequence - seq) then
      o ← of_option out_of_range (rows ops !! op);
      if too_old now sequence seq (obj_timestamp o) then
        l ← to_remove ops now sequence rest; mret (seq :: l)
      else mret []
    else mret []
  end.
(** account_history_plugin.cpp:100 *)
Definition prune (now : Z) (item : string) (sequence : Z) : M history_db unit :=
  s ← gets id;
  seqs ← lift (to_remove (operations_table s) now sequence
    (filter (λ e, 0 < e.1) (entries_of item (histories s))));
  for_each seqs (λ seq, modify (λ s, s <| histories ::= delete (item, seq) |>)).

(** account_history_plugin.cpp:70-86 *)
Definition stored_operation (now : Z) (note : operation_notification) (new_obj : option Z) : M history_db Z :=
  match new_obj with
  | Some id => mret id
  | None =>
    t ← gets operations_table;
    modify (λ s, s <| operations_table :=
      Table (<[next_id t := OperationObject note now]> (rows t)) (next_id t + 1) |>);;
    mret (next_id t)
  end.
(** account_history_plugin.cpp:88-91 *)
Definition next_sequence (item : string) (h : gmap (string * Z) Z) : Z :=
  match last (entries_of item h) with Some (seq, _) => wrap 32 (seq + 1) | None => 1 end.
(** account_history_plugin.cpp:53 *)
Definition operation_visitor (now : Z) (note : operation_notification) (new_obj : option Z) (item : string)
    : M history_db (option Z) :=
  obj ← stored_operation now note new_obj;
  h ← gets histories;
  let sequence := next_sequence item h in
  (match h !! (item, sequence) with
   | Some _ => throw logic_error
   | None => modify (λ s, s <| histories ::= <[(item, sequence) := obj]> |>)
   end);;
  when (_prune impl) (prune now item sequence);;
  mret (Some obj).
(** account_history_plugin.cpp:130 *)
Definition passes_filter (op : operation) : bool :=
  if bool_decide (typename op ∈ _op_list impl) then negb (_blacklist impl) else _blacklist impl.
Definition is_logged (op : operation) (item : string) : bool :=
  is_tracked (_tracked_accounts impl) item && (if _filter_content impl then passes_filter op else true).
(** account_history_plugin.cpp:154 *)
Definition on_operation (note : operation_notification) : M (with_plugin history_db) unit :=
  now ← on_base head_block_time;
  fold_m (in_order (operation_get_impacted_accounts (note_op note))) (λ new_obj item,
    if is_logged (note_op note) item then on_own (operation_visitor now note new_obj item)
    else mret new_obj) None;;
  mret tt.

(** account_history_plugin.cpp:235 *)
Definition account_history_plugin : Plugin history_db := {|
  pre_apply_operation := on_operation;
  post_apply_operation _ := mret tt;
  get_interpreter _ := None
|}.
End history.

(** ** Options *)

(** The options of the plugin, as boost::program_options hands them over: an absent
    [history-disable-pruning] is [Some false], its default value. *)
Record history_options := HistoryOptions {
  track_account_range : list (string * string);
  history_whitelist_ops : option (list string);
  history_blacklist_ops : option (list string);
  history_disable_pruning : option bool
}.
(** [boost::split] at spaces, tabs and commas. *)
Definition is_separator (c : Ascii.ascii) : bool :=
  existsb (λ n, Ascii.eqb c (Ascii.ascii_of_nat n)) [32; 9; 44]%nat.
Fixpoint split_ops (s : string) : list string :=
  match s with
  | EmptyString => [""%string]
  | String c s =>
    let l := split_ops s in
    if is_separator c then ""%string :: l
    else match l with w :: l => String c w :: l | [] => [String c ""] end
  end.
(** account_history_plugin.cpp:248-258 *)
Definition op_names (args : list string) : gset string :=
  list_to_set ((λ op, "wls::protocol::" +:+ op) <$> filter (λ op, op ≠ ""%string) (args ≫= split_ops)).
(** A [flat_map] that keeps the first pair of a key. *)
Definition insert_range (r : string * string) (l : list (string * string)) : list (string * string) :=
  if existsb (λ q, String.eqb q.1 r.1) l then l
  else filter (λ q, name_ltb q.1 r.1 = true) l ++ r :: filter (λ q, name_ltb q.1 r.1 = false) l.
(** account_history_plugin.cpp:235 *)
Definition plugin_initialize (o : history_options) : account_history_plugin_impl :=
  let ranges := foldl (λ l r, insert_range r l) [] (track_account_range o) in
  let prune := default true (history_disable_pruning o) in
  match history_whitelist_ops o, history_blacklist_ops o with
  | Some args, _ => HistoryPlugin ranges true false (op_names args) prune
  | None, Some args => HistoryPlugin ranges true true (op_names args) prune
  | None, None => HistoryPlugin ranges false false ∅ prune
  end.
