(* ===== verification/HistorySpec.v ===== *)
(** * HistorySpec: the history index implements an append-only log

    For every account the plugin promises a log of the operations that concern it.
    The index holds a suffix of that log, numbered from one: all of it from the oldest
    entry that is kept, at least the last thirty-one entries and those of the last
    thirty days. *)

From S2P Require Import Prelude FcLib Tables Config Asset Names Authority Operations Transaction Reward Objects Ledger Evaluators Demo Schedule ScheduleSpec Plugins History.

Definition thirty_days : Z := 30 * 86400.

(** [log a] is every operation that was logged for [a], the oldest first. *)
Record implements (log : string → list operation_object) (now : Z) (p : history_db) : Prop := {
  imp_fresh i o : rows (operations_table p) !! i = Some o → i < next_id (operations_table p);
  imp_entry a i op : histories p !! (a, i) = Some op → 1 ≤ i ∧
    ∃ o, log a !! Z.to_nat (i - 1) = Some o ∧ rows (operations_table p) !! op = Some o;
  imp_recent a i o : 1 ≤ i → log a !! Z.to_nat (i - 1) = Some o →
    Z.of_nat (length (log a)) - i ≤ 30 ∨ now - obj_timestamp o ≤ thirty_days → is_Some (histories p !! (a, i));
  imp_suffix a i j : is_Some (histories p !! (a, i)) → i ≤ j ≤ Z.of_nat (length (log a)) →
    is_Some (histories p !! (a, j))
}.

Lemma implements_later log now now' p : now ≤ now' → implements log now p → implements log now' p.
Proof.
  intros Hle [H1 H2 H3 H4]. split; [done..| |done]. intros a i o Hi Ho Hr. apply (H3 a i o Hi Ho).
  destruct Hr; [by left|right; lia].
Qed.
Lemma implements_ext log log' now p : (∀ a, log a = log' a) → implements log now p → implements log' now p.
Proof.
  intros Heq [H1 H2 H3 H4]. split; [done|..]; intros a; rewrite <-(Heq a); [apply H2|apply H3|apply H4].
Qed.

(** ** Pruning *)

(** The scan stops inside the list: it returns the numbers of a prefix of it, all of
    them old. *)
Lemma to_remove_prefix ops now sequence l :
  (∀ e, e ∈ l → is_Some (rows ops !! e.2)) →
  ∃ k, to_remove ops now sequence l = Ok (take k l).*1 ∧
    ∀ e, e ∈ take k l → 30 < wrap 32 (sequence - e.1) ∧
      ∃ o, rows ops !! e.2 = Some o ∧ thirty_days < now - obj_timestamp o.
Proof.
  induction l as [|[seq op] l IH]; intros Hops; cbn [to_remove].
  { exists 0%nat. split; [done|]. intros e He. by apply elem_of_nil in He. }
  destruct (Z.ltb_spec 30 (wrap 32 (sequence - seq))) as [H30|H30];
    [|exists 0%nat; split; [done|]; intros e He; by apply elem_of_nil in He].
  destruct (Hops (seq, op)) as [o Ho]; [set_solver|]. cbn in Ho. rewrite Ho. cbn.
  unfold too_old. rewrite (proj2 (Z.ltb_lt _ _) H30). cbn [andb].
  destruct (Z.ltb_spec (30 * 86400) (now - obj_timestamp o)) as [Hold|Hold];
    [|exists 0%nat; split; [done|]; intros e He; by apply elem_of_nil in He].
  destruct IH as (k & -> & Hk); [set_solver|]. exists (S k). split; [done|].
  intros e [->|He]%elem_of_cons; [|auto]. split; [done|]. by exists o.
Qed.

Lemma delete_loop item seqs p :
  ∃ p', for_each seqs (λ seq, modify (λ s, s <| histories ::= delete (item, seq) |>)) p = Ok (tt, p') ∧
    operations_table p' = operations_table p ∧
    ∀ a i, histories p' !! (a, i) = if bool_decide (a = item ∧ i ∈ seqs) then None else histories p !! (a, i).
Proof.
  revert p. induction seqs as [|seq seqs IH]; intros p.
  { exists p. split_and!; [done..|]. intros a i. case_bool_decide; set_solver. }
  destruct (IH (p <| histories ::= delete (item, seq) |>)) as (p' & E & Hop & Hh).
  exists p'. split_and!; [by rewrite (for_each_cons_Ok _ _ _ _ (p <| histories ::= delete (item, seq) |>))|done|].
  intros a i. rewrite Hh. cbn. repeat case_bool_decide; try set_solver.
  - rewrite lookup_delete_None. left. set_solver.
  - rewrite lookup_delete_ne; [done|]. set_solver.
Qed.

(** Pruning keeps the promise. *)
Lemma prune_implements log now item p :
  implements log now p → 0 < Z.of_nat (length (log item)) < 2 ^ 32 →
  ∃ p', prune now item (Z.of_nat (length (log item))) p = Ok (tt, p') ∧ operations_table p' = operations_table p ∧
    implements log now p'.
Proof.
  intros [Hfresh Hentry Hrecent Hsuffix] Hlen.
  set (sequence := Z.of_nat (length (log item))) in *.
  set (l := filter (λ e, 0 < e.1) (entries_of item (histories p))).
  assert (∀ i op, (i, op) ∈ l ↔ histories p !! (item, i) = Some op) as Hl.
  { intros i op. unfold l. rewrite list_elem_of_filter, elem_of_entries. split; [by intros [_ ?]|].
    intros H. split; [|done]. destruct (Hentry item i op H). cbn. lia. }
  assert (∀ i op, (i, op) ∈ l → 1 ≤ i ≤ sequence ∧ ∃ o, log item !! Z.to_nat (i - 1) = Some o ∧
    rows (operations_table p) !! op = Some o) as Hin.
  { intros i op H%Hl. destruct (Hentry item i op H) as (Hi & o & Ho & Hr). split; [|eauto].
    apply lookup_lt_Some in Ho. lia. }
  destruct (to_remove_prefix (operations_table p) now sequence l) as (k & E & Hk).
  { intros [i op] H. destruct (Hin i op H) as (_ & o & _ & ?). eauto. }
  destruct (delete_loop item (take k l).*1 p) as (p' & Ep & Hops & Hh).
  exists p'. split_and!; [|done|].
  { unfold prune, mbind, M_bind, gets, lift, id. cbv beta iota. fold l. rewrite E. exact Ep. }
  assert (∀ i, i ∈ (take k l).*1 → 1 ≤ i ≤ sequence ∧ 30 < sequence - i ∧
    ∃ o, log item !! Z.to_nat (i - 1) = Some o ∧ thirty_days < now - obj_timestamp o) as Hgone.
  { intros i ([i' op] & -> & H)%list_elem_of_fmap. pose proof (Hk _ H) as (H30 & o & Ho & Hold).
    assert ((i', op) ∈ l) as Hi'%Hin by (by eapply subseteq_take).
    destruct Hi' as (Hr & o' & Ho' & Hro). cbn in *. rewrite wrap_small in H30 by lia.
    split_and!; [lia..|]. exists o'. split; [done|]. congruence. }
  split.
  - intros i o. rewrite Hops. apply Hfresh.
  - intros a i op. rewrite Hh, Hops. case_bool_decide; [done|]. apply Hentry.
  - intros a i o Hi Ho Hr. rewrite Hh. case_bool_decide as Hc; [|by apply (Hrecent a i o)].
    destruct Hc as [-> Hc]. destruct (Hgone i Hc) as (_ & H30 & o' & Ho' & Hold).
    assert (o' = o) as -> by congruence. fold sequence in Hr. lia.
  - intros a i j. rewrite !Hh. case_bool_decide as Hi; [by intros []|]. intros Hsome Hij.
    case_bool_decide as Hj; [|by apply (Hsuffix a i j)]. destruct Hj as [-> Hj]. destruct Hi. split; [done|].
    destruct Hsome as [op Hop]. apply Hl in Hop. pose proof Hop as Hop'.
    rewrite <-(take_drop k l) in Hop. apply elem_of_app in Hop as [Hop|Hop].
    { apply list_elem_of_fmap. by exists (i, op). }
    apply list_elem_of_fmap in Hj as ([j' op'] & -> & Hj).
    assert (StronglySorted entry_le l) as Hs by apply StronglySorted_filter, entries_sorted.
    rewrite <-(take_drop k l) in Hs. pose proof (StronglySorted_app_1_elem_of _ _ _ _ _ Hs Hj Hop) as Hle.
    unfold entry_le in Hle. cbn in *. assert (j' = i) as -> by lia.
    apply list_elem_of_fmap. by exists (i, op').
Qed.

(** ** One operation *)

Definition append_log (log : string → list operation_object) (item : string) (o : operation_object) :=
  λ a, if String.eqb a item then log a ++ [o] else log a.

Lemma next_sequence_log log now p item : implements log now p →
  Z.of_nat (length (log item)) < 2 ^ 32 - 1 →
  next_sequence item (histories p) = Z.of_nat (length (log item)) + 1.
Proof.
  intros [_ Hentry Hrecent _] Hlen. unfold next_sequence.
  destruct (last (entries_of item (histories p))) as [[seq op]|] eqn:E.
  - apply last_greatest in E as [Hin Hmax]; [|apply entries_sorted]. apply elem_of_entries in Hin.
    destruct (Hentry _ _ _ Hin) as (Hs & o & Ho & _). apply lookup_lt_Some in Ho.
    destruct (log item) as [|o0 l0] eqn:El; [cbn in Ho; lia|]. rewrite <-El in *.
    destruct (lookup_lt_is_Some_2 (log item) (Z.to_nat (Z.of_nat (length (log item)) - 1))) as [o' Ho'].
    { rewrite El. cbn. lia. }
    destruct (Hrecent item (Z.of_nat (length (log item))) o') as [op' Hop']; [rewrite El; cbn; lia|done|left; lia|].
    apply elem_of_entries, Hmax in Hop'. cbn in Hop'. rewrite wrap_small; lia.
  - destruct (log item) as [|o0 l0] eqn:El; [done|]. rewrite <-El in *.
    destruct (lookup_lt_is_Some_2 (log item) (Z.to_nat (Z.of_nat (length (log item)) - 1))) as [o' Ho'].
    { rewrite El. cbn. lia. }
    destruct (Hrecent item (Z.of_nat (length (log item))) o') as [op' Hop']; [rewrite El; cbn; lia|done|left; lia|].
    apply elem_of_entries in Hop'. apply last_None in E. rewrite E in Hop'. by apply elem_of_nil in Hop'.
Qed.

(** The new entry at the end of the log. *)
Lemma insert_implements log now p item o op :
  implements log now p → rows (operations_table p) !! op = Some o →
  let seq := Z.of_nat (length (log item)) + 1 in
  histories p !! (item, seq) = None ∧
  implements (append_log log item o) now (p <| histories ::= <[(item, seq) := op]> |>).
Proof.
  intros Himp Hop seq. pose proof Himp as [Hfresh Hentry Hrecent Hsuffix].
  assert (histories p !! (item, seq) = None) as Hnone.
  { destruct (histories p !! (item, seq)) as [op'|] eqn:E; [|done].
    destruct (Hentry _ _ _ E) as (_ & o' & Ho' & _). apply lookup_lt_Some in Ho'. subst seq. lia. }
  split; [done|]. unfold append_log. split; cbn.
  - exact Hfresh.
  - intros a i op'. rewrite lookup_insert_Some. intros [[[= <- <-] <-]|[Hne H]].
    + subst seq. rewrite String.eqb_refl. split; [lia|]. exists o. split; [|done].
      rewrite lookup_app_r by lia. by replace (_ - _)%nat with 0%nat by lia.
    + destruct (Hentry a i op' H) as (Hi & o' & Ho' & Hr). split; [done|]. exists o'. split; [|done].
      destruct (String.eqb a item); [|done]. by apply lookup_app_l_Some.
  - intros a i o' Hi Ho' Hr. rewrite lookup_insert_is_Some. destruct (decide ((item, seq) = (a, i))) as [|Hne]; [by left|right].
    split; [done|]. destruct (String.eqb_spec a item) as [->|]; [|by apply (Hrecent a i o')].
    rewrite length_app in Hr. cbn in Hr. apply lookup_app_Some in Ho' as [Ho'|[Hge Ho']].
    + apply (Hrecent item i o'); [done|done|]. destruct Hr; [left; lia|by right].
    + apply list_lookup_singleton_Some in Ho' as [? _]. destruct Hne. subst seq. f_equal. lia.
  - intros a i j. rewrite !lookup_insert_is_Some. intros Hi Hij.
    destruct (decide ((item, seq) = (a, j))) as [|Hne]; [by left|right]. split; [done|].
    destruct (String.eqb_spec a item) as [->|].
    + rewrite length_app in Hij. cbn in Hij. destruct Hi as [[= <-]|[_ Hi]].
      * subst seq. destruct Hne. f_equal. lia.
      * apply (Hsuffix item i j Hi). subst seq. assert (j ≠ Z.of_nat (length (log item)) + 1) by (intros ->; done). lia.
    + destruct Hi as [[= -> ->]|[_ Hi]]; [done|]. by apply (Hsuffix a i j).
Qed.

Section visitor.
Context `{FC : FcLib} `{ENV : EvalEnv} (impl : account_history_plugin_impl).

Lemma stored_operation_spec log now note new_obj p :
  implements log now p →
  (∀ op, new_obj = Some op → rows (operations_table p) !! op = Some (OperationObject note now)) →
  ∃ op p', stored_operation now note new_obj p = Ok (op, p') ∧ histories p' = histories p ∧
    rows (operations_table p') !! op = Some (OperationObject note now) ∧ implements log now p'.
Proof.
  intros Himp Hobj. destruct new_obj as [op|]; cbn.
  { exists op, p. split_and!; auto. }
  pose proof Himp as [Hfresh Hentry Hrecent Hsuffix].
  eexists _, _. split_and!; [done|done|by apply lookup_insert_eq|]. split; cbn; [..|done|done].
  - intros i o. rewrite lookup_insert_Some. intros [[<- _]|[_ H]]; [lia|]. specialize (Hfresh i o H). lia.
  - intros a i op H. destruct (Hentry a i op H) as (? & o & ? & Hr). split; [done|]. exists o. split; [done|].
    rewrite lookup_insert_ne; [done|]. specialize (Hfresh op o Hr). lia.
Qed.

Lemma operation_visitor_spec log now note new_obj item p :
  implements log now p → Z.of_nat (length (log item)) < 2 ^ 32 - 1 →
  (∀ op, new_obj = Some op → rows (operations_table p) !! op = Some (OperationObject note now)) →
  ∃ op p', operation_visitor impl now note new_obj item p = Ok (Some op, p') ∧
    rows (operations_table p') !! op = Some (OperationObject note now) ∧
    implements (append_log log item (OperationObject note now)) now p'.
Proof.
  intros Himp Hlen Hobj. unfold operation_visitor.
  destruct (stored_operation_spec _ _ note new_obj _ Himp Hobj) as (op & p1 & E1 & Hh & Hop & Himp1).
  unfold mbind at 1, M_bind at 1. rewrite E1. cbv beta. unfold mbind at 1, M_bind at 1, gets at 1. cbv beta zeta iota.
  rewrite (next_sequence_log _ _ _ _ Himp1 Hlen).
  destruct (insert_implements log now p1 item _ op Himp1 Hop) as [Hnone Himp2]. rewrite Hnone.
  unfold mbind at 1, M_bind at 1, modify at 1. cbv beta iota.
  set (p2 := p1 <| histories ::= _ |>) in *.
  unfold when. destruct (_prune impl).
  - assert (length (append_log log item (OperationObject note now) item) = S (length (log item))) as Hl.
    { unfold append_log. rewrite String.eqb_refl, length_app. cbn. lia. }
    destruct (prune_implements _ _ item _ Himp2) as (p3 & E3 & Ho3 & Himp3); [rewrite Hl; lia|].
    rewrite Hl in E3. replace (Z.of_nat (S (length (log item)))) with (Z.of_nat (length (log item)) + 1) in E3 by lia.
    exists op, p3. split_and!; [|by rewrite Ho3|done]. unfold mbind, M_bind. by rewrite E3.
  - by exists op, p2.
Qed.
End visitor.

Section operation.
Context `{FC : FcLib} `{ENV : EvalEnv} (impl : account_history_plugin_impl).

(** The log after an operation: one entry more for every impacted account that is tracked. *)
Definition log_operation (log : string → list operation_object) (now : Z) (note : operation_notification) :=
  λ a, if bool_decide (a ∈ operation_get_impacted_accounts (note_op note)) && is_logged impl (note_op note) a
       then log a ++ [OperationObject note now] else log a.

Lemma history_loop note now l new_obj log s :
  NoDup l → implements log now (own s) → (∀ a, a ∈ l → Z.of_nat (length (log a)) < 2 ^ 32 - 1) →
  (∀ op, new_obj = Some op → rows (operations_table (own s)) !! op = Some (OperationObject note now)) →
  ∃ r s', fold_m l (λ new_obj item,
      if is_logged impl (note_op note) item then on_own (operation_visitor impl now note new_obj item)
      else mret new_obj) new_obj s = Ok (r, s') ∧ base s' = base s ∧
    implements (λ a, if bool_decide (a ∈ l) && is_logged impl (note_op note) a
       then log a ++ [OperationObject note now] else log a) now (own s').
Proof.
  revert new_obj log s. induction l as [|item l IH]; intros new_obj log s Hnd Himp Hlen Hobj.
  { exists new_obj, s. split_and!; [done..|]. eapply implements_ext; [|exact Himp]. intros a. by rewrite bool_decide_eq_false_2 by apply not_elem_of_nil. }
  apply NoDup_cons in Hnd as [Hni Hnd]. cbn [fold_m].
  destruct (is_logged impl (note_op note) item) eqn:Hlog.
  - destruct (operation_visitor_spec impl _ _ note new_obj item _ Himp) as (op & p & E & Hop & Himp');
      [apply Hlen; set_solver|done|].
    destruct s as [c h]. cbn in *.
    destruct (IH (Some op) (append_log log item (OperationObject note now)) (WithPlugin c p)) as (r & s' & E' & Hb & H');
      [done|done| |by intros ? [= <-]|].
    { intros a Ha. unfold append_log. destruct (String.eqb_spec a item) as [->|]; [done|]. apply Hlen. set_solver. }
    exists r, s'. unfold mbind, M_bind, on_own. cbn. rewrite E. split_and!; [done|done|].
    eapply implements_ext; [|exact H']. intros a. unfold append_log. cbn.
    destruct (String.eqb_spec a item) as [->|Hne].
    + rewrite Hlog, (bool_decide_eq_false_2 (item ∈ l)), bool_decide_eq_true_2 by set_solver. done.
    + by rewrite (bool_decide_ext (a ∈ item :: l) (a ∈ l)) by set_solver.
  - destruct (IH new_obj log s) as (r & s' & E' & Hb & H'); [done|done|intros; apply Hlen; set_solver|done|].
    exists r, s'. split_and!; [done|done|]. eapply implements_ext; [|exact H']. intros a. cbn.
    destruct (decide (a = item)) as [->|Hne]; [by rewrite Hlog, !andb_false_r|].
    by rewrite (bool_decide_ext (a ∈ item :: l) (a ∈ l)) by set_solver.
Qed.

(** C36: the history index implements an append-only log per account: the hook stores
    the operation, appends it to the log of every impacted account that is tracked and
    to no other, and never fails.  After it the index still holds, under consecutive
    numbers up to the length of the log, a suffix of each log that contains at least
    its last thirty-one entries and those of the last thirty days. *)
Theorem history_implements_log log note s :
  let now := time (gpo (base s)) in
  implements log now (own s) →
  (∀ a, a ∈ operation_get_impacted_accounts (note_op note) → Z.of_nat (length (log a)) < 2 ^ 32 - 1) →
  ∃ s', on_operation impl note s = Ok (tt, s') ∧ base s' = base s ∧
    implements (log_operation log now note) now (own s').
Proof.
  intros now Himp Hlen.
  assert (∀ a, a ∈ in_order (operation_get_impacted_accounts (note_op note)) ↔
    a ∈ operation_get_impacted_accounts (note_op note)) as Hin.
  { intros a. unfold in_order. by rewrite merge_sort_Permutation, elem_of_elements. }
  destruct (history_loop note now (in_order (operation_get_impacted_accounts (note_op note))) None log s)
    as (r & s' & E & Hb & H'); [|done|intros a Ha%Hin; auto|done|].
  { unfold in_order. rewrite merge_sort_Permutation. apply NoDup_elements. }
  exists s'. split_and!; [|done|].
  - assert (on_base head_block_time s = Ok (now, s)) as Ht by by destruct s.
    unfold on_operation. unfold mbind at 1, M_bind at 1. rewrite Ht. cbv beta iota.
    unfold mbind at 1, M_bind at 1. by rewrite E.
  - eapply implements_ext; [|exact H']. intros a. unfold log_operation. by rewrite (bool_decide_ext _ _ (Hin a)).
Qed.
End operation.

(** ** Tracked ranges *)

Lemma name_ltb_leb a b : name_ltb a b = negb (name_leb b a).
Proof.
  unfold name_ltb, name_leb, String.ltb, String.leb. rewrite String.compare_antisym.
  by destruct (String.compare b a).
Qed.
Lemma name_leb_trans a b c : name_leb a b = true → name_leb b c = true → name_leb a c = true.
Proof.
  intros H1 H2. apply Is_true_true. change (String.le a c). trans b; by apply Is_true_true.
Qed.
Lemma name_leb_total a b : name_leb a b = true ∨ name_leb b a = true.
Proof. apply String.leb_total. Qed.

(** Ranges in order that do not overlap: an account is tracked when it is in one. *)
Definition ranges_ok (l : list (string * string)) : Prop :=
  StronglySorted (λ r q, name_ltb r.2 q.1 = true) l ∧ Forall (λ r, name_leb r.1 r.2 = true) l.
Lemma sorted_head {A} (R : relation A) x l y : StronglySorted R (x :: l) → y ∈ x :: l → y = x ∨ R x y.
Proof.
  intros [_ H]%StronglySorted_inv [->|Hy]%elem_of_cons; [by left|right]. by rewrite Forall_forall in H; apply H.
Qed.
Lemma sorted_last {A} (R : relation A) l x y : StronglySorted R l → last l = Some x → y ∈ l → y = x ∨ R y x.
Proof.
  intros Hs [l' ->]%last_Some Hy. apply elem_of_app in Hy as [Hy|Hy]; [right|left; set_solver].
  apply (StronglySorted_app_1_elem_of _ _ _ _ _ Hs Hy). set_solver.
Qed.
Lemma sorted_trichotomy {A} (R : relation A) l x y : StronglySorted R l → x ∈ l → y ∈ l → x = y ∨ R x y ∨ R y x.
Proof.
  intros Hs. induction Hs as [|z l Hs IH Hz]; [by intros ?%elem_of_nil|]. rewrite Forall_forall in Hz.
  intros [->|Hx]%elem_of_cons [->|Hy]%elem_of_cons; auto.
Qed.
Lemma is_tracked_in_range l item : ranges_ok l → l ≠ [] →
  is_tracked l item = true ↔ ∃ r, r ∈ l ∧ in_range r item = true.
Proof.
  intros [Hs Hr] Hne. unfold is_tracked.
  set (before := filter (λ r, name_ltb r.1 item = true) l).
  set (from := filter (λ r, name_ltb r.1 item = false) l).
  assert (∀ r, in_range r item = true ↔ name_leb r.1 item = true ∧ name_leb item r.2 = true) as Hrange
    by (intros r; apply andb_true_iff).
  assert (∀ r, r ∈ before ↔ name_ltb r.1 item = true ∧ r ∈ l) as Hbefore by (intros r; unfold before; by rewrite list_elem_of_filter).
  assert (∀ r, r ∈ from ↔ name_ltb r.1 item = false ∧ r ∈ l) as Hfrom by (intros r; unfold from; by rewrite list_elem_of_filter).
  assert (∀ r q : string * string, name_ltb r.2 q.1 = true → name_leb q.1 r.2 = false) as Hlt.
  { intros r q. rewrite name_ltb_leb. apply negb_true_iff. }
  assert (∀ r, r ∈ l → name_leb r.1 r.2 = true) as Hself by (by apply Forall_forall).
  assert (∀ r, r ∈ from ↔ name_leb item r.1 = true ∧ r ∈ l) as Hfrom'.
  { intros r. rewrite Hfrom, name_ltb_leb, negb_false_iff. done. }
  assert (∀ r, r ∈ before ↔ name_leb item r.1 = false ∧ r ∈ l) as Hbefore'.
  { intros r. rewrite Hbefore, name_ltb_leb, negb_true_iff. done. }
  clear Hfrom Hbefore. split.
  - (* the range that is looked at is one of the list *)
    intros H. destruct l as [|r0 l0] eqn:El; [done|]. rewrite <-El in *.
    destruct from as [|r rest] eqn:Ef, (last before) as [prev|] eqn:Eb; try done.
    + exists prev. split; [|done]. apply Hbefore'. apply last_Some in Eb as [? ->]. set_solver.
    + destruct (String.eqb r.1 item); [exists r; split; [apply Hfrom'; set_solver|done]|].
      exists prev. split; [|done]. apply Hbefore'. apply last_Some in Eb as [? ->]. set_solver.
    + exists r. split; [apply Hfrom'; set_solver|done].
  - intros (r & Hrl & Hin). pose proof Hin as [Hlo Hhi]%Hrange.
    assert (StronglySorted (λ r q : string * string, name_ltb r.2 q.1 = true) from) as Hsf by by apply StronglySorted_filter.
    assert (StronglySorted (λ r q : string * string, name_ltb r.2 q.1 = true) before) as Hsb by by apply StronglySorted_filter.
    destruct l as [|r0 l0] eqn:El; [done|]. rewrite <-El in *.
    destruct (name_leb item r.1) eqn:Hcase.
    + (* it starts at the item: it is the first that does *)
      assert (r.1 = item) as Heq by by apply String.leb_antisym.
      assert (r ∈ from) as Hrf by by apply Hfrom'.
      destruct from as [|r' rest] eqn:Ef; [by apply elem_of_nil in Hrf|].
      assert (r = r') as <-.
      { destruct (sorted_head _ _ _ _ Hsf Hrf) as [|H%Hlt]; [done|].
        assert (r' ∈ r' :: rest) as [H1 H2]%Hfrom' by set_solver. rewrite Heq in H.
        rewrite (name_leb_trans item r'.1 r'.2) in H; [done|done|by apply Hself]. }
      rewrite Heq, String.eqb_refl. by destruct (last before).
    + assert (r ∈ before) as Hrb by by apply Hbefore'.
      destruct (last before) as [prev|] eqn:Eb; [|by apply last_None in Eb; rewrite Eb in Hrb; apply elem_of_nil in Hrb].
      assert (r = prev) as <-.
      { destruct (sorted_last _ _ _ _ Hsb Eb Hrb) as [|H%Hlt]; [done|].
        assert (prev ∈ before) as [Hp _]%Hbefore' by (apply last_Some in Eb as [? ->]; set_solver).
        destruct (name_leb_total item prev.1) as [H'|H']; [congruence|].
        rewrite (name_leb_trans prev.1 item r.2) in H; done. }
      destruct from as [|r' rest] eqn:Ef; [done|]. destruct (String.eqb_spec r'.1 item) as [Heq|]; [|done].
      assert (r' ∈ r' :: rest) as [_ Hrl']%Hfrom' by set_solver.
      destruct (sorted_trichotomy _ _ _ _ Hs Hrl Hrl') as [->|[H%Hlt|H%Hlt]]; [done|congruence|].
      rewrite (name_leb_trans r.1 item r'.2) in H; [done|done|]. rewrite <-Heq. by apply Hself.
Qed.

(** ** Options *)

(** The pruning switch is the wrong way round: pruning is off by default and
    [history-disable-pruning] turns it on. *)
Lemma disable_pruning_inverted o b :
  history_disable_pruning o = Some b → _prune (plugin_initialize o) = b.
Proof.
  unfold plugin_initialize. intros ->. by destruct (history_whitelist_ops o), (history_blacklist_ops o).
Qed.

(** ** A concrete run *)

Section demo_history.
#[local] Existing Instances fc_ref demo_env.

Definition demo_history : with_plugin history_db := WithPlugin demo (HistoryDb empty_table ∅).
Definition demo_note : operation_notification :=
  Note 7 100001 0 0 (transfer_op (TransferOp "alice" "bob" (WLS 5) "")).
Definition demo_options : account_history_plugin_impl :=
  plugin_initialize (HistoryOptions [("a", "b"); ("bo", "c")]%string None None (Some true)).

(** bob is tracked by the second range, alice by the first. *)
Lemma history_implements_log_witness :
  is_logged demo_options (note_op demo_note) "bob" = true ∧
  ∃ s', on_operation demo_options demo_note demo_history = Ok (tt, s') ∧
    histories (own s') = {[("alice"%string, 1) := 0; ("bob"%string, 1) := 0]} ∧
    implements (log_operation demo_options (λ _, []) demo_time demo_note) demo_time (own s').
Proof.
  split; [vm_compute; reflexivity|].
  destruct (history_implements_log demo_options (λ _, []) demo_note demo_history) as (s' & E & Hb & H).
  - split; cbn; [intros i o H|intros a i op H|intros a i o _ H|intros a i j H].
    + by rewrite lookup_empty in H.
    + by rewrite lookup_empty in H.
    + discriminate H.
    + rewrite lookup_empty in H. by destruct H.
  - intros a _. reflexivity.
  - exists s'. split; [exact E|]. split; [|exact H].
    vm_compute in E. injection E as <-. vm_compute. reflexivity.
Defined.
End demo_history.
