(* ===== verification/Follow.v ===== *)
(** * Follow: who follows whom, feeds, blogs and reputations

    [libraries/plugins/follow]: two operations of its own, carried in custom
    operations, and hooks around votes and comments keep the indices from which the
    node answers what an account follows and reads.

    The indices are keyed by their unique keys; the ids of the rows and the field
    [reblogs] of a feed entry, which starts without a value and is never read, are left
    out.  [FollowJson] is what fc's JSON and binary readers make of a custom operation. *)

From S2P Require Import Prelude FcLib Tables Config Asset Names Authority Operations Transaction Reward Objects Ledger Evaluators Plugins.

(** follow_operations.hpp:12 *)
Record follow_operation := FollowOp { fo_follower : string; fo_following : string; fo_what : gset string }.
Record reblog_operation := ReblogOp { ro_account : string; ro_author : string; ro_permlink : string }.
Inductive follow_plugin_operation := follow_op (o : follow_operation) | reblog_op (o : reblog_operation).

Class FollowJson := {
  (** a custom operation's text or bytes as operations of the plugin *)
  follow_ops_from_json : string → result (list follow_plugin_operation);
  follow_ops_from_binary : list Z → result (list follow_plugin_operation);
  (** the old format: the fields of a follow operation alone *)
  follow_from_json : string → result follow_operation;
  follow_op_to_json : follow_plugin_operation → string;
  follow_json_roundtrip op : follow_ops_from_json (follow_op_to_json op) = Ok [op]
}.

(** follow_operations.cpp:7 *)
Definition follow_validate (op : follow_plugin_operation) : result unit :=
  match op with
  | follow_op o => FC_ASSERT (negb (String.eqb (fo_follower o) (fo_following o)))
  | reblog_op o => FC_ASSERT (negb (String.eqb (ro_account o) (ro_author o)))
  end.
(** follow_operations.hpp:20, 31 *)
Definition follow_required (op : follow_plugin_operation) (r : required) : required :=
  match op with follow_op o => add_posting (fo_follower o) r | reblog_op o => add_posting (ro_account o) r end.

(** follow_objects.hpp:27 *)
Definition undefined : Z := 0.
Definition blog : Z := 1.
Definition ignore : Z := 2.
Definition bit (t : Z) : Z := Z.shiftl 1 t.
(** follow_evaluators.cpp:13-21; [operator[]] of an unknown name is [undefined] *)
Definition follow_type_map (target : string) : Z :=
  if String.eqb target "blog" then blog else if String.eqb target "ignore" then ignore else undefined.

(** follow_objects.hpp:55 *)
Record feed_object := Feed {
  feed_comment : Z;
  reblogged_by : list string;
  first_reblogged_by : string;
  first_reblogged_on : Z
}.
#[global] Instance feed_eta : Eta feed_object := λ r,
  Feed (feed_comment r) (reblogged_by r) (first_reblogged_by r) (first_reblogged_on r).
(** follow_objects.hpp:81 *)
Record blog_object := Blog { blog_comment : Z; reblogged_on : Z }.
(** follow_objects.hpp:148 *)
Record follow_count_object := FollowCount { follower_count : Z; following_count : Z }.
#[global] Instance follow_count_eta : Eta follow_count_object := λ r,
  FollowCount (follower_count r) (following_count r).

(** The indices, follow_objects.hpp:174-330: follower and following to [what]; account
    and feed id; account and blog id; blogger and guest to their count. *)
Record follow_db := FollowDb {
  follows : gmap (string * string) Z;
  follow_counts : gmap string follow_count_object;
  feeds : gmap (string * Z) feed_object;
  blogs : gmap (string * Z) blog_object;
  blog_author_stats : gmap (string * string) Z;
  reputations : gmap string Z
}.
#[global] Instance follow_db_eta : Eta follow_db := λ r,
  FollowDb (follows r) (follow_counts r) (feeds r) (blogs r) (blog_author_stats r) (reputations r).

(** follow_plugin.hpp:30 *)
Record follow_plugin_config := FollowConfig { max_feed_size : Z; start_feeds : Z }.

(** database.cpp:408 *)
Definition calculate_discussion_payout_time (c : comment_object) : Z := cashout_time c.

Section follow.
Context `{FC : FcLib} `{ENV : EvalEnv} `{FJ : FollowJson} (cfg : follow_plugin_config).

(** ** The follow operation *)

(** follow_evaluators.cpp:26-44 *)
Definition what_of (targets : gset string) : Z :=
  foldl (λ w target, let t := follow_type_map target in if t =? undefined then w else Z.lor w (bit t))
    0 (in_order targets).
Definition has (t what : Z) : bool := negb (Z.land what (bit t) =? 0).

(** follow_evaluators.cpp:84-90: an account without a count object gets one *)
Definition count_change (was_followed is_following : bool) (n : Z) : Z :=
  let n := if was_followed then wrap 32 (n - 1) else n in
  if is_following then wrap 32 (n + 1) else n.
Definition first_count (is_following : bool) : Z := if is_following then 1 else 0.
Definition update_count (account : string) (new : follow_count_object) (f : follow_count_object → follow_count_object)
    : M follow_db unit :=
  modify (λ s, s <| follow_counts ::= λ m,
    <[account := match m !! account with None => new | Some c => f c end]> m |>).
(** follow_evaluators.cpp:9 *)
Definition follow_evaluator (o : follow_operation) : M follow_db unit :=
  s ← gets id;
  let itr := follows s !! (fo_follower o, fo_following o) in
  let what := what_of (fo_what o) in
  let is_following := bool_decide ("blog"%string ∈ fo_what o) in
  when (has ignore what) (assert (negb (has blog what)));;
  let was_followed := match itr with Some w => has blog w | None => false end in
  modify (λ s, s <| follows ::= <[(fo_follower o, fo_following o) := what]> |>);;
  update_count (fo_follower o) (FollowCount 0 (first_count is_following))
    (λ c, c <| following_count ::= count_change was_followed is_following |>);;
  update_count (fo_following o) (FollowCount (first_count is_following) 0)
    (λ c, c <| follower_count ::= count_change was_followed is_following |>).

(** ** Feeds and blogs *)

Definition next_number {V} (account : string) (m : gmap (string * Z) V) : Z :=
  match last (entries_of account m) with Some (n, _) => wrap 32 (n + 1) | None => 0 end.
(** The entry of a comment in the feed or blog of an account, in index [by_comment]. *)
Definition entry_of {V} (comment_of : V → Z) (account : string) (c : Z) (m : gmap (string * Z) V) : option Z :=
  fst <$> List.find (λ e, comment_of e.2 =? c) (entries_of account m).
Definition create_feed (account : string) (n : Z) (f : feed_object) : M follow_db unit :=
  s ← gets id;
  match feeds s !! (account, n) with
  | Some _ => throw logic_error
  | None => modify (λ s, s <| feeds ::= <[(account, n) := f]> |>)
  end.
Definition create_blog (account : string) (n : Z) (b : blog_object) : M follow_db unit :=
  s ← gets id;
  match blogs s !! (account, n) with
  | Some _ => throw logic_error
  | None => modify (λ s, s <| blogs ::= <[(account, n) := b]> |>)
  end.

(** The loop that drops the oldest entries: follow_evaluators.cpp:207-214,
    follow_plugin.cpp:220-227 and 252-259.  The entry it looks at may be the next
    account's; behind the last entry of the index it is not valid. *)
Fixpoint trim {V} (proj : follow_db → gmap (string * Z) V) `{!Field proj} (fuel : nat) (account : string) (next_id : Z)
    : M follow_db unit :=
  match fuel with
  | O => throw out_of_fuel
  | S fuel =>
    s ← gets id;
    match head (entries_of account (proj s)) with
    | Some (old, _) =>
      if max_feed_size cfg <? wrap 32 (next_id - old) then
        modify (λ s, update proj (delete (account, old)) s);; trim proj fuel account next_id
      else mret tt
    | None =>
      if existsb (λ kv, String.ltb account kv.1.1) (map_to_list (proj s)) then mret tt
      else throw undefined_behaviour
    end
  end.
Definition trim_feeds (account : string) (next_id : Z) : M follow_db unit :=
  s ← gets id; trim feeds (S (size (feeds s))) account next_id.
Definition trim_blogs (account : string) (next_id : Z) : M follow_db unit :=
  s ← gets id; trim blogs (S (size (blogs s))) account next_id.

(** The followers of an account in index [by_following_follower]. *)
Definition followers_of (account : string) (s : follow_db) : list string :=
  in_order (list_to_set (omap (λ kv, if String.eqb kv.1.2 account then Some kv.1.1 else None) (map_to_list (follows s)))).
Definition follow_what (follower following : string) (s : follow_db) : Z := default 0 (follows s !! (follower, following)).

(** follow_evaluators.cpp:173-215: one follower of the account that reblogs *)
Definition reblog_feed (account : string) (c now : Z) (follower : string) : M follow_db unit :=
  s ← gets id;
  when (has blog (follow_what follower account s))
    (let next_id := next_number follower (feeds s) in
     (match entry_of feed_comment follower c (feeds s) with
      | None => create_feed follower next_id (Feed c [account] account now)
      | Some n => modify (λ s, s <| feeds ::= alter (λ f, f <| reblogged_by ::= λ l, l ++ [account] |>) (follower, n) |>)
      end);;
     trim_feeds follower next_id).
(** follow_evaluators.cpp:119 *)
Definition reblog_evaluator (o : reblog_operation) : M (with_plugin follow_db) unit :=
  c ← on_base (get_comment (ro_author o) (ro_permlink o));
  assert (name_size (parent_author c.2) =? 0);;
  now ← on_base head_block_time;
  s ← gets own;
  let next_blog_id := next_number (ro_account o) (blogs s) in
  assert (bool_decide (entry_of blog_comment (ro_account o) c.1 (blogs s) = None));;
  on_own (create_blog (ro_account o) next_blog_id (Blog c.1 now));;
  on_own (modify (λ s, s <| blog_author_stats ::= λ m,
    <[(ro_account o, author c.2) := match m !! (ro_account o, author c.2) with Some n => wrap 32 (n + 1) | None => 1 end]> m |>));;
  when (start_feeds cfg <=? now)
    (on_own (for_each (followers_of (ro_account o) s) (reblog_feed (ro_account o) c.1 now))).

Definition apply_follow_op (op : follow_plugin_operation) : M (with_plugin follow_db) unit :=
  match op with follow_op o => on_own (follow_evaluator o) | reblog_op o => reblog_evaluator o end.

(** ** The hooks *)

(** follow_plugin.cpp:101 *)
Definition catch_fc (m : M (with_plugin follow_db) unit) : M (with_plugin follow_db) unit := λ s,
  match m s with
  | Ok r => Ok r
  | Err e => if is_fc_exception e then Ok (tt, s) else Err e
  end.
(** follow_plugin.cpp:75: a vote that is about to change no longer counts *)
Definition pre_vote (o : vote_operation) : M (with_plugin follow_db) unit := catch_fc (
  c ← on_base (get_comment (vo_author o) (vo_permlink o));
  if calculate_discussion_payout_time c.2 =? tps_max then mret tt
  else
    v ← on_base (get_account (vo_voter o));
    t ← on_base (gets comment_votes);
    match find_row (λ cv, (cv_comment cv =? c.1) && (cv_voter cv =? v.1)) t with
    | None => mret tt
    | Some (_, cv) =>
      s ← gets own;
      match reputations s !! vo_author o with
      | None => mret tt
      | Some r =>
        r ← lift (safe_sub r (Z.shiftr (cv_rshares cv) 6));
        on_own (modify (λ s, s <| reputations ::= <[vo_author o := r]> |>))
      end
    end).
(** follow_plugin.cpp:104 *)
Definition pre_delete_comment (o : delete_comment_operation) : M (with_plugin follow_db) unit :=
  c ← on_base (find_comment (dc_author o) (dc_permlink o));
  match c with
  | None => mret tt
  | Some (c, comment) =>
    if negb (name_size (parent_author comment) =? 0) then mret tt
    else
      on_own (modify (λ s, s <| feeds ::= filter (λ kv, feed_comment kv.2 ≠ c) |>));;
      on_own (modify (λ s, s <| blogs ::= filter (λ kv, blog_comment kv.2 ≠ c) |>))
  end.
Definition pre_operation_visitor (op : operation) : M (with_plugin follow_db) unit :=
  match op with vote_op o => pre_vote o | delete_comment_op o => pre_delete_comment o | _ => mret tt end.

(** follow_plugin.cpp:199-232: one follower of the author *)
Definition comment_feed (author : string) (c : Z) (follower : string) : M follow_db unit :=
  s ← gets id;
  when (has blog (follow_what follower author s))
    (let next_id := next_number follower (feeds s) in
     match entry_of feed_comment follower c (feeds s) with
     | Some _ => mret tt
     | None => create_feed follower next_id (Feed c [] "" 0);; trim_feeds follower next_id
     end).
(** follow_plugin.cpp:181 *)
Definition post_comment (o : comment_operation) : M (with_plugin follow_db) unit :=
  if negb (name_size (co_parent_author o) =? 0) then mret tt
  else
    c ← on_base (get_comment (co_author o) (co_permlink o));
    now ← on_base head_block_time;
    if negb (comment_created c.2 =? now) then mret tt
    else
      s ← gets own;
      when (start_feeds cfg <=? now) (on_own (for_each (followers_of (co_author o) s) (comment_feed (co_author o) c.1)));;
      s ← gets own;
      let next_id := next_number (co_author o) (blogs s) in
      match entry_of blog_comment (co_author o) c.1 (blogs s) with
      | Some _ => mret tt
      | None => on_own (create_blog (co_author o) next_id (Blog c.1 0);; trim_blogs (co_author o) next_id)
      end.
(** follow_plugin.cpp:284-303 *)
Definition vote_counts (rshares : Z) (voter_rep author_rep : option Z) : bool :=
  negb (match voter_rep with Some r => r <? 0 | None => false end) &&
  negb ((rshares <? 0) && negb (match voter_rep with Some r => default 0 author_rep <? r | None => false end)).
(** follow_plugin.cpp:267 *)
Definition post_vote (o : vote_operation) : M (with_plugin follow_db) unit :=
  c ← on_base (get_comment (vo_author o) (vo_permlink o));
  if calculate_discussion_payout_time c.2 =? tps_max then mret tt
  else
    v ← on_base (get_account (vo_voter o));
    t ← on_base (gets comment_votes);
    s ← gets own;
    let voter_rep := reputations s !! vo_voter o in
    let author_rep := reputations s !! vo_author o in
    if match voter_rep with Some r => r <? 0 | None => false end then mret tt
    else
      cv ← lift (of_option undefined_behaviour (find_row (λ cv, (cv_comment cv =? c.1) && (cv_voter cv =? v.1)) t));
      when (vote_counts (cv_rshares cv.2) voter_rep author_rep)
        (r ← lift (match author_rep with
                   | None => mret (Z.shiftr (cv_rshares cv.2) 6)
                   | Some r => safe_add r (Z.shiftr (cv_rshares cv.2) 6)
                   end);
         on_own (modify (λ s, s <| reputations ::= <[vo_author o := r]> |>))).
Definition FOLLOW_PLUGIN_NAME : string := "follow".
Definition follow_interpreter : operation → M (with_plugin follow_db) unit :=
  interpret follow_validate follow_required apply_follow_op follow_ops_from_json follow_ops_from_binary.
(** follow_plugin.cpp:150: a follow operation in the old format is translated *)
Definition post_custom_json (o : custom_json_operation) : M (with_plugin follow_db) unit :=
  if String.eqb (cj_id o) FOLLOW_PLUGIN_NAME then
    match follow_from_json (cj_json o) with
    | Err e => if is_fc_exception e then mret tt else throw e
    | Ok fop =>
      follow_interpreter (custom_json_op (CustomJson (cj_required_auths o) (cj_required_posting_auths o)
        FOLLOW_PLUGIN_NAME (follow_op_to_json (follow_op fop))))
    end
  else mret tt.
Definition post_operation_visitor (op : operation) : M (with_plugin follow_db) unit :=
  match op with
  | custom_json_op o => post_custom_json o
  | comment_op o => post_comment o
  | vote_op o => post_vote o
  | _ => mret tt
  end.

(** follow_plugin.cpp:315-338 *)
Definition unless_producing (m : M (with_plugin follow_db) unit) : M (with_plugin follow_db) unit := λ s,
  match m s with
  | Err assert_exception => if is_producing then Err assert_exception else Ok (tt, s)
  | r => r
  end.
(** follow_plugin.cpp:356 *)
Definition follow_plugin : Plugin follow_db := {|
  pre_apply_operation note := unless_producing (pre_operation_visitor (note_op note));
  post_apply_operation note := unless_producing (post_operation_visitor (note_op note));
  get_interpreter id := if String.eqb id FOLLOW_PLUGIN_NAME then Some follow_interpreter else None
|}.
End follow.
