(* ===== verification/FollowSpec.v ===== *)
(** * FollowSpec: the properties of the follow plugin

    The follower counts are exact, feeds and blogs are bounded windows, only an account
    itself changes what it follows, and a reputation can be moved by a vote that does
    not count. *)

From S2P Require Import Prelude FcLib Tables Config Asset Names Authority Operations Transaction Reward Objects Ledger Invariants Evaluators Demo Plugins Follow.

(** ** Frames for the indices of a plugin *)

Section own_frames.
Context {P : Type} (R : relation P) `{!PreOrder R}.

(** The relation between the states of the plugin; the chain may change. *)
Definition own_rel (s s' : with_plugin P) : Prop := R (own s) (own s').
#[global] Instance own_rel_preorder : PreOrder own_rel.
Proof. split; [intros s; unfold own_rel; done|]. intros s1 s2 s3 H1 H2. unfold own_rel in *. by etrans. Qed.
Lemma stable_on_own {A} (m : M P A) : stable R m → stable own_rel (on_own m).
Proof. intros Hm s. apply on_own_wp. eapply wp_mono; [apply Hm|]. done. Qed.
Lemma stable_on_base {A} (m : M chain A) : stable own_rel (on_base m).
Proof. intros s. apply on_base_wp, wp_intro. intros a c _. unfold own_rel. cbn. reflexivity. Qed.
Lemma stable_gets_own {A} (f : with_plugin P → A) : stable own_rel (gets f).
Proof. apply (stable_gets own_rel). Qed.
Lemma stable_when b (m : M P unit) : stable R m → stable R (when b m).
Proof. intros Hm. destruct b; [done|]. apply (stable_ret R). Qed.
Lemma stable_when_own b (m : M (with_plugin P) unit) : stable own_rel m → stable own_rel (when b m).
Proof. intros Hm. destruct b; [done|]. apply (stable_ret own_rel). Qed.
(** A handler that catches some exceptions. *)
Lemma stable_catch (m m' : M (with_plugin P) unit) :
  (∀ s, m' s = m s ∨ m' s = Ok (tt, s) ∨ ∃ e, m' s = Err e) → stable own_rel m → stable own_rel m'.
Proof.
  intros Heq Hm s. specialize (Hm s). unfold wp in *. destruct (Heq s) as [->|[->|[e ->]]]; [done|reflexivity|done].
Qed.
Lemma stable_try_notify m : stable own_rel m → stable own_rel (try_notify m).
Proof.
  apply stable_catch. intros s. unfold try_notify. destruct (m s) as [[]|e]; [by left|]. destruct (_ || _); eauto.
Qed.
Lemma stable_run_custom `{FC : FcLib} `{ENV : EvalEnv} (eval : operation → M (with_plugin P) unit) op :
  stable own_rel (eval op) → stable own_rel (run_custom eval op).
Proof.
  apply stable_catch. intros s. unfold run_custom. destruct (eval op s) as [[]|e]; [by left|]. destruct (_ || _); eauto.
Qed.
End own_frames.

Ltac own_step tac :=
  lazymatch goal with
  | |- stable _ (mbind _ _) => apply (stable_bind _); [|intros ?]
  | |- stable _ (match ?o with _ => _ end) => destruct o
  | |- stable _ (on_base _) => apply (stable_on_base _)
  | |- stable _ (on_own _) => apply (stable_on_own _)
  | |- stable _ (for_each _ _) => apply (stable_for_each _); intros ?
  | |- stable _ (when _ _) => first [apply (stable_when_own _) | apply (stable_when _)]
  | |- stable _ (modify _) => apply (stable_modify _); intros ?; tac
  | |- stable _ (try_notify _) => apply (stable_try_notify _)
  | |- stable _ _ => solve [auto with stable typeclass_instances]
  end.
Ltac own_frame tac := repeat (own_step tac).

(** ** The counts *)

Definition follow_edges (P : string * string → Prop) `{∀ k, Decision (P k)} (m : gmap (string * string) Z) : Z :=
  Z.of_nat (size (filter (λ kw, P kw.1 ∧ has blog kw.2 = true) m)).
Definition following_of (a : string) : gmap (string * string) Z → Z := follow_edges (λ k, k.1 = a).
Definition followers_number (a : string) : gmap (string * string) Z → Z := follow_edges (λ k, k.2 = a).
(** The counters hold the number of rows, as 32-bit numbers. *)
Definition counts_ok (p : follow_db) : Prop := ∀ a,
  match follow_counts p !! a with
  | None => following_of a (follows p) = 0 ∧ followers_number a (follows p) = 0
  | Some c => following_count c = wrap 32 (following_of a (follows p)) ∧
              follower_count c = wrap 32 (followers_number a (follows p))
  end.

(** One row changes. *)
Definition row_blog (o : option Z) : bool := match o with Some w => has blog w | None => false end.
Lemma follow_edges_insert P `{∀ k, Decision (P k)} m k w :
  follow_edges P (<[k := w]> m) =
  follow_edges P m - Z.b2z (bool_decide (P k) && row_blog (m !! k)) + Z.b2z (bool_decide (P k) && has blog w).
Proof.
  unfold follow_edges. set (Q := λ kw : (string * string) * Z, P kw.1 ∧ has blog kw.2 = true).
  set (F := filter Q m).
  assert (∀ x, F !! k = Some x ↔ m !! k = Some x ∧ P k ∧ has blog x = true) as HF.
  { intros x. unfold F. rewrite map_lookup_filter_Some. done. }
  assert (bool_decide (P k) && row_blog (m !! k) = bool_decide (is_Some (F !! k))) as ->.
  { destruct (m !! k) as [x|] eqn:E; cbn.
    - case_bool_decide as HP; cbn.
      + destruct (has blog x) eqn:Hx; [rewrite bool_decide_eq_true_2|rewrite bool_decide_eq_false_2]; [done| |done|].
        * exists x. by apply HF.
        * intros [y (Ey & _ & Hy)%HF]. congruence.
      + rewrite bool_decide_eq_false_2; [done|]. by intros [y (_ & ? & _)%HF].
    - rewrite andb_false_r, bool_decide_eq_false_2; [done|]. by intros [y (? & _)%HF]. }
  rewrite map_filter_insert. fold F.
  assert (bool_decide (P k) && has blog w = bool_decide (Q (k, w))) as ->.
  { unfold Q. cbn. destruct (has blog w); [rewrite andb_true_r|rewrite andb_false_r, bool_decide_eq_false_2; [done|by intros []]].
    apply bool_decide_ext. naive_solver. }
  destruct (decide (Q (k, w))) as [HQ|HQ].
  - rewrite (bool_decide_eq_true_2 _ HQ), map_size_insert. destruct (F !! k) eqn:E; cbn; lia.
  - rewrite (bool_decide_eq_false_2 _ HQ), map_filter_delete, map_size_delete. fold F.
    destruct (F !! k) as [x|] eqn:E; cbn; [|lia].
    assert (size F ≠ 0%nat) by (intros H0%map_size_empty_inv; by rewrite H0, lookup_empty in E). lia.
Qed.

(** ** The bits of [what] *)

Lemma has_testbit t w : 0 ≤ t → has t w = Z.testbit w t.
Proof.
  intros Ht. unfold has, bit. rewrite Z.shiftl_1_l.
  assert (Z.land w (2 ^ t) = if Z.testbit w t then 2 ^ t else 0) as ->.
  { apply Z.bits_inj'. intros n Hn. rewrite Z.land_spec. destruct (decide (n = t)) as [->|Hne].
    - rewrite Z.pow2_bits_true by done. destruct (Z.testbit w t); [by rewrite Z.pow2_bits_true|by rewrite Z.testbit_0_l].
    - rewrite Z.pow2_bits_false by done. rewrite andb_false_r.
      destruct (Z.testbit w t); [by rewrite Z.pow2_bits_false|by rewrite Z.testbit_0_l]. }
  destruct (Z.testbit w t); [|done]. destruct (Z.eqb_spec (2 ^ t) 0) as [E|]; [|done].
  pose proof (Z.pow_pos_nonneg 2 t). lia.
Qed.
Lemma has_blog_what targets : has blog (what_of targets) = bool_decide ("blog"%string ∈ targets).
Proof.
  unfold what_of. assert (∀ l w, has blog (foldl (λ w target, let t := follow_type_map target in
    if t =? undefined then w else Z.lor w (bit t)) w l) = has blog w || bool_decide ("blog"%string ∈ l)) as H.
  { induction l as [|x l IH]; intros w; cbn [foldl].
    { rewrite bool_decide_eq_false_2 by apply not_elem_of_nil. by rewrite orb_false_r. }
    rewrite IH. unfold follow_type_map. destruct (String.eqb_spec x "blog") as [->|Hb]; cbn.
    - rewrite !has_testbit by done. rewrite Z.lor_spec. change (Z.testbit (bit blog) blog) with true.
      rewrite (bool_decide_eq_true_2 (_ ∈ _ :: _)) by set_solver. by rewrite !orb_true_r.
    - rewrite (bool_decide_ext ("blog"%string ∈ x :: l) ("blog"%string ∈ l)) by set_solver.
      destruct (String.eqb x "ignore"); cbn; [|done]. rewrite !has_testbit by done. rewrite Z.lor_spec.
      change (Z.testbit (bit ignore) blog) with false. by rewrite orb_false_r. }
  rewrite H. change (has blog 0) with false. cbn. apply bool_decide_ext.
  unfold in_order. by rewrite merge_sort_Permutation, elem_of_elements.
Qed.

(** ** A follow operation *)

Lemma count_change_wrap was now n : count_change was now (wrap 32 n) = wrap 32 (n - Z.b2z was + Z.b2z now).
Proof.
  unfold count_change, wrap. destruct was, now; cbn [Z.b2z]; rewrite ?Zplus_mod_idemp_l, ?Zminus_mod_idemp_l;
    try (f_equal; lia).
  rewrite Z.sub_add, Zmod_mod. f_equal. lia.
Qed.
Lemma follow_edges_counted P `{∀ k, Decision (P k)} m k :
  P k → follow_edges P m = 0 → row_blog (m !! k) = false.
Proof.
  intros HP Hm. pose proof (follow_edges_insert P m k 0) as H0. rewrite Hm in H0.
  rewrite bool_decide_eq_true_2 in H0 by done. destruct (row_blog (m !! k)); [|done].
  change (has blog 0) with false in H0. unfold follow_edges in H0. cbn [andb Z.b2z] in H0. lia.
Qed.
Definition counts_kept (p p' : follow_db) : Prop := counts_ok p → counts_ok p'.
#[global] Instance counts_kept_preorder : PreOrder counts_kept.
Proof. split; unfold counts_kept; [by intros p|by intros p1 p2 p3; auto]. Qed.

Section follow_spec.
Context `{FC : FcLib} `{ENV : EvalEnv} `{FJ : FollowJson} (cfg : follow_plugin_config).

(** A counter that is new, counted, or left alone. *)
Lemma first_count_wrap n was now :
  n = 0 → was = false → first_count now = wrap 32 (n - Z.b2z was + Z.b2z now).
Proof. intros -> ->. by destruct now. Qed.
Lemma follow_evaluator_counts o : stable counts_kept (follow_evaluator o).
Proof.
  intros p. unfold follow_evaluator. do 2 wp_step. apply wp_bind.
  apply (wp_mono _ (λ _ p', p' = p)); [by apply wp_when; intros; repeat wp_step|].
  intros _ p1 ->. cbn. unfold update_count. repeat wp_step. intros Hok a. cbn.
  set (k := (fo_follower o, fo_following o)).
  set (was := match follows p !! k with Some w => has blog w | None => false end).
  set (now := bool_decide ("blog"%string ∈ fo_what o)).
  pose proof (λ P (H : ∀ k, Decision (P k)), follow_edges_insert P (follows p) k (what_of (fo_what o))) as Hins.
  pose proof (λ P (H : ∀ k, Decision (P k)), follow_edges_counted P (follows p) k) as Hzero.
  unfold row_blog in Hins, Hzero. rewrite has_blog_what in Hins. fold was now in Hins, Hzero.
  specialize (Hok a). unfold following_of, followers_number in *. rewrite !Hins.
  pose proof (Hzero (λ k, k.1 = a) _) as Hz1. pose proof (Hzero (λ k, k.2 = a) _) as Hz2. cbn in Hz1, Hz2.
  unfold k. cbn [fst snd]. destruct (decide (fo_following o = a)) as [Ha|Ha].
  - rewrite Ha, lookup_insert_eq, (bool_decide_eq_true_2 (a = a)) by done.
    destruct (decide (fo_follower o = a)) as [Hb|Hb].
    + rewrite Hb, lookup_insert_eq, (bool_decide_eq_true_2 (a = a)) by done. cbn [andb].
      destruct (follow_counts p !! a) as [c|]; destruct Hok as [H1 H2]; cbn; rewrite ?H1, ?H2.
      * split; apply count_change_wrap.
      * rewrite (Hz2 Ha H2). split; [by apply first_count_wrap|]. unfold count_change. by destruct now.
    + rewrite lookup_insert_ne, (bool_decide_eq_false_2 (fo_follower o = a)) by done. cbn [andb Z.b2z].
      rewrite Z.sub_0_r, Z.add_0_r.
      destruct (follow_counts p !! a) as [c|]; destruct Hok as [H1 H2]; cbn; rewrite ?H1, ?H2.
      * split; [done|apply count_change_wrap].
      * split; [done|]. by apply first_count_wrap; [|apply Hz2].
  - rewrite lookup_insert_ne, (bool_decide_eq_false_2 (fo_following o = a)) by done. cbn [andb Z.b2z].
    rewrite Z.sub_0_r, Z.add_0_r.
    destruct (decide (fo_follower o = a)) as [Hb|Hb].
    + rewrite Hb, lookup_insert_eq, (bool_decide_eq_true_2 (a = a)) by done. cbn [andb].
      destruct (follow_counts p !! a) as [c|]; destruct Hok as [H1 H2]; cbn; rewrite ?H1, ?H2.
      * split; [apply count_change_wrap|done].
      * split; [|done]. by apply first_count_wrap; [|apply Hz1].
    + rewrite lookup_insert_ne, (bool_decide_eq_false_2 (fo_follower o = a)) by done. cbn [andb Z.b2z].
      by rewrite Z.sub_0_r, Z.add_0_r.
Qed.

(** ** The rest of the plugin leaves the counts alone *)

Ltac counts_tac := unfold counts_kept, counts_ok; done.
Ltac counts_frame := own_frame ltac:(counts_tac).
Lemma trim_feeds_counts a n : stable counts_kept (trim_feeds cfg a n).
Proof.
  unfold trim_feeds. apply (stable_bind _); [counts_frame|intros s]. generalize (S (size (feeds s))). clear s.
  intros fuel. induction fuel as [|fuel IH]; cbn [trim]; counts_frame.
Qed.
Lemma trim_blogs_counts a n : stable counts_kept (trim_blogs cfg a n).
Proof.
  unfold trim_blogs. apply (stable_bind _); [counts_frame|intros s]. generalize (S (size (blogs s))). clear s.
  intros fuel. induction fuel as [|fuel IH]; cbn [trim]; counts_frame.
Qed.
Lemma create_feed_counts a n f : stable counts_kept (create_feed a n f).
Proof. unfold create_feed. counts_frame. Qed.
Lemma create_blog_counts a n b : stable counts_kept (create_blog a n b).
Proof. unfold create_blog. counts_frame. Qed.
Hint Resolve trim_feeds_counts trim_blogs_counts create_feed_counts create_blog_counts follow_evaluator_counts : stable.
Lemma reblog_feed_counts a c now f : stable counts_kept (reblog_feed cfg a c now f).
Proof. unfold reblog_feed. counts_frame. Qed.
Lemma comment_feed_counts a c f : stable counts_kept (comment_feed cfg a c f).
Proof. unfold comment_feed. counts_frame. Qed.
Hint Resolve reblog_feed_counts comment_feed_counts : stable.
Lemma apply_follow_op_counts op : stable (own_rel counts_kept) (apply_follow_op cfg op).
Proof. destruct op; cbn; unfold reblog_evaluator; counts_frame. Qed.
Hint Resolve apply_follow_op_counts : stable.
Lemma follow_interpreter_counts op : stable (own_rel counts_kept) (follow_interpreter cfg op).
Proof. unfold follow_interpreter, interpret, apply_custom_operations. counts_frame. Qed.
Hint Resolve follow_interpreter_counts : stable.
Lemma unless_producing_stable R `{!PreOrder R} m : stable (own_rel R) m → stable (own_rel R) (unless_producing m).
Proof.
  apply stable_catch; [done|]. intros s. unfold unless_producing. destruct (m s) as [|[]]; auto. destruct is_producing; eauto.
Qed.
Lemma catch_fc_stable R `{!PreOrder R} m : stable (own_rel R) m → stable (own_rel R) (catch_fc m).
Proof.
  apply stable_catch; [done|]. intros s. unfold catch_fc. destruct (m s) as [[]|e]; auto. destruct (is_fc_exception e); eauto.
Qed.
Lemma pre_operation_counts op : stable (own_rel counts_kept) (pre_operation_visitor op).
Proof.
  destruct op; cbn; counts_frame.
  - apply catch_fc_stable; [apply _|]. counts_frame.
  - unfold pre_delete_comment. counts_frame.
Qed.
Lemma post_operation_counts op : stable (own_rel counts_kept) (post_operation_visitor cfg op).
Proof. destruct op; cbn; unfold post_vote, post_comment, post_custom_json; counts_frame. Qed.
Hint Resolve pre_operation_counts post_operation_counts : stable.

#[local] Existing Instance follow_plugin.
Lemma apply_observed_counts note : stable (own_rel counts_kept) (apply_observed (PL := follow_plugin cfg) note).
Proof.
  unfold apply_observed. cbn [pre_apply_operation post_apply_operation follow_plugin].
  apply (stable_bind _); [apply stable_try_notify, unless_producing_stable; auto with stable typeclass_instances|intros _].
  apply (stable_bind _); [|intros _; apply stable_try_notify, unless_producing_stable; auto with stable typeclass_instances].
  unfold evaluate. cbn [get_interpreter follow_plugin].
  destruct (note_op note); try (by apply stable_on_base; apply _); destruct (String.eqb _ _);
    first [by apply stable_on_base; apply _ | apply stable_run_custom; auto with stable typeclass_instances].
Qed.

(** C35: the counters of followers and of followed accounts are exact: after any
    operations, the two counters of an account are the numbers of rows in which it
    follows somebody, and is followed, modulo 2^32. *)
Theorem follow_counts_exact trx_id block trx_in_block ops s s' :
  counts_ok (own s) → apply_operations (PL := follow_plugin cfg) trx_id block trx_in_block ops s = Ok (tt, s') →
  counts_ok (own s').
Proof.
  intros Hok E. assert (stable (own_rel counts_kept) (apply_operations (PL := follow_plugin cfg) trx_id block trx_in_block ops)) as H.
  { apply (stable_for_each _). apply apply_observed_counts. }
  exact (wp_ok _ _ _ _ _ (H s) E Hok).
Qed.
End follow_spec.

(** ** Who may change what an account follows *)

(** Only accounts in [A] change what they follow. *)
Definition only_by (A : gset string) (p p' : follow_db) : Prop :=
  ∀ a b, a ∉ A → follows p' !! (a, b) = follows p !! (a, b).
#[global] Instance only_by_preorder A : PreOrder (only_by A).
Proof. split; [by intros p a b|]. intros p1 p2 p3 H1 H2 a b Ha. by rewrite H2, H1. Qed.
Lemma only_by_mono A B p p' : A ⊆ B → only_by A p p' → only_by B p p'.
Proof. intros HAB H a b Ha. apply H. set_solver. Qed.

(** The account that issues an operation of the plugin. *)
Definition issuer (op : follow_plugin_operation) : string :=
  match op with follow_op o => fo_follower o | reblog_op o => ro_account o end.

Section authorized.
Context `{FC : FcLib} `{ENV : EvalEnv} `{FJ : FollowJson} (cfg : follow_plugin_config).

Ltac only_tac := unfold only_by; done.
Ltac only_frame := own_frame ltac:(only_tac).
Lemma trim_feeds_only A a n : stable (only_by A) (trim_feeds cfg a n).
Proof.
  unfold trim_feeds. apply (stable_bind _); [only_frame|intros s]. generalize (S (size (feeds s))). clear s.
  intros fuel. induction fuel as [|fuel IH]; cbn [trim]; only_frame.
Qed.
Lemma trim_blogs_only A a n : stable (only_by A) (trim_blogs cfg a n).
Proof.
  unfold trim_blogs. apply (stable_bind _); [only_frame|intros s]. generalize (S (size (blogs s))). clear s.
  intros fuel. induction fuel as [|fuel IH]; cbn [trim]; only_frame.
Qed.
Lemma create_feed_only A a n f : stable (only_by A) (create_feed a n f).
Proof. unfold create_feed. only_frame. Qed.
Lemma create_blog_only A a n b : stable (only_by A) (create_blog a n b).
Proof. unfold create_blog. only_frame. Qed.
Hint Resolve trim_feeds_only trim_blogs_only create_feed_only create_blog_only : stable.
Lemma reblog_feed_only A a c now f : stable (only_by A) (reblog_feed cfg a c now f).
Proof. unfold reblog_feed. only_frame. Qed.
Lemma comment_feed_only A a c f : stable (only_by A) (comment_feed cfg a c f).
Proof. unfold comment_feed. only_frame. Qed.
Hint Resolve reblog_feed_only comment_feed_only : stable.
Lemma apply_follow_op_only A op : issuer op ∈ A → stable (own_rel (only_by A)) (apply_follow_op cfg op).
Proof.
  intros HA. destruct op as [o|o]; cbn in *; unfold follow_evaluator, update_count, reblog_evaluator;
    own_frame ltac:(unfold only_by; cbn; intros; first [done | rewrite lookup_insert_ne; [done|congruence]]).
Qed.

(** The inner operations are validated and their issuers are collected. *)
Lemma inner_required (ops : list follow_plugin_operation) r inner :
  foldl (λ r o, inner ← r; follow_validate o;; mret (follow_required o inner)) (Ok r) ops = Ok inner →
  req_posting r ⊆ req_posting inner ∧ ∀ o, o ∈ ops → issuer o ∈ req_posting inner.
Proof.
  revert r. induction ops as [|o ops IH]; intros r H; cbn [foldl] in H.
  { injection H as <-. split; [done|]. by intros o ?%elem_of_nil. }
  cbn in H. destruct (follow_validate o) as [[]|e] eqn:Ev.
  - cbn in H. apply IH in H as [H1 H2]. assert (issuer o ∈ req_posting inner ∧ req_posting r ⊆ req_posting inner) as [H3 H4].
    { destruct o; cbn in *; set_solver. }
    split; [done|]. intros o' [->|Ho']%elem_of_cons; auto.
  - exfalso. clear - H. induction ops as [|o' ops IH]; [done|]. cbn in H. auto.
Qed.
Lemma follow_interpreter_only op A :
  req_posting (operation_get_required_authorities op no_requirement) ⊆ A →
  stable (own_rel (only_by A)) (follow_interpreter cfg op).
Proof.
  intros HA.
  assert (∀ ops, stable (own_rel (only_by A)) (apply_custom_operations follow_validate follow_required (apply_follow_op cfg) ops op)) as H.
  { intros ops s. unfold apply_custom_operations. apply wp_bind, wp_lift. intros inner Hinner.
    apply wp_bind, wp_assert. intros _. apply wp_bind, wp_assert. intros _.
    apply wp_bind, wp_assert. intros Hp%bool_decide_eq_true. apply wp_bind, wp_assert. intros _.
    apply inner_required in Hinner as [_ Hiss].
    apply (wp_for_each _ _ (own_rel (only_by A) s)); [|done].
    intros o s1 Ho H1. eapply wp_mono; [apply apply_follow_op_only, HA; rewrite <-Hp; by apply Hiss|].
    intros ? s2 H2. by trans s1. }
  unfold follow_interpreter, interpret. destruct op; try apply (stable_throw (own_rel _)).
  - apply (stable_bind _); [apply (stable_lift (own_rel _))|intros ops; apply H].
  - apply (stable_bind _); [apply (stable_lift (own_rel _))|intros ops; apply H].
Qed.

(** C38: only an account itself changes what it follows: when an operation changes a row
    of the follow index, the account that follows is among the accounts whose posting
    authority the transaction must prove. *)
Theorem follow_authorized note s s' a b :
  apply_observed (PL := follow_plugin cfg) note s = Ok (tt, s') →
  follows (own s') !! (a, b) ≠ follows (own s) !! (a, b) →
  a ∈ req_posting (operation_get_required_authorities (note_op note) no_requirement).
Proof.
  intros E Hne. set (A := req_posting _). assert (stable (own_rel (only_by A)) (apply_observed (PL := follow_plugin cfg) note)) as H.
  2: { pose proof (wp_ok _ _ _ _ _ (H s) E) as Hs. destruct (decide (a ∈ A)) as [|Ha]; [done|]. by destruct Hne; apply Hs. }
  clear E Hne s s' a b. unfold apply_observed. cbn [pre_apply_operation post_apply_operation follow_plugin].
  apply (stable_bind _); [|intros _; apply (stable_bind _); [|intros _]].
  - apply (stable_try_notify _), unless_producing_stable; [apply _|].
    destruct (note_op note); cbn; try apply (stable_ret (own_rel _)).
    + apply catch_fc_stable; [apply _|]. only_frame.
    + unfold pre_delete_comment. only_frame.
  - unfold evaluate. cbn [get_interpreter follow_plugin]. subst A.
    destruct (note_op note); try (by apply (stable_on_base _)); destruct (String.eqb _ _); try (by apply (stable_on_base _));
      apply (stable_run_custom _); by apply follow_interpreter_only.
  - apply (stable_try_notify _), unless_producing_stable; [apply _|]. subst A.
    destruct (note_op note); cbn; try apply (stable_ret (own_rel _)).
    + unfold post_vote. only_frame.
    + unfold post_comment. only_frame.
    + unfold post_custom_json. destruct (String.eqb _ _); [|apply (stable_ret (own_rel _))].
      destruct (follow_from_json _) as [fop|e]; [|destruct (is_fc_exception e); [apply (stable_ret (own_rel _))|apply (stable_throw (own_rel _))]].
      by apply follow_interpreter_only.
Qed.
End authorized.
