(* ===== verification/FeedSpec.v ===== *)
(** * FeedSpec: feeds stay bounded

    The feed of an account is a window of consecutive numbers: an entry is added at the
    end and the entries that fall out of [max_feed_size] are dropped, so a feed never
    holds more than [max_feed_size + 1] entries. *)

From S2P Require Import Prelude FcLib Tables Config Asset Names Authority Operations Transaction Reward Objects Ledger Invariants Evaluators Demo Plugins Follow FollowSpec.

(** ** Windows of numbered rows *)

Section windows.
Context {V : Type}.
Implicit Types (m : gmap (string * Z) V).

(** The numbers of account [a] are at most [B], and no two are further apart than [max]. *)
Definition window (max B : Z) (a : string) m : Prop :=
  ∀ i j, is_Some (m !! (a, i)) → is_Some (m !! (a, j)) → 0 ≤ i ≤ B ∧ j - i ≤ max.

Lemma entries_of_none a m : (∀ i, m !! (a, i) = None) ↔ entries_of a m = [].
Proof.
  split.
  - intros H. destruct (entries_of a m) as [|[i v] l] eqn:E; [done|].
    assert ((i, v) ∈ entries_of a m) as Hin%elem_of_entries by (rewrite E; left). by rewrite H in Hin.
  - intros H i. destruct (m !! (a, i)) as [v|] eqn:E; [|done].
    apply elem_of_entries in E. rewrite H in E. by apply elem_of_nil in E.
Qed.
(** The next number is behind all numbers in use. *)
Lemma next_number_spec max B a m :
  window max B a m → B < 2 ^ 32 - 1 → -1 ≤ B →
  0 ≤ next_number a m ≤ B + 1 ∧ ∀ i, is_Some (m !! (a, i)) → 0 ≤ i < next_number a m.
Proof.
  intros Hw HB HB'. unfold next_number. destruct (last (entries_of a m)) as [[n v]|] eqn:E.
  - apply last_greatest in E as [Hin Hmax]; [|apply entries_sorted]. apply elem_of_entries in Hin.
    destruct (Hw n n) as [Hn _]; [by eexists..|]. rewrite wrap_small by lia. split; [lia|].
    intros i [w Hi]. pose proof Hi as Hi'%elem_of_entries. apply Hmax in Hi'. cbn in Hi'.
    destruct (Hw i i) as [? _]; [by eexists..|]. lia.
  - apply last_None in E. split; [lia|]. intros i Hi. rewrite (proj2 (entries_of_none a m) E) in Hi. by destruct Hi.
Qed.

Lemma NoDup_range (l : list Z) lo max : 0 ≤ max → NoDup l → (∀ i, i ∈ l → lo ≤ i ≤ lo + max) → Z.of_nat (length l) ≤ max + 1.
Proof.
  intros Hmax Hnd Hl. assert (l ⊆+ seqZ lo (max + 1)) as H%submseteq_length.
  { apply NoDup_submseteq; [done|]. intros i Hi%Hl. apply elem_of_seqZ. lia. }
  rewrite length_seqZ in H. lia.
Qed.
Lemma entries_NoDup a m : NoDup (entries_of a m).*1.
Proof.
  unfold entries_of. rewrite merge_sort_Permutation. pose proof (NoDup_fst_map_to_list m) as Hnd.
  revert Hnd. generalize (map_to_list m). intros l. induction l as [|[[b j] v] l IH]; intros Hnd; [constructor|]. apply NoDup_cons in Hnd as [Hj Hnd]. cbn.
  destruct (String.eqb_spec b a) as [->|]; [|by apply IH]. cbn. apply NoDup_cons. split; [|by apply IH].
  intros ([j' w] & [= ->] & ([[b' j''] w'] & Hin & H)%list_elem_of_omap)%list_elem_of_fmap. cbn in *.
  destruct (String.eqb_spec b' a) as [->|]; [|done]. injection H as -> ->.
  apply Hj, list_elem_of_fmap. eexists. split; [|exact Hin]. done.
Qed.
Lemma window_length max B a m : 0 ≤ max → window max B a m → Z.of_nat (length (entries_of a m)) ≤ max + 1.
Proof.
  intros Hmax Hw. rewrite <-(length_fmap fst). pose proof (entries_NoDup a m) as Hnd.
  destruct (entries_of a m) as [|[lo v] l] eqn:E; [cbn; lia|]. rewrite <-E in *.
  apply (NoDup_range _ lo); [done..|]. intros i ([i' w] & -> & Hi)%list_elem_of_fmap. cbn.
  assert ((lo, v) ∈ entries_of a m) as Hlo by (rewrite E; left).
  assert (lo ≤ i'). { rewrite E in Hi. apply (head_least _ _ _ ltac:(rewrite <-E; apply entries_sorted) Hi). }
  apply elem_of_entries in Hlo, Hi. destruct (Hw lo i') as [_ ?]; [by eexists..|]. lia.
Qed.
End windows.

(** ** Trimming *)

(** What is left of a feed when entries [max] or more behind [n] are dropped. *)
Definition kept {V} (max n : Z) (a : string) (m : gmap (string * Z) V) : gmap (string * Z) V :=
  filter (λ kv, kv.1.1 = a → n - kv.1.2 ≤ max) m.

Lemma kept_lookup {V} (max n : Z) (a b : string) (i : Z) (m : gmap (string * Z) V) :
  kept max n a m !! (b, i) = if bool_decide (b = a ∧ max < n - i) then None else m !! (b, i).
Proof.
  unfold kept. case_bool_decide as H.
  - apply map_lookup_filter_None. right. intros v _. cbn. intros Hk. destruct H as [-> ?]. specialize (Hk eq_refl). lia.
  - destruct (m !! (b, i)) as [v|] eqn:E.
    + apply map_lookup_filter_Some. split; [done|]. cbn. intros ->. destruct (decide (max < n - i)); [|lia]. by destruct H.
    + apply map_lookup_filter_None. by left.
Qed.
Lemma kept_all {V} (max n : Z) (a : string) (m : gmap (string * Z) V) :
  (∀ i, is_Some (m !! (a, i)) → n - i ≤ max) → kept max n a m = m.
Proof.
  intros H. apply map_eq. intros [b i]. rewrite kept_lookup. case_bool_decide as Hc; [|done].
  destruct Hc as [-> Hc]. destruct (m !! (a, i)) eqn:E; [|done]. specialize (H i ltac:(by eexists)). lia.
Qed.
Lemma kept_delete {V} (max n : Z) (a : string) (m : gmap (string * Z) V) (i : Z) :
  max < n - i → kept max n a (delete (a, i) m) = kept max n a m.
Proof.
  intros H. apply map_eq. intros [b j]. rewrite !kept_lookup. case_bool_decide as Hc; [done|].
  rewrite lookup_delete_ne; [done|]. intros [= -> ->]. by destruct Hc.
Qed.

Section feeds.
Context `{FC : FcLib} `{ENV : EvalEnv} `{FJ : FollowJson} (cfg : follow_plugin_config).
Hypothesis max_ok : 0 ≤ max_feed_size cfg < 2 ^ 32.
Notation max := (max_feed_size cfg).

(** The loop ends within its fuel and keeps exactly the entries in the window; it runs
    past the end of the index only when it empties a feed behind which there is none. *)
Lemma trim_spec n a fuel p :
  (size (feeds p) < fuel)%nat → (∀ i, is_Some (feeds p !! (a, i)) → 0 ≤ i ≤ n) → n < 2 ^ 32 →
  match trim cfg feeds fuel a n p with
  | Ok (_, p') => p' = p <| feeds := kept max n a (feeds p) |>
  | Err e => e = undefined_behaviour ∧ ∀ i, is_Some (feeds p !! (a, i)) → max < n - i
  end.
Proof.
  intros Hf Hi Hn. revert p Hf Hi. induction fuel as [|fuel IH]; intros p Hf Hi; [lia|].
  cbn [trim]. unfold mbind at 1, M_bind at 1, gets at 1. cbv beta iota. unfold id.
  destruct (entries_of a (feeds p)) as [|[old v] l] eqn:E; cbn [head].
  - pose proof (proj2 (entries_of_none a (feeds p)) E) as Hnone. destruct (existsb _ _).
    + rewrite kept_all; [by destruct p|]. intros i H. rewrite Hnone in H. by destruct H.
    + split; [done|]. intros i H. rewrite Hnone in H. by destruct H.
  - assert (feeds p !! (a, old) = Some v) as Hold by (apply elem_of_entries; rewrite E; left).
    destruct (Hi old) as [? ?]; [by eexists|]. rewrite wrap_small by lia.
    assert (∀ i, is_Some (feeds p !! (a, i)) → old ≤ i) as Hleast.
    { intros i [w Hw]. apply elem_of_entries in Hw. rewrite E in Hw.
      apply (head_least _ _ _ ltac:(rewrite <-E; apply entries_sorted) Hw). }
    destruct (Z.ltb_spec max (n - old)) as [Hlt|Hge].
    + unfold mbind at 1, M_bind at 1, modify at 1. cbv beta iota.
      specialize (IH (p <| feeds ::= delete (a, old) |>)). cbn [feeds update] in IH.
      rewrite kept_delete in IH by done. cbn [update] in *.
      assert (∀ i, is_Some (delete (a, old) (feeds p) !! (a, i)) → is_Some (feeds p !! (a, i))) as Hdel.
      { intros i [_ ?]%lookup_delete_is_Some. done. }
      assert (size (feeds p) ≠ 0%nat) by (intros He%map_size_empty_inv; by rewrite He, lookup_empty in Hold).
      pose proof (map_size_delete_Some (a, old) (feeds p) ltac:(by eexists)) as Hsize. cbn [update] in *.
      match goal with |- match ?t with _ => _ end => destruct t as [[u p']|e] eqn:Et end;
        specialize (IH ltac:(lia) ltac:(auto)); [exact IH|].
      destruct IH as [-> Hgone]. split; [done|]. intros i Hsome.
      destruct (decide (i = old)) as [->|Hne]; [done|]. apply Hgone. apply lookup_delete_is_Some. split; [congruence|done].
    + rewrite kept_all; [by destruct p|]. intros i Hx. specialize (Hleast i Hx). lia.
Qed.

Lemma trim_feeds_wp a n p (Q : unit → follow_db → Prop) :
  (∀ i, is_Some (feeds p !! (a, i)) → 0 ≤ i ≤ n) → n < 2 ^ 32 →
  Q tt (p <| feeds := kept max n a (feeds p) |>) → wp (trim_feeds cfg a n) Q p.
Proof.
  intros Hi Hn HQ. unfold trim_feeds. apply wp_bind, wp_gets. unfold wp.
  pose proof (trim_spec n a (S (size (feeds p))) p ltac:(lia) Hi Hn) as H. unfold id.
  destruct (trim _ _ _ _ _ p) as [[[] p']|]; [by subst|done].
Qed.

(** A handler for the feed of one follower. *)
Definition feeds_one (B : Z) (f : string) (g : M follow_db unit) : Prop := ∀ p,
  window max B f (feeds p) →
  wp g (λ _ p', window max (B + 1) f (feeds p') ∧ ∀ b i, b ≠ f → feeds p' !! (b, i) = feeds p !! (b, i)) p.

Lemma window_more (B : Z) (f : string) {V} (m : gmap (string * Z) V) : window max B f m → window max (B + 1) f m.
Proof. intros H i j Hi Hj. destruct (H i j Hi Hj). lia. Qed.

Lemma feed_kept (B : Z) (f : string) (n : Z) (m : gmap (string * Z) feed_object) :
  (∀ i, is_Some (m !! (f, i)) → 0 ≤ i ≤ n) → n ≤ B + 1 → window max (B + 1) f (kept max n f m).
Proof.
  intros Hm Hn i j. rewrite !kept_lookup. case_bool_decide as Hi; [by intros []|].
  case_bool_decide as Hj; [by intros _ []|]. intros Hsi%Hm Hsj%Hm.
  destruct (decide (max < n - i)); [by destruct Hi|]. lia.
Qed.
Lemma kept_other (n : Z) (f b : string) (i : Z) (m : gmap (string * Z) feed_object) : b ≠ f → kept max n f m !! (b, i) = m !! (b, i).
Proof. intros Hb. rewrite kept_lookup. by rewrite bool_decide_eq_false_2 by naive_solver. Qed.

Lemma add_and_trim B f o p :
  window max B f (feeds p) → -1 ≤ B < 2 ^ 32 - 1 → let n := next_number f (feeds p) in
  wp (create_feed f n o;; trim_feeds cfg f n)
    (λ _ p', window max (B + 1) f (feeds p') ∧ ∀ b i, b ≠ f → feeds p' !! (b, i) = feeds p !! (b, i)) p.
Proof.
  intros Hw HB n. destruct (next_number_spec max B f (feeds p) Hw) as [Hn Hlt]; [lia..|]. fold n in Hn, Hlt.
  apply wp_bind. unfold create_feed. apply wp_bind, wp_gets. unfold id.
  destruct (feeds p !! (f, n)); [apply wp_throw|]. apply wp_modify, trim_feeds_wp; cbn; [|lia|].
  - intros i Hi. apply lookup_insert_is_Some in Hi as [[= ->]|[_ Hi]]; [lia|]. specialize (Hlt i Hi). lia.
  - split.
    + apply feed_kept; [|lia]. intros i [[= ->]|[_ Hi]]%lookup_insert_is_Some; [lia|]. specialize (Hlt i Hi). lia.
    + intros b i Hb. rewrite kept_other by done. rewrite lookup_insert_ne; [done|congruence].
Qed.
Lemma comment_feed_one B author c f : -1 ≤ B < 2 ^ 32 - 1 → feeds_one B f (comment_feed cfg author c f).
Proof.
  intros HB p Hw. unfold comment_feed. apply wp_bind, wp_gets. unfold id.
  apply wp_when; intros _; [|by split; [apply window_more|]].
  destruct (entry_of _ _ _ _); [by split; [apply window_more|]|]. by apply add_and_trim.
Qed.
Lemma reblog_feed_one B account c now f : -1 ≤ B < 2 ^ 32 - 1 → feeds_one B f (reblog_feed cfg account c now f).
Proof.
  intros HB p Hw. unfold reblog_feed. apply wp_bind, wp_gets. unfold id.
  apply wp_when; intros _; [|by split; [apply window_more|]].
  destruct (entry_of _ _ _ _) as [k|]; [|by apply add_and_trim].
  destruct (next_number_spec max B f (feeds p) Hw) as [Hn Hlt]; [lia..|].
  assert (∀ b i, is_Some (alter (λ f0 : feed_object, f0 <| reblogged_by ::= λ l, l ++ [account] |>) (f, k) (feeds p) !! (b, i)) →
    is_Some (feeds p !! (b, i))) as Halter.
  { intros b i. destruct (decide ((b, i) = (f, k))) as [->|]; [rewrite lookup_alter_eq|rewrite lookup_alter_ne by done; done].
    by rewrite fmap_is_Some. }
  apply wp_bind, wp_modify, trim_feeds_wp; cbn; [|lia|].
  - intros i Hi%Halter. specialize (Hlt i Hi). lia.
  - split.
    + apply feed_kept; [|lia]. intros i Hi%Halter. specialize (Hlt i Hi). lia.
    + intros b i Hb. rewrite kept_other by done. rewrite lookup_alter_ne; [done|congruence].
Qed.

(** The loop over the followers: each has a feed of its own. *)
Lemma feeds_loop B (g : string → M follow_db unit) l p :
  (∀ f, feeds_one B f (g f)) → NoDup l → (∀ a, window max B a (feeds p)) →
  wp (for_each l g) (λ _ p', ∀ a, window max (B + 1) a (feeds p')) p.
Proof.
  intros Hg Hnd Hw.
  enough (∀ p, (∀ a, window max (if bool_decide (a ∈ l) then B else B + 1) a (feeds p)) →
    wp (for_each l g) (λ _ p', ∀ a, window max (B + 1) a (feeds p')) p) as H.
  { apply H. intros a. case_bool_decide; [done|by apply window_more]. }
  clear p Hw. induction l as [|f l IH]; intros p Hw.
  { intros a. specialize (Hw a). by rewrite bool_decide_eq_false_2 in Hw by apply not_elem_of_nil. }
  apply NoDup_cons in Hnd as [Hf Hnd]. cbn [for_each]. apply wp_bind.
  eapply wp_mono; [apply Hg; specialize (Hw f); by rewrite bool_decide_eq_true_2 in Hw by left|].
  intros ? p' [Hwf Hsame]. apply IH; [done|]. intros x. destruct (decide (x = f)) as [->|Hx].
  - by rewrite bool_decide_eq_false_2.
  - specialize (Hw x). rewrite (bool_decide_ext (x ∈ f :: l) (x ∈ l)) in Hw by set_solver.
    intros i j. rewrite !Hsame by done. apply Hw.
Qed.
Lemma followers_NoDup a p : NoDup (followers_of a p).
Proof. unfold followers_of, in_order. rewrite merge_sort_Permutation. apply NoDup_elements. Qed.

(** ** Operations *)

Definition windows (B : Z) (s : with_plugin follow_db) : Prop := ∀ a, window max B a (feeds (own s)).
Lemma windows_mono B C s : B ≤ C → windows B s → windows C s.
Proof. intros HBC H a i j Hi Hj. destruct (H a i j Hi Hj). lia. Qed.
(** Whatever leaves the feeds alone or removes entries keeps the windows. *)
Definition feeds_shrink (p p' : follow_db) : Prop :=
  ∀ a i, is_Some (feeds p' !! (a, i)) → is_Some (feeds p !! (a, i)).
#[local] Instance feeds_shrink_preorder : PreOrder feeds_shrink.
Proof. split; [by intros p a i|]. intros p1 p2 p3 H1 H2 a i H. by apply H1, H2. Qed.
Lemma shrink_windows B (m : M (with_plugin follow_db) unit) s :
  stable (own_rel feeds_shrink) m → windows B s → wp m (λ _, windows B) s.
Proof.
  intros Hm Hw. eapply wp_mono; [apply Hm|]. intros ? s' Hs a i j Hi Hj. apply (Hw a); by apply Hs.
Qed.
Ltac shrink_frame := own_frame ltac:(unfold feeds_shrink; cbn; intros ? ?; first [done |
  intros [? [? _]%map_lookup_filter_Some]; by eexists]).

Lemma apply_follow_op_windows B op s :
  windows B s → -1 ≤ B < 2 ^ 32 - 1 → wp (apply_follow_op cfg op) (λ _, windows (B + 1)) s.
Proof.
  intros Hw HB. destruct op as [o|o]; cbn.
  - eapply wp_mono; [apply shrink_windows; [unfold follow_evaluator, update_count; shrink_frame|exact Hw]|].
    intros ? s' H. eapply windows_mono; [|exact H]. lia.
  - unfold reblog_evaluator. apply wp_bind, on_base_wp, wp_intro. intros c c0 _.
    apply wp_bind, wp_assert. intros _. apply wp_bind, on_base_wp, wp_intro. intros now c1 _.
    apply wp_bind, wp_gets. apply wp_bind, wp_assert. intros _. cbn.
    apply wp_bind, on_own_wp. unfold create_blog. apply wp_bind, wp_gets.
    match goal with |- wp (match ?o with _ => _ end) _ _ => destruct o; [apply wp_throw|apply wp_modify] end. cbn.
    apply wp_bind, on_own_wp, wp_modify. cbn. apply wp_when; intros _; [|eapply windows_mono; [|exact Hw]; lia].
    apply on_own_wp, feeds_loop; [intros f; by apply reblog_feed_one|apply followers_NoDup|exact Hw].
Qed.
Lemma follow_ops_windows B l s :
  windows B s → -1 ≤ B → B + Z.of_nat (length l) ≤ 2 ^ 32 - 1 →
  wp (for_each l (apply_follow_op cfg)) (λ _, windows (B + Z.of_nat (length l))) s.
Proof.
  revert B s. induction l as [|op l IH]; intros B s Hw HB Hlen; cbn [for_each length] in *.
  { apply wp_ret. eapply windows_mono; [|done]. lia. }
  apply wp_bind. eapply wp_mono; [apply apply_follow_op_windows; [done|lia]|]. intros ? s' Hw'. cbv beta in Hw'.
  eapply wp_mono; [apply (IH (B + 1) s' Hw'); lia|]. intros ? s'' H. eapply windows_mono; [|exact H]. lia.
Qed.

(** How many entries an operation may add to a feed; a custom operation in the old
    format carries one more. *)
Definition parsed (r : result (list follow_plugin_operation)) : Z :=
  match r with Ok l => Z.of_nat (length l) | Err _ => 0 end.
Definition custom_events (op : operation) : Z :=
  match op with
  | custom_json_op o => parsed (follow_ops_from_json (cj_json o))
  | custom_binary_op o => parsed (follow_ops_from_binary (cb_data o))
  | _ => 0
  end.
Definition feed_events (op : operation) : Z :=
  custom_events op + match op with comment_op _ | custom_json_op _ => 1 | _ => 0 end.
Lemma parsed_nonneg r : 0 ≤ parsed r.
Proof. destruct r; cbn; lia. Qed.

Lemma custom_operations_windows B ops op s :
  windows B s → -1 ≤ B → B + Z.of_nat (length ops) ≤ 2 ^ 32 - 1 →
  wp (apply_custom_operations follow_validate follow_required (apply_follow_op cfg) ops op)
    (λ _, windows (B + Z.of_nat (length ops))) s.
Proof.
  intros Hw HB Hlen. unfold apply_custom_operations. apply wp_bind, wp_lift. intros inner _.
  do 4 (apply wp_bind, wp_assert; intros _). by apply follow_ops_windows.
Qed.
Lemma run_custom_windows B C eval op s :
  windows B s → B ≤ C → wp (eval op) (λ _, windows C) s → wp (run_custom eval op) (λ _, windows C) s.
Proof.
  unfold wp, run_custom. intros Hw HBC H. destruct (eval op s) as [[[] s']|e]; [done|]. destruct (_ || _); [done|].
  by eapply windows_mono.
Qed.
Lemma notify_windows B C (m : M (with_plugin follow_db) unit) s :
  windows B s → B ≤ C → wp m (λ _, windows C) s → wp (try_notify (unless_producing m)) (λ _, windows C) s.
Proof.
  intros Hw HBC H. apply try_notify_wp; [|by eapply windows_mono]. unfold wp, unless_producing in *.
  destruct (m s) as [[]|[]]; try done. destruct is_producing; [done|]. by eapply windows_mono.
Qed.

Lemma post_comment_windows B o s :
  windows B s → -1 ≤ B < 2 ^ 32 - 1 → wp (post_comment cfg o) (λ _, windows (B + 1)) s.
Proof.
  intros Hw HB. assert (windows (B + 1) s) as Hw1 by (eapply windows_mono; [|exact Hw]; lia).
  unfold post_comment. apply wp_if; intros _; [done|].
  apply wp_bind, on_base_wp, wp_intro. intros c c0 _. apply wp_bind, on_base_wp, wp_intro. intros now c1 _.
  apply wp_if; intros _; [done|]. apply wp_bind, wp_gets. cbn.
  apply wp_bind. apply (wp_mono _ (λ _, windows (B + 1))).
  - apply wp_when; intros _; [|done]. apply on_own_wp, feeds_loop; [intros f; by apply comment_feed_one|apply followers_NoDup|exact Hw].
  - intros ? s1 H1. apply wp_bind, wp_gets. apply shrink_windows; [|done]. destruct (entry_of _ _ _ _); [shrink_frame|].
    apply (stable_on_own _). apply (stable_bind _); [unfold create_blog; shrink_frame|intros _].
    unfold trim_blogs. apply (stable_bind _); [shrink_frame|intros p]. generalize (S (size (blogs p))). clear p.
    intros fuel. induction fuel as [|fuel IH]; cbn [trim]; shrink_frame.
Qed.

Lemma evaluate_windows B op s :
  windows B s → -1 ≤ B → B + custom_events op ≤ 2 ^ 32 - 1 →
  wp (evaluate (PL := follow_plugin cfg) op) (λ _, windows (B + custom_events op)) s.
Proof.
  intros Hw HB Hev. assert (∀ C s, B ≤ C → windows B s → windows C s) as Hmono by (intros; by eapply windows_mono).
  assert (∀ C m, B ≤ C → wp (on_base m) (λ (_ : unit), windows C) s) as Hbase.
  { intros C m HC. eapply wp_mono; [apply shrink_windows; [apply (stable_on_base _)|exact Hw]|]. intros ? s'. by apply Hmono. }
  assert (∀ r : result (list follow_plugin_operation), 0 ≤ parsed r) by apply parsed_nonneg.
  unfold evaluate. cbn [get_interpreter follow_plugin].
  destruct op; cbn [custom_events] in *; try (apply Hbase; lia).
  - destruct (String.eqb _ _); [|apply Hbase; specialize (H (follow_ops_from_json (cj_json o))); lia].
    apply (run_custom_windows B); [done|specialize (H (follow_ops_from_json (cj_json o))); lia|].
    unfold follow_interpreter, interpret. apply wp_bind, wp_lift. intros ops Hops. rewrite Hops in *. cbn [parsed] in *.
    eapply wp_mono; [apply (custom_operations_windows B); [exact Hw|done|lia]|]. done.
  - destruct (String.eqb _ _); [|apply Hbase; specialize (H (follow_ops_from_binary (cb_data o))); lia].
    apply (run_custom_windows B); [done|specialize (H (follow_ops_from_binary (cb_data o))); lia|].
    unfold follow_interpreter, interpret. apply wp_bind, wp_lift. intros ops Hops. rewrite Hops in *. cbn [parsed] in *.
    by apply custom_operations_windows.
Qed.

Lemma apply_observed_windows B note s :
  windows B s → -1 ≤ B → B + feed_events (note_op note) ≤ 2 ^ 32 - 1 →
  wp (apply_observed (PL := follow_plugin cfg) note) (λ _, windows (B + feed_events (note_op note))) s.
Proof.
  intros Hw HB Hev. unfold apply_observed. cbn [pre_apply_operation post_apply_operation follow_plugin].
  assert (∀ r : result (list follow_plugin_operation), 0 ≤ parsed r) as Hp by apply parsed_nonneg.
  apply wp_bind. apply (wp_mono _ (λ _, windows B)).
  { apply (notify_windows B); [done|lia|]. apply shrink_windows; [|done]. destruct (note_op note); cbn; shrink_frame.
    - apply catch_fc_stable; [apply _|]. shrink_frame.
    - unfold pre_delete_comment. shrink_frame. }
  assert (0 ≤ custom_events (note_op note)) as Hc by (destruct (note_op note); cbn; try lia; apply Hp).
  unfold feed_events in *.
  intros ? s1 H1. apply wp_bind. eapply wp_mono; [apply (evaluate_windows B); [exact H1|done|]|].
  { destruct (note_op note); lia. }
  intros ? s2 H2. cbv beta in H2. revert Hev Hc H2. generalize (custom_events (note_op note)). intros n Hev Hc H2.
  destruct (note_op note) as [| | | | | | | | | | | | | |o|o| | | |] eqn:Hop; cbn [post_operation_visitor];
    try (eapply notify_windows; [exact H2|lia|apply wp_ret; eapply windows_mono; [|exact H2]; lia]).
  all: eapply notify_windows; [exact H2|lia|].
  - apply shrink_windows; [unfold post_vote; shrink_frame|]. eapply windows_mono; [|exact H2]. lia.
  - rewrite Z.add_assoc. apply post_comment_windows; [exact H2|lia].
  - unfold post_custom_json. assert (windows (B + (n + 1)) s2) as H3 by (eapply windows_mono; [|exact H2]; lia).
    destruct (String.eqb _ _); [|done]. destruct (follow_from_json _) as [fop|e]; [|by destruct (is_fc_exception e)].
    unfold follow_interpreter, interpret. cbn [cj_json]. rewrite follow_json_roundtrip. apply wp_bind, wp_lift.
    intros ops [= <-]. rewrite Z.add_assoc. apply (custom_operations_windows (B + n) [follow_op fop]); [exact H2|lia|cbn; lia].
Qed.

Definition total_events (ops : list operation) : Z := foldr (λ op n, feed_events op + n) 0 ops.
Lemma feed_events_nonneg op : 0 ≤ feed_events op.
Proof.
  pose proof parsed_nonneg as Hp. unfold feed_events, custom_events.
  destruct op; try lia; match goal with |- context [parsed ?r] => specialize (Hp r); lia end.
Qed.
Lemma total_events_nonneg ops : 0 ≤ total_events ops.
Proof. unfold total_events. induction ops as [|op ops IH]; cbn [foldr]; [lia|]. pose proof (feed_events_nonneg op). lia. Qed.
Lemma notes_windows B notes s :
  windows B s → -1 ≤ B → B + total_events (note_op <$> notes) ≤ 2 ^ 32 - 1 →
  wp (for_each notes (apply_observed (PL := follow_plugin cfg)))
    (λ _, windows (B + total_events (note_op <$> notes))) s.
Proof.
  revert B s. induction notes as [|note notes IH]; intros B s Hw HB Hlen.
  { apply wp_ret. eapply windows_mono; [|done]. cbn. lia. }
  cbn in Hlen |- *. fold (total_events (note_op <$> notes)) in *. pose proof (feed_events_nonneg (note_op note)).
  pose proof (total_events_nonneg (note_op <$> notes)).
  apply wp_bind. eapply wp_mono; [apply (apply_observed_windows B); [done..|lia]|]. intros ? s1 H1. cbv beta in H1.
  eapply wp_mono; [apply (IH _ _ H1); lia|]. intros ? s2 Hs2. eapply windows_mono; [|exact Hs2]. lia.
Qed.

(** C39: feeds are bounded: when operations are applied to feeds whose entries lie in
    windows of [max_feed_size], the entries of every feed lie in such a window again, so
    that no feed holds more than [max_feed_size + 1] entries.  The numbers of the
    entries may grow by one for every comment and reblog; they must not reach the end
    of the 32-bit range. *)
Theorem feeds_bounded B trx_id block trx_in_block ops s s' a :
  windows B s → -1 ≤ B → B + total_events ops ≤ 2 ^ 32 - 1 →
  apply_operations (PL := follow_plugin cfg) trx_id block trx_in_block ops s = Ok (tt, s') →
  window max (B + total_events ops) a (feeds (own s')) ∧
  Z.of_nat (length (entries_of a (feeds (own s')))) ≤ max + 1.
Proof.
  intros Hw HB Hlen E. unfold apply_operations in E. set (notes := notes_of trx_id block trx_in_block ops) in *.
  assert (note_op <$> notes = ops) as Hops.
  { unfold notes, notes_of. rewrite fmap_imap. rewrite <-(list_fmap_id ops) at 2. rewrite <-imap_const. by apply imap_ext. }
  rewrite <-Hops in Hlen |- *. pose proof (wp_ok _ _ _ _ _ (notes_windows B notes s Hw HB Hlen) E) as Hs'. cbv beta in Hs'.
  split; [apply Hs'|]. apply (window_length _ (B + total_events (note_op <$> notes))); [lia|apply Hs'].
Qed.
End feeds.
