(* ===== verification/FollowDemo.v ===== *)
(** * FollowDemo: the follow plugin on a small chain

    Concrete states of the follow plugin: the theorems about it are applied to them, and
    a run shows that a vote which does not count can still move a reputation. *)

From S2P Require Import Prelude FcLib Tables Config Asset Names Authority Operations Transaction Reward Objects Ledger Evaluators Demo Plugins Follow FollowSpec FeedSpec.

(** ** A reader of custom operations *)

Definition code_of (op : follow_plugin_operation) : positive :=
  encode (match op with
          | follow_op o => inl (fo_follower o, fo_following o, fo_what o)
          | reblog_op o => inr (ro_account o, ro_author o, ro_permlink o)
          end : (string * string * gset string) + (string * string * string)).
Definition op_of (p : positive) : option follow_plugin_operation :=
  (λ x : (string * string * gset string) + (string * string * string),
    match x with
    | inl (a, b, w) => follow_op (FollowOp a b w)
    | inr (a, b, w) => reblog_op (ReblogOp a b w)
    end) <$> decode p.
Lemma op_of_code op : op_of (code_of op) = Some op.
Proof. unfold op_of, code_of. rewrite decode_encode. by destruct op as [[]|[]]. Qed.

(** A text of n + 1 letters stands for the operation with code n; "f" and "r" are short
    for two operations of the example. *)
Definition demo_follow : follow_plugin_operation := follow_op (FollowOp "bob" "alice" {["blog"%string]}).
Definition demo_reblog : follow_plugin_operation := reblog_op (ReblogOp "wls" "alice" "post").
Definition text_of (n : nat) : string := String.string_of_list_ascii (replicate n (Ascii.ascii_of_nat 120)).
Lemma text_of_length n : String.length (text_of n) = n.
Proof. unfold text_of. induction n as [|n IH]; [done|]. cbn. by rewrite IH. Qed.
Definition demo_from_json (s : string) : result (list follow_plugin_operation) :=
  if String.eqb s "f" then Ok [demo_follow]
  else if String.eqb s "r" then Ok [demo_reblog]
  else match op_of (Pos.of_nat (String.length s - 1)) with Some op => Ok [op] | None => Err assert_exception end.
Program Definition demo_json : FollowJson := {|
  follow_ops_from_json := demo_from_json;
  follow_ops_from_binary _ := Err assert_exception;
  follow_from_json _ := Err assert_exception;
  follow_op_to_json op := text_of (S (Pos.to_nat (code_of op)))
|}.
Next Obligation.
  intros op. unfold demo_from_json. pose proof (Pos2Nat.is_pos (code_of op)) as Hpos.
  destruct (String.eqb_spec (text_of (S (Pos.to_nat (code_of op)))) "f") as [E|_].
  { apply (f_equal String.length) in E. rewrite text_of_length in E. cbn in E. lia. }
  destruct (String.eqb_spec (text_of (S (Pos.to_nat (code_of op)))) "r") as [E|_].
  { apply (f_equal String.length) in E. rewrite text_of_length in E. cbn in E. lia. }
  rewrite text_of_length, Nat.sub_succ, Nat.sub_0_r, Pos2Nat.id. by rewrite op_of_code.
Qed.

(** ** A concrete run *)

#[local] Existing Instances fc_ref demo_env demo_json.
Definition demo_config : follow_plugin_config := FollowConfig 2 0.
Definition empty_follow_db : follow_db := FollowDb ∅ ∅ ∅ ∅ ∅ ∅.
Definition demo_follow_db : with_plugin follow_db := WithPlugin demo empty_follow_db.
Definition follow_json (poster text : string) : operation :=
  custom_json_op (CustomJson [] [poster] "follow" text).

(** bob follows alice. *)
Definition follow_run : result (unit * with_plugin follow_db) :=
  apply_operations (PL := follow_plugin demo_config) 1 100001 0 [follow_json "bob" "f"] demo_follow_db.
Definition after_follow : with_plugin follow_db := match follow_run with Ok (_, s) => s | Err _ => demo_follow_db end.
Lemma follow_run_ok : follow_run = Ok (tt, after_follow).
Proof. vm_compute. reflexivity. Qed.

Lemma empty_counts_ok : counts_ok empty_follow_db.
Proof. intros a. split; reflexivity. Qed.
Lemma follow_counts_exact_witness :
  counts_ok (own after_follow) ∧
  follow_counts (own after_follow) = {["bob"%string := FollowCount 0 1; "alice"%string := FollowCount 1 0]}.
Proof.
  split; [|vm_compute; reflexivity].
  exact (follow_counts_exact demo_config 1 100001 0 [follow_json "bob" "f"] demo_follow_db after_follow
    empty_counts_ok follow_run_ok).
Defined.

(** Only bob's posting authority lets bob follow alice. *)
Definition demo_follow_note (poster : string) : operation_notification := Note 1 100001 0 0 (follow_json poster "f").
Definition observed_follow : result (unit * with_plugin follow_db) :=
  apply_observed (PL := follow_plugin demo_config) (demo_follow_note "bob") demo_follow_db.
Lemma follow_authorized_witness :
  "bob"%string ∈ req_posting (operation_get_required_authorities (follow_json "bob" "f") no_requirement) ∧
  apply_observed (PL := follow_plugin demo_config) (demo_follow_note "wls") demo_follow_db = Ok (tt, demo_follow_db).
Proof.
  split; [|vm_compute; reflexivity].
  destruct observed_follow as [[[] s']|e] eqn:E; [|vm_compute in E; discriminate E].
  apply (follow_authorized demo_config (demo_follow_note "bob") demo_follow_db s' "bob" "alice" E).
  vm_compute in E. injection E as <-. vm_compute. intros H; discriminate H.
Defined.

(** The feed of a follower after a reblog. *)
Definition reblog_run : result (unit * with_plugin follow_db) :=
  apply_operations (PL := follow_plugin demo_config) 1 100001 0 [follow_json "wls" "r"]
    (WithPlugin demo (empty_follow_db <| follows := {[("bob", "wls")%string := 2]} |>)).
Lemma feeds_bounded_witness :
  match reblog_run with
  | Ok (_, s) => entries_of "bob" (feeds (own s)) = [(0, Feed 0 ["wls"%string] "wls" demo_time)] ∧
      Z.of_nat (length (entries_of "bob" (feeds (own s)))) ≤ 3
  | Err _ => False
  end.
Proof.
  destruct reblog_run as [[[] s']|e] eqn:E; [|vm_compute in E; discriminate E]. split.
  - vm_compute in E. injection E as <-. vm_compute. reflexivity.
  - apply (feeds_bounded demo_config ltac:(split; reflexivity || discriminate) (-1) 1 100001 0 [follow_json "wls" "r"]
      (WithPlugin demo (empty_follow_db <| follows := {[("bob", "wls")%string := 2]} |>)) s' "bob").
    + intros a i j [x H]. exact (False_ind _ (lookup_empty_Some (M := gmap (string * Z)) (a, i) x H)).
    + lia.
    + vm_compute. intros H; discriminate H.
    + exact E.
Defined.

(** ** A vote that does not count *)

(** bob, who has no reputation, has voted alice's post down; the vote did not count
    against her reputation.  When he votes again, the vote that never counted is taken
    back first and the new one does not count either: her reputation rises. *)
Definition downvoted : with_plugin follow_db :=
  WithPlugin (demo <| comment_votes := of_rows [ CommentVote 1 0 100 (-640000) (-10000) 0 0 ] |>)
    (empty_follow_db <| reputations := {["alice"%string := 5]} |>).
Definition revote : vote_operation := VoteOp "bob" "alice" "post" (-10000).
Lemma ignored_downvote_raises_reputation :
  match (pre_vote revote;; post_vote revote) downvoted with
  | Ok (_, s) => reputations (own s) !! "alice"%string = Some (5 + 10000)
  | Err _ => False
  end.
Proof. vm_compute. reflexivity. Qed.
