(* ===== verification/FollowApi.v ===== *)
(** * FollowApi: what the node answers about follows, feeds and blogs

    [libraries/plugins/follow/follow_api.cpp]: pages of the indices of the follow plugin.
    A page of followers resumes at the last name of the page before.  A name put into a
    [string] field of an answer is cut at its first NUL ([name_string]); an account given as
    an argument stands for the name that its string converts to. *)

From S2P Require Import Prelude FcLib Tables Config Asset Names Authority Operations Transaction Reward Objects Ledger Evaluators Plugins Follow.

(** follow_api.hpp:16-74 *)
Record follow_api_obj := FollowApiObj { fa_follower : string; fa_following : string; fa_what : list Z }.
Record follow_count_api_obj := FollowCountApi { fc_account : string; fc_follower_count : Z; fc_following_count : Z }.
Record feed_entry := FeedEntry {
  fe_author : string; fe_permlink : string; fe_reblog_by : list string; fe_reblog_on : Z; fe_entry_id : Z }.
Record blog_entry := BlogEntry {
  be_author : string; be_permlink : string; be_blog : string; be_reblog_on : Z; be_entry_id : Z }.
Record account_reputation := AccountReputation { ar_account : string; ar_reputation : Z }.

Section follow_api.
Context `{FC : FcLib}.

(** follow_api.cpp:10 *)
Definition set_what (bitmask : Z) : list Z :=
  (if has blog bitmask then [blog] else []) ++ (if has ignore bitmask then [ignore] else []).

(** The rows of an account, from a name on: [lower_bound] of a composite key. *)
Definition follow_rows (keys : list (string * string)) (s : follow_db) : list (string * string * Z) :=
  (λ k, (k.1, k.2, follow_what k.1 k.2 s)) <$> keys.
Definition names_from (start : string) (l : list string) : list string := filter (λ n, String.ltb n start = false) l.
(** The accounts that an account follows, in index [by_follower_following]. *)
Definition following_names (account : string) (s : follow_db) : list string :=
  in_order (list_to_set (omap (λ kv, if String.eqb kv.1.1 account then Some kv.1.2 else None) (map_to_list (follows s)))).

(** The loops of follow_api.cpp:48 and 72 *)
Fixpoint collect (type limit : Z) (l : list (string * string * Z)) : list follow_api_obj :=
  match l with
  | [] => []
  | (follower, following, what) :: l =>
    if limit =? 0 then []
    else if (type =? undefined) || has type what then
      FollowApiObj (name_string follower) (name_string following) (set_what what) :: collect type (limit - 1) l
    else collect type limit l
  end.
(** follow_api.cpp:40 *)
Definition get_followers (s : follow_db) (following start_follower : string) (type limit : Z) : result (list follow_api_obj) :=
  FC_ASSERT (limit <=? 1000);;
  mret (collect type limit
    (follow_rows ((λ f, (f, following)) <$> names_from start_follower (followers_of following s)) s)).
(** follow_api.cpp:66 *)
Definition get_following (s : follow_db) (follower start_following : string) (type limit : Z) : result (list follow_api_obj) :=
  FC_ASSERT (limit <=? 100);;
  mret (collect type limit
    (follow_rows ((λ f, (follower, f)) <$> names_from start_following (following_names follower s)) s)).
(** follow_api.cpp:90 *)
Definition get_follow_count (s : follow_db) (account : string) : follow_count_api_obj :=
  match follow_counts s !! account with
  | Some c => FollowCountApi (name_string account) (follower_count c) (following_count c)
  | None => FollowCountApi account 0 0
  end.

(** The entries of a feed or blog from a number down, the newest first. *)
Definition entries_below {V} (entry_id : Z) (account : string) (m : gmap (string * Z) V) : list (Z * V) :=
  let entry_id := if entry_id =? 0 then 2 ^ 32 - 1 else entry_id in
  filter (λ e, e.1 ≤ entry_id) (rev (entries_of account m)).
(** follow_api.cpp:103 *)
Definition get_feed_entries (c : chain) (s : follow_db) (account : string) (entry_id limit : Z) : result (list feed_entry) :=
  FC_ASSERT (limit <=? 500);;
  mapM (λ e, comment ← of_option out_of_range (rows (comments c) !! feed_comment e.2);
      mret (if String.eqb (first_reblogged_by e.2) "" then FeedEntry (name_string (author comment)) (permlink comment) [] 0 e.1
            else FeedEntry (name_string (author comment)) (permlink comment) (reblogged_by e.2) (first_reblogged_on e.2) e.1))
    (take (Z.to_nat limit) (entries_below entry_id account (feeds s))).
(** follow_api.cpp:178 *)
Definition get_blog_entries (c : chain) (s : follow_db) (account : string) (entry_id limit : Z) : result (list blog_entry) :=
  FC_ASSERT (limit <=? 500);;
  mapM (λ e, comment ← of_option out_of_range (rows (comments c) !! blog_comment e.2);
      mret (BlogEntry (name_string (author comment)) (permlink comment) account (reblogged_on e.2) e.1))
    (take (Z.to_nat limit) (entries_below entry_id account (blogs s))).
(** follow_api.cpp:241 *)
Definition get_account_reputations (c : chain) (s : follow_db) (lower_bound_name : string) (limit : Z)
    : result (list account_reputation) :=
  FC_ASSERT (limit <=? 1000);;
  mret ((λ n, AccountReputation (name_string n) (default 0 (reputations s !! n))) <$>
    take (Z.to_nat limit) (names_from lower_bound_name
      (in_order (list_to_set ((λ ia, name ia.2) <$> map_to_list (rows (accounts c))))))).
(** follow_api.cpp:341 *)
Definition get_reblogged_by (c : chain) (s : follow_db) (a p : string) : result (list string) :=
  post ← of_option out_of_range (find_row (is_comment a p) (comments c));
  mret (take 2000 (in_order (list_to_set
    (omap (λ kv, if blog_comment kv.2 =? post.1 then Some kv.1.1 else None) (map_to_list (blogs s)))))).
(** follow_api.cpp:356 *)
Definition get_blog_authors (s : follow_db) (account : string) : list (string * Z) :=
  take 2000 (omap (λ guest, (λ n, (guest, n)) <$> blog_author_stats s !! (account, guest))
    (in_order (list_to_set (omap (λ kv, if String.eqb kv.1.1 account then Some kv.1.2 else None) (map_to_list (blog_author_stats s)))))).
End follow_api.

(** ** Pages *)

Section pages.
Context `{FC : FcLib}.

Definition wanted (type : Z) (r : string * string * Z) : bool := (type =? undefined) || has type r.2.
Definition shown (r : string * string * Z) : follow_api_obj := FollowApiObj (name_string r.1.1) (name_string r.1.2) (set_what r.2).
(** A page is the beginning of the rows that are asked for. *)
Lemma collect_page type limit l : 0 ≤ limit →
  collect type limit l = take (Z.to_nat limit) (shown <$> filter (λ r, wanted type r = true) l).
Proof.
  revert limit. induction l as [|[[a b] w] l IH]; intros limit Hl; [by cbn; rewrite firstn_nil|cbn [collect]].
  rewrite filter_cons. destruct (Z.eqb_spec limit 0) as [->|Hne]; [done|].
  pose proof (eq_refl (wanted type (a, b, w))) as E. unfold wanted at 1 in E. cbn [snd] in E. rewrite E.
  destruct (wanted type (a, b, w)) eqn:W; destruct (decide _) as [D|D]; try congruence.
  - replace (Z.to_nat limit) with (S (Z.to_nat (limit - 1))) by lia. cbn. by rewrite IH by lia.
  - by apply IH.
Qed.

Lemma ltb_irrefl a : String.ltb a a = false.
Proof. unfold String.ltb. pose proof (String.compare_antisym a a) as E. by destruct (String.compare a a). Qed.
Lemma ltb_asym a b : String.ltb a b = true → String.ltb b a = false.
Proof. unfold String.ltb. rewrite (String.compare_antisym b a). by destruct (String.compare a b). Qed.
Lemma list_filter_true {A} (P : A → Prop) `{∀ x, Decision (P x)} l : Forall P l → filter P l = l.
Proof. induction 1 as [|x l Hx _ IH]; [done|]. by rewrite filter_cons_True, IH. Qed.
(** Asking for the next page from the last name on starts with that name again. *)
Lemma names_from_suffix start l : StronglySorted (λ a b, String.ltb a b = true) l → start ∈ l →
  ∃ before, l = before ++ names_from start l ∧ head (names_from start l) = Some start.
Proof.
  induction 1 as [|a l Hs IH Ha]; [by intros ?%not_elem_of_nil|].
  unfold names_from in *. rewrite filter_cons. intros [->|Hin]%elem_of_cons.
  - exists []. rewrite ltb_irrefl. destruct (decide _) as [_|[]]; [|done]. split; [|done].
    cbn. f_equal. symmetry. apply list_filter_true. apply Forall_impl with (1 := Ha). intros x Hx.
    by apply ltb_asym.
  - destruct (IH Hin) as (before & Hl & Hh). rewrite Forall_forall in Ha. specialize (Ha _ Hin).
    destruct (decide _) as [D|_]; [congruence|]. exists (a :: before). split; [|done]. cbn. by f_equal.
Qed.
End pages.
