(* ===== verification/Node.v ===== *)
(** * Node: blocks, transactions and undo sessions around the chain state

    [libraries/chain/database.cpp] and [db_with.hpp]: the chain state with its undo
    stack (the contract that ChainbaseRefine proves of chainbase), the fork
    database, the block log and the pending transactions.  Operations throw and
    leave a state behind: the monad [X]. *)

From S2P Require Import Prelude FcLib Tables Config Asset Names Authority Operations Transaction Block ForkDb BlockLog Reward Objects Ledger Invariants Evaluators Payout Schedule Blocks.

(** database.hpp:440-460.  [undo_states] are the states that the undo sessions return to,
    each with its revision, the innermost first. *)
Record node := Node {
  state : chain;
  undo_states : list (Z * chain);
  revision : Z;
  _fork_db : fork_database;
  _block_log : block_log;
  _pending_tx : list signed_transaction;
  _pending_tx_session : bool;
  _popped_tx : list signed_transaction;
  _checkpoints : gmap Z Z;
  skip_flags : Z
}.
#[global] Instance node_eta : Eta node := λ r,
  Node (state r) (undo_states r) (revision r) (_fork_db r) (_block_log r) (_pending_tx r)
    (_pending_tx_session r) (_popped_tx r) (_checkpoints r) (skip_flags r).

(** Keys and signatures of the witness, and the packed size of an empty header. *)
Class Signing := {
  public_key_of : Z → Z;
  sign_block : Z → signed_block → Z;
  header_pack_size : Z
}.

(** config.hpp:3 *)
Definition WLS_BLOCKCHAIN_VERSION : Z := 0.
Definition WLS_BLOCKCHAIN_HARDFORK_VERSION : Z := WLS_BLOCKCHAIN_VERSION.

(** ** Parts of the node *)

(** A throw leaves the chain state to the undo session around the operation. *)
Definition xchain {A} (m : M chain A) : X node A := λ n,
  match m (state n) with Ok (a, s) => (Ok a, n <| state := s |>) | Err e => (Err e, n) end.
(** The operations of the fork database throw before they write. *)
Definition xfork {A} (m : M fork_database A) : X node A := λ n,
  match m (_fork_db n) with Ok (a, f) => (Ok a, n <| _fork_db := f |>) | Err e => (Err e, n) end.
Definition xlog {A} (m : X block_log A) : X node A := λ n,
  let r := m (_block_log n) in (r.1, n <| _block_log := r.2 |>).
(** [catch ( ... )]: goes on whatever happened *)
Definition xcatch {S} (m : X S unit) : X S unit := λ s, (Ok tt, (m s).2).
(** The outcome as a value *)
Definition xtry {S A} (m : X S A) : X S (result A) := λ s, let r := m s in (Ok r.1, r.2).

(** *** Undo sessions *)

(** chainbase.hpp:290 *)
Definition start_undo_session (n : node) : node :=
  n <| undo_states ::= λ l, (revision n + 1, state n) :: l |> <| revision ::= Z.succ |>.
(** chainbase.hpp:309 *)
Definition undo (n : node) : node :=
  match undo_states n with
  | [] => n
  | u :: l => n <| state := u.2 |> <| undo_states := l |> <| revision ::= Z.pred |>
  end.
(** chainbase.hpp:342: a single state goes without a change of the revision *)
Definition squash (n : node) : node :=
  match undo_states n with
  | [] => n
  | [_] => n <| undo_states := [] |>
  | _ :: u :: l => n <| undo_states := u :: l |> <| revision ::= Z.pred |>
  end.
(** chainbase.hpp:447: from the oldest state on, while its revision is at most [r] *)
Fixpoint drop_committed (r : Z) (l : list (Z * chain)) : list (Z * chain) :=
  match l with
  | [] => []
  | u :: l =>
    match drop_committed r l with
    | [] => if u.1 <=? r then [] else [u]
    | kept => u :: kept
    end
  end.
Definition commit (r : Z) (n : node) : node := n <| undo_states ::= drop_committed r |>.

(** [auto session = start_undo_session( true ); m; finish]; the destructor undoes the
    session when [m] throws. *)
Definition with_session (finish : node → node) {A} (m : X node A) : X node A := λ n,
  match m (start_undo_session n) with
  | (Ok a, n) => (Ok a, finish n)
  | (Err e, n) => (Err e, undo n)
  end.
(** [session.push()] keeps the state on the stack. *)
Definition pushed {A} (m : X node A) : X node A := with_session id m.
Definition squashed {A} (m : X node A) : X node A := with_session squash m.

(** db_with.hpp:107 *)
Definition with_skip_flags (skip : Z) {A} (m : X node A) : X node A := λ n,
  let r := m (n <| skip_flags := skip |>) in (r.1, r.2 <| skip_flags := skip_flags n |>).

(** [_pending_tx_session.reset()] *)
Definition reset_pending (n : node) : node :=
  if _pending_tx_session n then (undo n) <| _pending_tx_session := false |> else n.
Definition start_pending (n : node) : node :=
  (start_undo_session n) <| _pending_tx_session := true |>.

Section node.
Context `{FC : FcLib} `{ENV : EvalEnv} `{CR : Crypto} `{BL : BlockLib} `{CP : ChainParams}
  `{HF : Hardforks} `{BP : BlockPack} `{SG : Signing}.

(** database.hpp:48.  [_is_producing] is set while [push_transaction] runs: [is_producing]
    is the flag outside of it. *)
Definition flagged (p : bool) : EvalEnv := {|
  is_producing := p; custom_interpreter := @custom_interpreter ENV; patch_body := @patch_body ENV |}.

Definition head_id_of (n : node) : Z := head_block_id (gpo (state n)).
Definition head_num_of (n : node) : Z := head_block_number (gpo (state n)).
(** The block of an item. *)
Definition block_of (n : node) (p : nat) : result signed_block :=
  i ← deref_item (_fork_db n) p; mret (data i).

(** ** Looking blocks up *)

(** database.cpp:285 *)
Definition fetch_block_by_id (i : Z) (n : node) : result (option signed_block) :=
  match fetch_block i (_fork_db n) with
  | Some p => b ← block_of n p; mret (Some b)
  | None =>
    tmp ← read_block_by_num (num_from_id i) (_block_log n);
    mret (match tmp with Some b => if block_id_of b =? i then Some b else None | None => None end)
  end.
(** database.cpp:302 *)
Definition fetch_block_by_number (k : Z) (n : node) : result (option signed_block) :=
  match fork_fetch_block_by_number k (_fork_db n) with
  | [p] => b ← block_of n p; mret (Some b)
  | _ => read_block_by_num k (_block_log n)
  end.
(** database.cpp:259-270: the block log, then the fork database *)
Definition find_id_in_files (k : Z) (n : node) : result Z :=
  b ← read_block_by_num k (_block_log n);
  match b with
  | Some b => mret (block_id_of b)
  | None =>
    p ← fetch_block_on_main_branch_by_number k (_fork_db n);
    match p with
    | Some p => i ← deref_item (_fork_db n) p; mret (item_id i)
    | None => mret 0
    end
  end.
(** database.cpp:245 *)
Definition find_block_id_for_num (k : Z) (n : node) : result Z :=
  if k =? 0 then mret 0
  else
    match rows (block_summaries (state n)) !! Z.land k 65535 with
    | Some bs =>
      if num_from_id (block_id bs) =? k then mret (block_id bs) else find_id_in_files k n
    | None => find_id_in_files k n
    end.
(** database.cpp:277 *)
Definition get_block_id_for_num (k : Z) (n : node) : result Z :=
  i ← find_block_id_for_num k n;
  FC_ASSERT (negb (i =? 0));;
  mret i.
(** database.cpp:325 *)
Definition get_block_ids_on_fork (head_of_fork : Z) (n : node) : result (list Z) :=
  branches ← fetch_branch_from (head_id_of n) head_of_fork (_fork_db n);
  ids ← mapM (λ p, item_id <$> deref_item (_fork_db n) p) branches.2;
  last_first ← of_option undefined_behaviour (last branches.1);
  i ← deref_item (_fork_db n) last_first;
  mret (ids ++ [previous_id i]).

(** ** Applying a block *)

(** database.cpp:2543, one block for the log *)
Definition log_block (k : Z) : X node unit :=
  n ← xgets id;
  p ← xlift (fetch_block_on_main_branch_by_number k (_fork_db n));
  p ← xlift (of_option assert_exception p);
  b ← xlift (block_of n p);
  xlog (append b);; mret tt.
(** database.cpp:2528-2553, the parts of [update_last_irreversible_block] outside the
    chain state *)
Definition write_irreversible : X node unit :=
  n ← xgets id;
  let lib := last_irreversible_block_num (gpo (state n)) in
  xmodify (commit lib);;
  (if skips (skip_flags n) skip_block_log then mret tt
   else
     let log_head_num := match head (_block_log n) with Some b => block_num b | None => 0 end in
     xfor_each (seqZ (log_head_num + 1) (lib - log_head_num)) log_block);;
  xfork (set_max_size (wrap 32 (wrap 32 (head_num_of n - lib) + 1))).

(** database.cpp:2142 *)
Definition node_apply_block (skip : Z) (b : signed_block) : X node unit :=
  xchain (apply_block_head skip b);;
  write_irreversible;;
  xchain (apply_block_tail b).

(** database.cpp:2063: the checkpoints decide what is checked *)
Definition checkpoint_flags : Z :=
  skip_witness_signature + skip_transaction_signatures + skip_transaction_dupe_check + skip_fork_db +
  skip_block_size_check + skip_tapos_check + skip_authority_check + skip_undo_history_check +
  skip_witness_schedule_check + skip_validate + skip_validate_invariants.
(** [_checkpoints.rbegin()]: the entry with the highest number *)
Definition last_checkpoint (n : node) : option (Z * Z) :=
  last (merge_sort (key_le fst) (map_to_list (_checkpoints n))).
Definition checked_skip (skip : Z) (b : signed_block) (n : node) : result Z :=
  match last_checkpoint n with
  | None => mret skip
  | Some (k, i) =>
    if i =? 0 then mret skip
    else
      FC_ASSERT (match _checkpoints n !! block_num b with Some i => block_id_of b =? i | None => true end);;
      mret (if block_num b <=? k then checkpoint_flags else skip)
  end.
(** database.cpp:2051 *)
Definition apply_block (skip : Z) (b : signed_block) : X node unit :=
  n ← xgets id;
  skip ← xlift (checked_skip skip b n);
  with_skip_flags skip (node_apply_block skip b).
(** database.cpp:435 *)
Definition add_checkpoints (l : list (Z * Z)) (n : node) : node :=
  n <| _checkpoints ::= λ m, foldl (λ m e, <[e.1 := e.2]> m) m l |>.
(** database.cpp:441 *)
Definition before_last_checkpoint (n : node) : bool :=
  match last_checkpoint n with Some (k, _) => head_num_of n <=? k | None => false end.

(** ** Popping a block *)

(** database.cpp:790 *)
Definition pop_block : X node unit :=
  xmodify reset_pending;;
  n ← xgets id;
  b ← xlift (fetch_block_by_id (head_id_of n) n);
  b ← xlift (of_option pop_empty_chain b);
  xfork fork_pop_block;;
  xmodify undo;;
  xmodify (λ n, n <| _popped_tx ::= λ l, block_transactions b ++ l |>).
(** database.cpp:810 *)
Definition clear_pending (n : node) : node := reset_pending (n <| _pending_tx := [] |>).

(** database.cpp:516, :543: pop until the head is [i].  Every round moves the head of
    the fork database to an older item. *)
Fixpoint pop_until (fuel : nat) (i : Z) : X node unit :=
  n ← xgets id;
  if head_id_of n =? i then mret tt
  else match fuel with
  | O => xthrow out_of_fuel
  | S fuel => pop_block;; pop_until fuel i
  end.
Definition pop_to (i : Z) : X node unit :=
  n ← xgets id;
  pop_until (S (length (items (_fork_db n)))) i.

(** ** Switching forks *)

(** Apply the block of an item in a session that is kept. *)
Definition push_item (skip : Z) (p : nat) : X node unit :=
  n ← xgets id;
  b ← xlift (block_of n p);
  pushed (apply_block skip b).

(** database.cpp:534-556: the items [bad] of the new branch are removed, the old
    branch [second] is restored *)
Definition restore_branch (skip : Z) (bad second : list nat) (ancestor : Z) : X node unit :=
  xfor_each bad (λ p,
    n ← xgets id;
    i ← xlift (deref_item (_fork_db n) p);
    xmodify (λ n, n <| _fork_db ::= remove (item_id i) |>));;
  h ← xlift (of_option undefined_behaviour (second !! 0%nat));
  xmodify (λ n, n <| _fork_db ::= set_head h |>);;
  pop_to ancestor;;
  xfor_each (rev second) (push_item skip).

(** database.cpp:520-560: the items of the new branch, the oldest first *)
Fixpoint apply_branch (skip : Z) (first second : list nat) (ancestor : Z) : X node unit :=
  match first with
  | [] => mret tt
  | p :: rest =>
    r ← xtry (push_item skip p);
    match r with
    | Ok _ => apply_branch skip rest second ancestor
    | Err e => restore_branch skip (p :: rest) second ancestor;; xthrow e
    end
  end.

(** [branches] and [new_head] own the items until the function returns. *)
Definition hold (l : list nat) : X node unit := xmodify (λ n, n <| _fork_db ::= λ f, f <| held := l |> |>).
Definition holding {A} (m : X node A) : X node A := λ n,
  let r := m n in (r.1, r.2 <| _fork_db ::= λ f, f <| held := [] |> |>).

(** database.cpp:512-555 *)
Definition switch_forks (skip : Z) (new_head : nat) : X node unit :=
  n ← xgets id;
  i ← xlift (deref_item (_fork_db n) new_head);
  branches ← xlift (fetch_branch_from (item_id i) (head_id_of n) (_fork_db n));
  hold (new_head :: branches.1 ++ branches.2);;
  a ← xlift (of_option undefined_behaviour (last branches.2));
  a ← xlift (block_of n a);
  pop_to (previous a);;
  apply_branch skip (rev branches.1) branches.2 (previous a).

(** ** Pushing a block *)

(** database.cpp:563-574 *)
Definition push_on_head (skip : Z) (b : signed_block) : X node unit :=
  r ← xtry (pushed (apply_block skip b));
  match r with
  | Ok _ => mret tt
  | Err e => xmodify (λ n, n <| _fork_db ::= remove (block_id_of b) |>);; xthrow e
  end.

(** database.cpp:502-561: the block goes through the fork database *)
Definition push_tracked (skip : Z) (b : signed_block) : X node bool :=
  new_head ← xfork (fork_push_block b);
  hold [new_head];;
  n ← xgets id;
  h ← xlift (block_of n new_head);
  if negb (previous h =? head_id_of n) then
    if head_num_of n <? block_num h then switch_forks skip new_head;; mret true
    else mret false
  else push_on_head skip b;; mret false.
(** database.cpp:495: the result says whether forks were switched *)
Definition _push_block (b : signed_block) : X node bool :=
  n ← xgets id;
  let skip := skip_flags n in
  if negb (skips skip skip_fork_db) then holding (push_tracked skip b)
  else push_on_head skip b;; mret false.

(** ** Pending transactions *)

(** database.cpp:239 *)
Definition is_known_transaction (i : Z) (n : node) : bool :=
  match find_row (λ x, Objects.trx_id x =? i) (transactions (state n)) with Some _ => true | None => false end.

(** database.cpp:626-636, in a session inside the pending one *)
Definition apply_pending (p : bool) (t : signed_transaction) : X node unit :=
  squashed
    (n ← xgets id;
     xchain (_apply_transaction (ENV := flagged p) (skip_flags n) t);;
     xmodify (λ n, n <| _pending_tx ::= λ l, l ++ [t] |>)).
(** database.cpp:615 *)
Definition _push_transaction (p : bool) (t : signed_transaction) : X node unit :=
  xmodify (λ n, if _pending_tx_session n then n else start_pending n);;
  apply_pending p t.
(** database.cpp:588, with [_is_producing] set.  [maximum_block_size - 256] is a 32-bit number. *)
Definition push_transaction (t : signed_transaction) (skip : Z) : X node unit :=
  n ← xgets id;
  xassert (trx_pack_size t <=? wrap 32 (gpo_maximum_block_size (gpo (state n)) - 256));;
  with_skip_flags skip (_push_transaction true t).

(** db_with.hpp:68, and :58 for the popped ones: transactions that fail are dropped *)
Definition push_again (t : signed_transaction) : X node unit :=
  xcatch (n ← xgets id;
          xwhen (negb (is_known_transaction (transaction_id (trx t)) n)) (_push_transaction is_producing t)).
(** db_with.hpp:54 *)
Definition restore_pending (pending : list signed_transaction) : X node unit :=
  n ← xgets id;
  xfor_each (_popped_tx n) push_again;;
  xmodify (λ n, n <| _popped_tx := [] |>);;
  xfor_each pending push_again.
(** db_with.hpp:127; the restorer runs also when [m] throws *)
Definition without_pending_transactions {A} (m : X node A) : X node A := λ n,
  let r := m (clear_pending n) in
  (r.1, (restore_pending (_pending_tx n) r.2).2).

(** database.cpp:452 *)
Definition push_block (b : signed_block) (skip : Z) : X node bool :=
  with_skip_flags skip (without_pending_transactions (_push_block b)).

(** ** Making a block *)

(** database.cpp:705-731: one pending transaction; [acc] is the size of the block and
    its transactions *)
Definition include_transaction (time maximum : Z) (acc : Z * list signed_transaction) (t : signed_transaction)
    : X node (Z * list signed_transaction) :=
  if expiration (trx t) <? time then mret acc
  else if maximum <=? wrap 64 (acc.1 + trx_pack_size t) then mret acc
  else
    n ← xgets id;
    r ← xtry (squashed (xchain (_apply_transaction (ENV := flagged is_producing) (skip_flags n) t)));
    mret (match r with
          | Ok _ => (wrap 64 (acc.1 + trx_pack_size t), acc.2 ++ [t])
          | Err _ => acc
          end).
Fixpoint include_transactions (time maximum : Z) (acc : Z * list signed_transaction) (l : list signed_transaction)
    : X node (Z * list signed_transaction) :=
  match l with
  | [] => mret acc
  | t :: l => acc ← include_transaction time maximum acc t; include_transactions time maximum acc l
  end.

(** database.cpp:752-770: what the block says about versions *)
Definition version_extensions (w : witness_object) (h : hardfork_property_object) : result (list block_header_extension) :=
  let running := if negb (running_version w =? WLS_BLOCKCHAIN_VERSION) then [ext_version WLS_BLOCKCHAIN_VERSION] else [] in
  let entry l i := of_option undefined_behaviour (l !! Z.to_nat i) in
  vote ←
    (if current_hardfork_version h <? WLS_BLOCKCHAIN_HARDFORK_VERSION then
       v ← entry hardfork_versions (last_hardfork h + 1);
       t ← entry hardfork_times (last_hardfork h + 1);
       mret (if negb (hardfork_version_vote w =? v) || negb (hardfork_time_vote w =? t)
             then [ext_hardfork_vote v t] else [])
     else if (current_hardfork_version h =? WLS_BLOCKCHAIN_HARDFORK_VERSION) &&
             (WLS_BLOCKCHAIN_HARDFORK_VERSION <? hardfork_version_vote w) then
       v ← entry hardfork_versions (last_hardfork h);
       t ← entry hardfork_times (last_hardfork h);
       mret [ext_hardfork_vote v t]
     else mret []);
  mret (running ++ vote).

(** database.cpp:747-770: the block from the head state [s] and its transactions *)
Definition assemble_block (time : Z) (witness_owner : string) (txs : list signed_transaction) (s : chain)
    : result signed_block :=
  let b := SignedBlock (head_block_id (gpo s)) time (name_string witness_owner) 0 [] 0 txs in
  root ← calculate_merkle_root b;
  iw ← fst <$> get_witness witness_owner s;
  exts ← version_extensions iw.2 (hpo s);
  mret (b <| transaction_merkle_root := root |> <| header_extensions := exts |>).
(** block.cpp:32 *)
Definition signed_by (key : Z) (b : signed_block) : signed_block := b <| witness_signature := sign_block key b |>.

(** database.cpp:659 *)
Definition _generate_block (time : Z) (witness_owner : string) (key : Z) : X node signed_block :=
  n ← xgets id;
  let skip := skip_flags n in
  let slot_num := get_slot_at_time time (state n) in
  xassert (0 <? slot_num);;
  scheduled ← xlift (get_scheduled_witness slot_num (state n));
  xassert (String.eqb (name_string scheduled) witness_owner);;
  iw ← xlift (fst <$> get_witness witness_owner (state n));
  xwhen (negb (skips skip skip_witness_signature)) (xassert (signing_key iw.2 =? public_key_of key));;
  xmodify (λ n, start_pending (reset_pending n));;
  r ← include_transactions time (gpo_maximum_block_size (gpo (state n))) (header_pack_size + 4, []) (_pending_tx n);
  xmodify reset_pending;;
  n ← xgets id;
  b ← xlift (assemble_block time witness_owner r.2 (state n));
  let b := if skips skip skip_witness_signature then b else signed_by key b in
  xwhen (negb (skips skip skip_block_size_check)) (xassert (pack_size b <=? WLS_MAX_BLOCK_SIZE));;
  push_block b skip;;
  mret b.
(** database.cpp:639 *)
Definition generate_block (time : Z) (witness_owner : string) (key skip : Z) : X node signed_block :=
  with_skip_flags skip (_generate_block time witness_owner key).

End node.
