(* ===== verification/NodeSpec.v ===== *)
(** * NodeSpec: blocks and transactions leave a consistent node

    A transaction never changes the head state, a refused block leaves no trace on
    the chain, popping a block undoes it, and the pending transactions are always
    the result of applying them to the head state. *)

From S2P Require Import Prelude FcLib Tables Config Asset Names Authority Operations Transaction Block ForkDb ForkSpec BlockLog Reward Objects Ledger Invariants Supply Evaluators Conservation Demo Preservation LedgerSpec Payout Schedule ScheduleSpec Blocks BlocksSpec ChainSpec Node.

Section frames.
Context (R : relation node) `{!PreOrder R}.

Lemma xstable_chain {A} (m : M chain A) : (∀ n s, R n (n <| state := s |>)) → xstable R (xchain m).
Proof. intros H n. unfold xchain. destruct (m (state n)) as [[a s]|e]; [apply H|reflexivity]. Qed.
Lemma xstable_fork {A} (m : M fork_database A) :
  (∀ n a f, m (_fork_db n) = Ok (a, f) → R n (n <| _fork_db := f |>)) → xstable R (xfork m).
Proof. intros H n. unfold xfork. destruct (m (_fork_db n)) as [[a f]|e] eqn:E; [by eapply H|reflexivity]. Qed.
Lemma xstable_log {A} (m : X block_log A) : (∀ n l, R n (n <| _block_log := l |>)) → xstable R (xlog m).
Proof. intros H n. apply H. Qed.
Lemma xstable_try {A} (m : X node A) : xstable R m → xstable R (xtry m).
Proof. intros H n. apply H. Qed.
Lemma xstable_catch (m : X node unit) : xstable R m → xstable R (xcatch m).
Proof. intros H n. apply H. Qed.
Lemma xstable_session fin {A} (m : X node A) :
  (∀ n, R n (start_undo_session n)) → (∀ n, R n (undo n)) → (∀ n, R n (fin n)) → xstable R m →
  xstable R (with_session fin m).
Proof.
  intros Hs Hu Hf Hm n. unfold with_session. specialize (Hm (start_undo_session n)).
  destruct (m (start_undo_session n)) as [[a|e] n1]; simpl in *; (transitivity n1; [by transitivity (start_undo_session n)|]);
    [apply Hf|apply Hu].
Qed.
Lemma xstable_flags skip {A} (m : X node A) :
  (∀ n k, R n (n <| skip_flags := k |>)) → xstable R m → xstable R (with_skip_flags skip m).
Proof.
  intros Hf Hm n. unfold with_skip_flags. simpl. transitivity (n <| skip_flags := skip |>); [apply Hf|].
  etransitivity; [apply Hm|apply Hf].
Qed.
Lemma xstable_holding {A} (m : X node A) :
  (∀ n l, R n (n <| _fork_db ::= λ f, f <| held := l |> |>)) → xstable R m → xstable R (holding m).
Proof. intros Hf Hm n. unfold holding. simpl. transitivity (m n).2; [apply Hm|apply Hf]. Qed.
End frames.

(** Follows the code of the node; [tac] is for the parts of the state. *)
Ltac xstep tac :=
  lazymatch goal with
  | |- xstable _ (mbind _ _) => apply (xstable_bind _); [|intros ?]
  | |- xstable _ (mret _) => apply (xstable_ret _)
  | |- xstable _ (xgets _) => apply (xstable_gets _)
  | |- xstable _ (xlift _) => apply (xstable_lift _)
  | |- xstable _ (xassert _) => apply (xstable_lift _)
  | |- xstable _ (xthrow _) => apply (xstable_throw _)
  | |- xstable _ (xmodify _) => apply (xstable_modify _); intros ?; tac
  | |- xstable _ (xwhen _ _) => apply (xstable_when _)
  | |- xstable _ (xfor_each _ _) => apply (xstable_for_each _); intros ?
  | |- xstable _ (xchain _) => apply (xstable_chain _); intros ? ?; tac
  | |- xstable _ (xfork _) => apply (xstable_fork _); intros ? ? ? ?; tac
  | |- xstable _ (xlog _) => apply (xstable_log _); intros ? ?; tac
  | |- xstable _ (xtry _) => apply (xstable_try _)
  | |- xstable _ (xcatch _) => apply (xstable_catch _)
  | |- xstable _ (with_session _ _) => apply (xstable_session _); [intros ?; tac..|]
  | |- xstable _ (with_skip_flags _ _) => apply (xstable_flags _); [intros ? ?; tac|]
  | |- xstable _ (holding _) => apply (xstable_holding _); [intros ? ?; tac|]
  | |- xstable _ (if _ then _ else _) => case_match
  | |- xstable _ (match ?o with _ => _ end) => destruct o
  | |- xstable _ _ => solve [auto with xstable typeclass_instances]
  end.
Create HintDb xstable discriminated.
Ltac xframe tac := repeat xstep tac.

(** Evaluates the updates of a node, innermost first: by name they would multiply. *)
Ltac node_cbv := cbv beta iota zeta delta [clear_pending reset_pending start_pending start_undo_session undo
  squash update state undo_states revision _fork_db _block_log _pending_tx _pending_tx_session _popped_tx
  _checkpoints skip_flags fst snd id].

Section node.
Context `{FC : FcLib} `{ENV : EvalEnv} `{CR : Crypto} `{BL : BlockLib} `{CP : ChainParams}
  `{HF : Hardforks} `{BP : BlockPack} `{SG : Signing}.
Implicit Types (n : node).

(** ** What happens while no transaction is pending *)

Definition no_pending n n' : Prop :=
  _pending_tx_session n = false → _pending_tx_session n' = false ∧ _pending_tx n' = _pending_tx n.
#[local] Instance no_pending_preorder : PreOrder no_pending.
Proof.
  split; [by intros n ?|]. intros n1 n2 n3 H1 H2 H. destruct (H1 H) as [H' E]. destruct (H2 H') as [? E'].
  split; [done|congruence].
Qed.
Ltac pending_tac := unfold no_pending, undo, reset_pending, squash; intros; simpl;
  repeat (case_match; simpl); try congruence; done.

Lemma apply_block_pending skip b : xstable no_pending (apply_block skip b).
Proof. unfold apply_block, node_apply_block, write_irreversible, log_block. xframe pending_tac. Qed.
Lemma pop_block_pending : xstable no_pending pop_block.
Proof. unfold pop_block. xframe pending_tac. Qed.
Hint Resolve apply_block_pending pop_block_pending : xstable.
Lemma pop_until_pending fuel i : xstable no_pending (pop_until fuel i).
Proof. induction fuel as [|fuel IH]; simpl; xframe pending_tac; apply IH. Qed.
Hint Resolve pop_until_pending : xstable.
Lemma restore_branch_pending skip bad second a : xstable no_pending (restore_branch skip bad second a).
Proof. unfold restore_branch, pop_to, push_item, pushed. xframe pending_tac. Qed.
Hint Resolve restore_branch_pending : xstable.
Lemma apply_branch_pending skip first second a : xstable no_pending (apply_branch skip first second a).
Proof. induction first as [|p l IH]; simpl; unfold push_item, pushed; xframe pending_tac; apply IH. Qed.
Hint Resolve apply_branch_pending : xstable.
Lemma _push_block_pending b : xstable no_pending (_push_block b).
Proof.
  unfold _push_block, push_tracked, switch_forks, push_on_head, pop_to, hold, pushed. xframe pending_tac.
Qed.


(** ** The pending session

    database.cpp:740: "_pending_tx_session is the result of applying _pending_tx". *)

Inductive pending_run : chain → list signed_transaction → chain → Prop :=
| pending_none s : pending_run s [] s
| pending_more s l s1 p skip t s2 :
    pending_run s l s1 → _apply_transaction (ENV := flagged p) skip t s1 = Ok (tt, s2) → pending_run s (l ++ [t]) s2.

Definition node_ok n : Prop :=
  if _pending_tx_session n then ∃ u l, undo_states n = u :: l ∧ pending_run u.2 (_pending_tx n) (state n)
  else _pending_tx n = [].

Lemma node_ok_flags n k : node_ok (n <| skip_flags := k |>) ↔ node_ok n.
Proof. by destruct n. Qed.
Lemma clear_pending_ok n : node_ok (clear_pending n).
Proof.
  unfold clear_pending, reset_pending, node_ok. simpl. destruct (_pending_tx_session n) eqn:E; simpl.
  - unfold undo. simpl. by case_match.
  - done.
Qed.
Lemma undo_start n : undo (start_undo_session n) = n.
Proof. destruct n. unfold undo, start_undo_session, update. simpl. by rewrite Z.pred_succ. Qed.
Lemma with_revision n k : k = revision n → n <| revision := k |> = n.
Proof. by intros ->; destruct n. Qed.

Lemma with_skip_flags_eq k {A} (m : X node A) n :
  with_skip_flags k m n =
    ((m (n <| skip_flags := k |>)).1, (m (n <| skip_flags := k |>)).2 <| skip_flags := skip_flags n |>).
Proof. done. Qed.
Lemma clear_pending_keeps_flags n : skip_flags (clear_pending n) = skip_flags n.
Proof. destruct n as [?[]????[]???]; node_cbv; done. Qed.
Lemma clear_pending_flags n k : clear_pending (n <| skip_flags := k |>) = (clear_pending n) <| skip_flags := k |>.
Proof. destruct n as [??????[]???]; unfold clear_pending, reset_pending, undo; simpl; by repeat case_match. Qed.
Lemma clear_pending_popped n l : clear_pending (n <| _popped_tx := l |>) = (clear_pending n) <| _popped_tx := l |>.
Proof. destruct n as [??????[]???]; unfold clear_pending, reset_pending, undo; simpl; by repeat case_match. Qed.

(** One transaction on top of an open session. *)
Lemma apply_pending_eq p t n u l :
  undo_states n = u :: l →
  apply_pending p t n =
    match _apply_transaction (ENV := flagged p) (skip_flags n) t (state n) with
    | Ok (_, s) => (Ok tt, n <| state := s |> <| _pending_tx ::= λ l, l ++ [t] |>)
    | Err e => (Err e, n)
    end.
Proof.
  intros Hu. unfold apply_pending, squashed, with_session, xgets, xchain, xmodify, mbind, X_bind, id. simpl.
  destruct (_apply_transaction (ENV := flagged p) (skip_flags n) t (state n)) as [[[] s]|e]; simpl.
  - f_equal. destruct n. simpl in Hu. subst. unfold squash, update. simpl. by rewrite Z.pred_succ.
  - f_equal. apply undo_start.
Qed.

Definition pending_after (r : result unit) (l : list signed_transaction) (t : signed_transaction) :=
  match r with Ok _ => l ++ [t] | Err _ => l end.

Lemma clear_start_pending n :
  _pending_tx_session n = false → clear_pending (start_pending n) = clear_pending n.
Proof.
  destruct n as [st us rv fd bl pt se po cp sf]. intros E. cbn in E. rewrite E. clear E.
  node_cbv. by rewrite Z.pred_succ.
Qed.
Lemma _push_transaction_spec p t n :
  node_ok n →
  let r := _push_transaction p t n in
  node_ok r.2 ∧ clear_pending r.2 = clear_pending n ∧ _pending_tx r.2 = pending_after r.1 (_pending_tx n) t.
Proof.
  intros Hn. cbn zeta. set (n0 := if _pending_tx_session n then n else start_pending n).
  assert (_push_transaction p t n = apply_pending p t n0) as ->
    by apply (xbind_Ok _ (λ _, apply_pending p t) n tt n0 eq_refl).
  assert (∃ u l, undo_states n0 = u :: l ∧ pending_run u.2 (_pending_tx n) (state n0) ∧ _pending_tx n0 = _pending_tx n ∧
    _pending_tx_session n0 = true ∧ clear_pending n0 = clear_pending n) as (u & l & Hu & Hr & Ep & Es & Ec).
  { unfold n0, node_ok in *. destruct (_pending_tx_session n) eqn:E.
    - destruct Hn as (u & l & Hu & Hr). by exists u, l.
    - exists (revision n + 1, state n), (undo_states n). split; [done|]. simpl. rewrite Hn.
      split; [apply pending_none|].
      split; [reflexivity|].
      split; [reflexivity|].
      by apply clear_start_pending. }
  rewrite (apply_pending_eq p t n0 u l Hu).
  destruct (_apply_transaction (ENV := flagged p) (skip_flags n0) t (state n0)) as [[[] s]|e] eqn:Ea; simpl.
  - split; [|split].
    + unfold node_ok. simpl. rewrite Es. exists u, l. split; [done|]. rewrite Ep. by econstructor.
    + rewrite <- Ec. unfold clear_pending, reset_pending. simpl. rewrite Es. unfold undo. simpl. by rewrite Hu.
    + by rewrite Ep.
  - split; [|exact (conj Ec Ep)]. unfold node_ok. rewrite Es, Ep. eauto.
Qed.

Lemma push_transaction_settles t skip n :
  node_ok n →
  let r := push_transaction t skip n in
  node_ok r.2 ∧ clear_pending r.2 = clear_pending n ∧ _pending_tx r.2 = pending_after r.1 (_pending_tx n) t.
Proof.
  intros Hn. cbn zeta. unfold push_transaction, xgets, xassert, xlift, mbind, X_bind, id.
  destruct (trx_pack_size t <=? _); cbn [throw_unless fst snd]; [|done].
  rewrite with_skip_flags_eq. cbn [fst snd]. set (n0 := n <| skip_flags := skip |>).
  destruct (_push_transaction_spec true t n0 ltac:(by apply node_ok_flags)) as (H1 & H2 & H3).
  destruct (_push_transaction true t n0) as [r n1]. cbn [fst snd] in *.
  split; [by apply node_ok_flags|]. split; [|exact H3].
  rewrite clear_pending_flags, H2. unfold n0. rewrite clear_pending_flags.
  rewrite <- (clear_pending_keeps_flags n). by destruct (clear_pending n).
Qed.

(** C21: a pushed transaction never touches the head state: whether it is accepted or
    refused, the node without its pending transactions is what it was; accepted, it
    is appended to the pending transactions, and the pending session stays the
    result of applying them to the head state. *)
Theorem push_transaction_pending t skip n :
  node_ok n →
  let r := push_transaction t skip n in
  node_ok r.2 ∧ clear_pending r.2 = clear_pending n ∧ _pending_tx r.2 = pending_after r.1 (_pending_tx n) t.
Proof. apply push_transaction_settles. Qed.

(** *** Blocks and the pending transactions *)

Lemma push_again_spec t n :
  node_ok n →
  let n' := (push_again t n).2 in
  node_ok n' ∧ clear_pending n' = clear_pending n ∧
  (_pending_tx n' = _pending_tx n ∨ _pending_tx n' = _pending_tx n ++ [t]).
Proof.
  intros Hn. unfold push_again, xcatch, xgets, xwhen, mbind, X_bind, id. simpl.
  destruct (negb _); simpl; [|by auto].
  destruct (_push_transaction_spec is_producing t n Hn) as (H1 & H2 & H3). split_and!; [done|done|].
  rewrite H3. destruct (_push_transaction is_producing t n).1; simpl; auto.
Qed.
Lemma push_all_again l n :
  node_ok n →
  ∃ n', xfor_each l push_again n = (Ok tt, n') ∧
    node_ok n' ∧ clear_pending n' = clear_pending n ∧ _pending_tx n' `sublist_of` _pending_tx n ++ l.
Proof.
  revert n. induction l as [|t l IH]; intros n Hn; simpl.
  { exists n. by rewrite app_nil_r. }
  destruct (push_again_spec t n Hn) as (H1 & H2 & H3).
  unfold mbind, X_bind. assert ((push_again t n).1 = Ok tt) as E by done.
  destruct (push_again t n) as [r n1]. simpl in E, H1, H2, H3. subst r.
  destruct (IH n1 H1) as (n' & E & H4 & H5 & H6). exists n'. split_and!; [done|done|congruence|].
  etransitivity; [exact H6|]. destruct H3 as [-> | ->]; [|by rewrite <- app_assoc].
  apply sublist_app; [done|]. by apply sublist_cons.
Qed.

Lemma restore_pending_spec l n :
  node_ok n → _pending_tx n = [] →
  let n' := (restore_pending l n).2 in
  node_ok n' ∧ clear_pending n' = (clear_pending n) <| _popped_tx := [] |> ∧
  _pending_tx n' `sublist_of` _popped_tx n ++ l.
Proof.
  intros Hn E0. unfold restore_pending, xgets, xmodify, mbind, X_bind, id.
  destruct (push_all_again (_popped_tx n) n Hn) as (n1 & -> & H1 & H2 & H3).
  rewrite E0 in H3. simpl in H3.
  destruct (push_all_again l (n1 <| _popped_tx := [] |>)) as (n2 & -> & H4 & H5 & H6); [by destruct n1|].
  simpl. split; [done|]. split; [by rewrite H5, clear_pending_popped, H2|].
  etransitivity; [exact H6|]. by apply sublist_app.
Qed.

Lemma without_pending_eq {A} (m : X node A) n :
  without_pending_transactions m n =
    ((m (clear_pending n)).1, (restore_pending (_pending_tx n) (m (clear_pending n)).2).2).
Proof. done. Qed.
Lemma clear_pending_keeps_popped n : _popped_tx (clear_pending n) = _popped_tx n.
Proof. destruct n as [?[]????[]???]; node_cbv; done. Qed.
Lemma clear_pending_none n : _pending_tx_session (clear_pending n) = false ∧ _pending_tx (clear_pending n) = [].
Proof. destruct n as [?[]????[]???]; node_cbv; done. Qed.

(** Without its pending session the node is what the block left. *)
Lemma push_block_clears b skip n :
  let n1 := (_push_block b ((clear_pending n) <| skip_flags := skip |>)).2 in
  let n' := (push_block b skip n).2 in
  node_ok n' ∧ clear_pending n' = n1 <| _popped_tx := [] |> <| skip_flags := skip_flags n |> ∧
  _pending_tx n' `sublist_of` _popped_tx n1 ++ _pending_tx n.
Proof.
  intros n1 n'.
  set (n2 := (restore_pending (_pending_tx n) n1).2).
  assert (n' = n2 <| skip_flags := skip_flags n |>) as ->.
  { unfold n', push_block. rewrite with_skip_flags_eq, without_pending_eq, clear_pending_flags. done. }
  assert (_pending_tx_session n1 = false ∧ _pending_tx n1 = []) as [E1 E2].
  { destruct (clear_pending_none n) as [E E'].
    destruct (_push_block_pending b ((clear_pending n) <| skip_flags := skip |>)) as [H1 H2]; [exact E|].
    split; [exact H1|]. etransitivity; [exact H2|exact E']. }
  destruct (restore_pending_spec (_pending_tx n) n1) as (H1 & H2 & H3); [by unfold node_ok; rewrite E1|done|].
  fold n2 in H1, H2, H3. split; [by apply node_ok_flags|]. rewrite clear_pending_flags, H2.
  assert (clear_pending n1 = n1) as -> by (unfold clear_pending, reset_pending; cbn; rewrite E1; by destruct n1; cbn in *; subst).
  done.
Qed.
Lemma push_block_settles b skip n :
  let n1 := (_push_block b ((clear_pending n) <| skip_flags := skip |>)).2 in
  let n' := (push_block b skip n).2 in
  node_ok n' ∧ _popped_tx n' = [] ∧ state (clear_pending n') = state n1 ∧
  _pending_tx n' `sublist_of` _popped_tx n1 ++ _pending_tx n.
Proof.
  intros n1 n'. destruct (push_block_clears b skip n) as (H1 & H2 & H3). fold n1 n' in H1, H2, H3.
  split; [done|]. split; [|by rewrite H2]. rewrite <- clear_pending_keeps_popped. by rewrite H2.
Qed.


Lemma push_block_ok b skip n : node_ok (push_block b skip n).2.
Proof. apply push_block_settles. Qed.

(** C13: pushing a block settles the pending transactions: accepted or not, it leaves
    the pending session as the result of applying the pending transactions to the
    new head state, no popped transaction is left over, and the pending transactions
    are some of those of the popped blocks followed by some of the old ones, in order. *)
Theorem push_block_pending b skip n :
  let n1 := (_push_block b ((clear_pending n) <| skip_flags := skip |>)).2 in
  let n' := (push_block b skip n).2 in
  node_ok n' ∧ _popped_tx n' = [] ∧ state (clear_pending n') = state n1 ∧
  _pending_tx n' `sublist_of` _popped_tx n1 ++ _pending_tx n.
Proof. apply push_block_settles. Qed.

(** ** Making a block *)

Lemma set_state_id n : n <| state := state n |> = n.
Proof. by destruct n. Qed.
(** A transaction tried in a session inside another one. *)
Lemma try_transaction_eq t n u l :
  undo_states n = u :: l →
  squashed (xchain (_apply_transaction (ENV := flagged is_producing) (skip_flags n) t)) n =
    match _apply_transaction (ENV := flagged is_producing) (skip_flags n) t (state n) with
    | Ok (_, s) => (Ok tt, n <| state := s |>)
    | Err e => (Err e, n)
    end.
Proof.
  intros Hu. destruct n as [st us rv fd bl pt se po cp sf]. cbn in Hu. subst us.
  unfold squashed, with_session, xchain. cbn [start_undo_session update state skip_flags].
  destruct (_apply_transaction (ENV := flagged is_producing) sf t st) as [[[] s]|e]; node_cbv; by rewrite Z.pred_succ.
Qed.

Lemma include_transaction_spec time maximum acc t n u l :
  undo_states n = u :: l → pending_run u.2 acc.2 (state n) →
  ∃ acc' s, include_transaction time maximum acc t n = (Ok acc', n <| state := s |>) ∧
    pending_run u.2 acc'.2 s ∧ (acc'.2 = acc.2 ∨ acc'.2 = acc.2 ++ [t] ∧ time <= expiration (trx t)).
Proof.
  intros Hu Hr. unfold include_transaction.
  destruct (Z.ltb_spec (expiration (trx t)) time) as [?|Ht].
  { exists acc, (state n). rewrite set_state_id. auto. }
  destruct (maximum <=? _).
  { exists acc, (state n). rewrite set_state_id. auto. }
  unfold xgets, xtry, mbind, X_bind, id. cbn [fst snd]. rewrite (try_transaction_eq t n u l Hu).
  destruct (_apply_transaction (ENV := flagged is_producing) (skip_flags n) t (state n)) as [[[] s]|e] eqn:E; cbn [fst snd].
  - eexists _, s. split; [reflexivity|]. cbn [fst snd]. split; [by econstructor|]. by right.
  - exists acc, (state n). rewrite set_state_id. auto.
Qed.

Lemma include_transactions_spec time maximum acc txs n u l :
  undo_states n = u :: l → pending_run u.2 acc.2 (state n) →
  ∃ acc' s sub, include_transactions time maximum acc txs n = (Ok acc', n <| state := s |>) ∧
    pending_run u.2 acc'.2 s ∧ acc'.2 = acc.2 ++ sub ∧ sub `sublist_of` txs ∧
    Forall (λ t, time <= expiration (trx t)) sub.
Proof.
  revert acc n. induction txs as [|t txs IH]; intros acc n Hu Hr; cbn [include_transactions].
  { exists acc, (state n), []. rewrite set_state_id, app_nil_r. split_and!; [done..|constructor|constructor]. }
  destruct (include_transaction_spec time maximum acc t n u l Hu Hr) as (acc1 & s1 & E & Hr1 & H1).
  unfold mbind, X_bind. rewrite E. cbv beta iota.
  set (n1 := n <| state := s1 |>).
  destruct (IH acc1 n1 Hu Hr1) as (acc2 & s2 & sub & E2 & Hr2 & H2 & Hs & Hf).
  rewrite E2. destruct H1 as [H1|[H1 Ht]].
  - exists acc2, s2, sub. split; [done|]. split; [done|]. split; [by rewrite H2, H1|]. split; [by apply sublist_cons|done].
  - exists acc2, s2, (t :: sub). split; [done|]. split; [done|]. split; [by rewrite H2, H1, <- app_assoc|].
    split; [by apply sublist_skip|by constructor].
Qed.


Lemma assemble_block_spec time w txs s b :
  assemble_block time w txs s = Ok b →
  previous b = head_block_id (gpo s) ∧ timestamp b = time ∧ witness b = name_string w ∧ block_transactions b = txs ∧
  calculate_merkle_root b = Ok (transaction_merkle_root b).
Proof.
  unfold assemble_block. intros (root & Hr & H)%bind_Ok. apply bind_Ok in H as (iw & _ & H).
  apply bind_Ok in H as (exts & _ & H). injection H as <-. by split_and!.
Qed.
Lemma scheduled_name (m w : string) : String.eqb (name_string m) w = true → name_string w = w.
Proof. intros <-%String.eqb_eq. apply name_string_idem. Qed.
Lemma signed_spec key (b b' : signed_block) :
  b' = b ∨ b' = signed_by key b →
  previous b' = previous b ∧ timestamp b' = timestamp b ∧ witness b' = witness b ∧
  block_transactions b' = block_transactions b ∧ transaction_merkle_root b' = transaction_merkle_root b ∧
  calculate_merkle_root b' = calculate_merkle_root b.
Proof. by intros [-> | ->]. Qed.
Lemma state_restarted n s :
  let m := start_pending (reset_pending n) in
  undo_states m = (revision (reset_pending n) + 1, state (reset_pending n)) :: undo_states (reset_pending n) ∧
  state m = state (reset_pending n) ∧ state (reset_pending (m <| state := s |>)) = state (reset_pending n).
Proof. cbn zeta. set (k := reset_pending n). clearbody k. destruct k. node_cbv. done. Qed.
Lemma state_clear n k : state (clear_pending n) = state (reset_pending (n <| skip_flags := k |>)).
Proof. destruct n as [?[]????[]???]; node_cbv; done. Qed.
Lemma same_run {A} (a b : A) n n' : (Ok a, n) = (Ok b, n') → b = a ∧ n' = n.
Proof. by intros [= -> ->]. Qed.
Lemma xcheck_state b c n (a : unit) n' : xwhen b (xassert c) n = (Ok a, n') → n' = n.
Proof. destruct b, c; simpl; by intros [=]. Qed.

(** C14: what a generated block holds: it builds on the head block, carries its time,
    producer and Merkle root; its transactions are some of the pending ones in their
    order, none of them expired, and they apply one after the other to the head
    state; afterwards the pending transactions are consistent again. *)
Theorem generate_block_contents time w key skip n b n' :
  node_ok n → generate_block time w key skip n = (Ok b, n') →
  let h := state (clear_pending n) in
  node_ok n' ∧ previous b = head_block_id (gpo h) ∧ timestamp b = time ∧ witness b = w ∧
  calculate_merkle_root b = Ok (transaction_merkle_root b) ∧
  block_transactions b `sublist_of` _pending_tx n ∧
  Forall (λ t, time <= expiration (trx t)) (block_transactions b) ∧
  ∃ s, pending_run h (block_transactions b) s.
Proof.
  intros Hn E. cbn zeta. unfold generate_block in E. rewrite with_skip_flags_eq in E.
  set (n0 := n <| skip_flags := skip |>) in E. injection E as E <-.
  destruct (_generate_block time w key n0) as [r n1] eqn:Eg. cbn [fst snd] in E |- *. subst r.
  unfold _generate_block in Eg. repeat xinv Eg.
  match goal with H : xwhen _ _ n0 = (Ok _, ?s) |- _ => apply xcheck_state in H as -> end.
  match goal with H : xwhen _ _ (reset_pending _) = _ |- _ => apply xcheck_state in H as -> end.
  destruct (state_restarted n0 (state n0)) as (Hu & Hs & _).
  assert (state (clear_pending n) = state (reset_pending n0)) as Hc by apply state_clear.
  match goal with H : include_transactions ?t ?m ?acc ?txs _ = (Ok ?r, ?s0) |- _ =>
    destruct (include_transactions_spec t m acc txs _ _ _ Hu) as (r' & s' & sub & E & Hr & Hsub & Hl & Hf);
      [rewrite Hs; constructor|]; rewrite E in H; apply same_run in H as [-> ->] end.
  destruct (state_restarted n0 s') as (_ & _ & Hh). cbn [snd] in Hr, Hsub. rewrite app_nil_l in Hsub.
  match goal with H : assemble_block _ _ _ _ = Ok ?a |- _ =>
    rewrite Hh, <- Hc in H; apply assemble_block_spec in H as (P1 & P2 & P3 & P4 & P5); rename a into b0 end.
  change (skip_flags n0) with skip in *.
  set (b := if skips skip skip_witness_signature then b0 else signed_by key b0) in *.
  destruct (signed_spec key b0 b) as (Q1 & Q2 & Q3 & Q4 & Q5 & Q6); [unfold b; case_match; auto|].
  match goal with H : String.eqb (name_string _) w = true |- _ => apply scheduled_name in H as Hw end.
  rewrite Q1, Q2, Q3, Q4, Q5, Q6, P1, P2, P3, Hw, P4, P5, Hsub.
  match goal with H : push_block b _ ?m = (Ok ?r, ?n2) |- _ =>
    pose proof (push_block_ok b skip m) as Hok; rewrite H in Hok; cbn [snd] in Hok end.
  split; [by apply node_ok_flags|]. split_and!; try done.
  exists s'. rewrite Hc. by rewrite <- Hsub.
Qed.



(** ** A block and the undo stack *)

Definition lib_of (s : chain) : Z := last_irreversible_block_num (gpo s).

Lemma drop_committed_top r u l : r < u.1 → drop_committed r (u :: l) = u :: drop_committed r l.
Proof. intros H. simpl. destruct (drop_committed r l); [|done]. by rewrite (proj2 (Z.leb_gt _ _) H). Qed.

(** The part of the node that only sessions touch. *)
Definition stack_of n := (state n, revision n, undo_states n, _checkpoints n).
Definition same_stack n n' : Prop := stack_of n' = stack_of n.
#[local] Instance same_stack_preorder : PreOrder same_stack.
Proof. split; [done|]. intros n1 n2 n3 H1 H2. unfold same_stack in *. congruence. Qed.
Ltac stack_tac := unfold same_stack, stack_of; intros; simpl; done.

Lemma write_irreversible_stack n :
  let n' := (write_irreversible n).2 in
  stack_of n' = (state n, revision n, drop_committed (lib_of (state n)) (undo_states n), _checkpoints n).
Proof.
  cbn zeta. unfold write_irreversible. rewrite (xbind_Ok (xgets id) _ n n n eq_refl). cbv zeta beta. fold (lib_of (state n)).
  rewrite (xbind_Ok (xmodify (commit (lib_of (state n)))) _ n tt (commit (lib_of (state n)) n) eq_refl).
  match goal with |- stack_of (?m ?k).2 = _ =>
    assert (xstable same_stack m) as H; [|specialize (H k); unfold same_stack in H; rewrite H; done] end.
  unfold log_block. xframe stack_tac.
Qed.

(** What applying a block does to the stack: at most the revisions that became
    irreversible go. *)
Definition block_stack skip b n n' : Prop :=
  revision n' = revision n ∧
  (undo_states n' = undo_states n ∨
   ∃ s, apply_block_head skip b (state n) = Ok (tt, s) ∧ undo_states n' = drop_committed (lib_of s) (undo_states n)).

Lemma node_apply_block_spec skip b n :
  let r := node_apply_block skip b n in
  block_stack skip b n r.2 ∧ (∀ a, r.1 = Ok a → _apply_block skip b (state n) = Ok (tt, state r.2)).
Proof.
  cbn zeta. unfold node_apply_block, block_stack.
  destruct (apply_block_head skip b (state n)) as [[[] s]|e] eqn:Eh.
  2:{ rewrite (xbind_Err (xchain _) _ n e n) by (unfold xchain; by rewrite Eh).
      split; [split; [done|by left]|done]. }
  set (n1 := n <| state := s |>).
  rewrite (xbind_Ok (xchain _) _ n tt n1) by (unfold xchain; by rewrite Eh).
  pose proof (write_irreversible_stack n1) as Hw.
  destruct (write_irreversible n1) as [[[]|e] n2] eqn:Ew; cbn [fst snd] in Hw; injection Hw as Es Er Eu _.
  2:{ rewrite (xbind_Err _ _ _ _ _ Ew). split; [split; [done|right; by exists s]|done]. }
  rewrite (xbind_Ok _ _ _ _ _ Ew). unfold xchain, _apply_block. rewrite Es.
  destruct (apply_block_tail b s) as [[[] s']|e] eqn:Et; cbn [fst snd].
  - split; [split; [done|right; by exists s]|]. intros _ _. unfold mbind, M_bind. by rewrite Eh.
  - split; [split; [done|right; by exists s]|done].
Qed.

Lemma apply_block_spec skip b n :
  let r := apply_block skip b n in
  match checked_skip skip b n with
  | Ok k => block_stack k b n r.2 ∧ (∀ a, r.1 = Ok a → _apply_block k b (state n) = Ok (tt, state r.2))
  | Err e => r = (Err e, n)
  end.
Proof.
  cbn zeta. unfold apply_block. rewrite (xbind_Ok (xgets id) _ n n n eq_refl).
  destruct (checked_skip skip b n) as [k|e] eqn:Ec.
  2:{ by rewrite (xbind_Err (xlift _) _ n e n) by (unfold xlift; by f_equal). }
  rewrite (xbind_Ok (xlift _) _ n k n) by (unfold xlift; by f_equal).
  rewrite with_skip_flags_eq. cbn [fst snd].
  exact (node_apply_block_spec k b (n <| skip_flags := k |>)).
Qed.
Lemma checked_skip_stack skip b n m : _checkpoints m = _checkpoints n → checked_skip skip b m = checked_skip skip b n.
Proof. unfold checked_skip, last_checkpoint. by intros ->. Qed.

(** [s] is the chain state after block [b]. *)
Definition block_applied skip b n (s : chain) : Prop :=
  ∃ k, checked_skip skip b n = Ok k ∧ _apply_block k b (state n) = Ok (tt, s).
(** The block does not make its own undo state irreversible. *)
Definition stays_reversible skip b n : Prop :=
  ∀ k s, checked_skip skip b n = Ok k → apply_block_head k b (state n) = Ok (tt, s) → lib_of s <= revision n.

(** A block in a session: its failure is undone, its success can be. *)
Lemma pushed_block_spec skip b n :
  stays_reversible skip b n →
  match pushed (apply_block skip b) n with
  | (Ok _, n') => block_applied skip b n (state n') ∧ revision n' = revision n + 1 ∧
      ∃ l, undo_states n' = (revision n + 1, state n) :: l
  | (Err _, n') => state n' = state n ∧ revision n' = revision n
  end.
Proof.
  intros Hrev. set (n0 := start_undo_session n). unfold pushed, with_session. fold n0.
  pose proof (apply_block_spec skip b n0) as Hs. cbn zeta in Hs.
  rewrite (checked_skip_stack skip b n n0 eq_refl) in Hs.
  destruct (checked_skip skip b n) as [k|e] eqn:Ec.
  2:{ rewrite Hs. split; [done|]. unfold n0, start_undo_session, undo. cbn. lia. }
  destruct Hs as ([Er Hu] & Hok).
  assert (∃ l, undo_states (apply_block skip b n0).2 = (revision n + 1, state n) :: l) as [l Hl].
  { destruct Hu as [Hu|(s & Hs & Hu)]; rewrite Hu; [by eexists|]. unfold n0. cbn [undo_states start_undo_session update].
    rewrite drop_committed_top; [by eexists|]. cbn [fst]. specialize (Hrev k s Ec Hs). lia. }
  destruct (apply_block skip b n0) as [[a|e] n1]; cbn [fst snd] in *.
  - split; [exists k; split; [exact Ec|exact (Hok a eq_refl)]|]. split; [exact Er|by exists l].
  - unfold undo. rewrite Hl. cbn. split; [done|]. rewrite Er. unfold n0. cbn. lia.
Qed.


(** ** Pushing a block that does not switch forks *)

Lemma push_on_head_spec skip b n :
  stays_reversible skip b n →
  match push_on_head skip b n with
  | (Ok _, n') => block_applied skip b n (state n') ∧ revision n' = revision n + 1 ∧
      ∃ l, undo_states n' = (revision n + 1, state n) :: l
  | (Err _, n') => state n' = state n ∧ revision n' = revision n
  end.
Proof.
  intros Hrev. pose proof (pushed_block_spec skip b n Hrev) as H. unfold push_on_head.
  destruct (pushed (apply_block skip b) n) as [[a|e] n1] eqn:E.
  - rewrite (xbind_Ok (xtry _) _ n (Ok a) n1) by (unfold xtry; by rewrite E). exact H.
  - rewrite (xbind_Ok (xtry _) _ n (Err e) n1) by (unfold xtry; by rewrite E). exact H.
Qed.

(** The block that the fork database now calls the head is the next one, or no
    higher than the head block. *)
Definition no_switch b n : Prop :=
  ∀ h f c, fork_push_block b (_fork_db n) = Ok (h, f) → data <$> deref_item f h = Ok c →
    previous c = head_id_of n ∨ block_num c <= head_num_of n.

(** What a block without a fork switch may do to the chain state. *)
Definition linear_outcome skip b n (r : result bool * node) : Prop :=
  match r.1 with
  | Ok sw => sw = false ∧ (state r.2 = state n ∨ block_applied skip b n (state r.2))
  | Err _ => state r.2 = state n
  end.

Lemma push_on_head_linear skip b n m :
  stays_reversible skip b n → stack_of m = stack_of n → linear_outcome skip b n ((push_on_head skip b;; mret false) m).
Proof.
  intros Hrev Hm. injection Hm as Es Er _ Ec.
  pose proof (push_on_head_spec skip b m) as H. unfold stays_reversible, block_applied in H.
  rewrite Es, Er, (checked_skip_stack skip b n m Ec) in H. specialize (H Hrev). destruct (push_on_head skip b m) as [[a|e] n'] eqn:E; unfold linear_outcome.
  - rewrite (xbind_Ok _ _ _ _ _ E). split; [done|]. right. apply H.
  - rewrite (xbind_Err _ _ _ _ _ E). apply H.
Qed.

Lemma push_tracked_linear skip b n :
  no_switch b n → stays_reversible skip b n → linear_outcome skip b n (push_tracked skip b n).
Proof.
  intros Hno Hrev. unfold push_tracked.
  destruct (fork_push_block b (_fork_db n)) as [[h f]|e] eqn:Ef.
  2:{ by rewrite (xbind_Err (xfork _) _ n e n) by (unfold xfork; by rewrite Ef). }
  set (n0 := n <| _fork_db := f |>). set (n1 := n <| _fork_db := f <| held := [h] |> |>).
  rewrite (xbind_Ok (xfork _) _ n h n0) by (unfold xfork; by rewrite Ef).
  rewrite (xbind_Ok (hold [h]) _ n0 tt n1 eq_refl), (xbind_Ok (xgets id) _ n1 n1 n1 eq_refl).
  destruct (block_of n1 h) as [c|e] eqn:Ec.
  2:{ by rewrite (xbind_Err (xlift _) _ n1 e n1) by (unfold xlift; by f_equal). }
  rewrite (xbind_Ok (xlift _) _ n1 c n1) by (unfold xlift; by f_equal).
  destruct (Hno h f c Ef Ec) as [Hp|Hp].
  - change (head_id_of n1) with (head_id_of n). rewrite Hp, Z.eqb_refl. cbn [negb].
    by apply push_on_head_linear.
  - change (head_num_of n1) with (head_num_of n). change (head_id_of n1) with (head_id_of n).
    destruct (negb _); [|by apply push_on_head_linear].
    rewrite (proj2 (Z.ltb_ge _ _) Hp). split; [done|by left].
Qed.

Lemma _push_block_linear b n :
  no_switch b n → stays_reversible (skip_flags n) b n → linear_outcome (skip_flags n) b n (_push_block b n).
Proof.
  intros Hno Hrev. unfold _push_block. rewrite (xbind_Ok (xgets id) _ n n n eq_refl). cbv zeta.
  destruct (skips (skip_flags n) skip_fork_db); cbn [negb]; [by apply push_on_head_linear|].
  exact (push_tracked_linear (skip_flags n) b n Hno Hrev).
Qed.

Lemma clear_pending_checkpoints n : _checkpoints (clear_pending n) = _checkpoints n.
Proof. destruct n as [?[|?[|??]]????[]???]; node_cbv; reflexivity. Qed.

(** C3: a block that does not switch forks, pushed to the node: refused, it leaves
    the head state as it was; accepted, the head state is the result of applying the
    block to the old head state, under the checks the checkpoints leave, or the old head state when the block only joined
    the fork database.  Pending transactions have no influence on it.  The block must not
    make its own undo state irreversible ([stays_reversible]). *)
Theorem push_block_linear b skip n :
  no_switch b (clear_pending n) → stays_reversible skip b (clear_pending n) →
  let h := state (clear_pending n) in
  let r := push_block b skip n in
  let h' := state (clear_pending r.2) in
  match r.1 with
  | Ok sw => sw = false ∧ (h' = h ∨ ∃ k, checked_skip skip b n = Ok k ∧ _apply_block k b h = Ok (tt, h'))
  | Err _ => h' = h
  end.
Proof.
  intros Hno Hrev. cbn zeta.
  destruct (push_block_settles b skip n) as (_ & _ & -> & _).
  unfold push_block. rewrite with_skip_flags_eq, without_pending_eq, clear_pending_flags. cbn [fst snd].
  assert (checked_skip skip b n = checked_skip skip b (clear_pending n)) as ->
    by (apply checked_skip_stack, eq_sym, clear_pending_checkpoints).
  set (c := clear_pending n) in *. clearbody c.
  set (c' := c <| skip_flags := skip |>). exact (_push_block_linear b c' Hno Hrev).
Qed.


(** ** The head block *)

Definition clock_of (s : chain) : Z * Z * Z := (head_block_id (gpo s), head_block_number (gpo s), time (gpo s)).
Definition block_clock (b : signed_block) : Z * Z * Z := (block_id_of b, block_num b, timestamp b).
Definition same_clock (s s' : chain) : Prop := clock_of s' = clock_of s.
#[global] Instance same_clock_preorder : PreOrder same_clock.
Proof. split; [done|]. intros s1 s2 s3 H1 H2. unfold same_clock in *. congruence. Qed.
Lemma same_head_clock s s' : same_head s s' → same_clock s s'.
Proof. unfold same_head, head_of. intros H. injection H. intros. unfold same_clock, clock_of. congruence. Qed.
Ltac clock_tac := unfold same_clock, clock_of; bind_oks; repeat case_match; bind_oks; simpl in *; try congruence; try reflexivity.

Lemma adjust_proxied_clock rem a d : stable same_clock (adjust_proxied_witness_votes_rec rem a d).
Proof. intros s. eapply wp_mono; [apply adjust_proxied_head|]. intros ? s'. apply same_head_clock. Qed.
Lemma write_funds_clock i l : stable same_clock (write_funds i l).
Proof. revert i. induction l as [|f l IH]; intros i; simpl; frame_with ltac:(clock_tac); apply IH. Qed.
Lemma advance_virtual_time_clock vt l : stable same_clock (advance_virtual_time vt l).
Proof. induction l as [|x l IH]; simpl; frame_with ltac:(clock_tac); apply IH. Qed.
Hint Resolve adjust_proxied_clock write_funds_clock advance_virtual_time_clock : stable.
Lemma apply_block_tail_clock b : stable same_clock (apply_block_tail b).
Proof. unfold apply_block_tail. frame_with ltac:(clock_tac). Qed.

Lemma update_global_clock skip b s : wp (update_global_dynamic_data skip b) (λ _ s', clock_of s' = block_clock b) s.
Proof.
  unfold update_global_dynamic_data. wp_step. apply (wp_mono _ _ _ _ (wp_any _ _)). intros now s1 _.
  wp_step. apply (wp_mono _ _ _ _ (wp_any _ _)). intros missed s2 _.
  wp_step. apply wp_modify_gpo. intros g Hg. unfold mret, result_ret in Hg. injection Hg as <-. by repeat wp_step.
Qed.

Lemma apply_block_head_clock skip b s : wp (apply_block_head skip b) (λ _ s', clock_of s' = block_clock b) s.
Proof.
  unfold apply_block_head.
  do 10 (wp_step; apply (wp_mono _ _ _ _ (wp_any _ _)); intros ? ? _).
  wp_step. eapply wp_mono; [apply update_global_clock|]. intros ? s1 H1. cbv beta in H1.
  assert (stable same_clock (update_signing_witness a0.1 b;; update_last_irreversible_block)) as Hm by frame_with ltac:(clock_tac).
  eapply wp_mono; [apply Hm|]. unfold same_clock. intros ? s2 H2. congruence.
Qed.

Lemma applied_clock k b s s' : _apply_block k b s = Ok (tt, s') → clock_of s' = block_clock b.
Proof.
  intros E. refine (wp_ok (_apply_block k b) (λ _ s', clock_of s' = block_clock b) s tt s' _ E).
  unfold _apply_block. wp_step. eapply wp_mono; [apply apply_block_head_clock|]. intros ? s1 H1. cbv beta in H1.
  eapply wp_mono; [apply apply_block_tail_clock|]. unfold same_clock. intros ? s2 H2. congruence.
Qed.
Lemma applied_head_id k b s s' : _apply_block k b s = Ok (tt, s') → head_block_id (gpo s') = block_id_of b.
Proof. intros E%applied_clock. unfold clock_of, block_clock in E. congruence. Qed.

(** ** Popping a block *)

Lemma pop_block_spec n n' u l :
  _pending_tx_session n = false → undo_states n = u :: l → pop_block n = (Ok tt, n') →
  state n' = u.2 ∧ revision n' = revision n - 1 ∧ undo_states n' = l ∧
  (∃ c, fetch_block_by_id (head_id_of n) n = Ok (Some c) ∧ _popped_tx n' = block_transactions c ++ _popped_tx n) ∧
  ∃ f, fork_pop_block (_fork_db n) = Ok (tt, f) ∧ _fork_db n' = f.
Proof.
  intros Hp Hu E. unfold pop_block in E.
  assert (reset_pending n = n) as Hr by (unfold reset_pending; by rewrite Hp).
  rewrite (xbind_Ok (xmodify reset_pending) _ n tt n), (xbind_Ok (xgets id) _ n n n eq_refl) in E
    by (unfold xmodify; by rewrite Hr).
  apply xbind_inv in E as (o & s1 & H1 & E). apply xlift_inv in H1 as [H1 ->].
  apply xbind_inv in E as (c & s2 & H2 & E). apply xlift_inv in H2 as [H2 ->]. apply of_option_Ok in H2 as ->.
  apply xbind_inv in E as ([] & n1 & H3 & E). unfold xfork in H3.
  destruct (fork_pop_block (_fork_db n)) as [[[] f]|e] eqn:Ef; [|done]. injection H3 as <-.
  set (n1 := n <| _fork_db := f |>) in E. rewrite (xbind_Ok (xmodify undo) _ n1 tt (undo n1) eq_refl) in E.
  injection E as <-. destruct n as [st us rv fd bl pt se po cp sf]. cbn in Hu. subst us.
  unfold n1. node_cbv. split_and!; [done|lia|done|by exists c|by exists f].
Qed.

(** C30: popping the block just pushed brings back the chain state before it, its
    revision too, and saves the transactions of the block, when pushing it did not commit
    its own undo state ([stays_reversible]). *)
Theorem pop_block_undoes_push skip b n n1 n2 :
  _pending_tx_session n = false → stays_reversible skip b n →
  push_on_head skip b n = (Ok tt, n1) → pop_block n1 = (Ok tt, n2) →
  head_id_of n1 = block_id_of b ∧ state n2 = state n ∧ revision n2 = revision n ∧
  ∃ c, fetch_block_by_id (block_id_of b) n1 = Ok (Some c) ∧ _popped_tx n2 = block_transactions c ++ _popped_tx n1.
Proof.
  intros Hp Hrev E1 E2. pose proof (push_on_head_spec skip b n Hrev) as H. rewrite E1 in H.
  destruct H as ((k & _ & Hk) & Hr & l & Hl). apply applied_head_id in Hk.
  assert (_pending_tx_session n1 = false) as Hp1.
  { assert (xstable no_pending (push_on_head skip b)) as Hs by (unfold push_on_head, pushed; xframe pending_tac).
    specialize (Hs n Hp). rewrite E1 in Hs. apply Hs. }
  destruct (pop_block_spec n1 n2 _ _ Hp1 Hl E2) as (H1 & H2 & _ & (c & Hc & Hpop) & _).
  unfold head_id_of in *. rewrite Hk in Hc. split_and!; [done|done|lia|by exists c].
Qed.


(** ** Switching forks *)

Definition same_items n n' : Prop := items (_fork_db n') = items (_fork_db n).
#[local] Instance same_items_preorder : PreOrder same_items.
Proof. split; [done|]. intros n1 n2 n3 H1 H2. unfold same_items in *. congruence. Qed.
Lemma set_max_size_items s f a f' : set_max_size s f = Ok (a, f') → items f' = items f.
Proof. destruct f as [it ix [h|] m hd]; intros E; cbn in E; by injection E as <- <-. Qed.
Lemma fork_pop_items f a f' : fork_pop_block f = Ok (a, f') → items f' = items f.
Proof. intros E. by destruct (wp_ok _ _ _ _ _ (fork_pop_block_wp f) E) as (h & p & i & _ & _ & _ & _ & ->). Qed.
Ltac items_tac := unfold same_items; intros; first
  [ by simpl | by eapply set_max_size_items | by eapply fork_pop_items
  | match goal with n : node |- _ => destruct n as [?[|?[|??]]????[]???]; node_cbv; reflexivity end ].

Lemma apply_block_items skip b : xstable same_items (apply_block skip b).
Proof. unfold apply_block, node_apply_block, write_irreversible, log_block. xframe items_tac. Qed.
Lemma pop_block_items : xstable same_items pop_block.
Proof. unfold pop_block. xframe items_tac. Qed.
Hint Resolve apply_block_items pop_block_items : xstable.
Lemma pop_until_items fuel i : xstable same_items (pop_until fuel i).
Proof. induction fuel as [|fuel IH]; simpl; xframe items_tac; apply IH. Qed.
Hint Resolve pop_until_items : xstable.
Lemma push_item_items skip p : xstable same_items (push_item skip p).
Proof. unfold push_item, pushed. xframe items_tac. Qed.

Lemma push_item_head skip p n a n' :
  push_item skip p n = (Ok a, n') → ∃ c, block_of n p = Ok c ∧ head_id_of n' = block_id_of c.
Proof.
  unfold push_item. intros E. rewrite (xbind_Ok (xgets id) _ n n n eq_refl) in E.
  apply xbind_inv in E as (c & s & H & E). apply xlift_inv in H as [H ->]. exists c. split; [done|].
  unfold pushed, with_session in E. pose proof (apply_block_spec skip c (start_undo_session n)) as Hok. cbn zeta in Hok.
  destruct (checked_skip skip c (start_undo_session n)) as [k|e]; [destruct Hok as [_ Hok]|by rewrite Hok in E].
  destruct (apply_block skip c (start_undo_session n)) as [[x|e] m]; [|done]. injection E as <- <-.
  exact (applied_head_id k c _ _ (Hok x eq_refl)).
Qed.

(** A branch that applies ends at its last item. *)
Lemma apply_branch_head skip l p second a n n' :
  apply_branch skip (l ++ [p]) second a n = (Ok tt, n') →
  ∃ c, block_of n p = Ok c ∧ head_id_of n' = block_id_of c.
Proof.
  revert n. induction l as [|q l IH]; intros n E; cbn [app apply_branch] in E;
    apply xbind_inv in E as (r & n1 & H & E); unfold xtry in H; apply same_run in H as [-> ->].
  - destruct (push_item skip p n) as [[x|e] n1] eqn:Ep; cbn [fst snd] in E.
    + injection E as <-. by eapply push_item_head.
    + apply xbind_inv in E as (? & ? & _ & E). done.
  - pose proof (push_item_items skip q n) as Hi.
    destruct (push_item skip q n) as [[x|e] n1] eqn:Ep; cbn [fst snd] in E, Hi.
    + destruct (IH _ E) as (c & Hc & ?). exists c. split; [|done].
      revert Hc. unfold block_of, deref_item, item_at. unfold same_items in Hi. by rewrite Hi.
    + apply xbind_inv in E as (? & ? & _ & E). done.
Qed.

Lemma switch_forks_head skip h i n n' :
  fork_reachable (_fork_db n) → items (_fork_db n) !! h = Some i →
  switch_forks skip h n = (Ok tt, n') → head_id_of n' = block_id_of (data i).
Proof.
  intros Hf Hi E. unfold switch_forks in E. rewrite (xbind_Ok (xgets id) _ n n n eq_refl) in E.
  apply xbind_inv in E as (i' & s1 & H1 & E). apply xlift_inv in H1 as [Hi'%deref_Ok ->].
  rewrite Hi in Hi'. injection Hi' as <-.
  apply xbind_inv in E as (br & s2 & H2 & E). apply xlift_inv in H2 as [Hbr ->].
  pose proof (fetch_branch_from_spec (_fork_db n) (item_id i) (head_id_of n) Hf) as Hspec. rewrite Hbr in Hspec.
  destruct Hspec as (p1 & p2 & l1 & l2 & a1 & a2 & F1 & _ & -> & C1 & _).
  destruct (chain_first _ _ _ _ C1) as [r Hr]. cbn [fst snd] in E. rewrite Hr in E. cbn [rev] in E.
  apply xbind_inv in E as ([] & n1 & H3 & E).
  assert (items (_fork_db n1) = items (_fork_db n)) as I1 by by injection H3 as <-.
  apply xbind_inv in E as (x & s3 & H4 & E). apply xlift_inv in H4 as [_ ->].
  apply xbind_inv in E as (c & s4 & H5 & E). apply xlift_inv in H5 as [_ ->].
  apply xbind_inv in E as ([] & n2 & H6 & E).
  assert (items (_fork_db n2) = items (_fork_db n1)) as I2.
  { assert (xstable same_items (pop_to (previous c))) as Hs by (unfold pop_to; xframe items_tac).
    specialize (Hs n1). rewrite H6 in Hs. exact Hs. }
  destruct (apply_branch_head _ _ _ _ _ _ _ E) as (c' & Hc & ->).
  unfold block_of in Hc. apply bind_Ok in Hc as (j & Hj%deref_Ok & [= <-]). rewrite I2, I1 in Hj.
  apply find_id_Some in F1 as (_ & j' & Hj' & Ej). rewrite Hj in Hj'. injection Hj' as <-.
  pose proof (reachable_wf _ Hf) as W.
  destruct (wf_items _ W _ _ Hj) as (_ & E1 & _), (wf_items _ W _ _ Hi) as (_ & E2 & _). congruence.
Qed.

(** What a push that switches forks did. *)
Lemma push_block_switched b n n' :
  fork_reachable (_fork_db n) → _push_block b n = (Ok true, n') →
  ∃ h f i n2, fork_push_block b (_fork_db n) = Ok (h, f) ∧ _head f = Some h ∧ items f !! h = Some i ∧
    fork_reachable (f <| held := [h] |>) ∧ head_num_of n < block_num (data i) ∧
    switch_forks (skip_flags n) h (n <| _fork_db := f <| held := [h] |> |>) = (Ok tt, n2) ∧
    n' = n2 <| _fork_db ::= λ f, f <| held := [] |> |>.
Proof.
  intros Hf E. unfold _push_block in E. rewrite (xbind_Ok (xgets id) _ n n n eq_refl) in E. cbv zeta in E.
  destruct (skips (skip_flags n) skip_fork_db); cbn [negb] in E.
  { apply xbind_inv in E as (? & ? & _ & E). by injection E. }
  unfold holding in E. destruct (push_tracked (skip_flags n) b n) as [r m] eqn:Et. cbn [fst snd] in E.
  injection E as -> <-. unfold push_tracked in Et.
  apply xbind_inv in Et as (h0 & n0 & H0 & Et). unfold xfork in H0.
  destruct (fork_push_block b (_fork_db n)) as [[h f]|e] eqn:Ef; [|done]. apply same_run in H0 as [-> ->].
  set (n0 := n <| _fork_db := f |>) in *. set (f1 := f <| held := [h] |>). set (n1 := n <| _fork_db := f1 |>).
  rewrite (xbind_Ok (hold [h]) _ n0 tt n1 eq_refl), (xbind_Ok (xgets id) _ n1 n1 n1 eq_refl) in Et.
  apply xbind_inv in Et as (c & s2 & H2 & Et). apply xlift_inv in H2 as [H2 ->].
  destruct (negb (previous c =? head_id_of n1)); [|apply xbind_inv in Et as (? & ? & _ & Et); by injection Et].
  destruct (Z.ltb_spec (head_num_of n1) (block_num c)) as [Hlt|?]; [|by injection Et].
  apply xbind_inv in Et as ([] & n2 & H3 & Et). apply same_run in Et as [_ ->].
  destruct (wp_ok _ _ _ _ _ (wpe_wp _ _ _ _ (fork_push_block_wpe _ b (reachable_wf _ Hf))) Ef) as (link & _ & Hh & _).
  unfold block_of in H2. apply bind_Ok in H2 as (i & Hi%deref_Ok & [= <-]). change (items f !! h = Some i) in Hi.
  exists h, f, i, n2. split; [done|]. split; [done|]. split; [done|]. split; [|done].
  apply (rtc_r _ f); [apply (rtc_r _ (_fork_db n)); [done|by econstructor]|]. apply fork_step_hold. constructor; [|done].
  apply alive_true. right. by left.
Qed.

(** C5: a fork switch goes to the longest chain: when [_push_block] reports that forks
    were switched, the head of the fork database was higher than the head block, and
    the chain now ends at it. *)
Theorem switch_to_longest b n n' :
  fork_reachable (_fork_db n) → _push_block b n = (Ok true, n') →
  ∃ h f c, fork_push_block b (_fork_db n) = Ok (h, f) ∧ block_at f h = Some c ∧
    head_num_of n < block_num c ∧ head_id_of n' = block_id_of c.
Proof.
  intros Hf E. destruct (push_block_switched b n n' Hf E) as (h & f & i & n2 & Ef & _ & Hi & Hf1 & Hlt & Es & ->).
  exists h, f, (data i). split; [done|]. split; [unfold block_at; by rewrite Hi|].
  split; [exact Hlt|]. change (head_id_of n2 = block_id_of (data i)). exact (switch_forks_head (skip_flags n) h i (n <| _fork_db := f <| held := [h] |> |>) n2 Hf1 Hi Es).
Qed.

(** *** The head of the fork database *)

(** No new items, and the head only moves down. *)
Definition head_down n n' : Prop :=
  fork_wf (_fork_db n) → fork_wf (_fork_db n') ∧ items (_fork_db n') = items (_fork_db n) ∧
    ∀ h, _head (_fork_db n) = Some h →
      ∃ p, _head (_fork_db n') = Some p ∧ item_num (_fork_db n) p <= item_num (_fork_db n) h.
Lemma item_num_items f g p : items f = items g → item_num f p = item_num g p.
Proof. unfold item_num, item_at. by intros ->. Qed.
#[local] Instance head_down_preorder : PreOrder head_down.
Proof.
  split.
  - intros n W. split; [done|]. split; [done|]. intros h ->. by exists h.
  - intros n1 n2 n3 H1 H2 W. destruct (H1 W) as (W2 & I2 & D2), (H2 W2) as (W3 & I3 & D3).
    split; [done|]. split; [congruence|]. intros h Hh. destruct (D2 h Hh) as (p & Hp & L1), (D3 p Hp) as (q & Hq & L2).
    exists q. split; [done|]. rewrite !(item_num_items _ _ _ I2) in L2. lia.
Qed.
Lemma head_down_same n n' : _fork_db n' = _fork_db n → head_down n n'.
Proof. intros E W. rewrite E. split; [done|]. split; [done|]. intros h ->. by exists h. Qed.

Lemma fork_pop_down f f' :
  fork_wf f → fork_pop_block f = Ok (tt, f') →
  fork_wf f' ∧ items f' = items f ∧
  ∃ h p, _head f = Some h ∧ _head f' = Some p ∧ item_num f p < item_num f h.
Proof.
  intros W E. split; [apply (fork_step_wf f); [by constructor|done]|].
  destruct (wp_ok _ _ _ _ _ (fork_pop_block_wp f) E) as (h & p & i & Hh & Hi & Hp & Ha & ->).
  split; [done|]. exists h, p. split; [done|]. split; [done|].
  assert (linked f h p) as Hl by (exists i; split; [done|]; by apply lock_Some). rewrite (linked_num f W _ _ Hl). lia.
Qed.
Lemma xfork_pop_down n a f : fork_pop_block (_fork_db n) = Ok (a, f) → head_down n (n <| _fork_db := f |>).
Proof.
  destruct a. intros E W. destruct (fork_pop_down _ _ W E) as (W' & I & h & p & Hh & Hp & Hlt).
  split; [done|]. split; [done|]. intros h' Hh'. rewrite Hh in Hh'. injection Hh' as <-. exists p. split; [done|lia].
Qed.
Lemma xfork_size_down s n a f : set_max_size s (_fork_db n) = Ok (a, f) → head_down n (n <| _fork_db := f |>).
Proof.
  destruct a. intros E W. split; [apply (fork_step_wf (_fork_db n)); [by econstructor|done]|].
  split; [by eapply set_max_size_items|]. intros h Hh. exists h. split; [|lia].
  rewrite (set_max_size_eq s _ (wf_index _ W)) in E. injection E as <-. done.
Qed.
Ltac down_tac := intros; first
  [ by eapply xfork_pop_down | by eapply xfork_size_down | apply head_down_same; reflexivity
  | apply head_down_same; match goal with n : node |- _ => destruct n as [?[|?[|??]]????[]???]; node_cbv; reflexivity end ].

Lemma apply_block_down skip b : xstable head_down (apply_block skip b).
Proof. unfold apply_block, node_apply_block, write_irreversible, log_block. xframe down_tac. Qed.
Lemma pop_block_down : xstable head_down pop_block.
Proof. unfold pop_block. xframe down_tac. Qed.
Hint Resolve apply_block_down pop_block_down : xstable.
Lemma pop_until_down fuel i : xstable head_down (pop_until fuel i).
Proof. induction fuel as [|fuel IH]; simpl; xframe down_tac; apply IH. Qed.
Lemma push_item_down skip p : xstable head_down (push_item skip p).
Proof. unfold push_item, pushed. xframe down_tac. Qed.

Lemma apply_branch_down skip l second a n n' :
  apply_branch skip l second a n = (Ok tt, n') → head_down n n'.
Proof.
  revert n. induction l as [|q l IH]; intros n E; cbn [apply_branch] in E; [by injection E as <-|].
  apply xbind_inv in E as (r & n1 & H & E); unfold xtry in H; apply same_run in H as [-> ->].
  pose proof (push_item_down skip q n) as Hd.
  destruct (push_item skip q n) as [[x|e] n1] eqn:Ep; cbn [fst snd] in E, Hd.
  - transitivity n1; [done|by apply IH].
  - apply xbind_inv in E as (? & ? & _ & E). done.
Qed.

(** Popping at least one block moves the head down. *)
Lemma pop_to_lower i n n' h :
  fork_wf (_fork_db n) → _head (_fork_db n) = Some h → head_id_of n ≠ i → pop_to i n = (Ok tt, n') →
  fork_wf (_fork_db n') ∧ items (_fork_db n') = items (_fork_db n) ∧
  ∃ p, _head (_fork_db n') = Some p ∧ item_num (_fork_db n) p < item_num (_fork_db n) h.
Proof.
  intros W Hh Hi E. unfold pop_to in E. rewrite (xbind_Ok (xgets id) _ n n n eq_refl) in E.
  cbn [pop_until] in E. rewrite (xbind_Ok (xgets id) _ n n n eq_refl), (proj2 (Z.eqb_neq _ _) Hi) in E.
  apply xbind_inv in E as ([] & n1 & H1 & E).
  assert (fork_wf (_fork_db n1) ∧ items (_fork_db n1) = items (_fork_db n) ∧
    ∃ p, _head (_fork_db n1) = Some p ∧ item_num (_fork_db n) p < item_num (_fork_db n) h) as (W1 & I1 & p & Hp & Hlt).
  { unfold pop_block in H1. apply xbind_inv in H1 as ([] & m0 & H & H1). injection H as <-.
    assert (_fork_db (reset_pending n) = _fork_db n) as Ef
      by (destruct n as [?[|?[|??]]????[]???]; node_cbv; reflexivity).
    set (m := reset_pending n) in *. clearbody m. rewrite <- Ef in *. clear Ef.
    rewrite (xbind_Ok (xgets id) _ m m m eq_refl) in H1.
    apply xbind_inv in H1 as (o & s1 & H & H1). apply xlift_inv in H as [_ ->].
    apply xbind_inv in H1 as (c & s2 & H & H1). apply xlift_inv in H as [_ ->].
    apply xbind_inv in H1 as ([] & m1 & H & H1). unfold xfork in H.
    destruct (fork_pop_block (_fork_db m)) as [[[] f]|e] eqn:Ep; [|done]. injection H as <-.
    assert (_fork_db n1 = f) as ->.
    { apply xbind_inv in H1 as ([] & m2 & H & H1). injection H as <-. injection H1 as <-.
      destruct m as [?[|?[|??]]????[]???]; node_cbv; reflexivity. }
    destruct (fork_pop_down _ _ W Ep) as (W' & I & h' & p & Hh' & Hp & Hlt). rewrite Hh in Hh'. injection Hh' as <-.
    split; [done|]. split; [done|]. by exists p. }
  pose proof (pop_until_down (length (items (_fork_db n))) i n1) as Hd. rewrite E in Hd. cbn [snd] in Hd.
  destruct (Hd W1) as (W2 & I2 & D). split; [done|]. split; [by rewrite I2|].
  destruct (D p Hp) as (q & Hq & Hle). exists q. split; [done|]. rewrite !(item_num_items _ _ _ I1) in Hle. lia.
Qed.

Lemma fork_wf_hold f l : fork_wf f → (∀ p, p ∈ l → is_Some (items f !! p)) → fork_wf (f <| held := l |>).
Proof.
  intros W Hl. split; [exact (ForkSpec.wf_items _ W)| |exact (ForkSpec.wf_index _ W)|exact (ForkSpec.wf_ids _ W)].
  intros p [H|[H|H]]; [apply (ForkSpec.wf_owned _ W); auto|apply (ForkSpec.wf_owned _ W); auto|by apply Hl].
Qed.

(** A switch pops the head of the fork database at least once. *)
Lemma switch_forks_lower skip h n n' :
  fork_reachable (_fork_db n) → _head (_fork_db n) = Some h → num_from_id (head_id_of n) + 1 < 2 ^ 32 →
  switch_forks skip h n = (Ok tt, n') →
  items (_fork_db n') = items (_fork_db n) ∧
  ∃ p, _head (_fork_db n') = Some p ∧ item_num (_fork_db n) p < item_num (_fork_db n) h.
Proof.
  intros Hf Hh H32 E. pose proof (reachable_wf _ Hf) as W.
  unfold switch_forks in E. rewrite (xbind_Ok (xgets id) _ n n n eq_refl) in E.
  apply xbind_inv in E as (i & s1 & H1 & E). apply xlift_inv in H1 as [Hi%deref_Ok ->].
  apply xbind_inv in E as (br & s2 & H2 & E). apply xlift_inv in H2 as [Hbr ->].
  pose proof (fetch_branch_from_spec (_fork_db n) (item_id i) (head_id_of n) Hf) as Hspec. rewrite Hbr in Hspec.
  destruct Hspec as (p1 & p2 & l1 & l2 & a1 & a2 & F1 & F2 & -> & C1 & C2 & _). cbn [fst snd] in E.
  apply xbind_inv in E as ([] & n1 & H3 & E).
  assert (n1 = n <| _fork_db := (_fork_db n) <| held := h :: (l1 ++ [a1]) ++ l2 ++ [a2] |> |>) as En1 by by injection H3.
  clear H3. set (n1' := n <| _fork_db := _ |>) in *. subst n1. rename n1' into n1.
  rewrite last_snoc in E. apply xbind_inv in E as (a & s3 & H4 & E). injection H4 as <- <-.
  apply xbind_inv in E as (c & s4 & H5 & E). apply xlift_inv in H5 as [Hc ->].
  apply xbind_inv in E as ([] & n2 & H6 & E).
  unfold block_of in Hc. apply bind_Ok in Hc as (j & Hj%deref_Ok & [= <-]).
  change (items (_fork_db n) !! a2 = Some j) in Hj.
  assert (fork_wf (_fork_db n1)) as W1.
  { apply fork_wf_hold; [done|]. apply find_id_Some in F1 as (_ & i1 & V1 & _). apply find_id_Some in F2 as (_ & i2 & V2 & _).
    intros p [->|[Hp|Hp]%elem_of_app]%elem_of_cons; [by exists i| |].
    - eapply (chain_elem _ W p1); [by eexists|exact C1|done].
    - eapply (chain_elem _ W p2); [by eexists|exact C2|done]. }
  assert (head_id_of n1 ≠ previous (data j)) as Hne.
  { change (head_id_of n ≠ previous (data j)). intros Heq.
    apply find_id_Some in F2 as (_ & i2 & V2 & Hi2).
    pose proof (chain_num _ W _ _ _ C2) as Hn. rewrite (item_num_at _ _ _ Hj), (item_num_at _ _ _ V2) in Hn.
    destruct (ForkSpec.wf_items _ W _ _ Hj) as ([Ej _] & _), (ForkSpec.wf_items _ W _ _ V2) as ([E2 _] & E2' & _).
    rewrite <- Hi2, E2', num_of_block_id in H32. rewrite E2, Ej in Hn. rewrite <- Hi2, E2' in Heq.
    assert (block_num (data j) = block_num (data i2) + 1); [|lia].
    unfold block_num at 1. rewrite <- Heq, num_of_block_id. apply wrap_small.
    pose proof (wrap_range 32 (num_from_id (previous (data i2)) + 1) ltac:(lia)). unfold block_num in *. lia. }
  destruct (pop_to_lower (previous (data j)) n1 n2 h W1 Hh Hne H6) as (W2 & I2 & p & Hp & Hlt).
  destruct (apply_branch_down _ _ _ _ _ _ E W2) as (_ & I3 & D3). destruct (D3 p Hp) as (q & Hq & Hle).
  rewrite !(item_num_items _ _ _ I2) in Hle. split; [by rewrite I3, I2|]. exists q. split; [done|].
  change (item_num (_fork_db n) q <= item_num (_fork_db n) p) in Hle.
  change (item_num (_fork_db n) p < item_num (_fork_db n) h) in Hlt. lia.
Qed.

(** C33: a fork switch leaves the head of the fork database behind: [pop_block] also pops
    the head of the fork database, which the new block has just become, and nothing sets
    it back, so that after the switch it is a block with a lower number than the head
    block of the chain. *)
Theorem switch_leaves_head_behind b n n' :
  fork_reachable (_fork_db n) → num_from_id (head_id_of n) + 1 < 2 ^ 32 → _push_block b n = (Ok true, n') →
  ∃ h f c p, fork_push_block b (_fork_db n) = Ok (h, f) ∧ _head f = Some h ∧ block_at f h = Some c ∧
    head_id_of n' = block_id_of c ∧ _head (_fork_db n') = Some p ∧ item_num (_fork_db n') p < block_num c.
Proof.
  intros Hf H32 E. destruct (push_block_switched b n n' Hf E) as (h & f & i & n2 & Ef & Hh & Hi & Hf1 & Hlt & Es & ->).
  set (n1 := n <| _fork_db := f <| held := [h] |> |>) in *.
  destruct (switch_forks_lower (skip_flags n) h n1 n2 Hf1 Hh H32 Es) as (I & p & Hp & Hlow).
  exists h, f, (data i), p. split; [exact Ef|]. split; [exact Hh|]. split; [unfold block_at; by rewrite Hi|].
  split; [exact (switch_forks_head (skip_flags n) h i n1 n2 Hf1 Hi Es)|]. split; [exact Hp|].
  change (item_num (_fork_db n2) p < block_num (data i)). rewrite (item_num_items _ _ p I).
  pose proof (reachable_wf _ Hf1) as W. destruct (ForkSpec.wf_items _ W h i Hi) as ([En _] & _).
  rewrite <- En. by rewrite <- (item_num_at _ _ _ Hi).
Qed.

(** ** Irreversible blocks go to the log *)

(** [p] is the block number [k] of the main branch. *)
Definition on_main_branch f (k : Z) (p : nat) : Prop :=
  ∃ h, _head f = Some h ∧ rtc (linked f) h p ∧ p ∈ _index f ∧ item_num f p = k.
(** The blocks [new] are numbered from [k] on and those of the main branch. *)
Definition main_blocks f (k : Z) (new : list signed_block) : Prop :=
  ∀ i b, new !! i = Some b → ∀ p, on_main_branch f (k + Z.of_nat i) p → block_at f p = Some b.

Lemma log_block_spec k n n' bs :
  fork_reachable (_fork_db n) → (∀ p i, items (_fork_db n) !! p = Some i → packable (data i)) →
  holds (_block_log n) bs → k = Z.of_nat (length bs) + 1 → k < 2 ^ 32 →
  log_block k n = (Ok tt, n') → size_of (block_stream (_block_log n')) < 2 ^ 63 →
  ∃ b, holds (_block_log n') (bs ++ [b]) ∧ stack_of n' = stack_of n ∧ _fork_db n' = _fork_db n ∧
    main_blocks (_fork_db n) k [b].
Proof.
  intros Hf Hp Hl Hk Hk32 E Hsize. unfold log_block in E. rewrite (xbind_Ok (xgets id) _ n n n eq_refl) in E.
  apply xbind_inv in E as (o & s1 & H1 & E). apply xlift_inv in H1 as [Hfetch ->].
  apply xbind_inv in E as (p & s2 & H2 & E). apply xlift_inv in H2 as [->%of_option_Ok ->].
  apply xbind_inv in E as (b & s3 & H3 & E). apply xlift_inv in H3 as [Hb ->].
  apply bind_Ok in Hb as (i & Hi%deref_Ok & [= <-]).
  apply xbind_inv in E as (pos & n1 & H4 & E). apply same_run in E as [_ ->]. unfold xlog in H4.
  destruct (append (data i) (_block_log n)) as [r l'] eqn:Ea. cbn [fst snd] in H4. injection H4 as -> <-.
  change (size_of (block_stream l') < 2 ^ 63) in Hsize.
  pose proof (append_stream _ _ _ _ _ (holds_blocks _ _ Hl) Ea) as Es. rewrite Es in Hsize.
  pose proof (append_spec _ _ (data i) Hl (Hp _ _ Hi) ltac:(lia) Hsize) as H.
  destruct (block_num (data i) =? Z.of_nat (length bs) + 1); [|by rewrite H in Ea].
  destruct H as (l'' & E' & Hh). rewrite Ea in E'. injection E' as _ <-.
  exists (data i). split; [exact Hh|]. split; [done|]. split; [done|].
  intros [|j] b Hj; [|done]. injection Hj as <-. intros q (h & Hhd & Hq & Hqi & Eq). rewrite Z.add_0_r in Eq.
  destruct (main_branch_spec _ k h Hf Hhd) as (r & Hr & _ & Hmain). rewrite Hfetch in Hr. injection Hr as <-.
  assert (q = p) as -> by by injection (Hmain q Hq Hqi Eq). unfold block_at. by rewrite Hi.
Qed.

Lemma main_blocks_cons f k b new :
  main_blocks f k [b] → main_blocks f (k + 1) new → main_blocks f k (b :: new).
Proof.
  intros H1 H2 [|i] c Hc p Hp; [by apply (H1 0%nat c Hc)|]. apply (H2 i c Hc).
  by replace (k + 1 + Z.of_nat i) with (k + Z.of_nat (S i)) by lia.
Qed.

Definition log_grows n n' : Prop := size_of (block_stream (_block_log n)) <= size_of (block_stream (_block_log n')).
#[local] Instance log_grows_preorder : PreOrder log_grows.
Proof. split; unfold log_grows; [intros ?; lia|intros ???; lia]. Qed.
Lemma log_block_grows k : xstable log_grows (log_block k).
Proof.
  unfold log_block. do 4 (apply (xstable_bind _); [first [apply (xstable_gets _)|apply (xstable_lift _)]|intros ?]).
  apply (xstable_bind _); [|intros ?; apply (xstable_ret _)]. intros m. unfold xlog, log_grows. cbn.
  unfold append, xgets, xassert, xmodify, xlift, mbind, X_bind, id. destruct (_ =? _); cbn; [|lia].
  rewrite !size_app, le64_size. match goal with |- context [pack ?b] => pose proof (size_nonneg (pack b)) end. lia.
Qed.

Lemma log_blocks_spec (count : nat) k n n' bs :
  fork_reachable (_fork_db n) → (∀ p i, items (_fork_db n) !! p = Some i → packable (data i)) →
  holds (_block_log n) bs → k = Z.of_nat (length bs) + 1 → k + Z.of_nat count <= 2 ^ 32 →
  xfor_each (seqZ k (Z.of_nat count)) log_block n = (Ok tt, n') → size_of (block_stream (_block_log n')) < 2 ^ 63 →
  ∃ new, holds (_block_log n') (bs ++ new) ∧ length new = count ∧ stack_of n' = stack_of n ∧
    _fork_db n' = _fork_db n ∧ main_blocks (_fork_db n) k new.
Proof.
  revert k n bs. induction count as [|count IH]; intros k n bs Hf Hp Hl Hk Hk32 E Hsize.
  { cbn in E. injection E as <-. exists []. rewrite app_nil_r. split_and!; [done..|]. by intros i b ?. }
  rewrite seqZ_cons in E by lia. replace (Z.pred (Z.of_nat (S count))) with (Z.of_nat count) in E by lia.
  cbn [xfor_each] in E. apply xbind_inv in E as ([] & n1 & H1 & E).
  assert (size_of (block_stream (_block_log n1)) <= size_of (block_stream (_block_log n'))) as Hg.
  { pose proof (xstable_for_each _ (seqZ (Z.succ k) (Z.of_nat count)) _ log_block_grows n1) as H.
    rewrite E in H. exact H. }
  destruct (log_block_spec k n n1 bs Hf Hp Hl Hk ltac:(lia) H1 ltac:(lia)) as (b & Hl1 & S1 & F1 & M1).
  rewrite <- F1 in Hf, Hp. 
  destruct (IH (Z.succ k) n1 (bs ++ [b]) Hf Hp Hl1 ltac:(rewrite length_app; simpl; lia) ltac:(lia) E Hsize)
    as (new & Hl2 & Hlen & S2 & F2 & M2).
  exists (b :: new). rewrite <- app_assoc in Hl2. split_and!; [done|by rewrite <- Hlen|congruence|congruence|].
  apply main_blocks_cons; [done|]. by rewrite <- F1.
Qed.


(** C22: the irreversible blocks go to the log, in order and without a gap: when the
    log held the blocks 1 to [n], it now also holds the following ones up to the last
    irreversible block, and each of them is the block of the main branch with that
    number, provided that the step that writes them succeeds. *)
Theorem irreversible_blocks_logged n n' bs :
  fork_reachable (_fork_db n) → (∀ p i, items (_fork_db n) !! p = Some i → packable (data i)) →
  holds (_block_log n) bs → skips (skip_flags n) skip_block_log = false →
  lib_of (state n) < 2 ^ 32 → Z.of_nat (length bs) < 2 ^ 32 →
  write_irreversible n = (Ok tt, n') → size_of (block_stream (_block_log n')) < 2 ^ 63 →
  ∃ new, holds (_block_log n') (bs ++ new) ∧
    Z.of_nat (length (bs ++ new)) = Z.max (Z.of_nat (length bs)) (lib_of (state n)) ∧
    main_blocks (_fork_db n) (Z.of_nat (length bs) + 1) new.
Proof.
  intros Hf Hp Hl Hs Hlib Hlen E Hsize. unfold write_irreversible in E.
  rewrite (xbind_Ok (xgets id) _ n n n eq_refl) in E. cbv zeta in E. fold (lib_of (state n)) in E.
  set (n1 := commit (lib_of (state n)) n).
  rewrite (xbind_Ok (xmodify (commit (lib_of (state n)))) _ n tt n1 eq_refl), Hs in E.
  apply xbind_inv in E as ([] & n2 & H & E).
  assert (match head (_block_log n) with Some b => block_num b | None => 0 end = Z.of_nat (length bs)) as En.
  { rewrite (holds_head _ _ Hl), last_lookup. destruct (bs !! pred (length bs)) as [b|] eqn:Eb.
    - rewrite (holds_nums _ _ Hl _ _ Eb). apply lookup_lt_Some in Eb. destruct (length bs); simpl in *; lia.
    - apply lookup_ge_None_1 in Eb. destruct (length bs); simpl in *; lia. }
  rewrite En in H.
  assert (size_of (block_stream (_block_log n2)) < 2 ^ 63) as Hsize2.
  { unfold xfork in E. destruct (set_max_size _ _) as [[[] f]|]; [|done]. by injection E as <-. }
  assert (_block_log n' = _block_log n2) as ->.
  { unfold xfork in E. destruct (set_max_size _ _) as [[[] f]|]; [|done]. by injection E as <-. }
  destruct (Z.le_gt_cases (lib_of (state n)) (Z.of_nat (length bs))) as [Hle|Hgt].
  - rewrite seqZ_nil in H by lia. injection H as <-. exists []. rewrite app_nil_r.
    split; [done|]. split; [lia|]. by intros i b ?.
  - replace (lib_of (state n) - Z.of_nat (length bs))
      with (Z.of_nat (Z.to_nat (lib_of (state n) - Z.of_nat (length bs)))) in H by lia.
    destruct (log_blocks_spec (Z.to_nat (lib_of (state n) - Z.of_nat (length bs))) (Z.of_nat (length bs) + 1)
      n1 n2 bs Hf Hp Hl eq_refl ltac:(lia) H Hsize2) as (new & H1 & H2 & _ & _ & H3).
    exists new. split; [done|]. split; [rewrite length_app; lia|done].
Qed.

End node.
