(* ===== verification/NodeDemo.v ===== *)
(** * NodeDemo: a node at work

    A concrete node on the chain of ChainSpec: the witnesses of NodeSpec, and a run
    that shows what a fork switch does to the fork database. *)

From S2P Require Import Prelude FcLib Tables Config Asset Names Authority Operations Transaction Block ForkDb ForkSpec BlockLog Reward Objects Ledger Invariants Supply Evaluators Conservation Demo Preservation LedgerSpec Payout Schedule ScheduleSpec Blocks BlocksSpec ChainSpec Node NodeSpec.

#[local] Existing Instances fc_ref demo_env demo_crypto block_ref demo_params.
#[local] Instance demo_signing : Signing := {|
  public_key_of k := k; sign_block k _ := k; header_pack_size := 120 |}.

(** [demo] at block 25, and the block whose id is its head. *)
Definition young_chain : chain :=
  demo <| gpo ::= λ g, g <| head_block_id := 2 ^ 40 + swap_bytes 25 |> <| head_block_number := 25 |>
    <| last_irreversible_block_num := 4 |> |>
    <| block_summaries := Table (list_to_map ((λ i, (i, BlockSummary 0)) <$> [26; 27; 28])) 65536 |>.
Definition head_block : signed_block := SignedBlock (swap_bytes 24) 256 "initminer" 0 [] 1 [].
Definition node_flags : Z := demo_flags + skip_block_log.
Definition demo_node : node :=
  Node young_chain [] 25 (after_fork (start_block head_block) empty_fork_database)
    (BlockLog [] [] None 0) [] false [] ∅ node_flags.

(** A block at slot [k] of the chain [s]. *)
Definition slot_block (k : Z) (s : chain) : signed_block :=
  (next_block [] s) <| timestamp := get_slot_time k s |>.
Definition push (b : signed_block) (n : node) : node := (push_block b node_flags n).2.

Definition fork_a1 : signed_block := slot_block 1 young_chain.
Definition fork_b1 : signed_block := slot_block 2 young_chain.
Definition fork_b2 : signed_block := slot_block 1 (after (_apply_block node_flags fork_b1) young_chain).

(** *** The pending transactions *)

Definition first_trx : signed_transaction := demo_trx 1 (demo_time + 60).
Lemma push_transaction_pending_witness :
  node_ok demo_node ∧
  clear_pending (push_transaction first_trx node_flags demo_node).2 = clear_pending demo_node ∧
  _pending_tx (push_transaction first_trx node_flags demo_node).2 = [first_trx].
Proof.
  split; [reflexivity|]. destruct (push_transaction_pending first_trx node_flags demo_node eq_refl) as (_ & H1 & H2).
  split; [exact H1|]. rewrite H2. vm_compute. reflexivity.
Defined.

Definition busy_node : node := (push_transaction first_trx node_flags demo_node).2.
Lemma busy_node_ok : node_ok busy_node.
Proof. by apply push_transaction_settles. Qed.
Definition made : result signed_block * node :=
  generate_block (get_slot_time 1 young_chain) "initminer" 1 node_flags busy_node.
Lemma generate_block_contents_witness :
  ∃ b n', made = (Ok b, n') ∧ block_transactions b = [first_trx] ∧
    previous b = head_block_id (gpo young_chain) ∧ ∃ s, pending_run (state (clear_pending busy_node)) [first_trx] s.
Proof.
  assert (∃ b n', made = (Ok b, n') ∧ block_transactions b = [first_trx]) as (b & n' & E & Hb).
  { assert (match made.1 with Ok b => block_transactions b = [first_trx] | Err _ => False end) as H
      by (vm_compute; reflexivity).
    destruct made as [[b|e] n']; [exists b, n'; split; [reflexivity|exact H]|destruct H]. }
  exists b, n'. split; [exact E|]. split; [exact Hb|].
  destruct (generate_block_contents _ _ _ _ busy_node b n' busy_node_ok E) as (_ & H1 & _ & _ & _ & _ & _ & H2).
  split; [rewrite H1; vm_compute; reflexivity|]. rewrite Hb in H2. exact H2.
Defined.

(** *** One block *)

Definition run_lib (b : signed_block) (n : node) : Z :=
  match apply_block_head node_flags b (state n) with Ok (_, s) => lib_of s | Err _ => 0 end.
Lemma reversible_run b n :
  checked_skip node_flags b n = Ok node_flags → (run_lib b n <=? revision n) = true → stays_reversible node_flags b n.
Proof.
  intros Hc Hl k s Ek Es. rewrite Hc in Ek. injection Ek as <-. unfold run_lib in Hl. rewrite Es in Hl. by apply Z.leb_le.
Qed.
Lemma demo_reversible : stays_reversible node_flags fork_a1 demo_node.
Proof. apply reversible_run; vm_compute; reflexivity. Qed.

Definition joins_head (b : signed_block) (n : node) : bool :=
  match fork_push_block b (_fork_db n) with
  | Ok (h, f) => match data <$> deref_item f h with Ok c => previous c =? head_id_of n | Err _ => true end
  | Err _ => true
  end.
Lemma no_switch_run b n : joins_head b n = true → no_switch b n.
Proof. unfold joins_head. intros H h f c Ef Ec. rewrite Ef, Ec in H. left. by apply Z.eqb_eq. Qed.
Lemma demo_no_switch : no_switch fork_a1 (clear_pending demo_node).
Proof. apply no_switch_run. vm_compute. reflexivity. Qed.
Lemma demo_clear : clear_pending demo_node = demo_node.
Proof. reflexivity. Qed.
Lemma demo_pushed : (push_block fork_a1 node_flags demo_node).1 = Ok false.
Proof. vm_compute. reflexivity. Qed.
Lemma demo_pushed_head : head_id_of (clear_pending (push fork_a1 demo_node)) ≠ head_id_of demo_node.
Proof. vm_compute. discriminate. Qed.
Lemma demo_unchecked : checked_skip node_flags fork_a1 demo_node = Ok node_flags.
Proof. reflexivity. Qed.

Lemma push_block_linear_witness :
  _apply_block node_flags fork_a1 (state (clear_pending demo_node)) =
    Ok (tt, state (clear_pending (push fork_a1 demo_node))).
Proof.
  pose proof (push_block_linear fork_a1 node_flags demo_node demo_no_switch) as H.
  specialize (H (eq_ind_r (stays_reversible node_flags fork_a1) demo_reversible demo_clear)).
  cbv zeta in H. rewrite demo_pushed in H. destruct H as (_ & [H|(k & Hk & H)]).
  - destruct demo_pushed_head. unfold head_id_of, push. rewrite H, demo_clear. reflexivity.
  - rewrite demo_unchecked in Hk. injection Hk as <-. exact H.
Defined.

(** [demo_node] when the fork database has taken the block. *)
Definition tracked : node := demo_node <| _fork_db ::= after_fork (fork_push_block fork_a1) |>.
Definition headed : result unit * node := push_on_head node_flags fork_a1 tracked.
Lemma headed_popped : headed.1 = Ok tt ∧ (pop_block headed.2).1 = Ok tt.
Proof. vm_compute. split; reflexivity. Qed.
Lemma tracked_reversible : stays_reversible node_flags fork_a1 tracked.
Proof. apply reversible_run; vm_compute; reflexivity. Qed.
Lemma pair_fst {A B} (p : A * B) a : p.1 = a → p = (a, p.2).
Proof. destruct p. by intros <-. Qed.

Lemma headed_run : push_on_head node_flags fork_a1 tracked = (Ok tt, headed.2).
Proof. apply pair_fst, headed_popped. Qed.
Lemma headed_pop : pop_block headed.2 = (Ok tt, (pop_block headed.2).2).
Proof. apply pair_fst, headed_popped. Qed.
Lemma tracked_settled : _pending_tx_session tracked = false.
Proof. reflexivity. Qed.

Lemma pop_block_undoes_push_witness :
  head_id_of headed.2 = block_id_of fork_a1 ∧ state (pop_block headed.2).2 = state tracked ∧
  revision (pop_block headed.2).2 = revision tracked.
Proof.
  destruct (pop_block_undoes_push node_flags fork_a1 tracked headed.2 (pop_block headed.2).2 tracked_settled
    tracked_reversible headed_run headed_pop) as (H1 & H2 & H3 & _).
  exact (conj H1 (conj H2 H3)).
Defined.

(** *** A fork switch

    Block [fork_a1], then the branch [fork_b1], [fork_b2] of the same block: the
    third push switches forks. *)

Definition forked_node : node := push fork_b1 (push fork_a1 demo_node).
Definition switched : result bool * node := _push_block fork_b2 forked_node.
Lemma demo_switches : switched.1 = Ok true.
Proof. vm_compute. reflexivity. Qed.

(** What a push does to the fork database. *)
Definition track (size : Z) (b : signed_block) (f : fork_database) : fork_database :=
  match fork_push_block b f with
  | Ok (h, f) => (after_fork (set_max_size size) (f <| held := [h] |>)) <| held := [] |>
  | Err _ => f
  end.
Lemma track_reachable size b f : fork_reachable f → fork_reachable (track size b f).
Proof.
  intros H. unfold track, after_fork. destruct (fork_push_block b f) as [[h g]|e] eqn:E; [|done].
  assert (fork_reachable g) as Hg by (eapply rtc_r; [exact H|by econstructor]).
  assert (alive g h = true) as Ha.
  { apply alive_true. right. left.
    by destruct (wp_ok _ _ _ _ _ (wpe_wp _ _ _ _ (fork_push_block_wpe _ b (reachable_wf _ H))) E) as (? & _ & Hh & _). }
  assert (fork_reachable (g <| held := [h] |>)) as Hk by (eapply rtc_r; [exact Hg|]; apply fork_step_hold; by constructor).
  eapply rtc_r; [|apply fork_step_hold; constructor].
  destruct (set_max_size size (g <| held := [h] |>)) as [[[] g']|e] eqn:E'; [|exact Hk].
  eapply rtc_r; [exact Hk|by econstructor].
Qed.
Lemma forked_node_tracked :
  ∃ a b, _fork_db forked_node =
    track b fork_b1 (track a fork_a1 (after_fork (start_block head_block) empty_fork_database)).
Proof. exists 22, 22. vm_compute. reflexivity. Qed.
Lemma forked_node_reachable : fork_reachable (_fork_db forked_node).
Proof.
  destruct forked_node_tracked as (a & b & ->). do 2 apply track_reachable.
  eapply rtc_once. unfold after_fork.
  destruct (start_block head_block empty_fork_database) as [[[] f]|e] eqn:E; [by econstructor|].
  vm_compute in E. discriminate E.
Qed.

Lemma switched_run : _push_block fork_b2 forked_node = (Ok true, switched.2).
Proof. apply pair_fst, demo_switches. Qed.

Lemma switch_to_longest_witness :
  ∃ h f c, fork_push_block fork_b2 (_fork_db forked_node) = Ok (h, f) ∧ block_at f h = Some c ∧
    head_id_of switched.2 = block_id_of c.
Proof.
  destruct (switch_to_longest fork_b2 forked_node switched.2 forked_node_reachable switched_run) as (h & f & c & H1 & H2 & _ & H3).
  exists h, f, c. exact (conj H1 (conj H2 H3)).
Defined.

Lemma forked_node_young : num_from_id (head_id_of forked_node) + 1 < 2 ^ 32.
Proof. vm_compute. reflexivity. Qed.
Lemma switch_leaves_head_behind_witness :
  ∃ c p, head_id_of switched.2 = block_id_of c ∧ _head (_fork_db switched.2) = Some p ∧
    item_num (_fork_db switched.2) p < block_num c.
Proof.
  destruct (switch_leaves_head_behind fork_b2 forked_node switched.2 forked_node_reachable forked_node_young switched_run) as (h & f & c & p & _ & _ & _ & H1 & H2 & H3).
  exists c, p. exact (conj H1 (conj H2 H3)).
Defined.

(** *** Irreversible blocks *)

(** The blocks of [demo_fork] on a chain whose last irreversible block is number 2. *)
Definition logging_node : node :=
  Node (young_chain <| gpo ::= λ g, g <| last_irreversible_block_num := 2 |> |>) [] 25 demo_fork
    (BlockLog [] [] None 0) [] false [] ∅ demo_flags.
Definition logged : result unit * node := write_irreversible logging_node.
Lemma logging_fork : _fork_db logging_node = demo_fork.
Proof. reflexivity. Qed.
Lemma logging_reachable : fork_reachable (_fork_db logging_node).
Proof. rewrite logging_fork. exact demo_fork_reachable. Qed.
Lemma logging_packable p i : items (_fork_db logging_node) !! p = Some i → packable (data i).
Proof.
  rewrite logging_fork. intros Hi.
  assert (Forall packable (data <$> items demo_fork)) as H.
  { assert (data <$> items demo_fork = [block_a1; block_a2; block_a3; block_b2; block_b3; block_b4]) as ->
      by (vm_compute; reflexivity).
    repeat apply Forall_cons_2; [..|constructor]; vm_compute; repeat split; discriminate. }
  rewrite Forall_fmap, Forall_lookup in H. exact (H p i Hi).
Qed.
Lemma logging_log : holds (_block_log logging_node) [].
Proof.
  split; [reflexivity..|intros i b Hi; discriminate Hi|reflexivity|constructor].
Qed.
Lemma logging_flags : skips (skip_flags logging_node) skip_block_log = false.
Proof. vm_compute. reflexivity. Qed.
Lemma logging_bounds : lib_of (state logging_node) = 2 ∧ lib_of (state logging_node) < 2 ^ 32 ∧ Z.of_nat 0 < 2 ^ 32.
Proof. vm_compute. repeat split. Qed.
Lemma logged_ok : logged.1 = Ok tt ∧ size_of (block_stream (_block_log logged.2)) < 2 ^ 63.
Proof. vm_compute. split; reflexivity. Qed.
Lemma logged_run : write_irreversible logging_node = (Ok tt, logged.2).
Proof. apply pair_fst, logged_ok. Qed.

Lemma irreversible_blocks_logged_witness :
  ∃ new, holds (_block_log logged.2) new ∧ length new = 2%nat ∧ main_blocks demo_fork 1 new.
Proof.
  destruct logging_bounds as (E & H32 & H0).
  destruct (irreversible_blocks_logged logging_node logged.2 [] logging_reachable logging_packable logging_log
    logging_flags H32 H0 logged_run (proj2 logged_ok)) as (new & H1 & H2 & H3).
  exists new. rewrite E in H2. rewrite logging_fork in H3.
  split; [exact H1|]. split; [|exact H3]. apply Nat2Z.inj. exact H2.
Defined.
