(* ===== verification/Startup.v ===== *)
(** * Startup: opening, replaying and closing a node

    [libraries/chain/database.cpp:93-227] and the part of [startup] in
    [libraries/app/application.cpp] that calls it.  The chain state lives in a shared
    memory file that survives the process: [state], [undo_states] and [revision] of
    [node] are what the file holds.  A genesis that throws half way is left out. *)

From S2P Require Import Prelude FcLib Tables Config Asset Names Authority Operations Transaction Block ForkDb BlockLog Reward Objects Ledger Invariants Evaluators Payout Schedule Blocks Node.

(** The node with what decides how it opens: [stored] says whether the file holds a chain
    ([find< dynamic_global_property_object >()]), [indexes_added] whether the process has
    registered the indices ([_index_map] of chainbase.hpp). *)
Record server := Server {
  node_of : node;
  stored : bool;
  indexes_added : bool
}.
#[global] Instance server_eta : Eta server := λ r, Server (node_of r) (stored r) (indexes_added r).

Definition xnode {A} (m : X node A) : X server A := λ d,
  let r := m (node_of d) in (r.1, d <| node_of := r.2 |>).
(** [catch( e& )] *)
Definition xcatch_exn {S} (e : exn) (m h : X S unit) : X S unit := λ s,
  let r := m s in match r.1 with Err e' => if decide (e' = e) then h r.2 else r | Ok _ => r end.

(** chainbase.hpp:458 *)
Definition undo_all (n : node) : node := Nat.iter (length (undo_states n)) undo n.
(** chainbase.hpp:464 *)
Definition set_revision (r : Z) : X node unit :=
  n ← xgets id;
  match undo_states n with
  | [] => xmodify (λ n, n <| revision := r |>)
  | _ => xthrow logic_error
  end.

(** application.cpp:327-346 *)
Record startup_options := StartupOptions {
  resync_blockchain : bool;
  replay_blockchain : bool;
  loaded_checkpoints : list (Z * Z)
}.

Section startup.
Context `{FC : FcLib} `{ENV : EvalEnv} `{CR : Crypto} `{BL : BlockLib} `{CP : ChainParams}
  `{HF : Hardforks} `{BP : BlockPack}.

(** ** Closing *)

(** database.cpp:210 *)
Definition close (n : node) : node :=
  (clear_pending n) <| _block_log ::= BlockLog.close |> <| _fork_db ::= fork_reset |>.
(** chainbase.cpp:122: the next open creates an empty file *)
Definition wipe_state (d : server) : server :=
  d <| node_of ::= λ n, n <| state := empty_chain |> <| undo_states := [] |> <| revision := 0 |> |>
    <| stored := false |> <| indexes_added := false |>.
(** database.cpp:199 *)
Definition wipe (include_blocks : bool) (d : server) : server :=
  let d := wipe_state (d <| node_of ::= close |>) in
  if include_blocks then d <| node_of ::= λ n, n <| _block_log := BlockLog [] [] None 0 |> |> else d.

(** ** Opening *)

(** database.cpp:1715: [add_index] throws for a type that is registered already. *)
Definition initialize_indexes : X server unit :=
  d ← xgets id;
  if indexes_added d then xthrow logic_error else xmodify (λ d, d <| indexes_added := true |>).
(** database.cpp:116-122: back to the last irreversible block *)
Definition rewind : X node unit :=
  xmodify undo_all;;
  n ← xgets id;
  xassert (revision n =? head_num_of n);;
  xlift (validate_invariants (state n)).
(** database.cpp:124-131 *)
Definition check_head : X node unit :=
  n ← xgets id;
  if head_num_of n =? 0 then mret tt
  else
    head_block ← xlift (read_block_by_num (head_num_of n) (_block_log n));
    match head_block with
    | None => xthrow assert_exception
    | Some b =>
      xassert (block_id_of b =? head_id_of n);;
      xfork (start_block b)
    end.
(** database.cpp:93 with [read_write] *)
Definition open (initial_supply : Z) : X server unit :=
  initialize_indexes;;
  d ← xgets id;
  (if stored d then mret tt
   else xnode (xchain (init_genesis initial_supply));; xmodify (λ d, d <| stored := true |>));;
  xnode (xlog BlockLog.open;; rewind;; check_head;; xchain init_hardforks).

(** ** Replaying the block log *)

(** database.cpp:158 *)
Definition reindex_flags : Z :=
  foldr Z.lor 0 [skip_witness_signature; skip_transaction_signatures; skip_transaction_dupe_check; skip_tapos_check;
    skip_merkle_check; skip_witness_schedule_check; skip_authority_check; skip_validate; skip_validate_invariants;
    skip_block_log].
(** database.cpp:172-185; [itr] is a block and the position behind it *)
Fixpoint replay_loop (fuel : nat) (last_block_num : Z) (itr : signed_block * Z) : X node unit :=
  if block_num itr.1 =? last_block_num then apply_block reindex_flags itr.1
  else
    match fuel with
    | O => xthrow out_of_fuel
    | S fuel =>
      apply_block reindex_flags itr.1;;
      n ← xgets id;
      itr ← xlift (read_block itr.2 (_block_log n));
      replay_loop fuel last_block_num itr
    end.
(** database.cpp:170-187; every block takes at least the bytes of a position *)
Definition replay (head_block : signed_block) : X node unit :=
  n ← xgets id;
  itr ← xlift (read_block 0 (_block_log n));
  replay_loop (length (block_stream (_block_log n))) (block_num head_block) itr;;
  n ← xgets id;
  set_revision (head_num_of n).
(** database.cpp:142 *)
Definition reindex : X server unit :=
  xmodify (wipe false);;
  open WLS_INIT_SUPPLY;;
  xnode
    (xmodify (λ n, n <| _fork_db ::= fork_reset |>);;
     n ← xgets id;
     head_block ← xlift (of_option block_log_exception (head (_block_log n)));
     replay head_block;;
     xwhen (negb (block_num head_block =? 0)) (xfork (start_block head_block))).

(** ** Starting the application *)

(** application.cpp:345-370 *)
Definition open_or_reindex : X server unit :=
  xcatch_exn assert_exception (open WLS_INIT_SUPPLY)
    (xcatch_exn block_log_exception reindex (open WLS_INIT_SUPPLY)).
(** application.cpp:325-371 *)
Definition startup (o : startup_options) : X server unit :=
  (if resync_blockchain o then xmodify (wipe true) else mret tt);;
  xnode (xmodify (add_checkpoints (loaded_checkpoints o)));;
  (if replay_blockchain o then reindex else open_or_reindex).
End startup.
