(* ===== verification/Replay.v ===== *)
(** * Replay: what applying a block does without the checks

    A node that replays its block log applies the blocks with almost every check turned
    off, and keeps no list of known transactions.  Nothing else of the chain state
    depends on that list or on the checks. *)

From S2P Require Import Prelude FcLib Tables Config Asset Names Authority Operations Transaction Block Reward Objects Ledger Invariants Evaluators Payout Schedule ScheduleSpec Blocks.

(** ** Operations that commute with a map of the states *)

Section commutes.
Context {S : Type} (φ : S → S).

(** [m] does the same from [φ s] as from [s], exceptions included. *)
Definition commutes {A} (m : M S A) : Prop := ∀ s, m (φ s) = (λ r, (r.1, φ r.2)) <$> m s.

Lemma commutes_ret {A} (a : A) : commutes (mret a).
Proof. done. Qed.
Lemma commutes_lift {A} (r : result A) : commutes (lift r).
Proof. intros s. unfold lift. by destruct r. Qed.
Lemma commutes_throw {A} e : commutes (throw (A := A) e).
Proof. done. Qed.
Lemma commutes_gets {A} (f : S → A) : (∀ s, f (φ s) = f s) → commutes (gets f).
Proof. intros H s. unfold gets. cbn. by rewrite H. Qed.
Lemma commutes_modify f : (∀ s, f (φ s) = φ (f s)) → commutes (modify f).
Proof. intros H s. unfold modify. cbn. by rewrite H. Qed.
Lemma commutes_bind {A B} (m : M S A) (k : A → M S B) :
  commutes m → (∀ a, commutes (k a)) → commutes (m ≫= k).
Proof.
  intros Hm Hk s. unfold mbind, M_bind. rewrite Hm. destruct (m s) as [[a s']|e]; cbn; [apply Hk|done].
Qed.
(** A read of which the rest sees no difference. *)
Lemma commutes_read {A B} (f : S → A) (k : A → M S B) :
  (∀ s s', k (f (φ s)) s' = k (f s) s') → (∀ a, commutes (k a)) → commutes (gets f ≫= k).
Proof. intros Hf Hk s. unfold gets, mbind, M_bind. rewrite Hf. apply Hk. Qed.
Lemma commutes_for_each {A} (l : list A) f : (∀ x, commutes (f x)) → commutes (for_each l f).
Proof. intros Hf. induction l as [|x l IH]; [done|]. by apply commutes_bind. Qed.
Lemma commutes_fold_m {A B} (l : list A) (f : B → A → M S B) acc :
  (∀ acc x, commutes (f acc x)) → commutes (fold_m l f acc).
Proof. intros Hf. revert acc. induction l as [|x l IH]; intros acc; [done|]. by apply commutes_bind. Qed.
Lemma commutes_while_fuel n (body : M S bool) : commutes body → commutes (while_fuel n body).
Proof. intros Hb. induction n as [|n IH]; [done|]. apply commutes_bind; [done|]. by intros []. Qed.
Lemma commutes_loop_log {L T} n (body : L → M S (L + T)) l :
  (∀ l, commutes (body l)) → commutes (loop_log n body l).
Proof.
  intros Hb. apply commutes_bind; [|by intros []].
  revert l. induction n as [|n IH]; intros l; [apply Hb|]. apply commutes_bind; [apply IH|]. by intros [].
Qed.
(** A run from [s] gives a run from [φ s]. *)
Lemma commutes_run {A} (m : M S A) s a s' : commutes m → m s = Ok (a, s') → m (φ s) = Ok (a, φ s').
Proof. intros Hm E. by rewrite Hm, E. Qed.
End commutes.
Create HintDb commutes discriminated.
#[export] Hint Resolve commutes_ret commutes_lift commutes_throw : commutes.

(** The state without the list of known transactions. *)
Definition forget (s : chain) : chain := s <| transactions := empty_table |>.
Abbreviation oblivious := (commutes forget).

(** Follows the code and unfolds what it calls. *)
Ltac oblivious_step :=
  lazymatch goal with
  | |- commutes _ (mbind _ (gets _)) => first
      [ apply commutes_bind; [apply commutes_gets; intros ?; reflexivity|intros ?]
      | apply commutes_read; [intros ? ?; reflexivity|intros ?] ]
  | |- commutes _ (mbind _ _) => apply commutes_bind; [|intros ?]
  | |- commutes _ (gets _) => apply commutes_gets; intros ?; reflexivity
  | |- commutes _ (modify _) => apply commutes_modify; intros ?; reflexivity
  | |- commutes _ (match ?o with _ => _ end) => destruct o
  | |- commutes _ (for_each _ _) => apply commutes_for_each; intros ?
  | |- commutes _ (fold_m _ _ _) => apply commutes_fold_m; intros ? ?
  | |- commutes _ (while_fuel _ _) => apply commutes_while_fuel
  | |- commutes _ (loop_log _ _ _) => apply commutes_loop_log; intros ?
  | |- commutes _ _ => solve [auto with commutes]
  end.
Ltac unfold_head :=
  lazymatch goal with
  | |- commutes _ ?m => let h := match m with ?h _ _ _ _ _ _ _ _ => h | ?h _ _ _ _ _ _ _ => h | ?h _ _ _ _ _ _ => h
      | ?h _ _ _ _ _ => h | ?h _ _ _ _ => h | ?h _ _ _ => h | ?h _ _ => h | ?h _ => h | ?h => h end in
    progress unfold h
  end.
Ltac oblivious := repeat first [ oblivious_step | progress simpl | unfold_head ].

Section replay.
Context `{FC : FcLib} `{ENV : EvalEnv}.

Lemma adjust_proxied_oblivious rem a d : oblivious (adjust_proxied_witness_votes_rec rem a d).
Proof. revert a d. induction rem as [|rem IH]; intros a d; simpl; oblivious; apply IH. Qed.
Lemma adjust_proxied_array_oblivious rem a d : oblivious (adjust_proxied_witness_votes_array_rec rem a d).
Proof. revert a d. induction rem as [|rem IH]; intros a d; simpl; oblivious; apply IH. Qed.
Hint Resolve adjust_proxied_oblivious adjust_proxied_array_oblivious : commutes.
Lemma touch_ancestors_oblivious n d now p : oblivious (touch_ancestors n d now p).
Proof. revert p. induction n as [|n IH]; intros p; simpl; oblivious; apply IH. Qed.
Lemma check_proxy_chain_oblivious rem seen c : oblivious (check_proxy_chain rem seen c).
Proof. revert seen c. induction rem as [|rem IH]; intros seen c; simpl; oblivious; apply IH. Qed.
Hint Resolve touch_ancestors_oblivious check_proxy_chain_oblivious : commutes.

Lemma apply_operation_oblivious op : oblivious (apply_operation op).
Proof. destruct op; simpl; oblivious. Qed.

Context `{CR : Crypto} `{BL : BlockLib} `{CP : ChainParams} `{HF : Hardforks}.
Lemma write_funds_oblivious i l : oblivious (write_funds i l).
Proof. revert i. induction l as [|f l IH]; intros i; simpl; oblivious; apply IH. Qed.
Lemma advance_virtual_time_oblivious vt l : oblivious (advance_virtual_time vt l).
Proof. induction l as [|x l IH]; simpl; oblivious; apply IH. Qed.
Hint Resolve write_funds_oblivious advance_virtual_time_oblivious : commutes.

(** The steps after the expiry of transactions. *)
Definition after_expiry : M chain unit :=
  update_witness_schedule;; clear_null_account_balance;; process_funds;; process_comment_cashout;;
  process_vesting_withdrawals;; process_hardforks.
Lemma after_expiry_oblivious : oblivious after_expiry.
Proof. oblivious. Qed.
Lemma create_block_summary_oblivious b : oblivious (create_block_summary b).
Proof. oblivious. Qed.
Lemma header_extensions_oblivious b : oblivious (process_header_extensions b).
Proof. oblivious. Qed.
Lemma signing_witness_oblivious i b : oblivious (update_signing_witness i b).
Proof. oblivious. Qed.
Lemma irreversible_oblivious : oblivious update_last_irreversible_block.
Proof. oblivious. Qed.
Lemma miss_block_oblivious b i : oblivious (miss_block b i).
Proof. oblivious. Qed.

(** ** Fewer checks, the same effect *)

(** When [m] succeeds, so does [m'] without the list of known transactions. *)
Definition relaxes {A} (m m' : M chain A) : Prop :=
  ∀ s a s', m s = Ok (a, s') → m' (forget s) = Ok (a, forget s').

Lemma relaxes_oblivious {A} (m : M chain A) : oblivious m → relaxes m m.
Proof. intros Hm s a s'. by apply commutes_run. Qed.
Lemma relaxes_bind {A B} (m m' : M chain A) (k k' : A → M chain B) :
  relaxes m m' → (∀ a, relaxes (k a) (k' a)) → relaxes (m ≫= k) (m' ≫= k').
Proof.
  intros Hm Hk s b s'. unfold mbind, M_bind. destruct (m s) as [[a s1]|e] eqn:E; [|done].
  rewrite (Hm _ _ _ E). apply Hk.
Qed.
Lemma relaxes_for_each {A} (l : list A) f f' : (∀ x, relaxes (f x) (f' x)) → relaxes (for_each l f) (for_each l f').
Proof. intros Hf. induction l as [|x l IH]; [by intros s a s' [= <- <-]|]. by apply relaxes_bind. Qed.
Lemma relaxes_skip (m : M chain unit) : stable (λ s s', forget s' = forget s) m → relaxes m (mret tt).
Proof. intros Hf s [] s' E. by rewrite (wp_ok _ _ _ _ _ (Hf s) E). Qed.
(** A part that may be left out changes at most the list of known transactions. *)
Lemma relaxes_when (b b' : bool) (m m' : M chain unit) :
  (b' = true → b = true) → relaxes m m' → stable (λ s s', forget s' = forget s) m → relaxes (when b m) (when b' m').
Proof.
  intros Hb Hm Hf s [] s'. destruct b; cbn [when].
  - destruct b'; cbn [when]; [apply Hm|]. intros E. by rewrite (wp_ok _ _ _ _ _ (Hf s) E).
  - destruct b'; [by specialize (Hb eq_refl)|]. by intros [= <-].
Qed.

Lemma relaxes_read {A B} (f : chain → A) (k k' : A → M chain B) :
  (∀ x x', relaxes (k x) (k' x')) → relaxes (gets f ≫= k) (gets f ≫= k').
Proof. intros Hk s b s'. apply Hk. Qed.
Lemma relaxes_assert (b b' : bool) : (b = true → b' = true) → relaxes (assert b) (assert b').
Proof. intros Hb s [] s'. destruct b; [|done]. rewrite (Hb eq_refl). by intros [= <-]. Qed.

(** [skip'] turns off whatever [skip] does. *)
Definition subsumes (skip skip' : Z) : Prop := Z.land skip skip' = skip.
Lemma subsumes_skips skip skip' flags :
  subsumes skip skip' → negb (skips skip' flags) = true → negb (skips skip flags) = true.
Proof.
  unfold subsumes, skips. rewrite !negb_involutive, !Z.eqb_eq. intros <- H. by rewrite <- Z.land_assoc, H, Z.land_0_r.
Qed.

#[local] Instance forgotten_preorder : PreOrder (λ s s' : chain, forget s' = forget s).
Proof. split; [done|]. intros s1 s2 s3 H1 H2. congruence. Qed.
Ltac forgotten := repeat first [ progress stable ltac:(reflexivity) | done | progress simpl
  | lazymatch goal with |- stable _ ?m => let h := match m with ?h _ _ _ => h | ?h _ _ => h | ?h _ => h | ?h => h end in unfold h end ].

Context (skip skip' : Z).
Hypothesis weaker : subsumes skip skip'.
Hypothesis no_dupe_check : skips skip' skip_transaction_dupe_check = true.

Lemma check_merkle_relaxes b : relaxes (check_merkle skip b) (check_merkle skip' b).
Proof. apply relaxes_when; [by apply subsumes_skips|apply relaxes_oblivious; oblivious|forgotten]. Qed.

Lemma check_expiration_relaxes t : relaxes (check_expiration skip t) (check_expiration skip' t).
Proof.
  unfold check_expiration. apply relaxes_bind; [|intros _; apply relaxes_oblivious; oblivious].
  apply relaxes_when; [by apply subsumes_skips|apply relaxes_oblivious; oblivious|forgotten].
Qed.

Lemma transaction_relaxes t : relaxes (_apply_transaction skip t) (_apply_transaction skip' t).
Proof.
  unfold _apply_transaction.
  apply relaxes_bind; [apply relaxes_when; [by apply subsumes_skips|apply relaxes_oblivious; oblivious|forgotten]|intros _].
  apply relaxes_read; intros x x'. apply relaxes_bind; [by apply relaxes_assert; rewrite no_dupe_check|intros _].
  apply relaxes_bind; [apply relaxes_when; [by apply subsumes_skips|apply relaxes_oblivious; oblivious|forgotten]|intros _].
  apply relaxes_bind; [apply relaxes_oblivious; oblivious|intros n].
  apply relaxes_bind; [destruct (0 <? n); [apply check_expiration_relaxes|by apply relaxes_oblivious]|intros _].
  apply relaxes_bind; [|intros _; apply relaxes_oblivious, commutes_for_each, apply_operation_oblivious].
  rewrite no_dupe_check. apply relaxes_skip. destruct (negb _); forgotten.
Qed.

Lemma validate_header_relaxes b : relaxes (validate_block_header skip b) (validate_block_header skip' b).
Proof.
  unfold validate_block_header.
  do 5 (apply relaxes_bind; [apply relaxes_oblivious; oblivious|intros ?]).
  apply relaxes_bind; [apply relaxes_when; [by apply subsumes_skips|apply relaxes_oblivious; oblivious|forgotten]|intros _].
  apply relaxes_bind; [|intros _; by apply relaxes_oblivious].
  apply relaxes_when; [by apply subsumes_skips|apply relaxes_oblivious; oblivious|forgotten].
Qed.

Lemma global_data_relaxes b : relaxes (update_global_dynamic_data skip b) (update_global_dynamic_data skip' b).
Proof.
  unfold update_global_dynamic_data.
  apply relaxes_bind; [apply relaxes_oblivious; oblivious|intros now].
  apply relaxes_bind; [apply relaxes_oblivious; oblivious|intros missed].
  do 2 (apply relaxes_bind; [apply relaxes_oblivious; oblivious|intros ?]).
  apply relaxes_when; [by apply subsumes_skips|apply relaxes_oblivious; oblivious|forgotten].
Qed.

Lemma block_head_relaxes b : relaxes (apply_block_head skip b) (apply_block_head skip' b).
Proof.
  unfold apply_block_head.
  apply relaxes_bind; [apply check_merkle_relaxes|intros _].
  apply relaxes_bind; [apply validate_header_relaxes|intros w].
  do 7 (apply relaxes_bind; [apply relaxes_oblivious; oblivious|intros ?]).
  apply relaxes_bind; [apply relaxes_for_each, transaction_relaxes|intros _].
  apply relaxes_bind; [apply global_data_relaxes|intros _].
  apply relaxes_oblivious. oblivious.
Qed.

(** Without the list no transaction expires. *)
Lemma clear_expired_relaxes : relaxes clear_expired_transactions clear_expired_transactions.
Proof.
  assert (relaxes clear_expired_transactions (mret tt)) as H by (apply relaxes_skip; forgotten). exact H.
Qed.
Lemma block_tail_relaxes b : relaxes (apply_block_tail b) (apply_block_tail b).
Proof.
  unfold apply_block_tail. apply relaxes_bind; [apply relaxes_oblivious; oblivious|intros _].
  apply relaxes_bind; [apply clear_expired_relaxes|intros _]. apply relaxes_oblivious, after_expiry_oblivious.
Qed.
Lemma block_relaxes b : relaxes (_apply_block skip b) (_apply_block skip' b).
Proof. apply relaxes_bind; [apply block_head_relaxes|intros _; apply block_tail_relaxes]. Qed.

Lemma blocks_relax bs : relaxes (for_each bs (_apply_block skip)) (for_each bs (_apply_block skip')).
Proof. apply relaxes_for_each, block_relaxes. Qed.

Lemma n_times_oblivious n m : oblivious m → oblivious (n_times n m).
Proof.
  intros Hm. unfold n_times. destruct n as [|p|p]; [apply commutes_ret| |apply commutes_ret].
  simpl. apply Pos.iter_invariant; [|apply commutes_ret]. intros rest Hr. by apply commutes_bind.
Qed.
Lemma retally_ancestors_oblivious fuel c : oblivious (retally_ancestors fuel c).
Proof. revert c. induction fuel as [|fuel IH]; intros c; simpl; oblivious; apply IH. Qed.
Hint Resolve retally_ancestors_oblivious : commutes.
#[local] Arguments n_times : simpl never.
Lemma genesis_summaries_oblivious n x : oblivious (n_times n (create_plain block_summaries x)).
Proof. apply n_times_oblivious. oblivious. Qed.
Hint Resolve genesis_summaries_oblivious : commutes.
Lemma init_genesis_oblivious supply : oblivious (init_genesis supply).
Proof. unfold init_genesis. oblivious. Qed.
(** A new chain knows no transaction. *)
Lemma genesis_forgets supply s : init_genesis supply empty_chain = Ok (tt, s) → forget s = s.
Proof.
  intros E. pose proof (commutes_run _ _ _ _ _ (init_genesis_oblivious supply) E) as H.
  change (forget empty_chain) with empty_chain in H. rewrite E in H. by injection H.
Qed.
End replay.
