(* ===== verification/StartupSpec.v ===== *)
(** * StartupSpec: what a node finds again when it starts

    A node resumes at its last irreversible block; when its chain state does not fit the
    block log it applies the log from the genesis again and reaches the same state. *)

From S2P Require Import Prelude FcLib Tables Config Asset Names Authority Operations Transaction Block ForkDb ForkSpec BlockLog Reward Objects Ledger Invariants Supply Evaluators Conservation Demo Preservation LedgerSpec Payout Schedule ScheduleSpec Blocks BlocksSpec ChainSpec Node NodeSpec Startup Replay.

Section startup.
Context `{FC : FcLib} `{ENV : EvalEnv} `{CR : Crypto} `{BL : BlockLib} `{CP : ChainParams}
  `{HF : Hardforks} `{BP : BlockPack}.
Implicit Types (n : node) (d : server).

(** ** Replaying blocks *)

(** The chain of a replaying node: no undo state, no head in the fork database, no
    checkpoint. *)
Record replaying n (bs : list signed_block) (s : chain) : Prop := {
  re_state : state n = s;
  re_undo : undo_states n = [];
  re_head : _head (_fork_db n) = None;
  re_index : _index (_fork_db n) = [];
  re_log : holds (_block_log n) bs;
  re_checkpoints : last_checkpoint n = None
}.

Lemma apply_block_replaying n bs s b s' :
  replaying n bs s → _apply_block reindex_flags b s = Ok (tt, s') →
  ∃ n', apply_block reindex_flags b n = (Ok tt, n') ∧ replaying n' bs s'.
Proof.
  intros [<- Hu Hh Hi Hl Hc] E. unfold apply_block, checked_skip.
  rewrite (xbind_Ok (xgets id) _ n n n eq_refl), Hc.
  rewrite (xbind_Ok (xlift _) _ n reindex_flags n eq_refl).
  unfold _apply_block, mbind, M_bind in E.
  destruct (apply_block_head reindex_flags b (state n)) as [[[] s1]|e] eqn:E1; [|done].
  rewrite with_skip_flags_eq. unfold node_apply_block. set (n0 := n <| skip_flags := reindex_flags |>).
  set (n1 := n0 <| state := s1 |>).
  assert (xchain (apply_block_head reindex_flags b) n0 = (Ok tt, n1)) as X1.
  { unfold xchain. change (state n0) with (state n). by rewrite E1. }
  rewrite (xbind_Ok _ _ _ _ _ X1). clear X1.
  set (k := wrap 32 (wrap 32 (head_num_of n1 - last_irreversible_block_num (gpo s1)) + 1)).
  set (n2 := n1 <| _fork_db ::= λ f, f <| _max_size := k |> |>).
  assert (write_irreversible n1 = (Ok tt, n2)) as X2.
  { unfold write_irreversible. rewrite (xbind_Ok (xgets id) _ n1 n1 n1 eq_refl). cbv zeta.
    assert (commit (last_irreversible_block_num (gpo (state n1))) n1 = n1) as Hcm.
    { unfold commit, n1, n0. destruct n. cbn in Hu |- *. by rewrite Hu. }
    rewrite (xbind_Ok (xmodify _) _ n1 tt n1) by (unfold xmodify; by rewrite Hcm).
    rewrite (xbind_Ok _ _ n1 tt n1 eq_refl). unfold xfork, set_max_size.
    unfold modify, gets, mbind, M_bind. cbn. unfold n2, update. cbn. by rewrite Hh. }
  rewrite (xbind_Ok _ _ _ _ _ X2). unfold xchain. change (state n2) with s1. rewrite E.
  eexists. split; [reflexivity|]. by split.
Qed.

Lemma replay_loop_spec n bs s s' i b fuel :
  replaying n bs s → bs !! i = Some b → (length bs ≤ i + S fuel)%nat → Z.of_nat (length bs) < 2 ^ 32 →
  for_each (drop i bs) (_apply_block reindex_flags) s = Ok (tt, s') →
  ∃ n', replay_loop fuel (Z.of_nat (length bs)) (b, start_of bs (S i)) n = (Ok tt, n') ∧ replaying n' bs s'.
Proof.
  revert n s i b. induction fuel as [|fuel IH]; intros n s i b Hn Hb Hf Hlen E;
    pose proof (lookup_lt_Some _ _ _ Hb); rewrite (drop_S _ _ _ Hb) in E; cbn [for_each] in E;
    unfold mbind, M_bind in E; destruct (_apply_block reindex_flags b s) as [[[] s1]|e] eqn:E1; [|done| |done];
    destruct (apply_block_replaying n bs s b s1 Hn E1) as (n1 & X1 & Hn1); cbn [replay_loop fst snd];
    rewrite (holds_nums _ _ (re_log _ _ _ Hn) _ _ Hb).
  - rewrite (proj2 (Z.eqb_eq _ _)) by lia. exists n1. rewrite drop_ge in E by lia. injection E as <-. done.
  - destruct (Z.eqb_spec (Z.of_nat i + 1) (Z.of_nat (length bs))) as [He|He].
    + exists n1. rewrite drop_ge in E by lia. injection E as <-. done.
    + rewrite (xbind_Ok _ _ _ _ _ X1), (xbind_Ok (xgets id) _ n1 n1 n1 eq_refl).
      destruct (lookup_lt_is_Some_2 bs (S i)) as [b' Hb']; [lia|].
      pose proof (re_log _ _ _ Hn1) as Hl.
      rewrite (read_block_at _ _ _ _ (holds_packable _ _ Hl) (holds_blocks _ _ Hl) Hb').
      rewrite (xbind_Ok (xlift _) _ n1 (b', start_of bs (S (S i))) n1 eq_refl).
      by apply (IH n1 s1 (S i) b' Hn1 Hb' ltac:(lia) Hlen).
Qed.

Lemma replay_spec n bs s s' b :
  replaying n bs s → last bs = Some b → Z.of_nat (length bs) < 2 ^ 32 →
  for_each bs (_apply_block reindex_flags) s = Ok (tt, s') →
  ∃ n', replay b n = (Ok tt, n') ∧ replaying n' bs s' ∧ revision n' = head_block_number (gpo s').
Proof.
  intros Hn Hb Hlen E. pose proof (re_log _ _ _ Hn) as Hl.
  assert (block_num b = Z.of_nat (length bs)) as Enum.
  { rewrite last_lookup in Hb. rewrite (holds_nums _ _ Hl _ _ Hb). apply lookup_lt_Some in Hb. lia. }
  destruct bs as [|b0 bs0] eqn:Ebs; [done|]. rewrite <- Ebs in *. assert (bs !! 0%nat = Some b0) as H0 by by rewrite Ebs.
  unfold replay. rewrite (xbind_Ok (xgets id) _ n n n eq_refl).
  change 0 with (start_of bs 0) at 1.
  rewrite (read_block_at _ _ _ _ (holds_packable _ _ Hl) (holds_blocks _ _ Hl) H0).
  rewrite (xbind_Ok (xlift _) _ n (b0, start_of bs 1) n eq_refl), Enum.
  destruct (replay_loop_spec n bs s s' 0 b0 (length (block_stream (_block_log n))) Hn H0) as (n1 & X1 & Hn1);
    [|done|done|].
  { rewrite (holds_blocks _ _ Hl). pose proof (log_bytes_length 0 bs). lia. }
  rewrite (xbind_Ok _ _ _ _ _ X1), (xbind_Ok (xgets id) _ n1 n1 n1 eq_refl).
  unfold set_revision. rewrite (xbind_Ok (xgets id) _ n1 n1 n1 eq_refl), (re_undo _ _ _ Hn1).
  eexists. split; [reflexivity|]. split; [destruct Hn1; by split|]. cbn. unfold head_num_of. by rewrite (re_state _ _ _ Hn1).
Qed.

(** ** Opening *)

(** The state at the last irreversible block: the oldest state that can be undone to. *)
Definition base_of n : chain := match last (undo_states n) with Some u => u.2 | None => state n end.
Lemma undo_all_eq n :
  undo_all n = n <| state := base_of n |> <| undo_states := [] |> <| revision := revision n - Z.of_nat (length (undo_states n)) |>.
Proof.
  unfold undo_all, base_of. destruct n as [s us r f l p ps po c k]. cbn [undo_states state revision].
  revert s r. induction us as [|u us IH]; intros s r.
  { cbn. by rewrite Z.sub_0_r. }
  cbn [length]. rewrite Nat.iter_succ_r. change (undo _) with (Node u.2 us (Z.pred r) f l p ps po c k). rewrite IH.
  unfold update. cbn. f_equal; [|lia].
  rewrite last_cons. by destruct (last us).
Qed.

Lemma init_hardforks_state s s' : init_hardforks s = Ok (tt, s') → s' = s.
Proof.
  assert (stable eq init_hardforks) as H by (unfold init_hardforks; stable idtac). intros E.
  symmetry. exact (wp_ok _ _ _ _ _ (H s) E).
Qed.

(** A chain that a node may start with. *)
Definition sound_start (s : chain) : Prop := validate_invariants s = Ok tt ∧ init_hardforks s = Ok (tt, s).

(** What a node does with the chain it finds, when its log has been opened. *)
Definition resume : X node unit := rewind;; check_head;; xchain init_hardforks.
Lemma resume_spec n bs :
  holds (_block_log n) bs → Z.of_nat (length bs) < 2 ^ 32 → sound_start (base_of n) →
  revision n - Z.of_nat (length (undo_states n)) = head_block_number (gpo (base_of n)) →
  let n1 := undo_all n in
  let k := head_block_number (gpo (base_of n)) in
  resume n =
    if k =? 0 then (Ok tt, n1)
    else match (if 0 <? k then bs !! Z.to_nat (k - 1) else None) with
    | Some b =>
      if block_id_of b =? head_block_id (gpo (base_of n)) then xfork (start_block b) n1 else (Err assert_exception, n1)
    | None => (Err assert_exception, n1)
    end.
Proof.
  intros Hl Hlen [Hv Hh] Hr n1 k. assert (state n1 = base_of n) as Hs by (unfold n1; by rewrite undo_all_eq).
  assert (revision n1 = k) as Hk by (unfold n1, k; by rewrite undo_all_eq).
  assert (_block_log n1 = _block_log n) as Hlog by (unfold n1; by rewrite undo_all_eq).
  assert (rewind n = (Ok tt, n1)) as E.
  { unfold rewind. rewrite (xbind_Ok (xmodify undo_all) _ n tt n1 eq_refl), (xbind_Ok (xgets id) _ n1 n1 n1 eq_refl).
    rewrite (xbind_Ok (xassert _) _ n1 tt n1).
    { unfold xlift. by rewrite Hs, Hv. }
    unfold xassert, xlift, head_num_of, id. rewrite Hs, Hk. unfold k. by rewrite Z.eqb_refl. }
  assert (∀ n2, state n2 = base_of n → xchain init_hardforks n2 = (Ok tt, n2)) as Hhard.
  { intros n2 E2. unfold xchain. rewrite E2, Hh. f_equal. rewrite <- E2. by destruct n2. }
  unfold resume. rewrite (xbind_Ok _ _ _ _ _ E). clear E.
  assert (check_head n1 = if k =? 0 then (Ok tt, n1)
    else match (if 0 <? k then bs !! Z.to_nat (k - 1) else None) with
    | Some b =>
      if block_id_of b =? head_block_id (gpo (base_of n)) then xfork (start_block b) n1 else (Err assert_exception, n1)
    | None => (Err assert_exception, n1)
    end) as Hc.
  { unfold check_head. rewrite (xbind_Ok (xgets id) _ n1 n1 n1 eq_refl). unfold head_num_of, head_id_of, id. rewrite Hs, Hlog.
    fold k. destruct (k =? 0); [done|]. rewrite (read_block_held _ _ k Hl Hlen).
    rewrite (xbind_Ok (xlift _) _ n1 _ n1 eq_refl). destruct (if 0 <? k then _ else _) as [b|]; [|done].
    by destruct (block_id_of b =? _). }
  destruct (k =? 0); [rewrite (xbind_Ok _ _ _ _ _ Hc); by apply Hhard|].
  destruct (if 0 <? k then _ else _) as [b|]; [|by rewrite (xbind_Err _ _ _ _ _ Hc)].
  destruct (block_id_of b =? _); [|by rewrite (xbind_Err _ _ _ _ _ Hc)].
  rewrite (xbind_Ok _ _ _ _ _ Hc). by apply Hhard.
Qed.

(** The files of a block log: the index may be behind or damaged. *)
Record log_files (l : block_log) (bs : list signed_block) : Prop := {
  files_blocks : block_stream l = log_bytes 0 bs;
  files_index : ∃ ps, index_stream l = index_bytes ps ∧ stale_index bs ps;
  files_length : length bs ≠ 1%nat ∧ Z.of_nat (length bs) < 2 ^ 32;
  files_packable : Forall packable bs;
  files_size : size_of (log_bytes 0 bs) < 2 ^ 63;
  files_nums i b : bs !! i = Some b → block_num b = Z.of_nat i + 1
}.
Lemma log_files_open l bs : log_files l bs → ∃ l', BlockLog.open (BlockLog.close l) = (Ok tt, l') ∧ holds l' bs.
Proof.
  intros [Hb (ps & Hi & Hps) [H1 _] Hp Hs Hn]. destruct (open_repairs bs ps H1 Hps Hp Hs Hn) as (l' & E & Hl).
  exists l'. split; [|done]. rewrite <- E. destruct l. cbn in *. by subst.
Qed.

(** The state that a node resumes from when it opens. *)
Definition opening d (s : chain) : Prop :=
  if stored d then s = state (node_of d)
  else init_genesis WLS_INIT_SUPPLY empty_chain = Ok (tt, s) ∧ state (node_of d) = empty_chain.
Lemma open_eq d s :
  indexes_added d = false → opening d s →
  open WLS_INIT_SUPPLY d =
    let r := (xlog BlockLog.open;; resume) ((node_of d) <| state := s |>) in (r.1, Server r.2 true true).
Proof.
  intros Hi Ho. destruct d as [n st ia]. cbn [node_of stored indexes_added] in *. subst ia. unfold open.
  rewrite (xbind_Ok initialize_indexes _ (Server n st false) tt (Server n st true) eq_refl).
  rewrite (xbind_Ok (xgets id) _ (Server n st true) (Server n st true) _ eq_refl).
  set (n1 := n <| state := s |>). cbn [stored id].
  assert ((if st then mret tt else xnode (xchain (init_genesis WLS_INIT_SUPPLY));; xmodify (λ d, d <| stored := true |>))
    (Server n st true) = (Ok tt, Server n1 true true)) as E1.
  { unfold opening in Ho. cbn in Ho. unfold n1. destruct st; [subst s; by destruct n|]. destruct Ho as [Eg Es].
    unfold xnode, xchain, mbind, X_bind. cbn. rewrite Es, Eg. by destruct n. }
  by rewrite (xbind_Ok _ _ _ _ _ E1).
Qed.
Lemma open_spec d s bs :
  indexes_added d = false → opening d s → log_files (_block_log (node_of d)) bs →
  _block_log (node_of d) = BlockLog.close (_block_log (node_of d)) →
  ∃ l', holds l' bs ∧
    let r := resume ((node_of d) <| state := s |> <| _block_log := l' |>) in
    open WLS_INIT_SUPPLY d = (r.1, Server r.2 true true).
Proof.
  intros Hi Ho Hf Hc. destruct (log_files_open _ _ Hf) as (l' & El & Hl). rewrite <- Hc in El. exists l'. split; [done|].
  rewrite (open_eq d s Hi Ho). set (n1 := (node_of d) <| state := s |>).
  assert (xlog BlockLog.open n1 = (Ok tt, n1 <| _block_log := l' |>)) as E2.
  { unfold xlog. change (_block_log n1) with (_block_log (node_of d)). by rewrite El. }
  by rewrite (xbind_Ok _ _ _ _ _ E2).
Qed.

(** ** Replaying the log *)

(** A node that starts for the first time, without any file. *)
Definition new_node : node := Node empty_chain [] 0 empty_fork_database (BlockLog [] [] None 0) [] false [] ∅ 0.
Definition first_start : server := Server new_node false false.
Lemma first_start_chain d :
  open WLS_INIT_SUPPLY first_start = (Ok tt, d) →
  let s := state (node_of d) in
  init_genesis WLS_INIT_SUPPLY empty_chain = Ok (tt, s) ∧ sound_start s ∧ head_block_number (gpo s) = 0.
Proof.
  intros E. destruct (init_genesis WLS_INIT_SUPPLY empty_chain) as [[[] s]|e] eqn:Eg.
  2:{ unfold open in E.
    rewrite (xbind_Ok initialize_indexes _ first_start tt (Server new_node false true) eq_refl) in E.
    rewrite (xbind_Ok (xgets id) _ _ (Server new_node false true) _ eq_refl) in E. cbn [stored id] in E.
    apply xbind_inv in E as ([] & d1 & H & _). apply xbind_inv in H as ([] & d2 & H & _). unfold xnode, xchain in H.
    cbn [node_of] in H. change (state new_node) with empty_chain in H. rewrite Eg in H. discriminate H. }
  rewrite (open_eq first_start s eq_refl (conj Eg eq_refl)) in E. set (n0 := new_node <| state := s |>).
  change ((node_of first_start) <| state := s |>) with n0 in E.
  assert (resume n0 = (Ok tt, node_of d)) as H.
  { rewrite (xbind_Ok (xlog BlockLog.open) _ n0 tt n0 eq_refl) in E. destruct (resume n0) as [r n']. by injection E as -> <-. }
  clear E. unfold resume, rewind in H. apply xbind_inv in H as ([] & n1 & H1 & H).
  rewrite (xbind_Ok (xmodify undo_all) _ n0 tt n0 eq_refl), (xbind_Ok (xgets id) _ n0 n0 n0 eq_refl) in H1.
  apply xbind_inv in H1 as ([] & n2 & H2 & H1). unfold xassert in H2.
  apply xlift_inv in H2 as [H2%throw_unless_Ok%Z.eqb_eq ->]. apply xlift_inv in H1 as [Hv ->].
  assert (head_block_number (gpo s) = 0) as H0 by (symmetry; exact H2).
  assert (check_head n0 = (Ok tt, n0)) as Hc.
  { unfold check_head. rewrite (xbind_Ok (xgets id) _ n0 n0 n0 eq_refl). unfold head_num_of, id.
    change (state n0) with s. by rewrite H0. }
  rewrite (xbind_Ok _ _ _ _ _ Hc) in H. unfold xchain in H. change (state n0) with s in H.
  destruct (init_hardforks s) as [[[] s']|e] eqn:Eh; [|done]. pose proof (init_hardforks_state _ _ Eh) as ->.
  assert (state (node_of d) = s) as -> by by injection H as <-. split; [done|]. split; [|done]. by split.
Qed.

Lemma start_block_head b f :
  ∃ f' h, start_block b f = Ok (tt, f') ∧ _head f' = Some h ∧ block_at f' h = Some b.
Proof.
  unfold start_block, make_item, modify, mbind, M_bind. eexists _, (length (items f)). split; [reflexivity|]. split; [done|].
  assert (∀ p f, items (index_insert p f) = items f) as Hi.
  { intros p g. unfold index_insert. destruct (item_at g p); [|done]. by destruct (find_id _ _). }
  unfold block_at. cbn. rewrite Hi. cbn. by rewrite lookup_app_r, Nat.sub_diag by done.
Qed.

(** What replaying the blocks [bs], which made the chain state [s], leaves. *)
Record replayed bs (s : chain) d : Prop := {
  replayed_state : state (node_of d) = forget s;
  replayed_undo : undo_states (node_of d) = [];
  replayed_revision : revision (node_of d) = head_block_number (gpo s);
  replayed_log : holds (_block_log (node_of d)) bs;
  replayed_head : ∃ h, _head (_fork_db (node_of d)) = Some h ∧ block_at (_fork_db (node_of d)) h = last bs;
  replayed_stored : stored d = true
}.
Lemma wipe_opens d s :
  init_genesis WLS_INIT_SUPPLY empty_chain = Ok (tt, s) → opening (wipe false d) s ∧ indexes_added (wipe false d) = false.
Proof. intros E. split; [exact (conj E eq_refl)|reflexivity]. Qed.
Lemma wipe_log d bs : log_files (_block_log (node_of d)) bs → log_files (_block_log (node_of (wipe false d))) bs.
Proof.
  intros [H1 H2 H3 H4 H5 H6]. assert (_block_log (node_of (wipe false d)) = BlockLog.close (_block_log (node_of d))) as E.
  { destruct d as [[?[|??]????[]???] ??]; reflexivity. }
  rewrite E. by split.
Qed.
Lemma wipe_closed d : _block_log (node_of (wipe false d)) = BlockLog.close (_block_log (node_of (wipe false d))).
Proof. destruct d as [[?[|??]????[]???] ??]; reflexivity. Qed.
Lemma wipe_checkpoints d : _checkpoints (node_of (wipe false d)) = _checkpoints (node_of d).
Proof. destruct d as [[?[|??]????[]???] ??]; reflexivity. Qed.
Lemma wipe_undo d : undo_states (node_of (wipe false d)) = [] ∧ revision (node_of (wipe false d)) = 0.
Proof. by destruct d. Qed.

Lemma wiped_open d0 d bs :
  open WLS_INIT_SUPPLY first_start = (Ok tt, d0) → log_files (_block_log (node_of d)) bs →
  ∃ n, open WLS_INIT_SUPPLY (wipe false d) = (Ok tt, Server n true true) ∧ state n = state (node_of d0) ∧
    undo_states n = [] ∧ holds (_block_log n) bs ∧ _checkpoints n = _checkpoints (node_of d).
Proof.
  intros E0 Hf. destruct (first_start_chain d0 E0) as (Eg & Hs & Hn). set (s0 := state (node_of d0)) in *.
  destruct (wipe_opens d s0 Eg) as [Ho Hi]. destruct (wipe_undo d) as [Hu Hr].
  destruct (open_spec (wipe false d) s0 bs Hi Ho (wipe_log d bs Hf) (wipe_closed d)) as (l' & Hl & E1).
  set (n1 := (node_of (wipe false d)) <| state := s0 |> <| _block_log := l' |>) in E1. clear Eg Ho E0. clearbody s0.
  change (undo_states n1 = []) in Hu. change (revision n1 = 0) in Hr.
  assert (base_of n1 = s0) as Hbase by (unfold base_of; by rewrite Hu).
  assert (resume n1 = (Ok tt, undo_all n1)) as E2.
  { rewrite (resume_spec n1 bs Hl (proj2 (files_length _ _ Hf))), Hbase, Hn; [done|by rewrite Hbase|].
    by rewrite Hu, Hr, Hbase, Hn. }
  cbv zeta in E1. rewrite E2 in E1. exists (undo_all n1). split; [exact E1|]. rewrite undo_all_eq, Hbase.
  split; [done|]. split; [done|]. split; [exact Hl|]. exact (wipe_checkpoints d).
Qed.

Lemma reindex_replays d0 d bs skip s :
  open WLS_INIT_SUPPLY first_start = (Ok tt, d0) →
  for_each bs (_apply_block skip) (state (node_of d0)) = Ok (tt, s) → subsumes skip reindex_flags →
  log_files (_block_log (node_of d)) bs → bs ≠ [] → last_checkpoint (node_of d) = None →
  ∃ d', reindex d = (Ok tt, d') ∧ replayed bs s d'.
Proof.
  intros E0 Es Hskip Hf Hne Hc. destruct (wiped_open d0 d bs E0 Hf) as (n2 & E1 & S2 & U2 & L2 & C2).
  destruct (first_start_chain d0 E0) as (Eg & _). set (s0 := state (node_of d0)) in *.
  assert (for_each bs (_apply_block reindex_flags) s0 = Ok (tt, forget s)) as Er.
  { rewrite <- (genesis_forgets WLS_INIT_SUPPLY s0 Eg). exact (blocks_relax skip reindex_flags Hskip eq_refl bs s0 tt s Es). }
  clear Eg E0 Es. clearbody s0. unfold reindex.
  rewrite (xbind_Ok (xmodify (wipe false)) _ d tt (wipe false d) eq_refl), (xbind_Ok _ _ _ _ _ E1). clear E1.
  set (n3 := n2 <| _fork_db ::= fork_reset |>).
  assert (replaying n3 bs s0) as H3.
  { split; try done. unfold last_checkpoint in *. by rewrite <- C2 in Hc. }
  destruct (last bs) as [b|] eqn:Hb; [|by apply last_None in Hb].
  destruct (replay_spec n3 bs s0 (forget s) b H3 Hb (proj2 (files_length _ _ Hf)) Er) as (n4 & E4 & H4 & Hrev).
  unfold xnode at 1. cbn [node_of].
  rewrite (xbind_Ok (xmodify (λ n, n <| _fork_db ::= fork_reset |>)) _ n2 tt n3 eq_refl), (xbind_Ok (xgets id) _ n3 n3 n3 eq_refl).
  rewrite (holds_head _ _ (re_log _ _ _ H3)), Hb.
  rewrite (xbind_Ok (xlift _) _ n3 b n3 eq_refl), (xbind_Ok _ _ _ _ _ E4).
  assert (block_num b ≠ 0) as Hnum.
  { rewrite last_lookup in Hb. rewrite (files_nums _ _ Hf _ _ Hb). lia. }
  rewrite (proj2 (Z.eqb_neq _ _) Hnum). cbn [negb xwhen]. unfold xfork.
  destruct (start_block_head b (_fork_db n4)) as (f & h & -> & Hh & Hat). cbn [fst snd].
  eexists. split; [reflexivity|]. split; cbn; [apply H4|apply H4|done|apply H4| |done]. exists h. by rewrite Hat.
Qed.

(** C7: a node that replays its block log comes back to the chain it had: when it applied
    the blocks [bs] since its first start, with any checks, and its log still has them,
    then [reindex], which checks almost nothing, succeeds from whatever else the node
    holds, and reaches the same chain, except that no transaction is known; no undo state
    is left, and the last block of the log is the head of the fork database. *)
Theorem reindex_restores d0 d bs skip s :
  open WLS_INIT_SUPPLY first_start = (Ok tt, d0) →
  for_each bs (_apply_block skip) (state (node_of d0)) = Ok (tt, s) → subsumes skip reindex_flags →
  log_files (_block_log (node_of d)) bs → bs ≠ [] → last_checkpoint (node_of d) = None →
  ∃ d', reindex d = (Ok tt, d') ∧ replayed bs s d'.
Proof. apply reindex_replays. Qed.

(** ** Starting *)

(** Does the stored chain fit the blocks of the log? *)
Definition fits n (bs : list signed_block) : bool :=
  let s := base_of n in
  let k := head_block_number (gpo s) in
  (revision n - Z.of_nat (length (undo_states n)) =? k) &&
  ((k =? 0) || match (if 0 <? k then bs !! Z.to_nat (k - 1) else None) with
               | Some b => block_id_of b =? head_block_id (gpo s)
               | None => false
               end).
(** What a node is like when it has resumed from its stored chain. *)
Record resumed n n' : Prop := {
  resumed_state : state n' = base_of n;
  resumed_undo : undo_states n' = [];
  resumed_revision : revision n' = head_block_number (gpo (base_of n));
  resumed_log : _block_log n' = _block_log n
}.
Lemma resume_cases n bs :
  holds (_block_log n) bs → Z.of_nat (length bs) < 2 ^ 32 → sound_start (base_of n) →
  if fits n bs then ∃ n', resume n = (Ok tt, n') ∧ resumed n n' else resume n = (Err assert_exception, undo_all n).
Proof.
  intros Hl Hlen Hs. unfold fits.
  destruct (Z.eqb_spec (revision n - Z.of_nat (length (undo_states n))) (head_block_number (gpo (base_of n)))) as [Hr|Hr].
  - pose proof (resume_spec n bs Hl Hlen Hs Hr) as E. cbv zeta in E. rewrite E. clear E. cbn [andb].
    assert (resumed n (undo_all n)) as H by (rewrite undo_all_eq; by split).
    destruct (_ =? 0); [by exists (undo_all n)|]. cbn [orb]. destruct (if 0 <? _ then _ else _) as [b|]; [|done].
    destruct (block_id_of b =? _); [|done]. unfold xfork.
    destruct (start_block_head b (_fork_db (undo_all n))) as (f & h & -> & _). eexists. split; [reflexivity|].
    destruct H. by split.
  - cbn [andb]. unfold resume, rewind. set (n1 := undo_all n).
    apply xbind_Err. rewrite (xbind_Ok (xmodify undo_all) _ n tt n1 eq_refl), (xbind_Ok (xgets id) _ n1 n1 n1 eq_refl).
    apply xbind_Err. unfold xassert, xlift, head_num_of, id, n1. rewrite undo_all_eq. cbn.
    by rewrite (proj2 (Z.eqb_neq _ _) Hr).
Qed.

Lemma holds_files l bs : holds l bs → length bs ≠ 1%nat → Z.of_nat (length bs) < 2 ^ 32 → log_files l bs.
Proof.
  intros [H1 H2 H3 H4 H5 H6 H7] Hn Hlen. split; [done| |done..]. exists (positions 0 bs). split; [done|]. split; [|done].
  apply Forall_lookup_2. intros i p Hp. assert (is_Some (bs !! i)) as [b Hb].
  { apply lookup_lt_is_Some_2. apply lookup_lt_Some in Hp. by rewrite positions_length in Hp. }
  destruct (holds_split bs i b Hb) as (Hq & _). rewrite Hp in Hq. injection Hq as ->.
  pose proof (start_of_bound bs i ltac:(apply lookup_lt_Some in Hb; lia) H6). lia.
Qed.
Lemma startup_plain d : startup (StartupOptions false false []) d = open_or_reindex d.
Proof.
  unfold startup. cbn [resync_blockchain replay_blockchain loaded_checkpoints].
  rewrite (xbind_Ok (mret tt) _ d tt d eq_refl).
  assert (xnode (xmodify (add_checkpoints [])) d = (Ok tt, d)) as E by by destruct d as [[]].
  by rewrite (xbind_Ok _ _ _ _ _ E).
Qed.

(** C8: a node starts again: it has stored a chain that is sound, and its log has the blocks
    [bs] that it applied since its first start, with any checks.  When the log contains
    the head block of the stored chain, as it was at the last irreversible block, the
    node resumes there; when the two do not fit together, it replays the log. *)
Theorem startup_recovers d0 d bs skip s :
  open WLS_INIT_SUPPLY first_start = (Ok tt, d0) →
  for_each bs (_apply_block skip) (state (node_of d0)) = Ok (tt, s) → subsumes skip reindex_flags →
  log_files (_block_log (node_of d)) bs → bs ≠ [] → last_checkpoint (node_of d) = None →
  _block_log (node_of d) = BlockLog.close (_block_log (node_of d)) →
  stored d = true → indexes_added d = false → sound_start (base_of (node_of d)) →
  ∃ d', startup (StartupOptions false false []) d = (Ok tt, d') ∧
    if fits (node_of d) bs
    then state (node_of d') = base_of (node_of d) ∧ undo_states (node_of d') = [] ∧ holds (_block_log (node_of d')) bs
    else replayed bs s d'.
Proof.
  intros E0 Es Hskip Hf Hne Hc Hcl Hst Hix Hs.
  assert (opening d (state (node_of d))) as Ho by (unfold opening; by rewrite Hst).
  destruct (open_spec d _ bs Hix Ho Hf Hcl) as (l' & Hl & E1).
  set (n := (node_of d) <| state := _ |> <| _block_log := l' |>) in E1. cbv zeta in E1.
  pose proof (resume_cases n bs Hl (proj2 (files_length _ _ Hf)) Hs) as Hcases.
  change (fits n bs) with (fits (node_of d) bs) in Hcases. change (base_of n) with (base_of (node_of d)) in Hcases.
  rewrite startup_plain. unfold open_or_reindex, xcatch_exn at 1. rewrite E1. cbn [fst snd].
  destruct (fits (node_of d) bs).
  - destruct Hcases as (n' & -> & [H1 H2 H3 H4]). eexists. split; [reflexivity|]. cbn.
    split; [exact H1|]. split; [exact H2|]. rewrite H4. exact Hl.
  - rewrite Hcases. cbn [fst snd]. destruct (decide _) as [_|[]]; [|done].
    set (d1 := Server (undo_all n) true true).
    assert (_block_log (node_of d1) = l') as El by (unfold d1; cbn [node_of]; by rewrite undo_all_eq).
    destruct (reindex_replays d0 d1 bs skip s E0 Es Hskip) as (d' & E2 & H2); [|done| |].
    + rewrite El. apply holds_files; [done|exact (proj1 (files_length _ _ Hf))|exact (proj2 (files_length _ _ Hf))].
    + assert (_checkpoints (node_of d1) = _checkpoints n) as Ech by (unfold d1; cbn [node_of]; by rewrite undo_all_eq).
      unfold last_checkpoint in *. by rewrite Ech.
    + exists d'. split; [|done]. unfold xcatch_exn. by rewrite E2.
Qed.

Lemma empty_log_files : log_files (BlockLog [] [] None 0) [].
Proof. split; try done. exists []. split; [done|]. split; [constructor|done]. Qed.
(** When the log is empty the last resort, to open the database once more and get the
    blocks from the network, always fails: its indices are registered already. *)
Lemma resync_fallback_fails d0 d :
  open WLS_INIT_SUPPLY first_start = (Ok tt, d0) →
  _block_log (node_of d) = BlockLog [] [] None 0 → stored d = true → indexes_added d = false →
  sound_start (base_of (node_of d)) → fits (node_of d) [] = false →
  (startup (StartupOptions false false []) d).1 = Err logic_error.
Proof.
  intros E0 Hl Hst Hix Hs Hfit.
  pose proof empty_log_files as Hf.
  assert (opening d (state (node_of d))) as Ho by (unfold opening; by rewrite Hst).
  destruct (open_spec d _ [] Hix Ho) as (l' & Hl' & E1); [by rewrite Hl..|].
  set (n := (node_of d) <| state := _ |> <| _block_log := l' |>) in E1. cbv zeta in E1.
  pose proof (resume_cases n [] Hl' eq_refl Hs) as Hcases. change (fits n []) with (fits (node_of d) []) in Hcases.
  rewrite Hfit in Hcases. rewrite startup_plain. unfold open_or_reindex, xcatch_exn at 1. rewrite E1. cbn [fst snd].
  rewrite Hcases. cbn [fst snd]. destruct (decide _) as [_|[]]; [|done]. set (d1 := Server (undo_all n) true true).
  assert (_block_log (node_of d1) = l') as El by (unfold d1; cbn [node_of]; by rewrite undo_all_eq).
  destruct (wiped_open d0 d1 [] E0) as (n2 & E2 & _ & _ & L2 & _); [rewrite El; by apply holds_files|].
  set (n3 := n2 <| _fork_db ::= fork_reset |>).
  assert (reindex d1 = (Err block_log_exception, Server n3 true true)) as E3.
  { unfold reindex.
    rewrite (xbind_Ok (xmodify (wipe false)) _ d1 tt (wipe false d1) eq_refl), (xbind_Ok _ _ _ _ _ E2).
    unfold xnode at 1. cbn [node_of].
    rewrite (xbind_Ok (xmodify (λ n, n <| _fork_db ::= fork_reset |>)) _ n2 tt n3 eq_refl).
    rewrite (xbind_Ok (xgets id) _ n3 n3 n3 eq_refl).
    change (head (_block_log n3)) with (head (_block_log n2)). by rewrite (holds_head _ _ L2). }
  unfold xcatch_exn. rewrite E3. reflexivity.
Qed.
End startup.
