(* ===== verification/StartupDemo.v ===== *)
(** * StartupDemo: a node that starts, makes two blocks and starts again

    The witnesses of StartupSpec, on the genesis of a demo chain. *)

From S2P Require Import Prelude FcLib Tables Config Asset Names Authority Operations Transaction Block ForkDb ForkSpec BlockLog Reward Objects Ledger Invariants Supply Evaluators Conservation Demo Preservation LedgerSpec Payout Schedule ScheduleSpec Blocks BlocksSpec ChainSpec Node NodeSpec NodeDemo Startup Replay StartupSpec.

#[local] Existing Instances fc_ref demo_env demo_crypto block_ref demo_params.

Definition first_run : result unit * server := open WLS_INIT_SUPPLY first_start.
Lemma first_run_ok : open WLS_INIT_SUPPLY first_start = (Ok tt, first_run.2).
Proof. apply (pair_fst first_run). vm_compute. reflexivity. Qed.
Definition genesis : chain := state (node_of first_run.2).

(** The first two blocks, three seconds apart. *)
Definition block_1 : signed_block := SignedBlock 0 1534070003 "initminer" 0 [] 1 [].
Definition block_2 : signed_block := SignedBlock (block_id_of block_1) 1534070006 "initminer" 0 [] 1 [].
Definition two_blocks : list signed_block := [block_1; block_2].
Definition live : result (unit * chain) := for_each two_blocks (_apply_block skip_nothing) genesis.
Definition chain_2 : chain := after (for_each two_blocks (_apply_block skip_nothing)) genesis.
Lemma live_ok : for_each two_blocks (_apply_block skip_nothing) (state (node_of first_run.2)) = Ok (tt, chain_2).
Proof.
  assert (is_ok live = true) as H by (vm_compute; reflexivity). unfold chain_2, after. fold genesis. unfold live in H.
  destruct (for_each two_blocks (_apply_block skip_nothing) genesis) as [[[] s]|e]; [reflexivity|discriminate H].
Qed.

(** Its log, with an index that has lost an entry. *)
Definition short_log : block_log := BlockLog (log_bytes 0 two_blocks) (index_bytes [0]) None 0.
Lemma short_log_files : log_files short_log two_blocks.
Proof.
  split; [reflexivity| |split; [discriminate|reflexivity]| |vm_compute; reflexivity|].
  - exists [0]. split; [reflexivity|]. split; [repeat constructor; discriminate|]. intros E. vm_compute in E. discriminate E.
  - repeat apply Forall_cons_2; [..|constructor]; vm_compute; repeat split; discriminate.
  - intros [|[|i]] b E; [injection E as <-; vm_compute; reflexivity..|discriminate E].
Qed.
Lemma all_checks : subsumes skip_nothing reindex_flags.
Proof. reflexivity. Qed.

(** A node whose shared memory file has been lost. *)
Lemma reindex_restores_witness :
  let d := Server (new_node <| _block_log := short_log |>) false false in
  ∃ d', reindex d = (Ok tt, d') ∧ state (node_of d') = forget chain_2 ∧ head_block_number (gpo (forget chain_2)) = 2.
Proof.
  intros d. destruct (reindex_restores first_run.2 d two_blocks skip_nothing chain_2 first_run_ok live_ok all_checks
    short_log_files ltac:(discriminate) eq_refl) as (d' & E & H).
  exists d'. split; [exact E|]. split; [exact (replayed_state _ _ _ H)|]. vm_compute. reflexivity.
Defined.

(** Nodes that stored the chain [s]. *)
Definition stored_node (s : chain) (r : Z) : server :=
  Server (new_node <| state := s |> <| revision := r |> <| _block_log := short_log |>) true false.
Section stored.
Context (s : chain) (r : Z).
Lemma stored_base : base_of (node_of (stored_node s r)) = s.
Proof. reflexivity. Qed.
Lemma stored_log : log_files (_block_log (node_of (stored_node s r))) two_blocks.
Proof. exact short_log_files. Qed.
Lemma stored_closed :
  _block_log (node_of (stored_node s r)) = BlockLog.close (_block_log (node_of (stored_node s r))).
Proof. reflexivity. Qed.
Lemma stored_unchecked : last_checkpoint (node_of (stored_node s r)) = None.
Proof. reflexivity. Qed.
Lemma stored_flags : stored (stored_node s r) = true ∧ indexes_added (stored_node s r) = false.
Proof. split; reflexivity. Qed.
Lemma stored_fits : head_block_number (gpo s) = 0 → fits (node_of (stored_node s r)) two_blocks = (r - 0 =? 0).
Proof.
  intros H. unfold fits. rewrite stored_base, H. change (Z.of_nat (length _)) with 0.
  change (revision _) with r. apply andb_true_r.
Qed.
Lemma stored_sound : sound_start s → sound_start (base_of (node_of (stored_node s r))).
Proof. by rewrite stored_base. Qed.
End stored.
Lemma genesis_start : sound_start genesis ∧ head_block_number (gpo genesis) = 0.
Proof. unfold genesis. exact (proj2 (first_start_chain _ first_run_ok)). Qed.

(** One node fits its log and goes on from the genesis, the other has a wrong revision. *)
Lemma startup_recovers_witness :
  (∃ d', startup (StartupOptions false false []) (stored_node genesis 0) = (Ok tt, d') ∧ state (node_of d') = genesis) ∧
  (∃ d', startup (StartupOptions false false []) (stored_node genesis 7) = (Ok tt, d') ∧
    state (node_of d') = forget chain_2).
Proof.
  destruct genesis_start as [Hs H0].
  pose proof (λ r, startup_recovers first_run.2 (stored_node genesis r) two_blocks skip_nothing chain_2 first_run_ok live_ok
    all_checks (stored_log genesis r) ltac:(discriminate) (stored_unchecked genesis r) (stored_closed genesis r)
    (proj1 (stored_flags genesis r)) (proj2 (stored_flags genesis r)) (stored_sound genesis r Hs)) as H.
  split.
  - destruct (H 0) as (d' & E & Hd). rewrite (stored_fits genesis 0 H0), stored_base in Hd.
    exists d'. split; [exact E|exact (proj1 Hd)].
  - destruct (H 7) as (d' & E & Hd). rewrite (stored_fits genesis 7 H0) in Hd.
    exists d'. split; [exact E|exact (replayed_state _ _ _ Hd)].
Defined.

(** The chain refuses a transaction of its last block; after a replay it takes it again. *)
Lemma replay_forgets_transactions :
  let t := demo_trx 2 (demo_time + 60) in
  _apply_transaction demo_flags t chain_1 = Err assert_exception ∧
  is_ok (_apply_transaction demo_flags t (forget chain_1)) = true.
Proof. split; vm_compute; reflexivity. Qed.
