(* ===== verification/Producer.v ===== *)
(** * Producer: the block production loop of a witness

    [libraries/plugins/witness/witness_plugin.cpp]: once a second the plugin looks
    whether one of its witnesses is due, makes a block and sends it.  Readings of
    the clock, in microseconds, are arguments. *)

From S2P Require Import Prelude FcLib Tables Config Asset Names Authority Operations Transaction Block ForkDb BlockLog Reward Objects Ledger Invariants Evaluators Payout Schedule Blocks Node Utilities.

(** witness_plugin.hpp:41 *)
Inductive block_production_condition :=
| produced | not_synced | not_my_turn | not_time_yet | no_private_key | low_participation | lag | consecutive
| wait_for_genesis | exception_producing_block.
#[global] Instance condition_eq_dec : EqDecision block_production_condition.
Proof. solve_decision. Defined.

(** witness_plugin.hpp:63, with the node the plugin is part of, application.cpp:92,
    the blocks handed to the network and the time of the scheduled task. *)
Record witness_plugin := WitnessPlugin {
  database : node;
  _production_enabled : bool;
  _required_witness_participation : Z;
  _production_skip_flags : Z;
  _private_keys : gmap Z Z;
  _witnesses : gset string;
  _is_block_producer : bool;
  _block_production_task : option Z;
  broadcasts : list signed_block
}.
#[global] Instance witness_plugin_eta : Eta witness_plugin := λ r,
  WitnessPlugin (database r) (_production_enabled r) (_required_witness_participation r) (_production_skip_flags r)
    (_private_keys r) (_witnesses r) (_is_block_producer r) (_block_production_task r) (broadcasts r).

(** What [catch( fc::exception& )] catches: not the exceptions of the standard library,
    and not the values of the model that stand for no exception. *)
Definition is_fc_exception (e : exn) : bool :=
  match e with
  | out_of_range | logic_error | runtime_error | undefined_behaviour | out_of_fuel => false
  | _ => true
  end.
(** [FC_CAPTURE_AND_RETHROW] turns the exceptions of the standard library into fc's. *)
Definition is_exception (e : exn) : bool :=
  match e with undefined_behaviour | out_of_fuel => false | _ => true end.

Section producer.
Context `{FC : FcLib} `{ENV : EvalEnv} `{CR : Crypto} `{BL : BlockLib} `{CP : ChainParams}
  `{HF : Hardforks} `{BP : BlockPack} `{SG : Signing} `{KL : KeyLib}.

Definition on_database {A} (m : X node A) : X witness_plugin A := λ p,
  let r := m (database p) in (r.1, p <| database := r.2 |>).

(** database.cpp:429 *)
Definition witness_participation_rate (s : chain) : Z :=
  wrap 32 (wrap 64 (WLS_100_PERCENT * popcount (recent_slots_filled (gpo s))) / 128).

(** ** Set-up *)

(** witness_plugin.cpp:424: the notifier of a switch, called with 0 or 1 *)
Definition set_required_participation (e : bool) (p : witness_plugin) : witness_plugin :=
  p <| _required_witness_participation := wrap 32 ((if e then 1 else 0) * WLS_1_PERCENT) |>.
(** witness_plugin.hpp:76 *)
Definition set_block_production (allow : bool) (p : witness_plugin) : witness_plugin :=
  p <| _production_enabled := allow |>.
(** witness_plugin.cpp:449-454 *)
Definition load_key (wif_key : string) : X witness_plugin unit :=
  k ← xlift (wif_to_key wif_key);
  k ← xlift (of_option assert_exception k);
  xmodify (λ p, p <| _private_keys ::= <[public_key_of k := k]> |>).
(** witness_plugin.cpp:441 *)
Definition plugin_initialize (witnesses wif_keys : list string) : X witness_plugin unit :=
  xmodify (λ p, p <| _witnesses ::= λ w, w ∪ list_to_set witnesses |>);;
  xfor_each wif_keys load_key.

(** witness_plugin.cpp:502: the next full second, or the one after when it is too close *)
Definition time_to_next_second (now : Z) : Z :=
  let t := 1000000 - Z.rem now 1000000 in
  if t <? 50000 then t + 1000000 else t.
Definition schedule_production_loop (now : Z) (p : witness_plugin) : witness_plugin :=
  p <| _block_production_task := Some (now + time_to_next_second now) |>.

(** witness_plugin.cpp:468 *)
Definition plugin_startup (now : Z) (p : witness_plugin) : witness_plugin :=
  if bool_decide (_witnesses p = ∅) then p
  else
    let p := p <| _is_block_producer := true |> in
    let p := if _production_enabled p
             then p <| _production_skip_flags ::= λ f, Z.lor f skip_undo_history_check |> else p in
    schedule_production_loop now p.

(** ** One round *)

(** The time a block made now would carry: the nearest second. *)
Definition nearest_second (now_fine : Z) : Z := tps_of_time_point (now_fine + 500000).

(** witness_plugin.cpp:654-673: [None] goes round again *)
Definition attempt (time : Z) (w : string) (key : Z) : X witness_plugin (option block_production_condition) :=
  p ← xgets id;
  r ← xtry (on_database (generate_block time w key (_production_skip_flags p)));
  match r with
  | Ok b => xmodify (λ p, p <| broadcasts ::= λ l, l ++ [b] |>);; mret (Some produced)
  | Err e => if is_exception e then on_database (xmodify clear_pending);; mret None else xthrow e
  end.
Fixpoint attempts (n : nat) (time : Z) (w : string) (key : Z) : X witness_plugin block_production_condition :=
  match n with
  | O => mret exception_producing_block
  | S n => r ← attempt time w key; match r with Some c => mret c | None => attempts n time w key end
  end.

(** witness_plugin.cpp:598-649: the condition that prevents a block, or the slot time,
    the witness and the key to make one with *)
Definition production_slot (now : Z) (p : witness_plugin) : result (block_production_condition + Z * string * Z) :=
  let s := state (database p) in
  let slot := get_slot_at_time now s in
  if slot =? 0 then mret (inl not_time_yet)
  else
    scheduled ← get_scheduled_witness slot s;
    let scheduled_witness := name_string scheduled in
    if negb (bool_decide (scheduled_witness ∈ _witnesses p)) then mret (inl not_my_turn)
    else
      iw ← of_option undefined_behaviour (find_row (λ w, String.eqb (owner w) scheduled_witness) (witnesses s));
      let scheduled_time := get_slot_time slot s in
      match _private_keys p !! signing_key iw.2 with
      | None => mret (inl no_private_key)
      | Some key =>
        if witness_participation_rate s <? _required_witness_participation p then mret (inl low_participation)
        else if 500000 <? Z.abs ((scheduled_time - now) * 1000000) then mret (inl lag)
        else mret (inr (scheduled_time, scheduled_witness, key))
      end.
(** witness_plugin.cpp:583 *)
Definition maybe_produce_block (now_fine : Z) : X witness_plugin block_production_condition :=
  p ← xgets id;
  let now := nearest_second now_fine in
  if negb (_production_enabled p) && (get_slot_time 1 (state (database p)) <? now) then mret not_synced
  else
    xmodify (set_block_production true);;
    r ← xlift (production_slot now p);
    match r with
    | inl c => mret c
    | inr (time, w, key) => attempts 2 time w key
    end.

(** witness_plugin.cpp:514; the clock is read here, in [maybe_produce_block] and when
    the next round is scheduled.  A throw leaves no task behind. *)
Definition block_production_loop (now now_fine later : Z) : X witness_plugin block_production_condition :=
  xmodify (λ p, p <| _block_production_task := None |>);;
  if now <? WLS_GENESIS_TIME * 1000000 then
    xmodify (schedule_production_loop later);; mret wait_for_genesis
  else
    r ← xtry (maybe_produce_block now_fine);
    c ← (match r with
         | Ok c => mret c
         | Err e => if bool_decide (e = unknown_hardfork_exception) then xthrow e
                    else if is_fc_exception e then mret exception_producing_block else xthrow e
         end);
    xmodify (schedule_production_loop later);;
    mret c.

End producer.
