(* ===== verification/ProducerSpec.v ===== *)
(** * ProducerSpec: a witness makes its blocks on schedule, one in a slot

    A block is made only for the slot of the nearest second, by a witness of the
    node whose turn it is, on top of the head block; then the slot is taken.  The
    loop goes on whatever happens. *)

From S2P Require Import Prelude FcLib Tables Config Asset Names Authority Operations Transaction Block ForkDb ForkSpec BlockLog Reward Objects Ledger Invariants Supply Evaluators Conservation Demo Preservation LedgerSpec Payout Schedule ScheduleSpec Blocks BlocksSpec ChainSpec Node NodeSpec NodeDemo Utilities Producer.

(** ** Pending transactions leave the clock alone *)

Section clock.
Context `{FC : FcLib} `{ENV : EvalEnv} `{CR : Crypto} `{BL : BlockLib} `{CP : ChainParams}.

Lemma apply_operation_clock op : stable same_clock (apply_operation op).
Proof. intros s. eapply wp_mono; [apply apply_operation_head|]. intros ? s'. apply same_head_clock. Qed.
Hint Resolve apply_operation_clock : stable.
Lemma apply_transaction_clock skip t : stable same_clock (_apply_transaction skip t).
Proof.
  unfold _apply_transaction, check_expiration, head_block_num, head_block_time. cbv zeta.
  repeat first [progress stable ltac:(unfold same_clock, clock_of; bind_oks; simpl in *; congruence) | progress unfold when].
Qed.
End clock.

Section generate.
Context `{FC : FcLib} `{ENV : EvalEnv} `{CR : Crypto} `{BL : BlockLib} `{CP : ChainParams}
  `{HF : Hardforks} `{BP : BlockPack} `{SG : Signing}.
Implicit Types (n : node).

(** ** What a generated block meets *)

Lemma clear_reset n : clear_pending (reset_pending n) = clear_pending n.
Proof. destruct n as [?[]????[]???]; node_cbv; done. Qed.
Lemma restart_reset n s : reset_pending ((start_pending (reset_pending n)) <| state := s |>) = reset_pending n.
Proof.
  assert (_pending_tx_session (reset_pending n) = false) as H by (destruct n as [?[]????[]???]; done).
  destruct (reset_pending n) as [st us rv fd bl pt se po cp sf]. cbn in H. subst se. node_cbv. by rewrite Z.pred_succ.
Qed.

(** The block, when it comes to one. *)
Definition made_block (time : Z) (w : string) n (b : signed_block) : Prop :=
  previous b = head_id_of (clear_pending n) ∧ timestamp b = time ∧ witness b = w.

Lemma xbind_cases {S A B} (m : X S A) (f : A → X S B) s r s' :
  (m ≫= f) s = (r, s') →
  (∃ e, m s = (Err e, s') ∧ r = Err e) ∨ ∃ a s1, m s = (Ok a, s1) ∧ f a s1 = (r, s').
Proof. unfold mbind, X_bind. destruct (m s) as [[a|e] s1]; [eauto|]. intros [= <- <-]. eauto. Qed.
Lemma xlift_cases {S A B} (x : result A) (f : A → X S B) s r s' :
  (xlift x ≫= f) s = (r, s') → (∃ e, r = Err e ∧ s' = s) ∨ ∃ a, x = Ok a ∧ f a s = (r, s').
Proof.
  intros [(e & H & ->)|(a & s1 & H & E)]%xbind_cases; unfold xlift in H; injection H as H <-; eauto.
Qed.
Lemma xassert_cases {S B} (c b : bool) (f : unit → X S B) s r s' :
  (xwhen c (xassert b) ≫= f) s = (r, s') → (∃ e, r = Err e ∧ s' = s) ∨ f tt s = (r, s').
Proof.
  destruct c; [|by right]. intros [H|([] & _ & H)]%xlift_cases; auto.
Qed.

Lemma _generate_block_cases time w key n r n1 :
  _generate_block time w key n = (r, n1) →
  (∃ e, r = Err e ∧ clear_pending n1 = clear_pending n) ∨
  ∃ b r', made_block time w n b ∧ push_block b (skip_flags n) (reset_pending n) = (r', n1) ∧ r = (λ _, b) <$> r'.
Proof.
  unfold _generate_block. rewrite (xbind_Ok (xgets id) _ n n n eq_refl). cbv zeta.
  intros [(e & -> & ->)|(_ & _ & E)]%xlift_cases; [by left; eauto|].
  apply xlift_cases in E as [(e & -> & ->)|(sch & _ & E)]; [by left; eauto|].
  apply xlift_cases in E as [(e & -> & ->)|(u & Hsch & E)]; [by left; eauto|].
  apply throw_unless_Ok, scheduled_name in Hsch.
  apply xlift_cases in E as [(e & -> & ->)|(iw & _ & E)]; [by left; eauto|].
  apply xassert_cases in E as [(e & -> & ->)|E]; [by left; eauto|].
  set (m := start_pending (reset_pending n)) in *.
  rewrite (xbind_Ok (xmodify (λ n, start_pending (reset_pending n))) _ n tt m eq_refl) in E.
  destruct (state_restarted n (state n)) as (Hu & Hs & _).
  match type of E with (include_transactions ?t ?x ?acc ?txs ≫= _) _ = _ =>
    destruct (include_transactions_spec t x acc txs m _ _ Hu) as (acc' & s' & sub & Ei & _);
      [fold m in Hs; rewrite Hs; constructor|] end.
  rewrite (xbind_Ok _ _ _ _ _ Ei) in E.
  set (m' := m <| state := s' |>) in *.
  rewrite (xbind_Ok (xmodify reset_pending) _ m' tt (reset_pending m') eq_refl) in E.
  assert (reset_pending m' = reset_pending n) as Hm by apply restart_reset. rewrite Hm in E.
  rewrite (xbind_Ok (xgets id) _ _ _ (reset_pending n) eq_refl) in E.
  apply xlift_cases in E as [(e & -> & ->)|(b0 & Hb & E)]; [left; rewrite clear_reset; by eauto|].
  cbv zeta in E. set (b := if skips _ _ then b0 else _) in E.
  apply xassert_cases in E as [(e & -> & ->)|E]; [left; rewrite clear_reset; by eauto|].
  right. exists b. apply assemble_block_spec in Hb as (H1 & H2 & H3 & _).
  destruct (signed_spec key b0 b) as (Q1 & Q2 & Q3 & _); [unfold b; case_match; auto|].
  assert (made_block time w n b) as Hmade.
  { unfold made_block. rewrite Q1, Q2, Q3, H1, H2, H3, Hsch. split_and!; [|done|done].
    unfold head_id_of. by destruct n as [?[]????[]???]. }
  apply xbind_cases in E as [(e & E & ->)|(sw & n2 & E & H)]; [by exists (Err e)|]. injection H as <- <-. by exists (Ok sw).
Qed.

Lemma generate_block_cases time w key skip n r n' :
  generate_block time w key skip n = (r, n') →
  (∃ e, r = Err e ∧ clear_pending n' = clear_pending n) ∨
  ∃ b r' n1, made_block time w n b ∧ push_block b skip (reset_pending (n <| skip_flags := skip |>)) = (r', n1) ∧
    r = (λ _, b) <$> r' ∧ n' = n1 <| skip_flags := skip_flags n |>.
Proof.
  unfold generate_block. rewrite with_skip_flags_eq. set (n0 := n <| skip_flags := skip |>).
  destruct (_generate_block time w key n0) as [r1 n1] eqn:E. cbn [fst snd]. intros [<- <-]%pair_equal_spec.
  apply _generate_block_cases in E as [(e & -> & Hc)|(b & r' & Hm & Hp & ->)].
  - left. exists e. split; [done|]. rewrite clear_pending_flags, Hc. unfold n0. rewrite clear_pending_flags.
    rewrite <- (clear_pending_keeps_flags n). by destruct (clear_pending n).
  - right. exists b, r', n1. split_and!; [|done..]. unfold made_block, n0 in *. by rewrite clear_pending_flags in Hm.
Qed.
(** ** The block becomes the head *)

Definition head_item (f : fork_database) (i : fork_item) : Prop := ∃ h, _head f = Some h ∧ item_at f h = Some i.

(** A pushed block is the new head of the fork database, or the old head stays. *)
Lemma fork_push_head f b i :
  head_item f i →
  wp (fork_push_block b) (λ h f', ∃ j, _head f' = Some h ∧ item_at f' h = Some j ∧
    (num i < block_num b ∧ data j = b ∧ num j = block_num b ∨ block_num b <= num i ∧ j = i)) f.
Proof.
  intros (h0 & Hh & Hi). unfold fork_push_block, fork__push_block. set (p := length (items f)).
  wp_step. unfold make_item, wp at 1. fold p. set (f1 := f <| items ::= _ |>).
  assert (item_at f1 h0 = Some i) as Hi1 by (by apply lookup_app_l_Some).
  assert (item_at f1 p = Some (new_item b)) as Hp1 by (by apply list_lookup_middle).
  assert (h0 ≠ p) as Hne by (intros ->; apply lookup_lt_Some in Hi; unfold p in Hi; lia).
  do 4 wp_step. apply wp_lift. intros x Hx%deref_Ok. change (id f1) with f1 in *. assert (x = new_item b) as -> by (unfold item_at in Hp1; congruence).
  wp_step. apply (wp_mono _ (λ _ g, _head g = Some h0 ∧ item_at g h0 = Some i ∧
    ∃ j, item_at g p = Some j ∧ data j = b ∧ num j = block_num b)).
  - change (_head f1) with (_head f). rewrite Hh. repeat first [wp_step | apply wp_lift; intros ? _].
    + split_and!; [done| |].
      * unfold item_at, update. cbn. by rewrite list_lookup_insert_ne.
      * unfold item_at, update. cbn. rewrite list_lookup_insert_eq by (eapply lookup_lt_Some, Hp1). eauto.
    + split_and!; [done..|]. eauto.
  - intros [] g (Hg & Hgi & j & Hj & Hd & Hn). wp_step. wp_step.
    destruct (index_insert_frame p g) as (Ei & Eh & _). set (g1 := index_insert p g) in *.
    assert (item_at g1 h0 = Some i ∧ item_at g1 p = Some j) as [Hi2 Hp2] by (unfold item_at in *; by rewrite Ei).
    apply (wp_mono _ (λ _ g2, items g2 = items g1 ∧ _head g2 = Some (if num i <? block_num b then p else h0))).
    + change (_head f1) with (_head f). rewrite Hh. wp_step. apply wp_lift. intros x Hx'%deref_Ok.
      unfold item_at in Hi1. assert (x = i) as -> by congruence. change (num (new_item b)) with (block_num b).
      apply wp_when; intros ->; [by wp_step|]. by rewrite Eh.
    + intros [] g2 (E2 & Eh2). wp_step. wp_step. apply wp_lift. intros h Eh3%of_option_Ok.
      rewrite Eh2 in Eh3. unfold item_at in *. rewrite E2.
      destruct (Z.ltb_spec (num i) (block_num b)); injection Eh3 as <-; eauto 10.
Qed.

Definition same_head_item n n' : Prop :=
  _head (_fork_db n') = _head (_fork_db n) ∧ items (_fork_db n') = items (_fork_db n) ∧ _checkpoints n' = _checkpoints n.
#[local] Instance same_head_item_preorder : PreOrder same_head_item.
Proof. split; [done|]. intros n1 n2 n3 (?&?&?) (?&?&?). split_and!; congruence. Qed.
Lemma set_max_size_head s f a f' : set_max_size s f = Ok (a, f') → _head f' = _head f.
Proof. destruct f as [it ix [h|] m hd]; intros E; cbn in E; by injection E as <- <-. Qed.
Ltac head_item_tac := unfold same_head_item; intros; first
  [ by split_and! | split_and!; [by eapply set_max_size_head|by eapply set_max_size_items|done]
  | match goal with n : node |- _ => destruct n as [?[|?[|??]]????[]???]; node_cbv; by split_and! end ].
Lemma push_on_head_item skip b : xstable same_head_item (push_on_head skip b).
Proof.
  unfold push_on_head, pushed, apply_block, node_apply_block, write_irreversible, log_block. xframe head_item_tac.
Qed.

(** The head of the fork database is not ahead of the head block, or it builds on it:
    a block that failed to apply stays the head of the fork database. *)
Definition head_ready n : Prop :=
  ∃ i, head_item (_fork_db n) i ∧ (num i <= head_num_of n ∨ previous (data i) = head_id_of n).
Lemma head_ready_frame n n' :
  head_ready n → _head (_fork_db n') = _head (_fork_db n) → items (_fork_db n') = items (_fork_db n) →
  state n' = state n → head_ready n'.
Proof.
  unfold head_ready, head_item, item_at, head_num_of, head_id_of. intros (i & (h & Hh & Hi) & H) E1 E2 ->. exists i.
  split; [|done]. exists h. by rewrite E1, E2.
Qed.
(** Where the chain of a node stands. *)
Definition spot_of n := (state n, revision n, _checkpoints n).

Lemma pushed_applied skip b n a n' : pushed (apply_block skip b) n = (Ok a, n') → block_applied skip b n (state n').
Proof.
  unfold pushed, with_session. set (n0 := start_undo_session n). pose proof (apply_block_spec skip b n0) as Hs.
  cbn zeta in Hs. rewrite (checked_skip_stack skip b n n0 eq_refl) in Hs.
  destruct (checked_skip skip b n) as [k|e] eqn:Ec; [destruct Hs as (_ & Hok)|by rewrite Hs].
  destruct (apply_block skip b n0) as [[x|e] n1]; [|done]. intros [= <- <-]. exists k. split; [done|]. exact (Hok x eq_refl).
Qed.

(** The head block's number is part of its id, and there is room for another. *)
Definition numbered n : Prop := num_from_id (head_id_of n) = head_num_of n ∧ 0 <= head_num_of n < 2 ^ 32 - 1.
Lemma next_block_num n b : numbered n → previous b = head_id_of n → block_num b = head_num_of n + 1.
Proof. intros [H1 H2] E. unfold block_num. rewrite E, H1. apply wrap_small. lia. Qed.

(** What comes of a block pushed on top of the head block. *)
Definition top_outcome skip b n (r : result bool * node) : Prop :=
  match r with
  | (Ok _, n') => block_applied skip b n (state n')
  | (Err _, n') => stays_reversible skip b n → spot_of n' = spot_of n ∧ head_ready n'
  end.

Lemma push_on_head_top skip b n m :
  head_ready m → stack_of m = stack_of n → top_outcome skip b n ((push_on_head skip b;; mret false) m).
Proof.
  intros Hm Hst. injection Hst as Es Er _ Ec. unfold top_outcome, spot_of, stays_reversible, block_applied.
  rewrite <- Es, <- Er, <- (checked_skip_stack skip b n m Ec), <- Ec.
  pose proof (push_on_head_item skip b m) as Hi.
  destruct (push_on_head skip b m) as [[a|e] n'] eqn:E; cbn [snd] in Hi.
  - rewrite (xbind_Ok _ _ _ _ _ E). unfold push_on_head in E.
    apply xbind_inv in E as (r & m1 & H & E). unfold xtry in H. apply same_run in H as [-> ->].
    destruct (pushed (apply_block skip b) m) as [[x|e] m1] eqn:Ep; cbn [fst snd] in E.
    + apply same_run in E as [_ ->]. exact (pushed_applied skip b m x m1 Ep).
    + apply xbind_inv in E as (? & ? & _ & E). done.
  - rewrite (xbind_Err _ _ _ _ _ E). intros Hrev. pose proof (push_on_head_spec skip b m Hrev) as H. rewrite E in H.
    destruct H as [H Hv]. destruct Hi as (H1 & H2 & H3). split; [congruence|]. by apply (head_ready_frame m).
Qed.

Lemma push_on_top b n :
  head_ready n → numbered n → previous b = head_id_of n → top_outcome (skip_flags n) b n (_push_block b n).
Proof.
  intros Hr Hn Hb. unfold _push_block. rewrite (xbind_Ok (xgets id) _ n n n eq_refl). cbv zeta.
  destruct (skips (skip_flags n) skip_fork_db); cbn [negb]; [by apply push_on_head_top|].
  set (skip := skip_flags n). clearbody skip. unfold holding, push_tracked.
  destruct (fork_push_block b (_fork_db n)) as [[h f]|e] eqn:Ef.
  2:{ rewrite (xbind_Err (xfork _) _ n e n) by (unfold xfork; by rewrite Ef). cbn [fst snd]. intros _.
      split; [done|]. by apply (head_ready_frame n). }
  destruct Hr as (i & Hi & Hnum).
  destruct (wp_ok _ _ _ _ _ (fork_push_head (_fork_db n) b i Hi) Ef) as (j & Hh & Hj & Hcase).
  assert (previous (data j) = head_id_of n) as Hprev.
  { rewrite (next_block_num n b Hn Hb) in Hcase. destruct Hcase as [(_ & -> & _)|[Hle ->]]; [done|].
    destruct Hnum as [?|?]; [lia|done]. }
  set (n0 := n <| _fork_db := f |>). set (n1 := n <| _fork_db := f <| held := [h] |> |>).
  rewrite (xbind_Ok (xfork _) _ n h n0) by (unfold xfork; by rewrite Ef).
  rewrite (xbind_Ok (hold [h]) _ n0 tt n1 eq_refl), (xbind_Ok (xgets id) _ n1 n1 n1 eq_refl).
  assert (block_of n1 h = Ok (data j)) as Hc by (unfold block_of, deref_item; change (item_at (_fork_db n1) h) with (item_at f h); by rewrite Hj).
  rewrite (xbind_Ok (xlift _) _ n1 (data j) n1) by (unfold xlift; by f_equal).
  change (head_id_of n1) with (head_id_of n). rewrite Hprev, Z.eqb_refl. cbn [negb].
  assert (head_ready n1) as Hr1.
  { exists j. split; [by exists h|]. by right. }
  pose proof (push_on_head_top skip b n n1 Hr1 eq_refl) as Ho.
  destruct ((push_on_head skip b;; mret false) n1) as [[sw|e] n2]; cbn [fst snd] in *; [exact Ho|].
  intros Hrev. destruct (Ho Hrev) as [H1 H2]. split; [exact H1|]. by apply (head_ready_frame n2).
Qed.

Lemma push_block_settled b skip n r n' :
  push_block b skip n = (r, n') →
  let p := _push_block b ((clear_pending n) <| skip_flags := skip |>) in
  r = p.1 ∧ node_ok n' ∧ clear_pending n' = p.2 <| _popped_tx := [] |> <| skip_flags := skip_flags n |>.
Proof.
  intros E p. destruct (push_block_clears b skip n) as (H1 & H2 & _). rewrite E in H1, H2. cbn [snd] in H1, H2.
  unfold push_block in E. rewrite with_skip_flags_eq, without_pending_eq, clear_pending_flags in E. fold p in E.
  apply pair_equal_spec in E as [E1 _]. cbn [fst] in E1. split; [by symmetry|]. by split.
Qed.

(** A generated block is applied to the head state; without one nothing changes. *)
Lemma generate_block_top time w key skip n r n' :
  let c := clear_pending n in let c' := clear_pending n' in
  head_ready c → numbered c → generate_block time w key skip n = (r, n') →
  match r with
  | Ok b => made_block time w n b ∧ block_applied skip b c (state c') ∧ node_ok n'
  | Err _ => (∀ b, made_block time w n b → stays_reversible skip b c) → spot_of c' = spot_of c ∧ head_ready c'
  end.
Proof.
  intros c c' Hr Hn [(e & -> & Hc)|(b & r' & n1 & Hm & Hp & -> & ->)]%generate_block_cases.
  { intros _. unfold c'. by rewrite Hc. }
  set (m := reset_pending _) in Hp. set (d := c <| skip_flags := skip |>).
  assert ((clear_pending m) <| skip_flags := skip |> = d) as Hd.
  { unfold m. by rewrite clear_reset, clear_pending_flags. }
  apply push_block_settled in Hp. rewrite Hd in Hp. destruct Hp as (-> & Hok & Hc).
  assert (c' = (_push_block b d).2 <| _popped_tx := [] |> <| skip_flags := skip_flags n |>) as ->.
  { unfold c'. rewrite clear_pending_flags, Hc. by destruct (_push_block b d).2. }
  pose proof (push_on_top b d Hr Hn (proj1 Hm)) as Ho. change (skip_flags d) with skip in Ho.
  destruct (_push_block b d) as [[sw|e] n2]; cbn [fst snd] in *.
  - split; [done|]. split; [exact Ho|by apply node_ok_flags].
  - intros Hrev. destruct (Ho (Hrev b Hm)) as [H1 H2]. split; [exact H1|]. by apply (head_ready_frame n2).
Qed.

Lemma pending_run_clock s l s' : pending_run s l s' → clock_of s' = clock_of s.
Proof.
  induction 1 as [|s l s1 p skip t s2 _ IH E]; [done|]. rewrite <- IH.
  exact (wp_ok _ _ _ _ _ (apply_transaction_clock (ENV := flagged p) skip t s1) E).
Qed.
Lemma node_ok_clock n : node_ok n → clock_of (state n) = clock_of (state (clear_pending n)).
Proof.
  unfold node_ok. destruct n as [st us rv fd bl pt [] po cp sf]; cbn; [|done].
  intros (u & l & -> & H%pending_run_clock). exact H.
Qed.
End generate.

Section producer.
Context `{FC : FcLib} `{ENV : EvalEnv} `{CR : Crypto} `{BL : BlockLib} `{CP : ChainParams}
  `{HF : Hardforks} `{BP : BlockPack} `{SG : Signing} `{KL : KeyLib}.
Implicit Types (p : witness_plugin).

Lemma applied_later k b s s' : _apply_block k b s = Ok (tt, s') → time (gpo s) < timestamp b.
Proof.
  intros E. refine (wp_ok (_apply_block k b) (λ _ _, time (gpo s) < timestamp b) s tt s' _ E).
  unfold _apply_block, apply_block_head. do 2 wp_step.
  eapply wp_mono; [assert (stable (=) (check_merkle k b)) as H by head_frame; apply H|]. intros ? s0 <-.
  wp_step. eapply wp_mono; [apply validate_header_spec|]. intros iw s0 (-> & _ & Ht).
  eapply wp_mono; [apply wp_any|]. intros ? s1 _. eapply wp_mono; [apply wp_any|]. by intros.
Qed.

(** ** The attempts *)

(** Only the node and the broadcasts of the plugin change. *)
Definition same_setup p p' : Prop := ∃ n l, p' = p <| database := n |> <| broadcasts := l |>.
Lemma attempt_cases time w key p r p' :
  attempt time w key p = (r, p') →
  ∃ g n, generate_block time w key (_production_skip_flags p) (database p) = (g, n) ∧
  match g with
  | Ok b => r = Ok (Some produced) ∧ p' = p <| database := n |> <| broadcasts := broadcasts p ++ [b] |>
  | Err e => if is_exception e then r = Ok None ∧ p' = p <| database := clear_pending n |>
             else r = Err e ∧ p' = p <| database := n |>
  end.
Proof.
  unfold attempt. rewrite (xbind_Ok (xgets id) _ p p p eq_refl).
  destruct (generate_block time w key (_production_skip_flags p) (database p)) as [g n] eqn:E.
  assert (xtry (on_database (generate_block time w key (_production_skip_flags p))) p = (Ok g, p <| database := n |>)) as H
    by (unfold xtry, on_database; by rewrite E).
  rewrite (xbind_Ok _ _ _ _ _ H). intros Er. exists g, n. split; [done|].
  destruct g as [b|e]; [|destruct (is_exception e)]; injection Er as <- <-; split; reflexivity.
Qed.
Lemma attempt_broadcasts time w key p r p' :
  attempt time w key p = (r, p') →
  same_setup p p' ∧
  match r with
  | Ok (Some c) => c = produced ∧ ∃ b, broadcasts p' = broadcasts p ++ [b] ∧ timestamp b = time ∧ witness b = w
  | _ => broadcasts p' = broadcasts p
  end.
Proof.
  intros (g & n & Eg & H)%attempt_cases. destruct g as [b|e]; [|destruct (is_exception e)]; destruct H as [-> ->].
  - split; [by eexists _, _|]. split; [done|]. exists b. split; [done|].
    apply generate_block_cases in Eg as [(e & He & _)|(b' & r & n1 & (_ & Ht & Hw) & _ & Hb & _)]; [done|].
    destruct r as [sw|e]; [|done]. injection Hb as ->. done.
  - split; [|done]. exists (clear_pending n), (broadcasts p). by destruct p.
  - split; [|done]. exists n, (broadcasts p). by destruct p.
Qed.

Lemma same_setup_trans p1 p2 p3 : same_setup p1 p2 → same_setup p2 p3 → same_setup p1 p3.
Proof. intros (n & l & ->) (n' & l' & ->). exists n', l'. done. Qed.
Lemma attempts_broadcasts k time w key p r p' :
  attempts k time w key p = (r, p') →
  same_setup p p' ∧
  match r with
  | Ok c => (c = produced ∧ ∃ b, broadcasts p' = broadcasts p ++ [b] ∧ timestamp b = time ∧ witness b = w) ∨
            (c = exception_producing_block ∧ broadcasts p' = broadcasts p)
  | Err _ => broadcasts p' = broadcasts p
  end.
Proof.
  revert p. induction k as [|k IH]; intros p E; cbn [attempts] in E.
  { injection E as <- <-. split; [exists (database p), (broadcasts p); by destruct p|]. by right. }
  apply xbind_cases in E as [(e & E & ->)|(o & p1 & E1 & E)].
  { by apply attempt_broadcasts in E. }
  apply attempt_broadcasts in E1 as [Hs H]. destruct o as [c|].
  - injection E as <- <-. split; [done|]. by left.
  - destruct (IH p1 E) as [Hs' H']. split; [by eapply same_setup_trans|]. by rewrite H in H'.
Qed.

(** ** The conditions *)

(** Everything that has to hold before a block is made. *)
Definition may_produce (now : Z) p (w : string) (key : Z) : Prop :=
  let s := state (database p) in
  let slot := get_slot_at_time now s in
  slot ≠ 0 ∧ get_slot_time slot s = now ∧ (∃ n, get_scheduled_witness slot s = Ok n ∧ name_string n = w) ∧ w ∈ _witnesses p ∧
  (∃ iw, find_row (λ x, String.eqb (owner x) w) (witnesses s) = Some iw ∧ _private_keys p !! signing_key iw.2 = Some key) ∧
  _required_witness_participation p <= witness_participation_rate s.

Definition synced (now : Z) p : Prop :=
  _production_enabled p = true ∨ now <= get_slot_time 1 (state (database p)).

Lemma may_produce_slot now p w key : may_produce now p w key → production_slot now p = Ok (inr (now, w, key)).
Proof.
  unfold may_produce, production_slot. cbv zeta. intros (Hs & Ht & (n & Hw & <-) & Hm & (iw & Hiw & Hk) & Hr).
  rewrite (proj2 (Z.eqb_neq _ _) Hs), Hw. cbn. rewrite bool_decide_true by done. cbn. rewrite Hiw. cbn. rewrite Hk, Ht.
  rewrite (proj2 (Z.ltb_ge _ _) Hr), Z.sub_diag. done.
Qed.
Lemma production_slot_inr now p time w key :
  production_slot now p = Ok (inr (time, w, key)) → may_produce now p w key ∧ time = now.
Proof.
  unfold production_slot, may_produce. cbv zeta. set (s := state (database p)). set (slot := get_slot_at_time now s).
  destruct (Z.eqb_spec slot 0) as [|Hslot]; [done|]. intros (w' & Hw & H)%bind_Ok.
  destruct (bool_decide _) eqn:Hmine; cbn [negb] in H; [|done]. apply bool_decide_eq_true in Hmine.
  apply bind_Ok in H as (iw & Hiw%of_option_Ok & H).
  destruct (_private_keys p !! _) as [key'|] eqn:Hkey; [|done].
  destruct (Z.ltb_spec (witness_participation_rate s) (_required_witness_participation p)); [done|].
  destruct (Z.ltb_spec 500000 (Z.abs ((get_slot_time slot s - now) * 1000000))) as [|Hlag]; [done|].
  injection H as <- <- <-. assert (get_slot_time slot s = now) as Ht by lia. split_and!; try done; [by exists w'|by exists iw].
Qed.
Lemma production_slot_inl now p c :
  production_slot now p = Ok (inl c) → c ≠ produced ∧ c ≠ exception_producing_block.
Proof.
  unfold production_slot, mret, result_ret. cbv zeta. intros H. case_match; [by injection H as <-|].
  apply bind_Ok in H as (w & _ & H). case_match; [by injection H as <-|].
  apply bind_Ok in H as (iw & _ & H). repeat case_match; try discriminate H; by injection H as <-.
Qed.

Lemma maybe_produce_block_eq t p :
  let now := nearest_second t in let p1 := set_block_production true p in
  (¬ synced now p ∧ maybe_produce_block t p = (Ok not_synced, p)) ∨
  (synced now p ∧ maybe_produce_block t p =
    match production_slot now p with
    | Ok (inl c) => (Ok c, p1)
    | Ok (inr (time, w, key)) => attempts 2 time w key p1
    | Err e => (Err e, p1)
    end).
Proof.
  intros now p1. unfold maybe_produce_block, synced. rewrite (xbind_Ok (xgets id) _ p p p eq_refl). cbv zeta. fold now.
  destruct (_production_enabled p) eqn:Ep; cbn [negb andb].
  2: destruct (Z.ltb_spec (get_slot_time 1 (state (database p))) now) as [Hlt|Hge].
  2: { left. split; [intros [?|?]; [done|lia]|done]. }
  all: right; (split; [auto|]); rewrite (xbind_Ok (xmodify (set_block_production true)) _ p tt p1 eq_refl);
    by destruct (production_slot now p) as [[c|[[time w] key]]|e].
Qed.

(** C15: a block is made exactly when one is due.  It carries the nearest second, which
    is the start of a slot, is by the witness scheduled for that slot, who is one of
    the node's and whose key the node has, and enough witnesses take part in the
    chain; production was switched on or the next slot is not over yet.  In every
    other case nothing is sent and, unless making the block failed, the node is left
    alone. *)
Theorem produced_on_schedule t p :
  let now := nearest_second t in
  match maybe_produce_block t p with
  | (Ok produced, p') => synced now p ∧
      ∃ w key b, may_produce now p w key ∧ broadcasts p' = broadcasts p ++ [b] ∧ timestamp b = now ∧ witness b = w
  | (Ok c, p') => broadcasts p' = broadcasts p ∧ (c = exception_producing_block ∨ database p' = database p)
  | (Err _, p') => broadcasts p' = broadcasts p
  end ∧
  ∀ w key, synced now p → may_produce now p w key →
    maybe_produce_block t p = attempts 2 now w key (set_block_production true p).
Proof.
  intros now. destruct (maybe_produce_block_eq t p) as [[Hs ->]|[Hs ->]]; fold now in Hs |- *.
  { split; [by auto|]. by intros w key H. }
  split; [|by intros w key _ ->%may_produce_slot].
  destruct (production_slot now p) as [[c|[[time w] key]]|e] eqn:Es; [| |done].
  - apply production_slot_inl in Es as [H1 H2]. destruct c; try done; by auto.
  - apply production_slot_inr in Es as [Hmay ->].
    destruct (attempts 2 now w key _) as [r p'] eqn:E. apply attempts_broadcasts in E as [_ H].
    destruct r as [c|e]; [|exact H]. destruct H as [(-> & b & H)|(-> & H)]; [|by auto].
    split; [done|]. by exists w, key, b.
Qed.

(** ** One block in a slot *)

(** The node is settled and the fork database has not run ahead of its head block. *)
Definition prod_ready p : Prop :=
  let c := clear_pending (database p) in node_ok (database p) ∧ head_ready c ∧ numbered c.
(** The next block does not become irreversible at once. *)
Definition next_reversible n : Prop := ∀ skip b, previous b = head_id_of n → stays_reversible skip b n.

Lemma clear_pending_twice n : clear_pending (clear_pending n) = clear_pending n.
Proof. destruct n as [?[]????[]???]; node_cbv; done. Qed.
Lemma next_reversible_spot n n' : spot_of n' = spot_of n → next_reversible n → next_reversible n'.
Proof.
  unfold spot_of, next_reversible, stays_reversible, head_id_of. intros E H skip b. injection E as -> -> Ec.
  rewrite (checked_skip_stack skip b n n' Ec). apply H.
Qed.

(** An attempt that fails leaves the chain where it is and the plugin ready. *)
Lemma attempt_fails time w key p p' :
  prod_ready p → next_reversible (clear_pending (database p)) → attempt time w key p = (Ok None, p') →
  spot_of (clear_pending (database p')) = spot_of (clear_pending (database p)) ∧ prod_ready p'.
Proof.
  intros (_ & Hr & Hn) Hrev (g & n & Eg & H)%attempt_cases. pose proof (generate_block_top _ _ _ _ _ _ _ Hr Hn Eg) as Ht.
  destruct g as [b|e]; [by destruct H|]. destruct (is_exception e); destruct H as [H ->]; [|done]. cbv zeta in Ht.
  destruct Ht as [Es Hr']; [intros b Hm; apply Hrev, Hm|].
  unfold prod_ready. cbv zeta. change (database (p <| database := clear_pending n |>)) with (clear_pending n).
  rewrite !clear_pending_twice. split; [exact Es|]. split; [apply clear_pending_ok|]. split; [exact Hr'|].
  unfold numbered, head_id_of, head_num_of in *. injection Es as -> _ _. done.
Qed.
Lemma attempt_succeeds time w key p p' :
  prod_ready p → attempt time w key p = (Ok (Some produced), p') →
  let h := state (clear_pending (database p)) in
  ∃ b k, broadcasts p' = broadcasts p ++ [b] ∧ made_block time w (database p) b ∧
    _apply_block k b h = Ok (tt, state (clear_pending (database p'))) ∧ node_ok (database p').
Proof.
  intros (_ & Hr & Hn) (g & n & Eg & H)%attempt_cases. pose proof (generate_block_top _ _ _ _ _ _ _ Hr Hn Eg) as Ht.
  destruct g as [b|e]; [|by destruct (is_exception e); destruct H]. destruct H as [_ ->].
  destruct Ht as (Hm & (k & _ & Hk) & Hok). by exists b, k.
Qed.

Lemma attempts_outcome m time w key p c p' :
  prod_ready p → next_reversible (clear_pending (database p)) → attempts m time w key p = (Ok c, p') →
  let h := state (clear_pending (database p)) in
  let h' := state (clear_pending (database p')) in
  (c = exception_producing_block ∧ h' = h ∧ prod_ready p') ∨
  (c = produced ∧ ∃ b k, broadcasts p' = broadcasts p ++ [b] ∧ timestamp b = time ∧
     previous b = head_block_id (gpo h) ∧ _apply_block k b h = Ok (tt, h') ∧ node_ok (database p')).
Proof.
  cbn zeta. revert p. induction m as [|m IH]; intros p Hp Hrev E; cbn [attempts] in E.
  { injection E as <- <-. by left. }
  apply xbind_cases in E as [(e & _ & E)|([d|] & p1 & E1 & E)]; [done| |].
  - apply pair_equal_spec in E as [E <-]. injection E as ->. right.
    pose proof (attempt_broadcasts _ _ _ _ _ _ E1) as [_ [-> _]]. split; [done|].
    destruct (attempt_succeeds _ _ _ _ _ Hp E1) as (b & k & H1 & (H2 & H3 & _) & H4 & H5). by exists b, k.
  - destruct (attempt_fails _ _ _ _ _ Hp Hrev E1) as [Es Hp1].
    pose proof (attempt_broadcasts _ _ _ _ _ _ E1) as [_ Hb].
    specialize (IH p1 Hp1 (next_reversible_spot _ _ Es Hrev) E). injection Es as Es _ _. rewrite Es, Hb in IH. exact IH.
Qed.

Lemma first_slot_time s b :
  clock_of s = block_clock b → block_num b ≠ 0 → 0 <= timestamp b → timestamp b + 3 < 2 ^ 32 →
  get_slot_time 1 s = 3 * (timestamp b / 3 + 1).
Proof.
  unfold clock_of, block_clock. intros Ec Hb H0 H3. injection Ec as _ En Et.
  rewrite <- Et, <- En in *. by rewrite get_slot_time_exact by (unfold WLS_BLOCK_INTERVAL; lia).
Qed.
Lemma too_early t p :
  _production_enabled p = true → nearest_second t < get_slot_time 1 (state (database p)) →
  maybe_produce_block t p = (Ok not_time_yet, p).
Proof.
  intros Hp Ht. destruct (maybe_produce_block_eq t p) as [[Hs _]|[_ ->]]; [by destruct Hs; left|].
  unfold production_slot, get_slot_at_time. apply Z.ltb_lt in Ht as ->. cbn.
  f_equal. destruct p. cbn in Hp. by subst.
Qed.

(** C6: one block in a slot: when a block was made, the head block is that block, built
    on the old head block and later than it, and until the next slot begins the
    plugin makes no other one.  (A failed attempt is retried once on the same head
    state; only a block that was applied is sent.) *)
Theorem one_block_per_slot t p p' :
  prod_ready p → next_reversible (clear_pending (database p)) → nearest_second t + 3 < 2 ^ 32 →
  maybe_produce_block t p = (Ok produced, p') →
  let h := state (clear_pending (database p)) in
  let h' := state (clear_pending (database p')) in
  ∃ b k, broadcasts p' = broadcasts p ++ [b] ∧ _apply_block k b h = Ok (tt, h') ∧
    previous b = head_block_id (gpo h) ∧ head_block_id (gpo h') = block_id_of b ∧
    time (gpo h) < timestamp b ∧ timestamp b = nearest_second t ∧
    ∀ t', nearest_second t' < 3 * (timestamp b / 3 + 1) → maybe_produce_block t' p' = (Ok not_time_yet, p').
Proof.
  intros Hp Hrev Ht E h h'. destruct (maybe_produce_block_eq t p) as [[_ E']|[_ E']]; rewrite E' in E; [done|]. clear E'.
  destruct (production_slot _ p) as [[c|[[time w] key]]|e] eqn:Es; [| |done].
  { apply production_slot_inl in Es as [Hc _]. apply pair_equal_spec in E as [E _]. by injection E as ->. }
  apply production_slot_inr in Es as [_ ->].
  pose proof (attempts_broadcasts _ _ _ _ _ _ _ E) as [(n & l & Ep) _].
  apply attempts_outcome in E as [(? & _)|(_ & b & k & H1 & H2 & H3 & H4 & H5)]; [done| |exact Hp|exact Hrev].
  exists b, k. pose proof (applied_clock _ _ _ _ H4) as Hclock. fold h h' in H3, H4, Hclock.
  split_and!; [exact H1|exact H4|exact H3|by injection Hclock|by eapply applied_later|exact H2|].
  intros t' Ht'. apply too_early; [by subst p'|]. destruct Hp as (_ & _ & Hn).
  rewrite (first_slot_time _ b); [exact Ht'| | |rewrite H2; unfold nearest_second in *|by rewrite H2].
  - by rewrite node_ok_clock.
  - rewrite (next_block_num _ b Hn H3). destruct Hn. lia.
  - rewrite tps_of_time_point_spec. by apply wrap_range.
Qed.

(** ** The loop *)

Lemma generate_attempt_exn time w key p e p' : attempt time w key p = (Err e, p') → is_exception e = false.
Proof.
  intros (g & n & _ & H)%attempt_cases. destruct g as [b|e']; [by destruct H|].
  destruct (is_exception e') eqn:He; destruct H as [H _]; [done|]. by injection H as ->.
Qed.
Lemma attempts_exn m time w key p e p' : attempts m time w key p = (Err e, p') → is_exception e = false.
Proof.
  revert p. induction m as [|m IH]; intros p E; cbn [attempts] in E; [done|].
  apply xbind_cases in E as [(e' & E & [= ->])|([c|] & p1 & _ & E)]; [by eapply generate_attempt_exn|done|by eapply IH].
Qed.
Lemma production_slot_exn now p e : production_slot now p = Err e → is_exception e = false.
Proof.
  unfold production_slot, get_scheduled_witness. cbv zeta. case_match; [done|].
  destruct (num_scheduled_witnesses _ =? 0); cbn; [by intros [= <-]|].
  destruct (_ !! _) as [w|]; cbn; [|by intros [= <-]]. case_match; [done|].
  destruct (find_row _ _) as [iw|]; cbn; [|by intros [= <-]]. by repeat case_match.
Qed.
Lemma maybe_produce_block_exn t p e p' : maybe_produce_block t p = (Err e, p') → is_exception e = false.
Proof.
  destruct (maybe_produce_block_eq t p) as [[_ ->]|[_ ->]]; [done|].
  destruct (production_slot _ p) as [[c|[[time w] key]]|e'] eqn:Es; [done|by intros ?%attempts_exn|].
  intros [= <- _]. by eapply production_slot_exn.
Qed.

(** C24: the loop never stops: every round ends with the next one scheduled for a full
    second that is at least 50 and less than 1050 milliseconds away, whatever the
    round met.  In particular an unknown hardfork, which the loop means to stop for,
    never gets there: [maybe_produce_block] has caught it.  (The values that are left
    stand for undefined behaviour, not for exceptions.) *)
Theorem production_loop_goes_on now now_fine later p :
  0 <= later →
  match block_production_loop now now_fine later p with
  | (Ok _, p') => ∃ wakeup, _block_production_task p' = Some wakeup ∧ wakeup mod 1000000 = 0 ∧
      later + 50000 <= wakeup < later + 1050000
  | (Err e, _) => e = undefined_behaviour ∨ e = out_of_fuel
  end.
Proof.
  intros Hl.
  assert (∀ p, ∃ wakeup, _block_production_task (schedule_production_loop later p) = Some wakeup ∧ wakeup mod 1000000 = 0 ∧
      later + 50000 <= wakeup < later + 1050000) as Hs.
  { intros q. eexists. split; [reflexivity|]. unfold time_to_next_second. rewrite Z.rem_mod_nonneg by lia.
    pose proof (Z.div_mod later 1000000 ltac:(lia)). pose proof (Z.mod_pos_bound later 1000000 ltac:(lia)).
    set (r := later mod 1000000) in *. set (d := later / 1000000) in *. destruct (Z.ltb_spec (1000000 - r) 50000).
    - split; [|lia]. replace (later + _) with ((d + 2) * 1000000) by lia. by apply Z.mod_mul.
    - split; [|lia]. replace (later + _) with ((d + 1) * 1000000) by lia. by apply Z.mod_mul. }
  unfold block_production_loop. set (p0 := p <| _block_production_task := None |>).
  rewrite (xbind_Ok (xmodify (λ p, p <| _block_production_task := None |>)) _ p tt p0 eq_refl).
  destruct (now <? _); [apply (Hs p0)|].
  destruct (maybe_produce_block now_fine p0) as [r p1] eqn:E.
  rewrite (xbind_Ok (xtry _) _ p0 r p1) by (unfold xtry; by rewrite E).
  destruct r as [c|e]; [apply (Hs p1)|]. apply maybe_produce_block_exn in E.
  by destruct e; try discriminate E; [left|right].
Qed.
End producer.
