(* ===== verification/ProducerDemo.v ===== *)
(** * ProducerDemo: a witness at work

    The node of NodeDemo with the witness plugin: the witnesses of ProducerSpec. *)

From S2P Require Import Prelude FcLib Tables Config Asset Names Authority Operations Transaction Block ForkDb ForkSpec BlockLog Reward Objects Ledger Invariants Supply Evaluators Conservation Demo Preservation LedgerSpec Payout Schedule ScheduleSpec Blocks BlocksSpec ChainSpec Node NodeSpec NodeDemo Utilities Producer ProducerSpec.

(** In the first rounds the last irreversible block is 21 blocks behind the head. *)
Section early.
Context `{FC : FcLib} `{ENV : EvalEnv} `{CR : Crypto} `{BL : BlockLib} `{CP : ChainParams}
  `{HF : Hardforks} `{BP : BlockPack} `{SG : Signing}.

Lemma early_lib s b :
  clock_of s = block_clock b → 21 < block_num b < 30 →
  wp update_last_irreversible_block (λ _ s', lib_of s' = block_num b - 21) s.
Proof.
  unfold clock_of, block_clock. intros Ec Hb. injection Ec as _ En _.
  unfold update_last_irreversible_block, head_block_num. wp_step. wp_step. rewrite En.
  rewrite (proj2 (Z.ltb_lt _ WLS_START_MINER_VOTING_BLOCK)) by (unfold WLS_START_MINER_VOTING_BLOCK; lia).
  apply wp_modify_gpo. intros g Hg. rewrite (proj2 (Z.ltb_lt WLS_MAX_WITNESSES _)) in Hg by (unfold WLS_MAX_WITNESSES; lia).
  injection Hg as <-. unfold lib_of. cbn. apply wrap_small. unfold WLS_MAX_WITNESSES. lia.
Qed.
Lemma early_head_lib skip b s :
  21 < block_num b < 30 → wp (apply_block_head skip b) (λ _ s', lib_of s' = block_num b - 21) s.
Proof.
  intros Hb. unfold apply_block_head.
  do 10 (wp_step; apply (wp_mono _ _ _ _ (wp_any _ _)); intros ? ? _).
  wp_step. eapply wp_mono; [apply update_global_clock|]. intros ? s1 H1. cbv beta in H1.
  assert (stable same_clock (update_signing_witness a0.1 b)) as Hm by (unfold update_signing_witness; stable ltac:(unfold same_clock, clock_of; bind_oks; simpl in *; congruence)).
  wp_step. eapply wp_mono; [apply Hm|]. unfold same_clock. intros ? s2 H2. apply early_lib; [congruence|done].
Qed.
Lemma early_reversible n :
  numbered n → 20 < head_num_of n < 29 → head_num_of n - 20 <= revision n → next_reversible n.
Proof.
  intros Hn Hh Hr skip b Hb k s _ E. pose proof (next_block_num n b Hn Hb) as Hnum.
  rewrite (wp_ok _ _ _ _ _ (early_head_lib k b (state n) ltac:(lia)) E). lia.
Qed.
End early.

#[local] Existing Instances fc_ref demo_env demo_crypto block_ref demo_params demo_signing.

Definition demo_producer : witness_plugin :=
  WitnessPlugin busy_node false 0 node_flags {[1 := 1]} {["initminer"%string]} true None [].
Definition first_slot : Z := get_slot_time 1 young_chain.
(** 300 ms before the slot. *)
Definition clock : Z := first_slot * 1000000 - 300000.
Definition producing : result block_production_condition * witness_plugin := maybe_produce_block clock demo_producer.
Lemma demo_produces : producing.1 = Ok produced.
Proof. vm_compute. reflexivity. Qed.
Lemma producing_run : maybe_produce_block clock demo_producer = (Ok produced, producing.2).
Proof. apply pair_fst, demo_produces. Qed.
Lemma demo_numbered : numbered (clear_pending busy_node).
Proof. vm_compute. split; [reflexivity|split; [discriminate|reflexivity]]. Qed.
Lemma demo_head_ready : head_ready (clear_pending busy_node).
Proof.
  exists (new_item head_block). split; [exists 0%nat; vm_compute; split; reflexivity|]. left. vm_compute. discriminate.
Qed.
Lemma demo_ready : prod_ready demo_producer.
Proof. exact (conj busy_node_ok (conj demo_head_ready demo_numbered)). Qed.
Lemma demo_next_reversible : next_reversible (clear_pending (database demo_producer)).
Proof. apply early_reversible; [exact demo_numbered|vm_compute; split; reflexivity|vm_compute; discriminate]. Qed.
Lemma demo_clock : nearest_second clock + 3 < 2 ^ 32 ∧ nearest_second clock = first_slot.
Proof. vm_compute. split; reflexivity. Qed.
Lemma demo_later : nearest_second (clock + 1500000) < 3 * (nearest_second clock / 3 + 1).
Proof. vm_compute. reflexivity. Qed.

Lemma one_block_per_slot_witness :
  ∃ b, broadcasts producing.2 = [b] ∧ timestamp b = first_slot ∧
    maybe_produce_block (clock + 1500000) producing.2 = (Ok not_time_yet, producing.2).
Proof.
  destruct (one_block_per_slot clock demo_producer producing.2 demo_ready demo_next_reversible (proj1 demo_clock) producing_run)
    as (b & k & H1 & _ & _ & _ & _ & H2 & H3).
  exists b. split; [exact H1|]. split; [rewrite H2; exact (proj2 demo_clock)|]. apply H3. rewrite H2. exact demo_later.
Defined.

Lemma demo_may_produce : may_produce (nearest_second clock) demo_producer "initminer" 1.
Proof.
  unfold may_produce. split_and!; [vm_compute; discriminate|vm_compute; reflexivity|eexists; split; vm_compute; reflexivity|..].
  - change ("initminer"%string ∈ ({["initminer"%string]} : gset string)). set_solver.
  - eexists. split; vm_compute; reflexivity.
  - vm_compute. discriminate.
Qed.
Lemma demo_synced : synced (nearest_second clock) demo_producer.
Proof. right. vm_compute. discriminate. Qed.
Lemma produced_on_schedule_witness :
  maybe_produce_block clock demo_producer =
    attempts 2 (nearest_second clock) "initminer" 1 (set_block_production true demo_producer).
Proof. apply (produced_on_schedule clock demo_producer); [exact demo_synced|exact demo_may_produce]. Defined.

Lemma production_loop_goes_on_witness :
  match block_production_loop clock clock clock demo_producer with
  | (Ok _, p') => ∃ wakeup, _block_production_task p' = Some wakeup ∧ wakeup mod 1000000 = 0 ∧
      clock + 50000 <= wakeup < clock + 1050000
  | (Err e, _) => e = undefined_behaviour ∨ e = out_of_fuel
  end.
Proof. apply production_loop_goes_on. vm_compute. discriminate. Defined.
