(* ===== verification/Sync.v ===== *)
(** * Sync: what the node tells its peers about its chain

    [libraries/app/application.cpp]: the delegate that the network calls.  A node
    that wants to catch up sends a synopsis of its chain, a few block ids that get
    denser towards the head; the peer answers with the ids that follow the last one
    it shares. *)

From S2P Require Import Prelude FcLib Tables Config Asset Names Authority Operations Transaction Block ForkDb BlockLog Reward Objects Ledger Invariants Evaluators Payout Schedule Blocks Node.

(** application.cpp:86-987, the part that the delegate uses *)
Record application_impl := Application {
  _chain_db : node;
  is_block_producer : bool;
  _force_validate : bool;
  _running : bool;
  allow_future_time : Z
}.
#[global] Instance application_eta : Eta application_impl := λ r,
  Application (_chain_db r) (is_block_producer r) (_force_validate r) (_running r) (allow_future_time r).

Section sync.
Context `{FC : FcLib} `{ENV : EvalEnv} `{CR : Crypto} `{BL : BlockLib} `{CP : ChainParams}
  `{HF : Hardforks} `{BP : BlockPack} `{SG : Signing}.
Implicit Types (n : node).

Definition on_chain_db {A} (m : X node A) : X application_impl A := λ p,
  let r := m (_chain_db p) in (r.1, p <| _chain_db := r.2 |>).

(** ** Blocks and transactions from the network *)

(** application.cpp:568-583: the exception is translated for the network code. *)
Definition translate (e : exn) : exn :=
  match e with unlinkable_block_exception => net_unlinkable_block_exception | _ => e end.
(** application.cpp:513; [now] is the clock in microseconds *)
Definition handle_block (now : Z) (b : signed_block) : X application_impl bool :=
  p ← xgets id;
  if _running p then
    xassert (timestamp b <=? tps_of_time_point now + allow_future_time p);;
    r ← xtry (on_chain_db (push_block b (if is_block_producer p || _force_validate p then 0 else skip_transaction_signatures)));
    match r with Ok sw => mret sw | Err e => xthrow (translate e) end
  else mret false.
(** application.cpp:588 *)
Definition handle_transaction (t : signed_transaction) : X application_impl unit :=
  p ← xgets id;
  xwhen (_running p) (on_chain_db (push_transaction t 0)).

(** ** What is known *)

(** database.cpp:229 *)
Definition is_known_block (i : Z) n : result bool :=
  b ← fetch_block_by_id i n; mret (match b with Some _ => true | None => false end).
(** database.cpp:1672 *)
Definition last_non_undoable_block_num n : Z := last_irreversible_block_num (gpo (state n)).
(** application.cpp:486: nothing is fetched while the node shuts down *)
Definition has_block (i : Z) (p : application_impl) : result bool :=
  if _running p then is_known_block i (_chain_db p) else mret true.
Definition has_transaction (i : Z) (p : application_impl) : bool :=
  if _running p then is_known_transaction i (_chain_db p) else true.
(** application.cpp:600 *)
Definition is_included_block (i : Z) n : result bool :=
  j ← get_block_id_for_num (num_from_id i) n; mret (i =? j).
(** application.cpp:678, of a block *)
Definition get_block_item (i : Z) n : result signed_block :=
  b ← fetch_block_by_id i n;
  match b with
  | Some b => mret b
  | None => get_block_id_for_num (num_from_id i) n;; Err assert_exception
  end.
(** application.cpp:902-933 *)
Definition get_block_number (i : Z) : Z := num_from_id i.
Definition get_block_time (i : Z) n : result Z :=
  b ← fetch_block_by_id i n; mret (match b with Some b => timestamp b | None => tps_min end).
Definition get_head_block_id n : Z := head_id_of n.

(** ** The answer to a synopsis *)

(** application.cpp:645-654, over the reversed synopsis *)
Fixpoint last_recognized n (rev_synopsis : list Z) : result (option Z) :=
  match rev_synopsis with
  | [] => mret None
  | i :: l =>
    if i =? 0 then mret (Some i)
    else
      known ← is_known_block i n;
      included ← (if (known : bool) then is_included_block i n else mret false);
      if (included : bool) then mret (Some i) else last_recognized n l
  end.
(** application.cpp:660-666.  The loop runs at most once for every number up to the
    head's. *)
Fixpoint collect_ids n (fuel : nat) (limit num : Z) (acc : list Z) : result (list Z) :=
  if (num <=? head_num_of n) && (Z.of_nat (length acc) <? limit) then
    match fuel with
    | O => Err out_of_fuel
    | S fuel =>
      acc ← (if 0 <? num then i ← get_block_id_for_num num n; mret (acc ++ [i]) else mret acc);
      collect_ids n fuel limit (wrap 32 (num + 1)) acc
    end
  else mret acc.
(** application.cpp:668-669 *)
Definition remaining_after n (ids : list Z) : Z :=
  match last ids with
  | Some i => if num_from_id i <? head_num_of n then wrap 32 (head_num_of n - num_from_id i) else 0
  | None => 0
  end.
(** application.cpp:619: the ids, and the number of blocks behind them *)
Definition get_block_ids (synopsis : list Z) (limit : Z) n : result (list Z * Z) :=
  if head_num_of n =? 0 then mret ([], 0)
  else
    last_known_block_id ←
      (if bool_decide (synopsis = [] ∨ synopsis = [0]) then mret 0
       else
         found ← last_recognized n (rev synopsis);
         of_option peer_is_on_an_unreachable_fork found);
    let num := num_from_id last_known_block_id in
    ids ← collect_ids n (S (Z.to_nat (head_num_of n - num))) limit num [];
    mret (ids, remaining_after n ids).

(** ** The synopsis *)

(** application.cpp:871: [low] grows in every round *)
Definition next_low (true_high low : Z) : Z := wrap 32 (low + wrap 32 (true_high - low + 2) / 2).
Definition synopsis_id n (fork_history : list Z) (non_fork_high low : Z) : result Z :=
  if low <=? non_fork_high then get_block_id_for_num low n
  else of_option undefined_behaviour (fork_history !! Z.to_nat (wrap 32 (wrap 32 (low - non_fork_high) - 1))).
(** application.cpp:862 *)
Fixpoint synopsis_loop n (fuel : nat) (fork_history : list Z) (non_fork_high high true_high low : Z) : result (list Z) :=
  match fuel with
  | O => Err out_of_fuel
  | S fuel =>
    i ← synopsis_id n fork_history non_fork_high low;
    let low := next_low true_high low in
    l ← (if low <=? high then synopsis_loop n fuel fork_history non_fork_high high true_high low else mret []);
    mret (i :: l)
  end.

(** application.cpp:770-849: where the synopsis begins and ends, the last number on the
    main chain, and the ids of the fork; [None] when there are no blocks. *)
Definition synopsis_bounds (reference_point : Z) n : result (option (Z * Z * Z * list Z)) :=
  let low := last_non_undoable_block_num n in
  if negb (reference_point =? 0) then
    included ← is_included_block reference_point n;
    if (included : bool) then
      let r := num_from_id reference_point in
      mret (Some (if r <? low then r else low, r, r, []))
    else
      fork_history ← get_block_ids_on_fork reference_point n;
      last_non_fork_block ← of_option undefined_behaviour (last fork_history);
      let fork_history := rev (removelast fork_history) in
      let non_fork_high := if last_non_fork_block =? 0 then 0 else num_from_id last_non_fork_block in
      let high := wrap 32 (non_fork_high + Z.of_nat (length fork_history)) in
      if non_fork_high <? low then Err block_older_than_undo_history
      else mret (Some (low, non_fork_high, high, fork_history))
  else
    let high := head_num_of n in
    if high =? 0 then mret None else mret (Some (low, high, high, [])).
(** application.cpp:758 *)
Definition get_blockchain_synopsis (reference_point number_of_blocks_after_reference_point : Z) n : result (list Z) :=
  bounds ← synopsis_bounds reference_point n;
  match bounds with
  | None => mret []
  | Some (low, non_fork_high, high, fork_history) =>
    let low := if low =? 0 then 1 else low in
    let true_high := wrap 32 (high + number_of_blocks_after_reference_point) in
    synopsis_loop n (S (Z.to_nat (high - low))) fork_history non_fork_high high true_high low
  end.

End sync.
