(* ===== verification/SyncSpec.v ===== *)
(** * SyncSpec: a synopsis finds the last common block

    The numbers of a synopsis get denser towards the head by halves; the peer's answer
    starts with a block that both chains have, and repeats at most as many blocks as
    the chains differ in. *)

From S2P Require Import Prelude FcLib Tables Config Asset Names Authority Operations Transaction Block ForkDb ForkSpec BlockLog Reward Objects Ledger Invariants Supply Evaluators Conservation Demo Preservation LedgerSpec Payout Schedule ScheduleSpec Blocks BlocksSpec ChainSpec Node NodeSpec NodeDemo Sync.

(** ** The numbers of a synopsis *)

(** The number of [synopsis_loop] in every round. *)
Fixpoint synopsis_nums (fuel : nat) (high true_high low : Z) : list Z :=
  match fuel with
  | O => []
  | S fuel =>
    low :: (let low := next_low true_high low in if low <=? high then synopsis_nums fuel high true_high low else [])
  end.

Section numbers.
Context (high true_high : Z).
Hypothesis bounds : high <= true_high < 2 ^ 32 - 1.

(** The distance from the end is halved. *)
Definition gap (k : Z) : Z := true_high + 1 - k.
Lemma next_low_spec low : 1 <= low <= true_high → next_low true_high low = low + (true_high - low + 2) / 2.
Proof.
  intros Hl. unfold next_low. rewrite (wrap_small 32 (true_high - low + 2)) by lia.
  apply wrap_small. pose proof (Z.div_pos (true_high - low + 2) 2 ltac:(lia) ltac:(lia)).
  pose proof (Z.div_le_upper_bound (true_high - low + 2) 2 (true_high - low + 1) ltac:(lia) ltac:(lia)). lia.
Qed.
Lemma next_low_gap low : 1 <= low <= true_high → gap (next_low true_high low) = gap low / 2 ∧ low < next_low true_high low.
Proof.
  intros Hl. rewrite next_low_spec by done. unfold gap. Z.to_euclidean_division_equations. lia.
Qed.

(** Consecutive numbers: every [k] between the first and [high] has a number at most
    [k] whose distance is at most twice that of [k]. *)
Record covers (low : Z) (l : list Z) : Prop := {
  covers_first : l !! 0%nat = Some low;
  covers_sorted : StronglySorted Z.lt l;
  covers_range k : k ∈ l → low <= k <= high;
  covers_near c : low <= c <= high → ∃ l1 k l2, l = l1 ++ k :: l2 ∧ k <= c ∧ true_high - k <= 2 * (true_high - c) ∧ Forall (λ j, c < j) l2;
  covers_last : high = true_high → last l = Some high;
  covers_length : 2 ^ (Z.of_nat (length l) - 1) <= gap low
}.

Lemma near_low low c : 1 <= low <= true_high → c < next_low true_high low → c <= true_high → low <= c →
  true_high - low <= 2 * (true_high - c).
Proof.
  intros Hl Hc Hch Hlc. destruct (next_low_gap low Hl) as [Hg _]. unfold gap in *.
  pose proof (Z.div_mod (true_high + 1 - low) 2 ltac:(lia)). pose proof (Z.mod_pos_bound (true_high + 1 - low) 2 ltac:(lia)). lia.
Qed.

Lemma synopsis_nums_covers fuel low :
  (Z.to_nat (high - low) < fuel)%nat → 1 <= low <= high → covers low (synopsis_nums fuel high true_high low).
Proof.
  revert low. induction fuel as [|fuel IH]; intros low Hf Hl; [lia|]. cbn [synopsis_nums].
  destruct (next_low_gap low ltac:(lia)) as [Hg Hn]. pose proof (near_low low) as Hnear.
  set (next := next_low true_high low) in *.
  pose proof (Z.div_mod (gap low) 2 ltac:(lia)). pose proof (Z.mod_pos_bound (gap low) 2 ltac:(lia)).
  destruct (Z.leb_spec next high) as [Hnext|Hnext].
  - destruct (IH next ltac:(lia) ltac:(lia)) as [H1 H2 H3 H4 H5 H6]. set (l := synopsis_nums fuel high true_high next) in *.
    split.
    + done.
    + constructor; [done|]. apply Forall_forall. intros k Hk%H3. lia.
    + intros k [->|Hk%H3]%elem_of_cons; lia.
    + intros c Hc. destruct (Z.lt_ge_cases c next) as [Hcn|Hcn].
      * exists [], low, l. split; [done|]. split; [lia|]. split; [apply Hnear; lia|].
        apply Forall_forall. intros k Hk%H3. lia.
      * destruct (H4 c ltac:(lia)) as (l1 & k & l2 & -> & ? & ? & ?). by exists (low :: l1), k, l2.
    + intros E. destruct l as [|k l]; [done|]. by apply H5.
    + destruct l as [|k l]; [done|]. replace (Z.of_nat (length (low :: k :: l)) - 1) with (Z.succ (Z.of_nat (length (k :: l)) - 1)) by (cbn [length]; lia).
      rewrite Z.pow_succ_r by (cbn [length]; lia). lia.
  - split.
    + done.
    + repeat constructor.
    + intros k ->%list_elem_of_singleton. lia.
    + intros c Hc. exists [], low, []. split; [done|]. split; [lia|]. split; [apply Hnear; lia|constructor].
    + intros E. cbn. f_equal. unfold gap in *. lia.
    + cbn. unfold gap. lia.
Qed.
End numbers.

(** The example of application.cpp:721: of 26 blocks a to z, a, n, u, x and z. *)
Example synopsis_of_26 : synopsis_nums 26 26 26 1 = [1; 14; 21; 24; 26].
Proof. reflexivity. Qed.

Section sync.
Context `{FC : FcLib} `{ENV : EvalEnv} `{CR : Crypto} `{BL : BlockLib} `{CP : ChainParams}
  `{HF : Hardforks} `{BP : BlockPack} `{SG : Signing}.
Implicit Types (n : node) (ids : Z → Z).

Lemma synopsis_loop_ids n fork_history non_fork_high ids fuel high true_high low :
  high <= true_high < 2 ^ 32 - 1 → 1 <= low <= high → (Z.to_nat (high - low) < fuel)%nat →
  (∀ k, low <= k <= high → synopsis_id n fork_history non_fork_high k = Ok (ids k)) →
  synopsis_loop n fuel fork_history non_fork_high high true_high low = Ok (ids <$> synopsis_nums fuel high true_high low).
Proof.
  intros Hb. revert low. induction fuel as [|fuel IH]; intros low Hl Hf Hids; [lia|]. cbn [synopsis_loop synopsis_nums].
  rewrite (Hids low) by lia. destruct (next_low_gap high true_high Hb low ltac:(lia)) as [_ Hn].
  set (next := next_low true_high low) in *. cbn. destruct (Z.leb_spec next high); [|done].
  rewrite IH; [done|lia|lia|]. intros k Hk. apply Hids. lia.
Qed.

(** ** The answer *)

(** The ids of the main chain of [n], each of them known. *)
Definition main_chain n ids : Prop :=
  head_num_of n < 2 ^ 32 - 1 ∧
  ∀ k, 1 <= k <= head_num_of n → get_block_id_for_num k n = Ok (ids k) ∧ num_from_id (ids k) = k ∧ is_known_block (ids k) n = Ok true.
(** [i] is not on the main chain of [n]. *)
Definition not_on_chain n (i : Z) : Prop :=
  is_known_block i n = Ok false ∨ (is_known_block i n = Ok true ∧ is_included_block i n = Ok false).

Lemma get_block_id_nonzero k n i : get_block_id_for_num k n = Ok i → i ≠ 0.
Proof.
  unfold get_block_id_for_num. intros (j & _ & H)%bind_Ok. apply bind_Ok in H as (u & Hu%throw_unless_Ok & [= ->]).
  by apply negb_true_iff, Z.eqb_neq in Hu.
Qed.
Lemma main_chain_included n ids k : main_chain n ids → 1 <= k <= head_num_of n → is_included_block (ids k) n = Ok true.
Proof.
  intros [_ H] Hk. destruct (H k Hk) as (H1 & H2 & _). unfold is_included_block. rewrite H2, H1. cbn. by rewrite Z.eqb_refl.
Qed.

Lemma collect_ids_spec n ids fuel limit num acc :
  main_chain n ids → 1 <= num <= head_num_of n + 1 → (Z.to_nat (head_num_of n + 1 - num) <= fuel)%nat → Z.of_nat (length acc) <= limit →
  collect_ids n fuel limit num acc =
    Ok (acc ++ (ids <$> seqZ num (Z.min (limit - Z.of_nat (length acc)) (head_num_of n + 1 - num)))).
Proof.
  intros [Hh Hids]. revert num acc. induction fuel as [|fuel IH]; intros num acc Hn Hf Hacc; cbn [collect_ids].
  - rewrite (proj2 (Z.leb_gt _ _)) by lia. cbn. rewrite seqZ_nil by lia. by rewrite app_nil_r.
  - destruct (Z.leb_spec num (head_num_of n)) as [Hle|Hgt]; cbn [andb].
    2:{ rewrite seqZ_nil by lia. by rewrite app_nil_r. }
    destruct (Z.ltb_spec (Z.of_nat (length acc)) limit) as [Hlt|Hge].
    2:{ rewrite seqZ_nil by lia. by rewrite app_nil_r. }
    rewrite (proj2 (Z.ltb_lt 0 num)), (proj1 (Hids num ltac:(lia))) by lia.
    cbv beta iota delta [mbind result_bind mret result_ret]. rewrite wrap_small by lia. rewrite IH by (rewrite ?length_app; cbn [length]; lia).
    rewrite (seqZ_cons num) by lia. cbn [fmap list_fmap]. rewrite <- app_assoc. cbn [app].
    do 5 f_equal. rewrite length_app. cbn [length]. lia.
Qed.

Lemma last_recognized_found n i pre post :
  i ≠ 0 → is_known_block i n = Ok true → is_included_block i n = Ok true → Forall (λ j, j ≠ 0 ∧ not_on_chain n j) post →
  last_recognized n (rev (pre ++ i :: post)) = Ok (Some i).
Proof.
  intros H0 Hk Hi Hpost. rewrite rev_app_distr. cbn [rev].
  assert (∀ l r, Forall (λ j, j ≠ 0 ∧ not_on_chain n j) l → last_recognized n (l ++ r) = last_recognized n r) as Hskip.
  { intros l r. induction 1 as [|j l [Hj Hno] _ IH]; [done|]. cbn [app last_recognized]. rewrite (proj2 (Z.eqb_neq j 0) Hj).
    destruct Hno as [->|[-> ->]]; exact IH. }
  rewrite <- app_assoc, Hskip by by apply Forall_rev. cbn [app last_recognized]. rewrite (proj2 (Z.eqb_neq i 0) H0), Hk. cbn.
  by rewrite Hi.
Qed.

(** The answer to a synopsis in which [ids k] is the last block on the chain: that
    block and what follows, up to the limit, and how many are left. *)
Lemma get_block_ids_answer n ids pre post k limit :
  main_chain n ids → 1 <= k <= head_num_of n → 1 <= limit → Forall (λ j, j ≠ 0 ∧ not_on_chain n j) post →
  let m := Z.min limit (head_num_of n + 1 - k) in
  get_block_ids (pre ++ ids k :: post) limit n = Ok (ids <$> seqZ k m, head_num_of n + 1 - k - m).
Proof.
  intros Hc Hk Hl Hpost m. pose proof (proj2 Hc k Hk) as (H1 & H2 & H3). pose proof (get_block_id_nonzero _ _ _ H1) as H0.
  unfold get_block_ids. rewrite (proj2 (Z.eqb_neq _ 0)) by lia. rewrite bool_decide_false.
  2:{ intros [H|H]; [by destruct pre|]. destruct pre as [|x [|y pre]]; [|by destruct post|by destruct post].
      destruct post; [|done]. cbn in H. congruence. }
  rewrite last_recognized_found by (try done; by eapply main_chain_included). cbn [mbind result_bind of_option]. rewrite H2.
  rewrite (collect_ids_spec n ids _ limit k []) by (try done; cbn [length]; lia). cbn [mbind result_bind app length].
  rewrite Z.sub_0_r. fold m. unfold mret, result_ret. do 2 f_equal. unfold remaining_after.
  rewrite fmap_last. assert (last (seqZ k m) = Some (k + m - 1)) as ->.
  { rewrite last_lookup, length_seqZ. apply lookup_seqZ. unfold m. lia. }
  cbn. pose proof (proj2 Hc (k + m - 1) ltac:(unfold m; lia)) as (_ & -> & _). destruct Hc as [Hh _].
  destruct (Z.ltb_spec (k + m - 1) (head_num_of n)); [|unfold m in *; lia]. rewrite wrap_small by (unfold m; lia). lia.
Qed.

(** A peer without blocks gets the chain from its first block on. *)
Lemma get_block_ids_from_start n ids limit :
  main_chain n ids → 0 < head_num_of n → 1 <= limit →
  let m := Z.min limit (head_num_of n) in
  get_block_ids [] limit n = Ok (ids <$> seqZ 1 m, head_num_of n - m).
Proof.
  intros Hc Hh Hl m. unfold get_block_ids. rewrite (proj2 (Z.eqb_neq _ 0)) by lia. rewrite bool_decide_true by auto.
  cbn [mbind result_bind mret result_ret]. assert (num_from_id 0 = 0) as -> by apply endian_reverse_u32_0.
  cbn [collect_ids]. rewrite (proj2 (Z.leb_le 0 _)), (proj2 (Z.ltb_lt _ limit)) by (cbn [length]; lia).
  cbn [andb]. rewrite Z.ltb_irrefl. cbn [mbind result_bind mret result_ret]. change (wrap 32 (0 + 1)) with 1.
  rewrite (collect_ids_spec n ids _ limit 1 []) by (try done; cbn [length]; lia). cbn [mbind result_bind app length].
  replace (Z.min (limit - Z.of_nat 0) (head_num_of n + 1 - 1)) with m by (unfold m; lia).
  unfold mret, result_ret. do 2 f_equal. unfold remaining_after. rewrite fmap_last.
  assert (last (seqZ 1 m) = Some m) as ->.
  { rewrite last_lookup, length_seqZ. apply lookup_seqZ. unfold m. lia. }
  cbn. pose proof (proj2 Hc m ltac:(unfold m; lia)) as (_ & -> & _). destruct Hc as [Hb _].
  destruct (Z.ltb_spec m (head_num_of n)); [|unfold m in *; lia]. rewrite wrap_small by (unfold m; lia). lia.
Qed.

Lemma get_blockchain_synopsis_main n ids :
  main_chain n ids → 0 <= last_non_undoable_block_num n → 0 < head_num_of n →
  let low := Z.max 1 (last_non_undoable_block_num n) in let high := head_num_of n in
  low <= high →
  ∃ ks, get_blockchain_synopsis 0 0 n = Ok (ids <$> ks) ∧ covers high high low ks.
Proof.
  intros [Hb Hids] Hlib Hh low high Hlow. unfold get_blockchain_synopsis, synopsis_bounds. cbn [Z.eqb negb].
  rewrite (proj2 (Z.eqb_neq _ 0)) by lia. cbn [mbind result_bind mret result_ret].
  assert ((if last_non_undoable_block_num n =? 0 then 1 else last_non_undoable_block_num n) = low) as ->.
  { destruct (Z.eqb_spec (last_non_undoable_block_num n) 0); lia. }
  rewrite Z.add_0_r, wrap_small by lia. fold high.
  rewrite (synopsis_loop_ids n [] high ids) by (try lia; intros k Hk; unfold synopsis_id;
    rewrite (proj2 (Z.leb_le _ _)) by lia; apply Hids; lia).
  eexists. split; [done|]. apply synopsis_nums_covers; lia.
Qed.

(** C9: how a node catches up: [a] sends the synopsis of its chain to [b], whose chain
    is the same up to block [c] and which does not have the later blocks of [a] on its
    own.  The answer begins with a block both have, it lists the blocks of [b] from
    there on without a gap, as many as the limit allows, with the right number of
    blocks left; and it begins at most as far below [c] as [a] has blocks above.  The
    synopsis has at most 32 ids. *)
Theorem synopsis_finds_fork a b ids_a ids_b c limit :
  main_chain a ids_a → main_chain b ids_b → 0 <= last_non_undoable_block_num a → last_non_undoable_block_num a <= c →
  1 <= c <= head_num_of a → c <= head_num_of b → 1 <= limit →
  (∀ k, 1 <= k <= c → ids_a k = ids_b k) → (∀ k, c < k <= head_num_of a → not_on_chain b (ids_a k)) →
  ∃ synopsis s, get_blockchain_synopsis 0 0 a = Ok synopsis ∧ (length synopsis <= 32)%nat ∧
    let m := Z.min limit (head_num_of b + 1 - s) in
    get_block_ids synopsis limit b = Ok (ids_b <$> seqZ s m, head_num_of b + 1 - s - m) ∧
    1 <= s <= c ∧ c - s <= head_num_of a - c.
Proof.
  intros Ha Hb Hlib Hlibc Hc Hcb Hlimit Hsame Hdiff.
  destruct (get_blockchain_synopsis_main a ids_a Ha Hlib ltac:(lia) ltac:(lia)) as (ks & Hs & [_ _ Hr Hn _ Hlen]).
  destruct (Hn c ltac:(lia)) as (l1 & s & l2 & -> & Hsc & Hd & Hl2).
  assert (Z.max 1 (last_non_undoable_block_num a) <= s <= head_num_of a) as Hsr by (apply Hr; set_solver).
  exists (ids_a <$> l1 ++ s :: l2), s. split; [done|]. split.
  - rewrite length_fmap. destruct Ha as [Ha _]. unfold gap in Hlen.
    assert (Z.of_nat (length (l1 ++ s :: l2)) - 1 < 32); [|lia].
    apply (Z.pow_lt_mono_r_iff 2); lia.
  - split; [|lia]. rewrite fmap_app. cbn [fmap list_fmap]. rewrite Hsame by lia.
    apply get_block_ids_answer; [done|lia|done|]. apply Forall_fmap, Forall_forall. intros k Hk. cbn.
    rewrite Forall_forall in Hl2. assert (c < k <= head_num_of a) as Hck.
    { split; [by apply Hl2|]. apply Hr. set_solver. }
    split; [|by apply Hdiff]. destruct Ha as [_ Ha]. destruct (Ha k ltac:(lia)) as (Hk1 & _). by eapply get_block_id_nonzero.
Qed.

(** ** Blocks from the network *)

(** A block from the network reaches the chain unless it is more than a few seconds ahead
    of the clock; a block that does not link is reported in the network's terms. *)
Theorem handle_block_outcome now b p :
  _running p = true →
  let skip := if is_block_producer p || _force_validate p then 0 else skip_transaction_signatures in
  match handle_block now b p with
  | (Err assert_exception, p') => timestamp b > tps_of_time_point now + allow_future_time p ∧ p' = p ∨
      push_block b skip (_chain_db p) = (Err assert_exception, _chain_db p')
  | (Ok sw, p') => timestamp b <= tps_of_time_point now + allow_future_time p ∧
      push_block b skip (_chain_db p) = (Ok sw, _chain_db p')
  | (Err e, p') => ∃ e', e = translate e' ∧ e ≠ unlinkable_block_exception ∧
      push_block b skip (_chain_db p) = (Err e', _chain_db p')
  end.
Proof.
  intros Hr skip. unfold handle_block. rewrite (xbind_Ok (xgets id) _ p p p eq_refl), Hr.
  destruct (Z.leb_spec (timestamp b) (tps_of_time_point now + allow_future_time p)) as [Hle|Hgt].
  2:{ rewrite (xbind_Err (xassert false) _ p assert_exception p eq_refl). left. split; [lia|done]. }
  rewrite (xbind_Ok (xassert true) _ p tt p eq_refl). fold skip.
  destruct (push_block b skip (_chain_db p)) as [r n'] eqn:E. set (p1 := p <| _chain_db := n' |>).
  rewrite (xbind_Ok (xtry _) _ p r p1) by (unfold xtry, on_chain_db; by rewrite E).
  destruct r as [sw|e]; [by split|]. destruct e; cbn; first
    [by right | match type of E with _ = (Err ?x, _) => exists x; split; [reflexivity|]; by split end].
Qed.
End sync.

(** ** Witness

    Two nodes on the branches of [demo_fork]: one at block [a3], the other at [b4]. *)

#[local] Existing Instances fc_ref demo_env demo_crypto block_ref demo_params demo_signing.
Definition ids_of (l : list signed_block) (k : Z) : Z := default 0 (block_id_of <$> l !! Z.to_nat (k - 1)).
Definition node_on (l : list signed_block) : node :=
  let h := Z.of_nat (length l) in
  Node (empty_chain <| gpo := default_gpo <| head_block_number := h |> <| head_block_id := ids_of l h |>
          <| last_irreversible_block_num := 1 |> |>
        <| block_summaries := Table (list_to_map ((λ k, (k, BlockSummary (ids_of l k))) <$> seqZ 1 h)) 65536 |>)
    [] h demo_fork (BlockLog [] [] None 0) [] false [] ∅ 0.
Definition chain_a : list signed_block := [block_a1; block_a2; block_a3].
Definition chain_b : list signed_block := [block_a1; block_b2; block_b3; block_b4].

Lemma demo_chain_a : main_chain (node_on chain_a) (ids_of chain_a).
Proof.
  split; [vm_compute; reflexivity|]. change (head_num_of (node_on chain_a)) with 3. intros k Hk.
  assert (k = 1 ∨ k = 2 ∨ k = 3) as [-> | [-> | ->]] by lia; vm_compute; repeat split.
Qed.
Lemma demo_chain_b : main_chain (node_on chain_b) (ids_of chain_b).
Proof.
  split; [vm_compute; reflexivity|]. change (head_num_of (node_on chain_b)) with 4. intros k Hk.
  assert (k = 1 ∨ k = 2 ∨ k = 3 ∨ k = 4) as [-> | [-> | [-> | ->]]] by lia; vm_compute; repeat split.
Qed.
Lemma demo_common k : 1 <= k <= 1 → ids_of chain_a k = ids_of chain_b k.
Proof. intros Hk. assert (k = 1) as -> by lia. reflexivity. Qed.
Lemma demo_differ k : 1 < k <= head_num_of (node_on chain_a) → not_on_chain (node_on chain_b) (ids_of chain_a k).
Proof.
  change (head_num_of (node_on chain_a)) with 3. intros Hk. right.
  assert (k = 2 ∨ k = 3) as [-> | ->] by lia; vm_compute; split; reflexivity.
Qed.
Lemma demo_heads : 0 <= last_non_undoable_block_num (node_on chain_a) ∧ last_non_undoable_block_num (node_on chain_a) <= 1 ∧
  1 <= 1 <= head_num_of (node_on chain_a) ∧ 1 <= head_num_of (node_on chain_b) ∧ 1 <= 10.
Proof. vm_compute. repeat split; discriminate. Qed.

Lemma synopsis_finds_fork_witness :
  ∃ synopsis, get_blockchain_synopsis 0 0 (node_on chain_a) = Ok synopsis ∧
    get_block_ids synopsis 10 (node_on chain_b) = Ok (ids_of chain_b <$> seqZ 1 4, 0).
Proof.
  destruct demo_heads as (H1 & H2 & H3 & H4 & H5).
  destruct (synopsis_finds_fork (node_on chain_a) (node_on chain_b) (ids_of chain_a) (ids_of chain_b) 1 10
    demo_chain_a demo_chain_b H1 H2 H3 H4 H5 demo_common demo_differ) as (syn & s & E1 & _ & E2 & E3 & _).
  exists syn. split; [exact E1|]. assert (s = 1) as -> by lia. exact E2.
Defined.
