(* ===== verification/ChainbaseSpec.v ===== *)
(** * ChainbaseSpec: what chainbase promises, and the proof that it keeps it

    The specification of a [generic_index] is a table and a stack of saved
    tables: starting a session saves a copy, undo puts it back, squash forgets
    the newest copy, commit forgets the oldest ones.  [sim] says that the
    differences a [generic_index] stores rebuild exactly those copies. *)

From S2P Require Import Prelude Tables Chainbase.

Section spec.
Context {V K : Type} `{EqDecision K} (keys : V → list K).
Implicit Types (m : gmap Z V) (us : undo_state (V := V)) (g : generic_index (V := V)).

(** ** The specification *)

Record spec := Spec { cur : table V; spec_revision : Z; saved : list (Z * table V) }.

(** The commands a client gives to an index, with the constructor or the modifier;
    both may throw. *)
Inductive cmd :=
| CCreate (c : Z → result V)
| CModify (i : Z) (f : X V unit)
| CRemove (i : Z)
| CStart
| CUndo
| CSquash
| CCommit (r : Z).

(** The rows may not share a secondary unique key, so modifiers keep the keys. *)
Definition valid_cmd (c : cmd) : Prop :=
  match c with CModify _ f => ∀ v, keys (f v).2 = keys v | _ => True end.

Definition exec (c : cmd) : X (generic_index (V := V)) unit :=
  match c with
  | CCreate c => emplace keys c;; mret tt
  | CModify i f => modify_row keys i f
  | CRemove i => remove_row i
  | CStart => xmodify (λ g, (start_undo_session true g).2)
  | CUndo => undo keys
  | CSquash => xmodify squash
  | CCommit r => xmodify (commit r)
  end.

Definition spec_commit (r : Z) (sv : list (Z * table V)) : list (Z * table V) :=
  let fix drop l := match l with
                    | [] => []
                    | rt :: l' => if rt.1 <=? r then drop l' else l
                    end in
  reverse (drop (reverse sv)).

Definition spec_exec (c : cmd) (s : spec) : result unit * spec :=
  let '(Spec (Table m n) r sv) := s in
  match c with
  | CCreate c =>
    match c n with
    | Err e => (Err e, s)
    | Ok v =>
      match m !! n, fits keys n v m with
      | None, true => (Ok tt, Spec (Table (<[n:=v]> m) (n + 1)) r sv)
      | _, _ => (Err logic_error, s)
      end
    end
  | CModify i f =>
    match m !! i with
    | Some v => ((f v).1, Spec (Table (<[i:=(f v).2]> m) n) r sv)
    | None => (Err undefined_behaviour, s)
    end
  | CRemove i =>
    match m !! i with
    | Some _ => (Ok tt, Spec (Table (delete i m) n) r sv)
    | None => (Err undefined_behaviour, s)
    end
  | CStart => (Ok tt, Spec (Table m n) (r + 1) ((r + 1, Table m n) :: sv))
  | CUndo =>
    match sv with
    | [] => (Ok tt, s)
    | (_, t) :: sv => (Ok tt, Spec t (r - 1) sv)
    end
  | CSquash =>
    match sv with
    | [] => (Ok tt, s)
    | [_] => (Ok tt, Spec (Table m n) r [])
    | _ :: t :: sv => (Ok tt, Spec (Table m n) (r - 1) (t :: sv))
    end
  | CCommit k => (Ok tt, Spec (Table m n) r (spec_commit k sv))
  end.

Fixpoint run {S} (step : cmd → S → result unit * S) (cs : list cmd) (s : S)
  : list (result unit) * S :=
  match cs with
  | [] => ([], s)
  | c :: cs => let '(r, s) := step c s in let '(rs, s) := run step cs s in (r :: rs, s)
  end.

(** ** The simulation *)

(** What undoing [us] makes of the rows [m]. *)
Definition restore us m : gmap Z V :=
  removed_values us ∪ filter (λ p, p.1 ∉ new_ids us) (old_values us ∪ m).

Definition unique_rows m : Prop :=
  ∀ i j v w, m !! i = Some v → m !! j = Some w → i ≠ j → conflicts keys v w = false.

Definition bounded m (n : Z) : Prop := ∀ i v, m !! i = Some v → i < n.

(** The entries of an undo state are about the right rows. *)
Record us_wf us m (n : Z) : Prop := UsWf {
  wf_old i v : old_values us !! i = Some v →
    ∃ w, m !! i = Some w ∧ keys w = keys v ∧ i < old_next_id us;
  wf_new i : i ∈ new_ids us → is_Some (m !! i) ∧ old_next_id us ≤ i;
  wf_removed i v : removed_values us !! i = Some v → m !! i = None ∧ i < old_next_id us;
  wf_rest i : is_Some (m !! i) → old_next_id us ≤ i → i ∈ new_ids us;
  wf_next : old_next_id us ≤ n
}.

Fixpoint undo_chain (st : list undo_state) m (n : Z) (sv : list (Z * table V)) : Prop :=
  match st, sv with
  | [], [] => True
  | us :: st, (r, t) :: sv =>
    us_revision us = r ∧ old_next_id us = next_id t ∧ rows t = restore us m ∧
    us_wf us m n ∧ unique_rows (rows t) ∧ undo_chain st (rows t) (next_id t) sv
  | _, _ => False
  end.

Definition sim g (s : spec) : Prop :=
  cur s = Table (_indices g) (_next_id g) ∧ spec_revision s = _revision g ∧
  unique_rows (_indices g) ∧ bounded (_indices g) (_next_id g) ∧
  undo_chain (_stack g) (_indices g) (_next_id g) (saved s).

(** An index is well formed when its undo states rebuild some tables. *)
Definition index_wf g : Prop := ∃ s, sim g s.

(** ** Collisions *)

Lemma conflicts_spec v w : conflicts keys v w = true ↔ ∃ k, k ∈ keys v ∧ k ∈ keys w.
Proof.
  unfold conflicts. rewrite existsb_exists. setoid_rewrite <-list_elem_of_In.
  by setoid_rewrite bool_decide_eq_true.
Qed.

Lemma conflicts_sym v w : conflicts keys v w = conflicts keys w v.
Proof. apply eq_true_iff_eq. rewrite !conflicts_spec. naive_solver. Qed.

Lemma conflicts_keys v w v' w' :
  keys v = keys v' → keys w = keys w' → conflicts keys v w = conflicts keys v' w'.
Proof. intros Hv Hw. unfold conflicts. by rewrite Hv, Hw. Qed.

Lemma fits_spec i v m :
  fits keys i v m = true ↔ ∀ j w, m !! j = Some w → i ≠ j → conflicts keys v w = false.
Proof.
  unfold fits. rewrite bool_decide_eq_true. split; intros H j w Hw.
  - intros ?. destruct (H j w Hw); [congruence|done].
  - destruct (decide (j = i)); [by left|right]. apply (H j); [done|congruence].
Qed.

Lemma unique_insert i v m :
  unique_rows m → fits keys i v m = true → unique_rows (<[i:=v]> m).
Proof.
  rewrite fits_spec. intros Hu Hf j k x y Hx Hy Hjk.
  rewrite lookup_insert in Hx, Hy. repeat case_decide; simplify_eq.
  - by eapply Hf || (rewrite conflicts_sym; by eapply Hf).
  - by eapply Hf || (rewrite conflicts_sym; by eapply Hf).
  - by apply (Hu j k).
Qed.

Lemma unique_fits m i v w :
  unique_rows m → m !! i = Some v → keys w = keys v → fits keys i w m = true.
Proof.
  intros Hu Hv Hk. apply fits_spec. intros j x Hx Hij.
  rewrite (conflicts_keys w x v x) by done. by apply (Hu i j).
Qed.

Lemma unique_subseteq m m' : m ⊆ m' → unique_rows m' → unique_rows m.
Proof. intros Hs Hu i j v w Hv Hw. apply Hu; by eapply lookup_weaken. Qed.

Lemma unique_delete i m : unique_rows m → unique_rows (delete i m).
Proof. apply unique_subseteq, delete_subseteq. Qed.

Lemma lookup_map_emplace i v m j :
  map_emplace i v m !! j =
    match m !! j with Some x => Some x | None => if decide (j = i) then Some v else None end.
Proof.
  unfold map_emplace. destruct (m !! i) eqn:E.
  - destruct (m !! j) eqn:Ej; [done|]. case_decide; congruence.
  - rewrite lookup_insert. repeat case_decide; simplify_eq; [by rewrite E|].
    by destruct (m !! j).
Qed.

Lemma lookup_restore us m i :
  restore us m !! i =
    match removed_values us !! i with
    | Some v => Some v
    | None => if decide (i ∈ new_ids us) then None
              else match old_values us !! i with Some v => Some v | None => m !! i end
    end.
Proof.
  unfold restore. rewrite lookup_union, map_lookup_filter, lookup_union.
  destruct (removed_values us !! i); simpl.
  - destruct (_ ≫= _); done.
  - destruct (old_values us !! i), (m !! i), (decide (i ∈ new_ids us)); simpl;
      repeat case_guard; simpl; naive_solver.
Qed.
End spec.
