(* ===== verification/ChainbaseRefine.v ===== *)
(** * ChainbaseRefine: the undo machinery implements the snapshot stack *)

From S2P Require Import Prelude Tables Chainbase ChainbaseSpec.

Section refine.
Context {V K : Type} `{EqDecision K} (keys : V → list K).
Implicit Types (m : gmap Z V) (us : undo_state (V := V)) (g : generic_index (V := V)).

(** ** The three loops of [undo] *)

Lemma container_modify_fits i f v g :
  _indices g !! i = Some v → fits keys i (f v).2 (_indices g) = true →
  container_modify keys i f g = ((f v).1, g <| _indices ::= <[i:=(f v).2]> |>).
Proof.
  intros Hv Hfit. unfold container_modify, mbind, X_bind, xgets. simpl.
  rewrite Hv. destruct (f v) as [[[]|e] w]; simpl in *; [by rewrite Hfit|done].
Qed.

Lemma undo_old_loop l g :
  NoDup l.*1 → unique_rows keys (_indices g) →
  (∀ i v, (i, v) ∈ l → ∃ w, _indices g !! i = Some w ∧ keys w = keys v) →
  xfor_each l (λ '(i, v), container_modify keys i (λ _, (Ok tt, v))) g =
    (Ok tt, g <| _indices := list_to_map l ∪ _indices g |>).
Proof.
  revert g. induction l as [|[i v] l IH]; intros [st r n m] Hnd Hu Hl; simpl in *.
  { by rewrite (left_id_L ∅ (∪)). }
  apply NoDup_cons in Hnd as [Hi Hnd].
  destruct (Hl i v) as (w & Hw & Hk); [by left|].
  assert (fits keys i v m = true) as Hfit by (by eapply unique_fits).
  erewrite xbind_Ok by (by eapply (container_modify_fits i (λ _, (Ok tt, v)))). simpl.
  rewrite IH; simpl; [|done|by apply unique_insert|].
  - f_equal. f_equal. rewrite <-insert_union_l, <-insert_union_r; [done|].
    by apply not_elem_of_list_to_map.
  - intros j x Hj. destruct (Hl j x) as (y & Hy & Hyk); [by right|].
    exists y. rewrite lookup_insert_ne; [done|]. intros <-.
    apply Hi. apply list_elem_of_fmap. by exists (i, x).
Qed.

Lemma undo_new_loop l g :
  NoDup l → (∀ i, i ∈ l → is_Some (_indices g !! i)) →
  xfor_each l (λ i,
    m ← xgets _indices;
    match m !! i with
    | None => xthrow undefined_behaviour
    | Some _ => xmodify (λ g, g <| _indices := delete i m |>)
    end) g = (Ok tt, g <| _indices := filter (λ p, p.1 ∉ l) (_indices g) |>).
Proof.
  revert g. induction l as [|i l IH]; intros [st r n m] Hnd Hl; simpl in *.
  { rewrite map_filter_id; [done|]. intros. by apply not_elem_of_nil. }
  apply NoDup_cons in Hnd as [Hi Hnd].
  destruct (Hl i) as [w Hw]; [by left|].
  erewrite xbind_Ok by (unfold mbind, X_bind, xgets; simpl; by rewrite Hw). simpl.
  rewrite IH; simpl; [|done|].
  - f_equal. f_equal. apply map_eq. intros j. apply option_eq. intros x.
    rewrite !map_lookup_filter_Some, lookup_delete_Some, not_elem_of_cons.
    naive_solver.
  - intros j Hj. rewrite lookup_delete_ne; [apply Hl; by right|]. congruence.
Qed.

Lemma undo_removed_loop l g :
  NoDup l.*1 → (∀ i v, (i, v) ∈ l → _indices g !! i = None) →
  unique_rows keys (list_to_map l ∪ _indices g) →
  xfor_each l (λ '(i, v),
    m ← xgets _indices;
    match m !! i, fits keys i v m with
    | None, true => xmodify (λ g, g <| _indices := <[i:=v]> m |>)
    | _, _ => xthrow logic_error
    end) g = (Ok tt, g <| _indices := list_to_map l ∪ _indices g |>).
Proof.
  revert g. induction l as [|[i v] l IH]; intros [st r n m] Hnd Hl Hu; simpl in *.
  { by rewrite (left_id_L ∅ (∪)). }
  apply NoDup_cons in Hnd as [Hi Hnd].
  assert (m !! i = None) as Hw by (apply (Hl i v); by left).
  assert (list_to_map (M := gmap Z V) l !! i = None) by (by apply not_elem_of_list_to_map).
  rewrite <-insert_union_l, insert_union_r in Hu by done.
  assert (fits keys i v m = true) as Hfit.
  { apply fits_spec. intros j w Hj Hij.
    destruct (list_to_map (M := gmap Z V) l !! j) as [x|] eqn:E.
    - assert (m !! j = None); [|congruence]. apply (Hl j x). right.
      by apply elem_of_list_to_map_2.
    - apply (Hu i j); [| |done]; rewrite lookup_union_r by done.
      + apply lookup_insert_eq.
      + by rewrite lookup_insert_ne. }
  erewrite xbind_Ok by (unfold mbind, X_bind, xgets; simpl; by rewrite Hw, Hfit). simpl.
  rewrite IH; simpl; [|done| |done].
  - by rewrite <-insert_union_l, <-insert_union_r by done.
  - intros j x Hj. rewrite lookup_insert_ne; [apply (Hl j x); by right|].
    intros <-. apply Hi. apply list_elem_of_fmap. by exists (i, x).
Qed.

(** ** Undo *)

Lemma restore_stages us m n :
  us_wf keys us m n →
  removed_values us ∪ filter (λ p, p.1 ∉ elements (new_ids us)) (old_values us ∪ m)
    = restore us m.
Proof.
  intros _. unfold restore. f_equal. apply map_filter_ext. intros i v _. simpl.
  by rewrite elem_of_elements.
Qed.

Lemma undo_top us st m n r :
  us_wf keys us m n → unique_rows keys m → unique_rows keys (restore us m) →
  undo keys (GenericIndex (us :: st) r n m) =
    (Ok tt, GenericIndex st (r - 1) (old_next_id us) (restore us m)).
Proof.
  intros Hwf Hu Hu'. unfold undo, mbind, X_bind, xgets. simpl.
  rewrite undo_old_loop; simpl; [|apply NoDup_ascending|done|].
  2:{ intros i v Hv. apply elem_of_ascending in Hv.
      destruct (wf_old _ _ _ _ Hwf i v Hv) as (w & ? & ? & _). eauto. }
  rewrite ascending_lookup.
  rewrite undo_new_loop; simpl; [|apply NoDup_elements|].
  2:{ intros i Hi%elem_of_elements. apply (wf_new _ _ _ _ Hwf) in Hi as [[w Hw] _].
      apply lookup_union_is_Some. eauto. }
  rewrite undo_removed_loop; simpl; [|apply NoDup_ascending| |].
  - rewrite ascending_lookup, (restore_stages _ _ n) by done. done.
  - intros i v Hv. apply elem_of_ascending in Hv.
    destruct (wf_removed _ _ _ _ Hwf i v Hv) as [Hm _].
    apply map_lookup_filter_None_2. left. rewrite lookup_union, Hm.
    destruct (old_values us !! i) as [x|] eqn:E; [|done].
    destruct (wf_old _ _ _ _ Hwf i x E) as (w & ? & _). congruence.
  - by rewrite ascending_lookup, (restore_stages _ _ n).
Qed.

Lemma restore_bounded us m n : us_wf keys us m n → bounded (restore us m) (old_next_id us).
Proof.
  intros Hwf i v. rewrite lookup_restore. intros H.
  destruct (removed_values us !! i) eqn:E1.
  { by apply (wf_removed _ _ _ _ Hwf) in E1 as [_ ?]. }
  case_decide; [done|]. destruct (old_values us !! i) eqn:E2.
  { apply (wf_old _ _ _ _ Hwf) in E2. naive_solver. }
  destruct (decide (i < old_next_id us)); [done|].
  assert (i ∈ new_ids us); [|done]. apply (wf_rest _ _ _ _ Hwf); [by eauto|lia].
Qed.

Lemma sim_undo g s :
  sim keys g s → ∃ g', exec keys CUndo g = (Ok tt, g') ∧
    (spec_exec keys CUndo s).1 = Ok tt ∧ sim keys g' (spec_exec keys CUndo s).2.
Proof.
  destruct g as [st r n m], s as [[m' n'] r' sv].
  intros (Hcur & Hr & Hu & Hb & Hst). simpl in *. simplify_eq.
  destruct st as [|us st], sv as [|[k t] sv]; simpl in *; try done.
  { eexists. split; [done|]. split; [done|]. by split. }
  destruct Hst as (? & Hn & Ht & Hwf & Hu' & Hst).
  rewrite Ht in Hu'. eexists. split; [by apply undo_top|]. split; [done|].
  destruct t as [tm tn]. simpl in *. subst.
  split; [done|]. split; [done|]. split; [done|].
  split; [by eapply restore_bounded|done].
Qed.

(** ** Create, modify and remove change only the newest undo state *)

Lemma sim_change g s us st m' n' us' :
  sim keys g s → _stack g = us :: st →
  unique_rows keys m' → bounded m' n' → us_wf keys us' m' n' →
  us_revision us' = us_revision us → old_next_id us' = old_next_id us →
  restore us' m' = restore us (_indices g) →
  sim keys (GenericIndex (us' :: st) (_revision g) n' m')
    (Spec (Table m' n') (spec_revision s) (saved s)).
Proof.
  destruct g as [? r n m], s as [[ms ns] rs sv]. simpl.
  intros (Hcur & Hr & Hu & Hb & Hst) -> Hu' Hb' Hwf' Hrev Hn Hres. simpl in *. simplify_eq.
  destruct sv as [|[k t] sv]; [done|]. simpl in *.
  destruct Hst as (? & ? & Ht & Hwf & ? & ?).
  split_and!; try done. simpl. split_and!; done || congruence.
Qed.

Lemma sim_no_session g s m' n' :
  sim keys g s → _stack g = [] → unique_rows keys m' → bounded m' n' →
  sim keys (GenericIndex [] (_revision g) n' m')
    (Spec (Table m' n') (spec_revision s) (saved s)).
Proof.
  destruct g as [? r n m], s as [[ms ns] rs sv]. simpl.
  intros (Hcur & Hr & Hu & Hb & Hst) -> Hu' Hb'. simpl in *. simplify_eq.
  by destruct sv.
Qed.
Lemma sim_create c g s :
  sim keys g s → ∃ g', (exec keys (CCreate c) g).2 = g' ∧
    (exec keys (CCreate c) g).1 = (spec_exec keys (CCreate c) s).1 ∧
    sim keys g' (spec_exec keys (CCreate c) s).2.
Proof.
  intros Hsim. pose proof Hsim as (Hcur & Hr & Hu & Hb & Hst).
  destruct g as [st r n m], s as [[ms ns] rs sv]. simpl in *. simplify_eq.
  eexists. split; [done|]. unfold emplace, mbind, X_bind, xgets. simpl.
  assert (m !! n = None) as Hn.
  { destruct (m !! n) eqn:E; [|done]. apply Hb in E. lia. }
  destruct (c n) as [v|e]; simpl; [|by split].
  rewrite Hn. destruct (fits keys n v m) eqn:Hf; simpl; [|by split].
  split; [done|].
  assert (bounded (<[n:=v]> m) (n + 1)).
  { intros i w. rewrite lookup_insert. case_decide; [lia|]. intros Hi%Hb. lia. }
  assert (unique_rows keys (<[n:=v]> m)) by (by apply unique_insert).
  unfold on_create, on_head. destruct st as [|us st]; simpl.
  { apply (sim_no_session (GenericIndex [] r n m) (Spec (Table m n) r sv)); done. }
  eapply (sim_change (GenericIndex (us :: st) r n m) (Spec (Table m n) r sv) us); try done.
  - destruct sv as [|[k t] sv]; [done|]. destruct Hst as (_ & _ & _ & Hwf & _).
    split; simpl.
    + intros i w Hi. destruct (wf_old _ _ _ _ Hwf i w Hi) as (x & ? & ? & ?).
      exists x. rewrite lookup_insert_ne; [done|]. intros <-. congruence.
    + intros i. rewrite elem_of_union, elem_of_singleton. intros [->|Hi].
      * rewrite lookup_insert_eq. split; [done|apply (wf_next _ _ _ _ Hwf)].
      * apply (wf_new _ _ _ _ Hwf) in Hi as [? ?].
        split; [|done]. rewrite lookup_insert. case_decide; eauto.
    + intros i w Hi. apply (wf_removed _ _ _ _ Hwf) in Hi as [? ?].
      pose proof (wf_next _ _ _ _ Hwf). by rewrite lookup_insert_ne by lia.
    + intros i. rewrite lookup_insert. case_decide; [set_solver|].
      intros Hi Hle. pose proof (wf_rest _ _ _ _ Hwf i Hi Hle). set_solver.
    + pose proof (wf_next _ _ _ _ Hwf). lia.
  - destruct sv as [|[k t] sv]; [done|]. destruct Hst as (_ & _ & _ & Hwf & _).
    apply map_eq. intros i. rewrite !lookup_restore. simpl.
    destruct (removed_values us !! i) eqn:E; [done|].
    destruct (decide (i = n)) as [->|Hin].
    + rewrite decide_True by set_solver. case_decide; [done|].
      destruct (old_values us !! n) eqn:Eo; [|done].
      apply (wf_old _ _ _ _ Hwf) in Eo. naive_solver.
    + rewrite lookup_insert_ne by done.
      destruct (decide (i ∈ new_ids us)); [by rewrite decide_True by set_solver|].
      by rewrite decide_False by set_solver.
Qed.

Lemma us_wf_same_keys us m m' n :
  us_wf keys us m n → (∀ j, keys <$> m' !! j = keys <$> m !! j) → us_wf keys us m' n.
Proof.
  intros [Ho Hn Hr Hrest Hnx] Hm.
  assert (∀ j, is_Some (m' !! j) ↔ is_Some (m !! j)) as Hdom.
  { intros j. rewrite <-(fmap_is_Some keys (m' !! j)), Hm. by rewrite fmap_is_Some. }
  split; [|intros i; rewrite Hdom; apply Hn| |intros i; rewrite Hdom; apply Hrest|done].
  - intros i v Hi. destruct (Ho i v Hi) as (w & Hw & Hk & ?).
    specialize (Hm i). rewrite Hw in Hm. destruct (m' !! i) as [x|]; [|done].
    simpl in Hm. exists x. naive_solver congruence.
  - intros i v Hi. destruct (Hr i v Hi) as [Hi' ?]. split; [|done].
    rewrite eq_None_not_Some, Hdom, Hi'. by intros [].
Qed.

Lemma us_wf_add_old us m n i v :
  us_wf keys us m n → m !! i = Some v → i ∉ new_ids us →
  us_wf keys (us <| old_values ::= map_emplace i v |>) m n.
Proof.
  intros Hwf Hv Hi. pose proof Hwf as [Ho Hn Hr Hrest Hnx]. split; simpl; try done.
  intros j w. unfold map_emplace. destruct (old_values us !! i); [apply Ho|].
  rewrite lookup_insert. case_decide; [|apply Ho]. intros; simplify_eq. exists w.
  split_and!; [done..|]. destruct (decide (j < old_next_id us)); [done|].
  destruct Hi. apply Hrest; [by eauto|lia].
Qed.

Lemma sim_modify i f g s :
  (∀ v, keys (f v).2 = keys v) → sim keys g s →
    (exec keys (CModify i f) g).1 = (spec_exec keys (CModify i f) s).1 ∧
    sim keys (exec keys (CModify i f) g).2 (spec_exec keys (CModify i f) s).2.
Proof.
  intros Hk Hsim. pose proof Hsim as (Hcur & Hr & Hu & Hb & Hst).
  destruct g as [st r n m], s as [[ms ns] rs sv]. simpl in *. simplify_eq.
  unfold modify_row. rewrite (xbind_Ok _ _ _ m (GenericIndex st r n m)) by done. simpl.
  destruct (m !! i) as [v|] eqn:Hv; [|done].
  rewrite (xbind_Ok _ _ _ tt (on_modify i v (GenericIndex st r n m))) by done.
  assert (fits keys i (f v).2 m = true) as Hf by (eapply unique_fits; eauto).
  assert (unique_rows keys (<[i:=(f v).2]> m)) by (by apply unique_insert).
  assert (bounded (<[i:=(f v).2]> m) n).
  { intros j w. rewrite lookup_insert. case_decide; naive_solver. }
  destruct st as [|us st]; simpl.
  { erewrite container_modify_fits by done. simpl. split; [done|].
    apply (sim_no_session (GenericIndex [] r n m) (Spec (Table m n) r sv)); done. }
  erewrite container_modify_fits by done. simpl. split; [done|].
  destruct sv as [|[k t] sv]; [done|]. destruct Hst as (Hrev & Hnx & _ & Hwf & _).
  eapply (sim_change (GenericIndex (us :: st) r n m) (Spec (Table m n) r ((k,t)::sv)) us);
    try done.
  - apply us_wf_same_keys with m.
    + case_bool_decide; [done|]. destruct (old_values us !! i); [done|].
      by apply us_wf_add_old.
    + intros j. rewrite lookup_insert. case_decide; [|done]. subst. by rewrite Hv; simpl; rewrite Hk.
  - repeat case_match; done.
  - repeat case_match; done.
  - apply map_eq. intros j. rewrite !lookup_restore.
    case_bool_decide; [|destruct (old_values us !! i) eqn:Eo]; simpl.
    + destruct (decide (j = i)) as [->|]; [|by rewrite lookup_insert_ne].
      by rewrite !(decide_True (P := i ∈ new_ids us)) by done.
    + destruct (decide (j = i)) as [->|]; [|by rewrite lookup_insert_ne].
      by rewrite Eo.
    + unfold map_emplace. rewrite Eo.
      destruct (decide (j = i)) as [->|]; [|by rewrite !lookup_insert_ne].
      by rewrite lookup_insert_eq, Eo, Hv.
Qed.

(** [on_remove] on the newest undo state. *)
Definition removed_state i v us : undo_state :=
  if bool_decide (i ∈ new_ids us) then us <| new_ids ::= λ s, s ∖ {[i]} |>
  else match old_values us !! i with
       | Some x => us <| removed_values ::= map_emplace i x |> <| old_values ::= delete i |>
       | None =>
         match removed_values us !! i with
         | Some _ => us
         | None => us <| removed_values ::= map_emplace i v |>
         end
       end.

Lemma removed_state_wf us m n i v :
  us_wf keys us m n → m !! i = Some v → us_wf keys (removed_state i v us) (delete i m) n.
Proof.
  intros [Ho Hn Hr Hrest Hnx] Hv. unfold removed_state.
  assert (removed_values us !! i = None) as Hri.
  { destruct (removed_values us !! i) eqn:E; [|done]. apply Hr in E. naive_solver. }
  assert (i ∉ new_ids us → i < old_next_id us) as Hlt.
  { intros Hi. destruct (decide (i < old_next_id us)); [done|].
    destruct Hi. apply Hrest; [by eauto|lia]. }
  assert (∀ j, is_Some (delete i m !! j) → j ≠ i ∧ is_Some (m !! j)) as Hdel.
  { intros j [w Hw%lookup_delete_Some]. naive_solver. }
  assert (∀ j, m !! j = None → delete i m !! j = None) as Hdn.
  { intros j Hj. rewrite lookup_delete. by case_decide. }
  assert (∀ j w, j ≠ i → old_values us !! j = Some w →
    ∃ x, delete i m !! j = Some x ∧ keys x = keys w ∧ j < old_next_id us) as Hold.
  { intros j w Hj Hw. rewrite lookup_delete_ne by done. by apply Ho. }
  rewrite Hri. unfold map_emplace.
  case_bool_decide as Hi; [|destruct (old_values us !! i) as [x|] eqn:Eo]; split; simpl;
    rewrite ?Hri; try done.
  - intros j w Hw. apply Hold; [|done]. intros ->. apply Ho in Hw. destruct (Hn i Hi). naive_solver lia.
  - intros j [Hj Hji]%elem_of_difference. rewrite lookup_delete_ne by set_solver. by apply Hn.
  - intros j w Hw. destruct (Hr j w Hw). auto.
  - intros j Hj ?. destruct (Hdel j Hj). set_solver.
  - intros j w. rewrite lookup_delete_Some. intros [??]. by apply Hold.
  - intros j Hj. rewrite lookup_delete_ne by congruence. by apply Hn.
  - intros j w. rewrite lookup_insert. case_decide; subst; intros Hw.
    + split; [by apply lookup_delete_eq|auto].
    + destruct (Hr j w Hw). auto.
  - intros j Hj ?. destruct (Hdel j Hj). auto.
  - intros j w Hw. apply Hold; congruence.
  - intros j Hj. rewrite lookup_delete_ne by congruence. by apply Hn.
  - intros j w. rewrite lookup_insert. case_decide; subst; intros Hw.
    + split; [by apply lookup_delete_eq|auto].
    + destruct (Hr j w Hw). auto.
  - intros j Hj ?. destruct (Hdel j Hj). auto.
Qed.

Lemma removed_state_restore us m n i v :
  us_wf keys us m n → m !! i = Some v →
  restore (removed_state i v us) (delete i m) = restore us m.
Proof.
  intros [Ho Hn Hr Hrest Hnx] Hv. unfold removed_state.
  assert (removed_values us !! i = None) as Hri.
  { destruct (removed_values us !! i) eqn:E; [|done]. apply Hr in E. naive_solver. }
  apply map_eq. intros j. rewrite !lookup_restore, Hri. unfold map_emplace.
  destruct (decide (j = i)) as [->|Hj].
  - case_bool_decide as Hi; [|destruct (old_values us !! i) as [x|] eqn:Eo]; simpl;
      rewrite ?Hri, ?lookup_insert_eq, ?lookup_delete_eq, ?Eo, ?Hv; repeat case_decide; try done.
    destruct (old_values us !! i) as [x|] eqn:Eo; [|done].
    apply Ho in Eo as (? & ? & ? & ?). destruct (Hn i Hi). lia.
  - case_bool_decide as Hi; [|destruct (old_values us !! i) as [x|] eqn:Eo]; simpl;
      rewrite ?Hri, ?lookup_insert_ne, ?lookup_delete_ne by done; try done.
    destruct (removed_values us !! j); [done|].
    destruct (decide (j ∈ new_ids us)); [by rewrite decide_True by set_solver|].
    by rewrite decide_False by set_solver.
Qed.

Lemma sim_remove i g s :
  sim keys g s →
    (exec keys (CRemove i) g).1 = (spec_exec keys (CRemove i) s).1 ∧
    sim keys (exec keys (CRemove i) g).2 (spec_exec keys (CRemove i) s).2.
Proof.
  intros Hsim. pose proof Hsim as (Hcur & Hr & Hu & Hb & Hst).
  destruct g as [st r n m], s as [[ms ns] rs sv]. simpl in *. simplify_eq.
  unfold remove_row. rewrite (xbind_Ok _ _ _ m (GenericIndex st r n m)) by done. simpl.
  destruct (m !! i) as [v|] eqn:Hv; [|done].
  rewrite (xbind_Ok _ _ _ tt (on_remove i v (GenericIndex st r n m))) by done.
  assert (unique_rows keys (delete i m)) by (by apply unique_delete).
  assert (bounded (delete i m) n).
  { intros j w. rewrite lookup_delete. case_decide; naive_solver. }
  split; [by repeat case_match|]. destruct st as [|us st]; simpl.
  { apply (sim_no_session (GenericIndex [] r n m) (Spec (Table m n) r sv)); done. }
  destruct sv as [|[k t] sv]; [done|]. destruct Hst as (Hrev & Hnx & _ & Hwf & _).
  eapply (sim_change (GenericIndex (us :: st) r n m) (Spec (Table m n) r ((k,t)::sv)) us);
    try done.
  - by apply removed_state_wf.
  - repeat case_match; done.
  - repeat case_match; done.
  - by eapply removed_state_restore.
Qed.

(** ** Starting a session, commit *)

Lemma restore_fresh n r m : restore (UndoState ∅ ∅ ∅ n r) m = m.
Proof.
  apply map_eq. intros i. rewrite lookup_restore. simpl.
  rewrite !lookup_empty. by rewrite decide_False by set_solver.
Qed.

Lemma sim_start g s :
  sim keys g s → sim keys (exec keys CStart g).2 (spec_exec keys CStart s).2.
Proof.
  intros (Hcur & Hr & Hu & Hb & Hst).
  destruct g as [st r n m], s as [[ms ns] rs sv]. simpl in *. simplify_eq.
  split_and!; try done. simpl. rewrite restore_fresh. split_and!; try done.
  split; simpl; [done|set_solver|done| |lia].
  intros i [v Hv%Hb]. lia.
Qed.

Lemma undo_chain_length st m n sv :
  undo_chain keys st m n sv → length st = length sv.
Proof.
  revert m n sv. induction st as [|us st IH]; intros m n [|[r t] sv]; simpl; try done.
  intros (_ & _ & _ & _ & _ & H). f_equal. by eapply IH.
Qed.

(** Forgetting the oldest states keeps the newer ones right. *)
Lemma undo_chain_take k st m n sv :
  undo_chain keys st m n sv → undo_chain keys (take k st) m n (take k sv).
Proof.
  revert k m n sv. induction st as [|us st IH]; intros [|k] m n [|[r t] sv]; simpl; try done.
  intros (? & ? & ? & ? & ? & ?). split_and!; try done. by apply IH.
Qed.

Lemma drop_committed_drop r (st : list (undo_state (V := V))) :
  ∃ k, drop_committed r st = drop k st ∧
       ∀ sv : list (Z * table V), us_revision <$> st = sv.*1 →
       (fix drop l := match l with
                      | [] => []
                      | rt :: l' => if rt.1 <=? r then drop l' else l
                      end) sv = drop k sv.
Proof.
  induction st as [|us st IH]; simpl.
  { exists 0%nat. split; [done|]. by intros [|]. }
  destruct (us_revision us <=? r) eqn:E.
  - destruct IH as (k & IH1 & IH2). exists (S k). split; [done|].
    intros [|[r' t] sv] H; simpl in *; [done|]. simplify_eq. rewrite E. by apply IH2.
  - exists 0%nat. split; [done|]. intros [|[r' t] sv] H; simpl in *; [done|].
    simplify_eq. by rewrite E.
Qed.

Lemma undo_chain_revisions st m n sv :
  undo_chain keys st m n sv → us_revision <$> st = sv.*1.
Proof.
  revert m n sv. induction st as [|us st IH]; intros m n [|[r t] sv]; simpl; try done.
  intros (<- & _ & _ & _ & _ & H). f_equal. by eapply IH.
Qed.

Lemma sim_commit r g s :
  sim keys g s → sim keys (exec keys (CCommit r) g).2 (spec_exec keys (CCommit r) s).2.
Proof.
  intros (Hcur & Hr & Hu & Hb & Hst).
  destruct g as [st rg n m], s as [[ms ns] rs sv]. simpl in *. simplify_eq.
  split_and!; try done. simpl. unfold spec_commit.
  destruct (drop_committed_drop r (reverse st)) as (k & -> & ->).
  - rewrite !drop_reverse, !reverse_involutive, (undo_chain_length _ _ _ _ Hst).
    by apply undo_chain_take.
  - rewrite !fmap_reverse. f_equal. by eapply undo_chain_revisions.
Qed.

(** ** Squash *)

#[local] Arguments squash_old : simpl never.
#[local] Arguments squash_removed : simpl never.

Lemma squash_old_loop (l : list (Z * V)) prev :
  NoDup l.*1 →
  let p := foldl squash_old prev l in
  new_ids p = new_ids prev ∧ removed_values p = removed_values prev ∧
  old_next_id p = old_next_id prev ∧ us_revision p = us_revision prev ∧
  ∀ i, old_values p !! i =
    match old_values prev !! i with
    | Some v => Some v
    | None => if decide (i ∈ new_ids prev) then None else list_to_map (M := gmap Z V) l !! i
    end.
Proof.
  revert prev. induction l as [|[j x] l IH]; intros prev Hnd; simpl in *.
  { split_and!; try done. intros i. destruct (old_values prev !! i); [done|]. by case_decide. }
  apply NoDup_cons in Hnd as [Hj Hnd].
  assert (list_to_map (M := gmap Z V) l !! j = None) by (by apply not_elem_of_list_to_map).
  destruct (IH (squash_old prev (j, x)) Hnd) as (-> & -> & -> & -> & Hl). clear IH.
  unfold squash_old in *. case_bool_decide as Hnew; [|destruct (old_values prev !! j) eqn:Eo];
    split_and!; try done; intros i; rewrite Hl; simpl; clear Hl;
    destruct (decide (i = j)) as [->|Hi].
  - destruct (old_values prev !! j); [done|]. by rewrite !decide_True.
  - by rewrite lookup_insert_ne.
  - by rewrite Eo.
  - by rewrite lookup_insert_ne.
  - unfold map_emplace. rewrite Eo, !lookup_insert_eq. by rewrite decide_False.
  - unfold map_emplace. rewrite Eo. by rewrite !lookup_insert_ne.
Qed.

Lemma squash_removed_loop (l : list (Z * V)) prev :
  NoDup l.*1 →
  let p := foldl squash_removed prev l in
  let R := list_to_map (M := gmap Z V) l in
  old_next_id p = old_next_id prev ∧ us_revision p = us_revision prev ∧
  (∀ i, i ∈ new_ids p ↔ i ∈ new_ids prev ∧ R !! i = None) ∧
  (∀ i, old_values p !! i =
    match R !! i with
    | Some _ => if decide (i ∈ new_ids prev) then old_values prev !! i else None
    | None => old_values prev !! i
    end) ∧
  (∀ i, removed_values p !! i =
    match removed_values prev !! i with
    | Some v => Some v
    | None =>
      match R !! i with
      | None => None
      | Some v => if decide (i ∈ new_ids prev) then None
                  else match old_values prev !! i with Some x => Some x | None => Some v end
      end
    end).
Proof.
  revert prev. induction l as [|[j x] l IH]; intros prev Hnd; simpl in *.
  { split_and!; try done; intros i; rewrite ?lookup_empty; [naive_solver|].
    by destruct (removed_values prev !! i). }
  apply NoDup_cons in Hnd as [Hj Hnd].
  assert (list_to_map (M := gmap Z V) l !! j = None) as HRj
    by (by apply not_elem_of_list_to_map).
  destruct (IH (squash_removed prev (j, x)) Hnd) as (-> & -> & Hn & Ho & Hr). clear IH.
  unfold squash_removed in *.
  split; [by repeat case_match|]. split; [by repeat case_match|].
  assert (∀ i, i ≠ j → i ∈ new_ids prev ∖ {[j]} ↔ i ∈ new_ids prev) as Hdiff by set_solver.
  split; [|split]; intros i; [rewrite Hn|rewrite Ho|rewrite Hr]; clear Hn Ho Hr;
    (destruct (decide (i = j)) as [->|Hi];
     [rewrite lookup_insert_eq, ?HRj|rewrite lookup_insert_ne by done]);
    case_bool_decide as Hnew; try (destruct (old_values prev !! j) as [y|] eqn:Eo); simpl;
    rewrite ?lookup_map_emplace, ?elem_of_difference, ?elem_of_singleton, ?Eo,
      ?lookup_delete_eq, ?lookup_delete_ne by done;
    try (by naive_solver); repeat (rewrite decide_True by done); repeat (rewrite decide_False by done);
    try (rewrite (decide_ext _ _ _ _ (Hdiff i Hi))); try done;
    try (by repeat case_match);
    (destruct (removed_values prev !! i); [done|]);
    (destruct (list_to_map l !! i); [|done]); by apply decide_ext, Hdiff.
Qed.

(** The merged state, entry by entry. *)
Lemma merge_states_spec (prev state : undo_state (V := V)) :
  let p := merge_states prev state in
  (∀ i, i ∈ new_ids state → removed_values state !! i = None) →
  old_next_id p = old_next_id prev ∧ us_revision p = us_revision prev ∧
  (∀ i, i ∈ new_ids p ↔
     (i ∈ new_ids prev ∨ i ∈ new_ids state) ∧ removed_values state !! i = None) ∧
  (∀ i, old_values p !! i =
    match removed_values state !! i, old_values prev !! i with
    | Some _, _ => if decide (i ∈ new_ids prev) then old_values prev !! i else None
    | None, Some v => Some v
    | None, None => if decide (i ∈ new_ids prev) then None else old_values state !! i
    end) ∧
  (∀ i, removed_values p !! i =
    match removed_values prev !! i, removed_values state !! i with
    | Some v, _ => Some v
    | None, None => None
    | None, Some v =>
      if decide (i ∈ new_ids prev) then None
      else match old_values prev !! i, old_values state !! i with
           | Some x, _ => Some x
           | None, Some x => Some x
           | None, None => Some v
           end
    end).
Proof.
  intros p Hnr. unfold p, merge_states.
  destruct (squash_old_loop (ascending (old_values state)) prev) as (Hn & Hr & Hx & Hv & Ho);
    [apply NoDup_ascending|].
  rewrite ascending_lookup in Ho.
  set (p1 := foldl squash_old prev _) in *.
  set (p2 := p1 <| new_ids ::= λ s, s ∪ new_ids state |>).
  destruct (squash_removed_loop (ascending (removed_values state)) p2)
    as (Hx' & Hv' & Hn' & Ho' & Hr'); [apply NoDup_ascending|].
  rewrite ascending_lookup in *. simpl in *. rewrite Hn, Hr in *.
  assert (∀ i v, removed_values state !! i = Some v →
    i ∈ new_ids prev ∪ new_ids state ↔ i ∈ new_ids prev) as Hdec.
  { intros i v Hi. rewrite elem_of_union. split; [|by left]. intros [?|Hs]; [done|].
    apply Hnr in Hs. congruence. }
  split_and!; [congruence|congruence| | |]; intros i.
  - rewrite Hn'. set_solver.
  - rewrite Ho', Ho. destruct (removed_values state !! i) eqn:E; [|done].
    rewrite (decide_ext _ _ _ _ (Hdec i _ E)).
    destruct (decide (i ∈ new_ids prev)); [|done]. by destruct (old_values prev !! i).
  - rewrite Hr', Ho. destruct (removed_values prev !! i); [done|].
    destruct (removed_values state !! i) eqn:E; [|done].
    rewrite (decide_ext _ _ _ _ (Hdec i _ E)).
    destruct (decide (i ∈ new_ids prev)); [done|]. by destruct (old_values prev !! i).
Qed.

Section two_states.
Context (prev state : undo_state (V := V)) (m : gmap Z V) (n : Z).
Context (Hs : us_wf keys state m n)
        (Hp : us_wf keys prev (restore state m) (old_next_id state)).

Lemma state_new_not_removed i : i ∈ new_ids state → removed_values state !! i = None.
Proof.
  intros Hi. apply (wf_new _ _ _ _ Hs) in Hi as [[w Hw] _].
  destruct (removed_values state !! i) eqn:E; [|done].
  apply (wf_removed _ _ _ _ Hs) in E. naive_solver.
Qed.

Lemma prev_new_not_old i : i ∈ new_ids prev → old_values prev !! i = None.
Proof.
  intros Hi. apply (wf_new _ _ _ _ Hp) in Hi as [_ ?].
  destruct (old_values prev !! i) eqn:E; [|done].
  apply (wf_old _ _ _ _ Hp) in E as (? & ? & ? & ?). lia.
Qed.

Lemma state_removed_row i v :
  removed_values state !! i = Some v → m !! i = None ∧ old_values state !! i = None.
Proof.
  intros Hi. apply (wf_removed _ _ _ _ Hs) in Hi as [? _]. split; [done|].
  destruct (old_values state !! i) eqn:E; [|done].
  apply (wf_old _ _ _ _ Hs) in E. naive_solver.
Qed.

(** A row that existed before [state] and is not new in [prev] is older than [prev]. *)
Lemma row_older i :
  is_Some (restore state m !! i) → i ∉ new_ids prev → i < old_next_id prev.
Proof.
  intros Hi Hn. destruct (decide (i < old_next_id prev)); [done|].
  destruct Hn. apply (wf_rest _ _ _ _ Hp); [done|lia].
Qed.

Lemma merge_restore : restore (merge_states prev state) m = restore prev (restore state m).
Proof.
  destruct (merge_states_spec prev state state_new_not_removed) as (_ & _ & Hn & Ho & Hr).
  apply map_eq. intros i. rewrite !lookup_restore.
  rewrite Hr, Ho, (decide_ext _ _ _ _ (Hn i)). clear Hn Ho Hr.
  destruct (removed_values prev !! i); [done|].
  destruct (removed_values state !! i) as [v|] eqn:RS.
  - destruct (state_removed_row i v RS) as [-> HO]. rewrite HO.
    destruct (decide (i ∈ new_ids prev)) as [Hi|Hi].
    + rewrite decide_False by naive_solver. by rewrite prev_new_not_old.
    + by destruct (old_values prev !! i).
  - destruct (decide (i ∈ new_ids prev)) as [Hi|Hi]; [by rewrite decide_True by naive_solver|].
    destruct (decide (i ∈ new_ids state)) as [Hj|Hj].
    + rewrite decide_True by naive_solver. destruct (old_values prev !! i) eqn:OP; [|done].
      apply (wf_old _ _ _ _ Hp) in OP as (w & Hw & _).
      rewrite lookup_restore, RS, decide_True in Hw by done. done.
    + rewrite decide_False by naive_solver. by destruct (old_values prev !! i).
Qed.

Lemma merge_wf : us_wf keys (merge_states prev state) m n.
Proof.
  destruct (merge_states_spec prev state state_new_not_removed) as (Hx & _ & Hn & Ho & Hr).
  assert (∀ i w, restore state m !! i = Some w → removed_values state !! i = None →
    ∃ x, m !! i = Some x ∧ keys x = keys w) as Hrow.
  { intros i w Hw RS. rewrite lookup_restore, RS in Hw. case_decide; [done|].
    destruct (old_values state !! i) eqn:OS; [|eauto].
    apply (wf_old _ _ _ _ Hs) in OS as (x & ? & ? & _). naive_solver congruence. }
  assert (∀ i, is_Some (restore state m !! i) → i ∉ new_ids prev → i < old_next_id prev)
    as Hold by apply row_older.
  pose proof (wf_next _ _ _ _ Hs). pose proof (wf_next _ _ _ _ Hp).
  split; rewrite ?Hx; [intros i v; rewrite Ho|intros i; rewrite Hn|intros i v; rewrite Hr|
    intros i; rewrite Hn|lia]; clear Hn Ho Hr.
  - destruct (removed_values state !! i) eqn:RS.
    { case_decide as Hi; [|done]. by rewrite prev_new_not_old. }
    destruct (old_values prev !! i) eqn:OP.
    + intros ?; simplify_eq. apply (wf_old _ _ _ _ Hp) in OP as (w & Hw & ? & ?).
      destruct (Hrow i w Hw RS) as (x & ? & ?). exists x. split_and!; congruence.
    + case_decide as Hi; [done|]. intros OS.
      pose proof OS as (w & ? & ? & ?)%(wf_old _ _ _ _ Hs). exists w. split_and!; try done.
      apply Hold; [|done]. rewrite lookup_restore, RS, OS. case_decide as Hj; [|eauto].
      destruct (wf_new _ _ _ _ Hs i Hj). lia.
  - intros [[Hi|Hi] RS].
    + apply (wf_new _ _ _ _ Hp) in Hi as [[w Hw] ?]. split; [|done].
      destruct (Hrow i w Hw RS) as (x & ? & _). eauto.
    + apply (wf_new _ _ _ _ Hs) in Hi as [? ?]. split; [done|lia].
  - destruct (removed_values prev !! i) eqn:RP.
    + intros _. apply (wf_removed _ _ _ _ Hp) in RP as [Ht ?]. split; [|done].
      rewrite lookup_restore in Ht. destruct (removed_values state !! i); [done|].
      case_decide as Hj; [destruct (wf_new _ _ _ _ Hs i Hj); lia|].
      by destruct (old_values state !! i).
    + destruct (removed_values state !! i) as [x|] eqn:RS; [|done].
      case_decide as Hi; [done|]. intros _. destruct (state_removed_row i x RS). split; [done|].
      apply Hold; [|done]. rewrite lookup_restore, RS. eauto.
  - intros [w Hw] Hle.
    assert (removed_values state !! i = None) as RS.
    { destruct (removed_values state !! i) eqn:RS; [|done].
      destruct (state_removed_row i _ RS). congruence. }
    split; [|done]. destruct (decide (i ∈ new_ids state)) as [|Hj]; [by right|left].
    apply (wf_rest _ _ _ _ Hp); [|done]. rewrite lookup_restore, RS, decide_False by done.
    destruct (old_values state !! i); eauto.
Qed.
End two_states.

Lemma sim_squash g s :
  sim keys g s → sim keys (exec keys CSquash g).2 (spec_exec keys CSquash s).2.
Proof.
  intros Hsim. pose proof Hsim as (Hcur & Hr & Hu & Hb & Hst).
  destruct g as [st r n m], s as [[ms ns] rs sv]. simpl in *. simplify_eq.
  destruct st as [|state [|prev st]], sv as [|[k1 t1] [|[k2 t2] sv]]; simpl in Hst;
    try (by destruct_and?).
  destruct Hst as (Hv1 & Hn1 & Ht1 & Hwf1 & Hu1 & Hv2 & Hn2 & Ht2 & Hwf2 & Hu2 & Hst).
  rewrite Ht1, <-Hn1 in *.
  destruct (merge_states_spec prev state (state_new_not_removed state m n Hwf1))
    as (Hx & Hv & _).
  split_and!; try done. simpl. split_and!; try congruence.
  - rewrite Ht2. by erewrite merge_restore.
  - by apply merge_wf.
  - done.
Qed.

(** ** The whole index *)

Lemma sim_exec c g s :
  valid_cmd keys c → sim keys g s →
  (exec keys c g).1 = (spec_exec keys c s).1 ∧
  sim keys (exec keys c g).2 (spec_exec keys c s).2.
Proof.
  intros Hv Hsim. destruct c as [c|i f|i| | | |r].
  - destruct (sim_create c g s Hsim) as (g' & <- & ? & ?). done.
  - by apply sim_modify.
  - by apply sim_remove.
  - split; [by destruct s as [[? ?] ? ?]|by apply sim_start].
  - destruct (sim_undo g s Hsim) as (g' & Hu & Hs & ?). by rewrite Hu, Hs.
  - split; [by destruct s as [[? ?] ? [|? [|? ?]]]|by apply sim_squash].
  - split; [by destruct s as [[? ?] ? ?]|by apply sim_commit].
Qed.

Lemma sim_run cs g s :
  Forall (valid_cmd keys) cs → sim keys g s →
  (run (exec keys) cs g).1 = (run (spec_exec keys) cs s).1 ∧
  sim keys (run (exec keys) cs g).2 (run (spec_exec keys) cs s).2.
Proof.
  revert g s. induction cs as [|c cs IH]; intros g s Hcs Hsim; [done|].
  apply Forall_cons in Hcs as [Hc Hcs]. simpl.
  destruct (sim_exec c g s Hc Hsim) as [Hr Hs].
  destruct (exec keys c g) as [r g1], (spec_exec keys c s) as [r' s1]. simpl in *. subst.
  destruct (IH g1 s1 Hcs Hs) as [Hrs Hs'].
  destruct (run (exec keys) cs g1), (run (spec_exec keys) cs s1). simpl in *. by subst.
Qed.

(** The commands that touch rows only. *)
Definition row_cmd (c : cmd (V := V)) : Prop :=
  match c with CCreate _ | CModify _ _ | CRemove _ => valid_cmd keys c | _ => False end.

Lemma row_cmd_valid c : row_cmd c → valid_cmd keys c.
Proof. by destruct c. Qed.

Lemma container_modify_stack i f g :
  _stack (container_modify keys i f g).2 = _stack g ∧
  _revision (container_modify keys i f g).2 = _revision g.
Proof.
  unfold container_modify, mbind, X_bind, xgets. simpl.
  destruct (_ !! i); [|done]. destruct (f _) as [[]?]; [|done]. by case_match.
Qed.

Lemma on_head_tail f g :
  tail (_stack (on_head f g)) = tail (_stack g) ∧ _revision (on_head f g) = _revision g.
Proof. destruct g as [[|? ?] ? ? ?]; done. Qed.

Lemma row_cmd_stack c g :
  row_cmd c → tail (_stack (exec keys c g).2) = tail (_stack g) ∧
              _revision (exec keys c g).2 = _revision g.
Proof.
  destruct c as [c|i f|i| | | |r]; simpl; try done; intros _.
  - unfold emplace, mbind, X_bind, xgets. simpl. destruct (c _); [|done]. simpl.
    destruct (_ !! _); [done|]. destruct (fits _ _ _ _); [|done].
    unfold on_create, mret, X_ret. simpl.
    match goal with |- context [on_head ?f ?h] => exact (on_head_tail f h) end.
  - unfold modify_row, mbind, X_bind, xgets. simpl. destruct (_ !! i); [|done]. simpl.
    destruct (container_modify_stack i f (on_modify i v g)) as [-> ->].
    apply on_head_tail.
  - unfold remove_row, mbind, X_bind, xgets. simpl. destruct (_ !! i); [|done]. simpl.
    unfold on_remove. match goal with |- context [on_head ?f ?h] => exact (on_head_tail f h) end.
Qed.

Lemma row_run_stack cs g :
  Forall row_cmd cs → tail (_stack (run (exec keys) cs g).2) = tail (_stack g) ∧
                      _revision (run (exec keys) cs g).2 = _revision g.
Proof.
  revert g. induction cs as [|c cs IH]; intros g Hcs; [done|].
  apply Forall_cons in Hcs as [Hc Hcs]. simpl.
  destruct (row_cmd_stack c g Hc) as [Ht Hr].
  destruct (exec keys c g) as [r g1]. simpl in *. rewrite <-Ht, <-Hr.
  destruct (IH g1 Hcs) as [? ?]. by destruct (run (exec keys) cs g1).
Qed.

Lemma row_run_saved cs s :
  Forall row_cmd cs → saved (run (spec_exec keys) cs s).2 = saved s.
Proof.
  revert s. induction cs as [|c cs IH]; intros s Hcs; [done|].
  apply Forall_cons in Hcs as [Hc Hcs]. simpl.
  assert (saved (spec_exec keys c s).2 = saved s) as <-.
  { destruct s as [[m n] r sv], c; simpl in *; try done; by repeat case_match. }
  destruct (spec_exec keys c s) as [r s1]. simpl. rewrite <-(IH s1 Hcs).
  by destruct (run (spec_exec keys) cs s1).
Qed.

Lemma undo_while_sim fuel g s :
  sim keys g s → (length (_stack g) ≤ fuel)%nat →
  ∃ g', undo_while_enabled keys fuel g = (Ok tt, g') ∧ _stack g' = [] ∧
    Table (_indices g') (_next_id g') = default (cur s) (snd <$> last (saved s)).
Proof.
  revert g s. induction fuel as [|fuel IH]; intros g s Hsim Hlen.
  - destruct g as [[|us st] r n m]; simpl in *; [|lia]. exists (GenericIndex [] r n m).
    split; [done|]. split; [done|].
    destruct s as [c rs sv], Hsim as (Hc & _ & _ & _ & Hst). simpl in *. by destruct sv.
  - destruct g as [[|us st] r n m]; simpl in *.
    { exists (GenericIndex [] r n m). split; [done|]. split; [done|].
      destruct s as [c rs sv], Hsim as (Hc & _ & _ & _ & Hst). simpl in *. by destruct sv. }
    destruct (sim_undo _ _ Hsim) as (g' & Hu & _ & Hs).
    unfold mbind, X_bind, xgets. simpl. simpl in Hu. rewrite Hu.
    destruct Hsim as (Hc & Hr & Hu1 & Hb & Hst).
    destruct s as [c rs sv]. simpl in *. destruct sv as [|[k t] sv]; [done|].
    destruct Hst as (_ & Hnx & Ht & Hwf & Hu' & Hst).
    rewrite Ht in Hu'. rewrite (undo_top us st m n r Hwf Hu1 Hu') in Hu. simplify_eq.
    destruct t as [tm tn]. simpl in *. subst.
    destruct (IH _ _ Hs) as (g' & Hg' & Hst' & Heq); [simpl; lia|].
    exists g'. split; [done|]. split; [done|]. rewrite Heq. simpl.
    rewrite (last_cons (k, _)). by destruct sv as [|x sv]; [|rewrite last_cons; destruct (last sv)].
Qed.

(** Every index the code builds up from an empty one is well formed. *)
Definition empty_index : generic_index (V := V) := GenericIndex [] 0 0 ∅.
Definition empty_spec : spec (V := V) := Spec empty_table 0 [].

Lemma sim_empty : sim keys empty_index empty_spec.
Proof.
  split_and!; done.
Qed.

Lemma index_wf_run cs :
  Forall (valid_cmd keys) cs → index_wf keys (run (exec keys) cs empty_index).2.
Proof. intros H. eexists. by apply sim_run, sim_empty. Qed.

(** ** Properties *)

(** Refinement.  Whatever a client does with an index (create, modify and
    remove rows, start sessions, undo, squash and commit them), the index
    answers like a stack of whole snapshots: every command succeeds or throws
    alike, and the rows, the next id and the revision stay equal, with undo
    states that rebuild the saved snapshots. *)
Theorem chainbase_refines_snapshots cs g s :
  Forall (valid_cmd keys) cs → sim keys g s →
  (run (exec keys) cs g).1 = (run (spec_exec keys) cs s).1 ∧
  sim keys (run (exec keys) cs g).2 (run (spec_exec keys) cs s).2.
Proof. apply sim_run. Qed.

(** Rollback.  After starting a session and any sequence of creates,
    modifies and removes, succeeding or not, [undo] succeeds and gives back
    exactly the index of before: rows, next id, revision and undo stack. *)
Theorem undo_restores cs g :
  index_wf keys g → Forall row_cmd cs →
  undo keys (run (exec keys) cs (start_undo_session true g).2).2 = (Ok tt, g).
Proof.
  intros [s Hs] Hcs. change (start_undo_session true g).2 with (push_undo_state g).
  pose proof (sim_start g s Hs) as Hs1. simpl in Hs1.
  assert (Forall (valid_cmd keys) cs) as Hv by (eapply Forall_impl; [done|apply row_cmd_valid]).
  destruct (sim_run cs _ _ Hv Hs1) as [_ Hs2].
  destruct (row_run_stack cs (push_undo_state g) Hcs) as [Ht Hr].
  pose proof (row_run_saved cs (spec_exec keys CStart s).2 Hcs) as Hsv. simpl in Hsv.
  destruct (run (exec keys) cs (push_undo_state g)) as [rs g2].
  destruct (run (spec_exec keys) cs _) as [rs' s2]. simpl in *.
  destruct g as [st r n m], s as [[ms ns] rv sv], g2 as [st2 r2 n2 m2], s2 as [c2 rv2 sv2].
  destruct Hs as (Hcur & Hrv & _), Hs2 as (Hcur2 & Hrv2 & Hu2 & Hb2 & Hst2).
  simpl in *. simplify_eq. destruct st2 as [|us st2]; [done|].
  destruct Hst2 as (_ & Hnx & Ht2 & Hwf & Hu3 & _). simpl in *. subst.
  rewrite undo_top with (n := n2) by done.
  by replace (Z.succ r - 1) with r by lia.
Qed.

(** Squash.  Undoing the squash of the two newest sessions is undoing
    both: one [undo] after [squash] and two [undo]s without it end in the
    same index. *)
Theorem squash_then_undo g us1 us2 st :
  index_wf keys g → _stack g = us1 :: us2 :: st →
  ∃ g', undo keys (squash g) = (Ok tt, g') ∧ (undo keys;; undo keys) g = (Ok tt, g').
Proof.
  intros [s Hs] Hg. pose proof (sim_squash g s Hs) as Hs'.
  destruct g as [? r n m], s as [c rv sv]. simpl in Hg. subst.
  destruct Hs as (Hcur & Hrv & Hu & Hb & Hst). simpl in *.
  destruct sv as [|[k1 t1] [|[k2 t2] sv]]; try (by destruct_and?).
  destruct Hst as (_ & Hn1 & Ht1 & Hwf1 & Hu1 & _ & Hn2 & Ht2 & Hwf2 & Hu2 & _).
  rewrite Ht1, <-Hn1 in *. rewrite Ht2 in Hu2.
  destruct (merge_states_spec us2 us1 (state_new_not_removed us1 m n Hwf1)) as (Hx & _).
  exists (GenericIndex st (r - 1 - 1) (old_next_id us2) (restore us2 (restore us1 m))). split.
  - unfold squash. simpl. rewrite (undo_top _ _ _ n).
    + by erewrite Hx, merge_restore.
    + by apply merge_wf.
    + done.
    + by erewrite merge_restore.
  - erewrite xbind_Ok by (by apply undo_top). by eapply undo_top.
Qed.

(** Termination of [undo_all].  On a well formed index the loop ends
    without throwing, with an empty stack and the rows and next id of the
    oldest saved snapshot (of the index itself if there is no session). *)
Theorem undo_all_oldest g s :
  sim keys g s →
  ∃ g', undo_all keys g = (Ok tt, g') ∧ _stack g' = [] ∧
    Table (_indices g') (_next_id g') = default (cur s) (snd <$> last (saved s)).
Proof. intros Hs. by apply undo_while_sim with (fuel := length (_stack g)). Qed.
End refine.

(** ** The theorems at work

    Rows are pairs of a unique key and a payload. *)

Definition demo_keys (v : Z * Z) : list Z := [v.1].
Definition demo_cmds : list (cmd (V := Z * Z)) :=
  [CCreate (λ _, Ok (7, 0)); CCreate (λ _, Ok (8, 0)); CStart; CModify 0 (λ v, (Ok tt, (v.1, 5)));
   CStart; CRemove 1; CCreate (λ i, Ok (9, i)); CModify 0 (λ v, (Ok tt, (v.1, 6)))].
Definition demo_index : generic_index (V := Z * Z) := (run (exec demo_keys) demo_cmds empty_index).2.

Lemma demo_valid : Forall (valid_cmd demo_keys) demo_cmds.
Proof. by repeat constructor. Qed.

Lemma chainbase_refines_snapshots_witness :
  (run (exec demo_keys) demo_cmds empty_index).1 = replicate 8 (Ok tt) ∧
  sim demo_keys demo_index (run (spec_exec demo_keys) demo_cmds empty_spec).2.
Proof.
  split; [by vm_compute|].
  apply (chainbase_refines_snapshots demo_keys demo_cmds empty_index empty_spec);
    [apply demo_valid|apply sim_empty].
Defined.

Lemma undo_restores_witness :
  undo demo_keys (run (exec demo_keys)
    [CModify 0 (λ v, (Err assert_exception, (v.1, 11))); CRemove 2; CCreate (λ _, Ok (9, 4)); CCreate (λ _, Ok (9, 4))]
    (start_undo_session true demo_index).2).2 = (Ok tt, demo_index).
Proof.
  apply (undo_restores demo_keys).
  - apply index_wf_run, demo_valid.
  - by repeat constructor.
Defined.

Lemma squash_then_undo_witness :
  ∃ g', undo demo_keys (squash demo_index) = (Ok tt, g') ∧
        (undo demo_keys;; undo demo_keys) demo_index = (Ok tt, g').
Proof.
  eapply (squash_then_undo demo_keys); [apply index_wf_run, demo_valid|].
  vm_compute. reflexivity.
Defined.

Lemma undo_all_oldest_witness :
  ∃ g', undo_all demo_keys demo_index = (Ok tt, g') ∧ _stack g' = [] ∧
    Table (_indices g') (_next_id g') = Table {[0 := (7, 0); 1 := (8, 0)]} 2.
Proof.
  destruct (undo_all_oldest demo_keys demo_index (run (spec_exec demo_keys) demo_cmds empty_spec).2)
    as (g' & H1 & H2 & H3).
  - apply sim_run; [apply demo_valid|apply sim_empty].
  - exists g'. split; [exact H1|]. split; [exact H2|]. rewrite H3. vm_compute. reflexivity.
Defined.

(** ** A way to lose the rollback

    [valid_cmd] excludes modifiers that change a unique key.  The code relies on no
    caller doing so: *)

(** C34: a unique key that changes hands cannot be rolled back: [undo] puts the old
    values back before it erases the new rows, so when a modified row gave up a unique
    key and a row of the same session took it, the session cannot be undone. *)
Theorem undo_fails_on_reused_key {V K} `{EqDecision K} (keys : V → list K) g us rest i v w j x :
  _stack g = us :: rest → old_values us = {[i := v]} → _indices g !! i = Some w →
  _indices g !! j = Some x → i ≠ j → conflicts keys v x = true →
  (undo keys g).1 = Err logic_error.
Proof.
  intros Hst Hold Hi Hj Hij Hc. destruct g as [st rev nid ind]. simpl in *. subst st.
  unfold undo, container_modify, xgets, xmodify, xthrow, mbind, X_bind. simpl.
  rewrite Hold, ascending_singleton. cbn [xfor_each]. unfold mbind, X_bind. cbn [_indices].
  rewrite Hi. assert (fits keys i v ind = false) as ->; [|done].
  apply not_true_iff_false. rewrite fits_spec. intros H. by rewrite (H j x Hj Hij) in Hc.
Qed.
Lemma undo_fails_on_reused_key_witness :
  let g := (run (exec demo_keys) [CCreate (λ _, Ok (1, 0)); CStart; CModify 0 (λ _, (Ok tt, (2, 0)));
              CCreate (λ _, Ok (1, 5))] empty_index).2 in
  (undo demo_keys g).1 = Err logic_error.
Proof.
  intros g. apply (undo_fails_on_reused_key demo_keys g (UndoState {[0 := (1, 0)]} ∅ {[1]} 1 1) [] 0 (1, 0)
    (2, 0) 1 (1, 5)); vm_compute; [reflexivity..|discriminate|reflexivity].
Defined.
