(* ===== verification/ChainbaseDb.v ===== *)
(** * ChainbaseDb: the database of all indices

    [class database] of [libraries/chainbase/include/chainbase/chainbase.hpp] and
    [src/chainbase.cpp]: undo sessions run over every index of [_index_list].  Together
    the indices are a stack of snapshots of the whole chain, the contract that file Node
    builds on ([state], [undo_states], [revision]). *)

From S2P Require Import Prelude Tables Chainbase ChainbaseSpec ChainbaseRefine.

Section database.
Context {V K : Type} `{EqDecision K} (keys : V → list K).
Notation generic_index := (generic_index (V := V)).
Notation indices := (list generic_index).

(** [for( auto& item : _index_list ) item->m();] *)
Fixpoint for_all_indices (m : X generic_index unit) : X indices unit := λ l,
  match l with
  | [] => (Ok tt, [])
  | g :: l =>
    match m g with
    | (Ok _, g') => let r := for_all_indices m l in (r.1, g' :: r.2)
    | (Err e, g') => (Err e, g' :: l)
    end
  end.

(** chainbase.cpp:149-179, chainbase.hpp:744 *)
Definition db_undo : X indices unit := for_all_indices (undo keys).
Definition db_squash : X indices unit := for_all_indices (xmodify squash).
Definition db_commit (r : Z) : X indices unit := for_all_indices (xmodify (commit r)).
Definition db_undo_all : X indices unit := for_all_indices (undo_all keys).
Definition db_set_revision (r : Z) : X indices unit := for_all_indices (set_revision r).
(** chainbase.hpp:733 *)
Definition db_revision (l : indices) : Z := match l with [] => -1 | g :: _ => _revision g end.

(** ** Sessions

    chainbase.hpp:690-729: a session of the database holds one of every index. *)
Record db_session := DbSession { _index_sessions : list session; _session_revision : Z }.
(** chainbase.cpp:181 *)
Definition db_start_undo_session (enabled : bool) (l : indices) : db_session * indices :=
  if enabled then
    let started := start_undo_session true <$> l in
    (DbSession started.*1 (match started.*1 with [] => -1 | s :: _ => session_revision s end), started.*2)
  else (DbSession [] (-1), l).
Fixpoint for_sessions (m : session → X generic_index unit) (ss : list session) : X indices unit := λ l,
  match ss, l with
  | s :: ss, g :: l =>
    match m s g with
    | (Ok _, g') => let r := for_sessions m ss l in (r.1, g' :: r.2)
    | (Err e, g') => (Err e, g' :: l)
    end
  | _, _ => (Ok tt, l)
  end.
Definition db_session_push (ss : db_session) : db_session := DbSession [] (_session_revision ss).
Definition db_session_squash (ss : db_session) : X indices db_session :=
  for_sessions (λ s, xmodify (λ g, (session_squash s g).2)) (_index_sessions ss);;
  mret (DbSession [] (_session_revision ss)).
Definition db_session_undo (ss : db_session) : X indices db_session :=
  for_sessions (λ s, session_undo keys s;; mret tt) (_index_sessions ss);;
  mret (DbSession [] (_session_revision ss)).

(** ** What a client does *)

(** A command on the rows of one index, or on the sessions of all of them. *)
Inductive db_cmd := DRow (i : nat) (c : cmd (V := V)) | DStart | DUndo | DSquash | DCommit (r : Z).
Definition valid_db_cmd (c : db_cmd) : Prop := match c with DRow _ c => row_cmd keys c | _ => True end.

Definition exec_row (i : nat) (c : cmd (V := V)) : X indices unit := λ l,
  match l !! i with
  | None => (Err runtime_error, l)
  | Some g => let r := exec keys c g in (r.1, <[i := r.2]> l)
  end.
Definition db_exec (c : db_cmd) : X indices unit :=
  match c with
  | DRow i c => exec_row i c
  | DStart => xmodify (λ l, (db_start_undo_session true l).2)
  | DUndo => db_undo
  | DSquash => db_squash
  | DCommit r => db_commit r
  end.

(** ** The specification: snapshots of all tables *)

Record db_spec := DbSpec { tables : list (table V); db_spec_revision : Z; snapshots : list (Z * list (table V)) }.
#[local] Instance table_inhabited : Inhabited (table V) := populate empty_table.

(** What the specification of one index sees of it. *)
Definition index_spec (d : db_spec) (i : nat) : spec :=
  Spec (tables d !!! i) (db_spec_revision d) ((λ s, (s.1, s.2 !!! i)) <$> snapshots d).
Definition snapshot_commit (r : Z) (l : list (Z * list (table V))) : list (Z * list (table V)) :=
  let fix drop l := match l with [] => [] | s :: l' => if s.1 <=? r then drop l' else l end in
  reverse (drop (reverse l)).
Definition db_spec_exec (c : db_cmd) (d : db_spec) : result unit * db_spec :=
  let '(DbSpec ts r sv) := d in
  match c with
  | DRow i c =>
    match ts !! i with
    | None => (Err runtime_error, d)
    | Some _ => let s := spec_exec keys c (index_spec d i) in (s.1, DbSpec (<[i := cur s.2]> ts) r sv)
    end
  | DStart => (Ok tt, DbSpec ts (r + 1) ((r + 1, ts) :: sv))
  | DUndo => match sv with [] => (Ok tt, d) | (_, ts) :: sv => (Ok tt, DbSpec ts (r - 1) sv) end
  | DSquash =>
    match sv with
    | [] => (Ok tt, d)
    | [_] => (Ok tt, DbSpec ts r [])
    | _ :: s :: sv => (Ok tt, DbSpec ts (r - 1) (s :: sv))
    end
  | DCommit k => (Ok tt, DbSpec ts r (snapshot_commit k sv))
  end.

(** Every index is the one that the snapshots describe. *)
Definition db_sim (l : indices) (d : db_spec) : Prop :=
  length l = length (tables d) ∧ Forall (λ s, length s.2 = length (tables d)) (snapshots d) ∧
  ∀ i g, l !! i = Some g → sim keys g (index_spec d i).
Fixpoint db_run {S} (step : db_cmd → S → result unit * S) (cs : list db_cmd) (s : S) : list (result unit) * S :=
  match cs with
  | [] => ([], s)
  | c :: cs => let r := step c s in let rs := db_run step cs r.2 in (r.1 :: rs.1, rs.2)
  end.

(** ** The database keeps whole snapshots *)

Lemma for_all_indices_ok (m : X generic_index unit) l (P : nat → generic_index → Prop) :
  (∀ i g, l !! i = Some g → ∃ g', m g = (Ok tt, g') ∧ P i g') →
  ∃ l', for_all_indices m l = (Ok tt, l') ∧ length l' = length l ∧ ∀ i g, l' !! i = Some g → P i g.
Proof.
  revert P. induction l as [|g l IH]; intros P H; [by exists []|].
  destruct (H 0%nat g eq_refl) as (g' & E & HP).
  destruct (IH (λ i, P (S i))) as (l' & E' & Hlen & HP'); [intros i; apply (H (S i))|].
  exists (g' :: l'). cbn. rewrite E, E'. split; [done|]. split; [by rewrite <- Hlen|]. by intros [|i] h; [intros [= <-]|apply HP'].
Qed.
Lemma for_sessions_eq (m : session → X generic_index unit) (m' : X generic_index unit) (ss : list session) l :
  length ss = length l → Forall (λ s, ∀ g, m s g = m' g) ss → for_sessions m ss l = for_all_indices m' l.
Proof.
  revert l. induction ss as [|s ss IH]; intros [|g l] Hlen H; try done.
  apply Forall_cons in H as [H1 H2]. cbn. rewrite H1. destruct (m' g) as [[]]; [|done]. by rewrite (IH l) by (done || naive_solver lia).
Qed.

Lemma spec_row_frame c (s : spec (V := V)) :
  row_cmd keys c → (spec_exec keys c s).2 = Spec (cur (spec_exec keys c s).2) (spec_revision s) (saved s).
Proof. destruct s as [[m n] r sv], c; simpl; try done; intros _; by repeat case_match. Qed.
Lemma spec_commit_fmap r i (l : list (Z * list (table V))) :
  spec_commit r ((λ s, (s.1, s.2 !!! i)) <$> l) = (λ s, (s.1, s.2 !!! i)) <$> snapshot_commit r l.
Proof.
  unfold spec_commit, snapshot_commit. rewrite fmap_reverse, <- (fmap_reverse _ l). f_equal.
  induction (reverse l) as [|s k IH]; [done|]. cbn. by destruct (s.1 <=? r).
Qed.

(** The commands on sessions, as each index sees them. *)
Definition index_cmd (c : db_cmd) : cmd (V := V) :=
  match c with DRow _ c => c | DStart => CStart | DUndo => CUndo | DSquash => CSquash | DCommit r => CCommit r end.
Lemma spec_exec_session c t r (sv : list (Z * table V)) :
  spec_exec keys c (Spec t r sv) =
  match c with
  | CStart => (Ok tt, Spec t (r + 1) ((r + 1, t) :: sv))
  | CUndo => match sv with [] => (Ok tt, Spec t r sv) | (_, t) :: sv => (Ok tt, Spec t (r - 1) sv) end
  | CSquash =>
    match sv with
    | [] => (Ok tt, Spec t r sv)
    | [_] => (Ok tt, Spec t r [])
    | _ :: s :: sv => (Ok tt, Spec t (r - 1) (s :: sv))
    end
  | CCommit k => (Ok tt, Spec t r (spec_commit k sv))
  | c => spec_exec keys c (Spec t r sv)
  end.
Proof. by destruct t, c. Qed.
Lemma session_cmd_spec c d i :
  match c with DRow _ _ => False | _ => True end →
  index_spec (db_spec_exec c d).2 i = (spec_exec keys (index_cmd c) (index_spec d i)).2 ∧
  (db_spec_exec c d).1 = Ok tt ∧ (spec_exec keys (index_cmd c) (index_spec d i)).1 = Ok tt.
Proof.
  destruct d as [ts r sv]. unfold index_spec at 2 3. rewrite spec_exec_session.
  destruct c; [done|..]; intros _; cbn [index_cmd db_spec_exec tables db_spec_revision snapshots].
  - done.
  - by destruct sv as [|[k ts'] sv].
  - by destruct sv as [|s [|s' sv]].
  - by rewrite spec_commit_fmap.
Qed.
Lemma snapshot_commit_sub r (l : list (Z * list (table V))) : snapshot_commit r l ⊆ l.
Proof.
  intros x. unfold snapshot_commit. rewrite elem_of_reverse.
  set (f := fix drop l := match l with [] => [] | s :: l' => if s.1 <=? r then drop l' else l end).
  assert (∀ k, f k ⊆ k) as H; [|intros Hx; apply H in Hx; by rewrite elem_of_reverse in Hx].
  induction k as [|s k IH]; [done|]. cbn. destruct (s.1 <=? r); [|done]. intros y Hy%IH. by right.
Qed.
Lemma session_cmd_lengths c d (n : nat) :
  match c with DRow _ _ => False | _ => True end →
  length (tables d) = n → Forall (λ s, length s.2 = n) (snapshots d) →
  length (tables (db_spec_exec c d).2) = n ∧ Forall (λ s, length s.2 = n) (snapshots (db_spec_exec c d).2).
Proof.
  destruct d as [ts r sv]. destruct c; [done|..]; intros _; cbn; intros Hn Hf.
  - by split; [|constructor].
  - destruct sv as [|[k ts'] sv]; [done|]. by apply Forall_cons in Hf as [? ?].
  - destruct sv as [|s [|s' sv]]; [done| |]; [by split|]. by apply Forall_cons in Hf as [_ ?].
  - split; [done|]. rewrite Forall_forall in *. intros x Hx%snapshot_commit_sub. by apply Hf.
Qed.

Lemma session_cmd_exec c l :
  match c with DRow _ _ => False | _ => True end → db_exec c l = for_all_indices (exec keys (index_cmd c)) l.
Proof.
  destruct c; [done|..]; intros _; [|done..]. cbn. unfold xmodify. induction l as [|g l IH]; [done|]. cbn.
  rewrite <- IH. done.
Qed.

Lemma db_sim_session c l d :
  match c with DRow _ _ => False | _ => True end → db_sim l d →
  (db_exec c l).1 = (db_spec_exec c d).1 ∧ db_sim (db_exec c l).2 (db_spec_exec c d).2.
Proof.
  intros Hc (Hlen & Hsn & Hs). rewrite session_cmd_exec by done.
  assert (valid_cmd keys (index_cmd c)) as Hv by (by destruct c).
  destruct (for_all_indices_ok (exec keys (index_cmd c)) l (λ i g, sim keys g (index_spec (db_spec_exec c d).2 i)))
    as (l' & -> & Hlen' & Hs').
  - intros i g Hg. destruct (sim_exec keys _ g _ Hv (Hs i g Hg)) as [Hr Hsim].
    destruct (session_cmd_spec c d i Hc) as (-> & _ & HOk). exists (exec keys (index_cmd c) g).2. split; [|done].
    destruct (exec keys (index_cmd c) g) as [r g']. cbn in *. by rewrite Hr, HOk.
  - destruct (session_cmd_spec c d 0 Hc) as (_ & -> & _). split; [done|].
    destruct (session_cmd_lengths c d _ Hc eq_refl Hsn) as [E E']. unfold db_sim. rewrite E. cbn. rewrite Hlen'. done.
Qed.

Lemma db_sim_row i c l d :
  row_cmd keys c → db_sim l d →
  (exec_row i c l).1 = (db_spec_exec (DRow i c) d).1 ∧ db_sim (exec_row i c l).2 (db_spec_exec (DRow i c) d).2.
Proof.
  intros Hc (Hlen & Hsn & Hs). destruct d as [ts r sv]. cbn in Hlen, Hsn. unfold exec_row, db_spec_exec.
  destruct (l !! i) as [g|] eqn:Hg.
  - destruct (lookup_lt_is_Some_2 ts i) as [t Ht]; [rewrite <- Hlen; by eapply lookup_lt_Some|]. rewrite Ht.
    destruct (sim_exec keys c g _ (row_cmd_valid keys c Hc) (Hs i g Hg)) as [Hr Hsim].
    rewrite (spec_row_frame _ _ Hc) in Hsim.
    split; [done|]. split; [cbn; by rewrite !length_insert|]. split; [cbn; by rewrite length_insert|].
    intros j h. cbn [snd]. unfold index_spec. cbn [tables db_spec_revision snapshots]. intros Hh.
    destruct (decide (i = j)) as [<-|Hij].
    + rewrite list_lookup_insert_eq in Hh by (by eapply lookup_lt_Some). injection Hh as <-.
      rewrite list_lookup_total_insert_eq by (by eapply lookup_lt_Some). exact Hsim.
    + rewrite list_lookup_insert_ne in Hh by done. rewrite list_lookup_total_insert_ne by done. by apply (Hs j).
  - apply lookup_ge_None in Hg. rewrite (lookup_ge_None_2 ts i) by lia. done.
Qed.

Lemma db_sim_exec c l d :
  valid_db_cmd c → db_sim l d →
  (db_exec c l).1 = (db_spec_exec c d).1 ∧ db_sim (db_exec c l).2 (db_spec_exec c d).2.
Proof. destruct c; intros Hv Hs; [by apply db_sim_row|by apply db_sim_session..]. Qed.
Lemma db_sim_run cs l d :
  Forall valid_db_cmd cs → db_sim l d →
  (db_run db_exec cs l).1 = (db_run db_spec_exec cs d).1 ∧
  db_sim (db_run db_exec cs l).2 (db_run db_spec_exec cs d).2.
Proof.
  revert l d. induction cs as [|c cs IH]; intros l d Hcs Hs; [done|].
  apply Forall_cons in Hcs as [Hc Hcs]. destruct (db_sim_exec c l d Hc Hs) as [Hr Hs'].
  destruct (IH _ _ Hcs Hs') as [Hrs Hs'']. cbn. by rewrite Hr, Hrs.
Qed.

(** ** Sessions are the operations of the database

    The sessions of every index are opened together, so squashing or undoing them is
    squashing or undoing the database. *)

Lemma started_sessions l ss l' :
  db_start_undo_session true l = (ss, l') →
  length (_index_sessions ss) = length l' ∧ Forall (λ s, _apply s = true) (_index_sessions ss).
Proof.
  intros [= <- <-]. cbn. rewrite !length_fmap. split; [done|]. apply Forall_fmap, Forall_fmap, Forall_true. done.
Qed.
Lemma xbind_ret_state {S A B} (m : X S A) (b : B) (s : S) : ((m;; mret b) s).2 = (m s).2.
Proof. unfold mbind, X_bind. by destruct (m s) as [[]]. Qed.
Lemma db_session_squash_eq ss l :
  length (_index_sessions ss) = length l → Forall (λ s, _apply s = true) (_index_sessions ss) →
  (db_session_squash ss l).2 = (db_squash l).2.
Proof.
  intros Hlen Hs. unfold db_session_squash. rewrite xbind_ret_state.
  rewrite (for_sessions_eq _ (xmodify squash)); [done|done|].
  eapply Forall_impl; [exact Hs|]. intros s Ha g. unfold xmodify, session_squash. cbn. by rewrite Ha.
Qed.
Lemma db_session_undo_eq ss l :
  length (_index_sessions ss) = length l → Forall (λ s, _apply s = true) (_index_sessions ss) →
  (db_session_undo ss l).2 = (db_undo l).2.
Proof.
  intros Hlen Hs. unfold db_session_undo. rewrite xbind_ret_state.
  rewrite (for_sessions_eq _ (undo keys)); [done|done|].
  eapply Forall_impl; [exact Hs|]. intros s Ha g. unfold session_undo, xwhen, mbind, X_bind. rewrite Ha.
  by destruct (undo keys g) as [[[]|e] ?].
Qed.

(** ** Properties *)

(** C11: refinement, on the condition that no modifier changes a unique key of its row
    ([valid_db_cmd]).  Whatever else a client does with the database (create, modify and
    remove rows of any index, start sessions over all indices, undo, squash and commit
    them), the database answers like a stack of snapshots of all its tables: every command
    succeeds or throws alike, and undoing restores every table together.  The condition
    is needed: a key that is given up inside a session and taken by another row makes the
    undo throw.  A key of several members that contains another unique key, like (votes,
    name) of a witness, cannot clash by itself and is not one of the [keys], so modifiers
    may change it. *)
Theorem database_refines_snapshots cs l d :
  Forall valid_db_cmd cs → db_sim l d →
  (db_run db_exec cs l).1 = (db_run db_spec_exec cs d).1 ∧
  db_sim (db_run db_exec cs l).2 (db_run db_spec_exec cs d).2.
Proof. apply db_sim_run. Qed.

(** A new database of [n] indices. *)
Definition new_database (n : nat) : indices := replicate n empty_index.
Definition new_snapshots (n : nat) : db_spec := DbSpec (replicate n empty_table) 0 [].
Lemma new_database_sim n : db_sim (new_database n) (new_snapshots n).
Proof.
  split; [unfold new_database; cbn; by rewrite !length_replicate|]. split; [constructor|].
  intros i g Hg%lookup_replicate. destruct Hg as [-> Hi]. unfold index_spec. cbn.
  rewrite lookup_total_replicate_2 by done. apply sim_empty.
Qed.
End database.

(** ** The theorem at work *)

(** A session that touches two indices is squashed into the one below, which is undone. *)
Definition demo_db_cmds : list (db_cmd (V := Z * Z)) :=
  [DRow 0 (CCreate (λ _, Ok (7, 0))); DStart; DRow 1 (CCreate (λ _, Ok (8, 0))); DStart;
   DRow 0 (CModify 0 (λ v, (Ok tt, (v.1, 5)))); DRow 1 (CRemove 0); DRow 2 (CRemove 0); DSquash; DUndo].
Lemma database_refines_snapshots_witness :
  let r := db_run (db_exec demo_keys) demo_db_cmds (new_database 2) in
  r.1 = [Ok tt; Ok tt; Ok tt; Ok tt; Ok tt; Ok tt; Err runtime_error; Ok tt; Ok tt] ∧
  (_indices <$> r.2) = [{[0 := (7, 0)]}; ∅] ∧
  db_sim demo_keys r.2 (db_run (db_spec_exec demo_keys) demo_db_cmds (new_snapshots 2)).2.
Proof.
  intros r. split; [vm_compute; reflexivity|]. split; [vm_compute; reflexivity|].
  refine (proj2 (database_refines_snapshots demo_keys demo_db_cmds (new_database 2) (new_snapshots 2) _ _)).
  - by repeat constructor.
  - apply new_database_sim.
Defined.
